(* ===== verification/_CoqProject ===== *)
-Q . S2P
Prelude.v
Text.v
Stable.v
HoldDown.v
Json.v
Proto.v
Codec.v
Addr.v
Pattern.v
Ws.v
Net.v
Island.v
State.v
Status.v
Claim.v
Placement.v
Actors.v
Clients.v
Secret.v
Meta.v
Glob.v
Agents.v
AgentProc.v
Sweeper.v
Head.v
Mesh.v
Links.v
TestNet.v
Dial.v
Election.v
Fabric.v
Daemon.v
Groups.v
AgentEnv.v
Stream.v
Handshake.v
Http.v
Render.v
Cli.v
Prober.v
Watch.v
Announce.v
Proxy.v
Tokens.v
Mcp.v
Ui.v
Settings.v
HttpClient.v
Boot.v
Router.v
