(* ===== verification/Prelude.v ===== *)
(** * mentat

    A verification library for mentat, a cluster manager for a few GPU nodes
    (the Rust workspace under rust/). Three programs of it are modelled:

    - the daemon, [mentatd] (rust/mentatd/src): one process per node. The
      daemons mesh with each other, elect a head, and the head places actors on
      the GPUs its agents register and carries calls between a driver and its
      actors;
    - the agent, in the same crate: one process per container, which runs the
      actors it is told to run and announces the container's services;
    - the router, [mentatd-serve] (rust/mentatd-serve/src): one
      OpenAI-compatible endpoint in front of every model, fed by the daemons'
      snapshots, events and announcements.

    rust/common holds what both share: the version rule and the signing of
    announcements.

    ** How the code is modelled

    Each definition carries the name of the function or type it translates
    where Rocq allows it. A struct is a [Record], an enum an [Inductive], a
    [HashMap] or [BTreeMap] a [gmap]. The order in which a [HashMap] is walked
    is the class [HashIter]: what depends on it is stated for every instance.
    Machine integers are [N], with [u64_add] where the code can wrap. A [String]
    is its UTF-8 bytes. A function that can fail returns [option] or [Result],
    one that changes the locked state is in the state monad [M], and one that
    can stop the program says so in its type. Times are milliseconds and
    arguments. JSON is [Value]; where the code prints or parses JSON text the
    printer and parser are parameters, with the round trip as the hypothesis.

    Every handler and thread of the daemon takes one lock, so its behaviour is
    a sequence of critical sections: each section is a definition, [Daemon.v]
    lists them all and lets them follow each other in any order. A handler that
    takes the lock more than once is one section for each time: an agent's
    opening is [agent_hello], [agent_check] and [agent_register], a reap is
    [reap_begin] to [reap_finish], and a turn of the island keeper is given the
    state its first section read ([keeper_turn]), which may be an older one
    than the state it commits to. The agent's threads hold four locks for
    shorter spans; [AgentProc.v] is a step relation on its tables and the
    threads' positions. What the operating system or the network decides,
    whether a write succeeds, where a relayed direction is cut, what a probe
    meets, when a process ends, is an argument of the definition or of the
    step.

    ** The files

    Shared: this prelude (record update, byte strings, ordered iteration of
    maps, comparisons, [Result], the state monad with its triples, tactics),
    [Text] (lines, words, integers in text), [Pattern] (searching and trimming
    strings and bytes), [Stable] (stable sorts), [HoldDown] (the loop elector
    and island keeper share), [Json].

    The daemon:
    - [Proto]: proto.rs of both crates: the version rule, the messages, frames;
      [Codec]: each message as its JSON header, both ways;
    - [Addr]: addresses, node ids, UTF-8 (state.rs); [State]: the tables and
      events (state.rs); [Status]: the snapshot (status.rs);
    - [Http]: the side port (http.rs), its routes, metrics and subscriptions;
      [Handshake]: a request's bytes and the opening of the event stream
      (http.rs, ws.rs); [Render]: a status as a terminal prints it (status.rs);
      [Cli]: the command line and its requests (main.rs, config.rs, machine.rs,
      logfmt.rs);
    - [Island] and [Fabric]: which nodes reach each other (island.rs), the view
      it is derived from and the keeper that puts it in force;
    - [Claim]: the solver of a claim's shape (claim.rs); [Placement]: what
      places a group (daemon.rs);
    - [Actors], [Clients], [Agents], [Sweeper], [Head]: the sections of
      daemon.rs, by whom they serve; [Links]: the relay to the head
      and the keepalive; [Mesh]: links between daemons, discovery,
      probes and the elector (mesh.rs); [Dial]: a probe's connection
      (mesh.rs), and the agent's wait for an actor's host (agent.rs);
      [TestNet]: the pretend network of the tests (testnet.rs of both
      crates) and the hooks that ask it; [Election]: the elector against the
      protocol of spec/Election.tla; [Daemon]: all of them together;
    - [Meta]: what an agent says of its machine (meta.rs); [Glob]: interfaces
      to announce on (announce.rs); [Secret]: signing (common/secret.rs).

    The agent: [AgentProc] (its threads) and [AgentEnv] (its announcements,
    /proc/net tables), both agent.rs.

    The router: [Net] (net.rs), [Groups] (the tables a request is routed by),
    [Ws] and [Stream] (ws.rs, http.rs: the event stream, its framing and its
    folding), [Prober] (the endpoint prober), [Watch] (the watchers),
    [Announce] (announce.rs and the router's listener), all of main.rs unless
    said; [Proxy] (proxy.rs), [Tokens] (tokens.rs), [Mcp] (mcp.rs), [Ui]
    (ui.rs), [Settings] (main.rs), [HttpClient] (main.rs, ui.rs), and [Router],
    the HTTP routes over them. [Boot]: how the programs start (daemon.rs,
    announce.rs, state.rs, common/udp.rs, main.rs), and the announcer's rounds.

    ** What is proved

    The daemon's invariants hold at every moment of every interleaving of its
    sections: no device is given out twice ([Daemon.no_double_alloc]) and the
    books stay well formed ([Daemon.books_always_in_order]), each under what it
    asks of the history (below). Placement is all or nothing, where the setting
    asks for it on one fabric, and inside a claim's nodes; the solver's
    answers are sound, and it refuses nothing that the places on offer allow
    ([Claim.solve_refusals]). An actor's death, a reap, a registration, a hello
    and a change of head each have their whole effect stated, and a connection
    that is relayed reads at the head as the client wrote it, or a start of it
    where it is cut ([Links.relay_hands_over]). A probe that succeeds shows what it is
    for ([Dial.probe_proves_the_pair]). The election protocol of the TLA+ spec is proved stable and ending
    for any number of daemons, and the code's elector refines it. The agent
    loses no message and sends none twice, carries out every kill, and can
    account for every call it took.

    The router routes a model to the first healthy group that names it, and
    lists what it routes; its view of a daemon is the daemon's own state at the
    event it stands at. A request reaches its upstream at most once however
    often it is tried, waits a bounded number of turns, and a kept-alive stream
    ends with the upstream's body or one error. A tool call runs where it was
    asked to and nowhere else, a count is the engine's, the requests that were
    answered are the ones held, each with its own row, and no request changes
    the routes ([Router.answered_requests_are_held]). A watch merges, moves,
    pauses and is forgotten exactly when it should ([Watch.watch_fate]). Its own requests are repeated only where that is
    safe ([HttpClient.resent_only_when_safe]). Replays within one boot are
    refused, and of what arrives of a boot's rounds, in any order and among
    anything else, exactly the timely and not overtaken is accepted
    ([Boot.rounds_heard]).

    The two programs meet: a router that opens a daemon's event stream is
    handed the state it is subscribed to and keeps up with it from there
    ([Http.subscription_keeps_up]), whatever the connection does to the bytes
    ([Handshake.event_stream_opens]); what an entrypoint reads off `ray status`
    is the number of devices of its group ([Cli.ray_status_gate]), and the
    metrics count the same ([Http.metrics_agree]).

    Every message survives its header and every frame the wire
    ([Codec.messages_read_back]), and what a later minor adds is dropped or
    named in a refusal ([Codec.later_minor_reads]).

    Round trips: frames, messages, WebSocket streams, base 64, forms, operator URLs, node
    ids, metrics series, signed announcements.

    ** Bounds and fuel

    Loops that are not structural take fuel, and each has a lemma that the fuel
    given is enough: [Glob.glob_fuel] (star positions times name length),
    [Ws.drain_frames] and [Proxy.form_loop] (bytes left; a frame and a
    delimiter are not empty), [Handshake.zero_fill] (64 bytes) and
    [Handshake.chunks] (bytes), [Render.gpu_matches] (characters), [Island.component] (ports, each queued once) and
    [Island.prune] (ports, one less each turn), [Claim.walk] (chain length).
    [Claim.MAX_CHAINS] and [Announce.MAX_DATAGRAM] are the code's own limits.
    The router's retry loop runs over the turns it meets; [Proxy.dispatch_ends]
    says how many are enough. [Dial.poll_connect] and [Dial.accept_until] run
    over the system's answers; [Dial.accept_ends] says how many are enough.

    ** What the theorems assume

    Where a theorem has a hypothesis a witness applies it at a concrete input.
    [Daemon.books_always_in_order] assumes that ref numbers stay below 2^64.
    [Daemon.no_double_alloc] assumes that an agent lists each of its devices
    once, and takes a set of doubted actors: the daemon adopts an actor with
    the devices its agent reports, unchecked
    ([Agents.adoption_trusts_the_report]), so nothing is said of the devices
    such an actor claims. Any set will do for which the reports of all other
    adopted actors agree with the books, and every history has one
    ([Daemon.vouched_history]); what is said of groups and free devices holds
    whatever it is. [Election.one_round_agrees] assumes links between all live
    daemons and to none that is down, as the spec's liveness does.
    [Clients.hello_session] says what a hello does that asks for no session:
    such a hello can give a group a second one. Round trips through JSON
    text assume that the text parses back to what was printed. The MAC is a
    parameter, and nothing is assumed of it beyond what each theorem names.

    ** Not modelled

    Sockets, threads and processes as such (the accept loops, the kernel's
    sharing of a port, the spawning of the detached agent), clap's parsing of
    arguments, and the pages' HTML and script. serde_json, hyper, tokio, hmac
    and sha2 are third-party and appear as parameters or as the events they
    deliver; of serde, [Codec] has what the attributes on a type ask for. *)


From stdpp Require Export sorting.
From stdpp Require Export base tactics list gmap strings pretty numbers.
From Stdlib Require Export NArith Ascii.
From Stdlib Require Export Strings.Byte.

(** ** Record update

    [x <| f := v |>] is the record [x] with field [f] replaced, and
    [x <| f ::= g |>] applies [g] to it. A record type opts in by giving its
    eta expansion as an instance of [Eta]; the setter of a projection is then
    computed by abstracting that projection in the expansion. *)

Class Eta (R : Type) := eta_of : R → R.
Class Update {R T : Type} (proj : R → T) := update_with : (T → T) → R → R.
Global Arguments update_with {R T} proj {_} _ _ /.

Ltac build_update proj :=
  lazymatch type of proj with
  | ?R → ?T =>
      let e := eval hnf in (eta_of (R := R)) in
      let p := eval pattern proj in e in
      lazymatch p with
      | ?abs _ =>
          let body := eval cbv beta in
            (λ (g : T → T) (r : R), abs (λ r', g (proj r')) r) in
          exact body
      end
  end.

#[global] Hint Extern 1 (@Update _ _ ?proj) => build_update proj : typeclass_instances.

Declare Scope mentat_scope.
Delimit Scope mentat_scope with mentat.
Open Scope mentat_scope.

Notation "x <| f ::= g |>" := (update_with f g x)
  (at level 1, f at next level, left associativity) : mentat_scope.
Notation "x <| f := v |>" := (update_with f (λ _, v) x)
  (at level 1, f at next level, left associativity) : mentat_scope.

(** ** Machine integers

    A [u64] is an [N] below [2^64]. The release build wraps on overflow,
    [saturating_sub] is truncated subtraction, which is [N.sub]. *)

Definition u64_modulus : N := 18446744073709551616.
Definition u64_add (a b : N) : N := (a + b) `mod` u64_modulus.
Definition u64_succ (a : N) : N := u64_add a 1.
Definition saturating_sub (a b : N) : N := a - b.

Lemma u64_add_small a b : (a + b < u64_modulus)%N → u64_add a b = (a + b)%N.
Proof. intros. by apply N.mod_small. Qed.

Lemma u64_add_bound a b : (u64_add a b < u64_modulus)%N.
Proof. by apply N.mod_lt. Qed.

Definition bytes := list byte.
#[export] Instance byte_eq_dec : EqDecision byte := Byte.byte_eq_dec.

(** ** Strings

    A Rust [String] is its UTF-8 bytes, one [ascii] each, and [Ord] on it is
    the byte order, which is stdpp's [String.le]. *)

Definition str_min (l : list string) : option string :=
  match l with
  | [] => None
  | s :: l => Some (foldl (λ m x, if decide (String.le m x) then m else x) s l)
  end.

Definition str_lt (a b : string) : Prop := String.le a b ∧ a ≠ b.
#[export] Instance str_lt_dec : RelDecision str_lt.
Proof. unfold RelDecision, str_lt. apply _. Defined.

(** [s.split_once(c)] and [s.rsplit_once(c)] for a one-byte separator. *)
Fixpoint split_once (c : ascii) (s : string) : option (string * string) :=
  match s with
  | EmptyString => None
  | String a s' =>
      if decide (a = c) then Some (EmptyString, s')
      else (λ '(l, r), (String a l, r)) <$> split_once c s'
  end.

Fixpoint rsplit_once (c : ascii) (s : string) : option (string * string) :=
  match s with
  | EmptyString => None
  | String a s' =>
      match rsplit_once c s' with
      | Some (l, r) => Some (String a l, r)
      | None => if decide (a = c) then Some (EmptyString, s') else None
      end
  end.

(** [char::is_whitespace] on the ASCII range, the part of the White_Space
    property a one-byte character can have. *)
Definition is_space (a : ascii) : bool :=
  let n := N_of_ascii a in bool_decide ((9 ≤ n ≤ 13)%N ∨ n = 32%N).

Fixpoint all_chars (p : ascii → bool) (s : string) : bool :=
  match s with
  | EmptyString => true
  | String a s' => p a && all_chars p s'
  end.

Fixpoint trim_start (s : string) : string :=
  match s with
  | String a s' => if is_space a then trim_start s' else s
  | EmptyString => s
  end.
Definition trim (s : string) : string :=
  String.rev (trim_start (String.rev (trim_start s))).

Definition starts_with (p s : string) : bool := String.prefix p s.

Definition is_digit (a : ascii) : bool :=
  let n := N_of_ascii a in bool_decide (48 ≤ n ≤ 57)%N.

(** [str::parse::<u64>]: an optional plus sign, then decimal digits, with an
    error on overflow. *)
Fixpoint parse_digits (acc : N) (s : string) : option N :=
  match s with
  | EmptyString => Some acc
  | String a s' =>
      if is_digit a then
        let n := (10 * acc + (N_of_ascii a - 48))%N in
        if bool_decide (n < u64_modulus)%N then parse_digits n s' else None
      else None
  end.
Definition parse_u64 (s : string) : option N :=
  match s with
  | EmptyString => None
  | String "+" EmptyString => None
  | String "+" s' => parse_digits 0 s'
  | _ => parse_digits 0 s
  end.

(** [{s:?}] on a string: quotes, with the escapes of the ASCII range. Bytes
    above it belong to printable characters and stand for themselves. *)
Definition hex_digit (n : N) : ascii :=
  if bool_decide (n < 10)%N then ascii_of_N (48 + n) else ascii_of_N (87 + n).
Definition quote_char : ascii := ascii_of_N 34.
Definition backslash : ascii := ascii_of_N 92.
Definition debug_char (a : ascii) : string :=
  let n := N_of_ascii a in
  if decide (n = 34%N) then String backslash (String quote_char "")
  else if decide (n = 92%N) then String backslash (String backslash "")
  else if decide (n = 9%N) then String backslash "t"
  else if decide (n = 10%N) then String backslash "n"
  else if decide (n = 13%N) then String backslash "r"
  else if decide (n = 0%N) then String backslash "0"
  else if bool_decide (n < 16)%N then
    String backslash ("u{" +:+ String (hex_digit n) "}")
  else if bool_decide (n < 32)%N || bool_decide (n = 127%N) then
    String backslash ("u{" +:+ String (hex_digit (n / 16)) (String (hex_digit (n `mod` 16)) "}"))
  else String a EmptyString.
Fixpoint debug_body (s : string) : string :=
  match s with
  | EmptyString => EmptyString
  | String a s' => debug_char a +:+ debug_body s'
  end.
Definition debug_str (s : string) : string :=
  String quote_char (debug_body s +:+ String quote_char EmptyString).

Definition join (sep : string) (l : list string) : string := String.concat sep l.

(** ** Ordered and unordered iteration

    A [BTreeMap] is walked in key order, [bt_iter]. A [HashMap] is walked in
    an order the program does not control: every definition that walks one
    takes an instance of [HashIter], and the theorems hold for each. *)

Definition key_le {A} (x y : string * A) : Prop := String.le x.1 y.1.
#[export] Instance key_le_dec {A} : RelDecision (@key_le A).
Proof. unfold RelDecision, key_le. apply _. Defined.

Definition bt_iter {A} (m : gmap string A) : list (string * A) :=
  merge_sort key_le (map_to_list m).

Class HashIter := {
  hash_iter : ∀ {A}, gmap string A → list (string * A);
  hash_iter_perm : ∀ {A} (m : gmap string A), hash_iter m ≡ₚ map_to_list m;
}.

(** The order a witness is evaluated in. *)
Definition in_key_order : HashIter :=
  {| hash_iter := @bt_iter; hash_iter_perm := λ _ _, merge_sort_Permutation _ _ |}.

Definition hash_values `{HashIter} {A} (m : gmap string A) : list A := (hash_iter m).*2.
Definition hash_keys `{HashIter} {A} (m : gmap string A) : list string := (hash_iter m).*1.
Definition bt_values {A} (m : gmap string A) : list A := (bt_iter m).*2.
Definition bt_keys {A} (m : gmap string A) : list string := (bt_iter m).*1.

Lemma elem_of_hash_iter `{HashIter} {A} (m : gmap string A) k v :
  (k, v) ∈ hash_iter m ↔ m !! k = Some v.
Proof. rewrite hash_iter_perm. apply elem_of_map_to_list. Qed.

Lemma elem_of_hash_values `{HashIter} {A} (m : gmap string A) v :
  v ∈ hash_values m ↔ ∃ k, m !! k = Some v.
Proof.
  unfold hash_values. rewrite list_elem_of_fmap. split.
  - intros ([k v'] & -> & Hin). exists k. by apply elem_of_hash_iter in Hin.
  - intros [k Hk]. exists (k, v). by rewrite elem_of_hash_iter.
Qed.

Lemma elem_of_hash_keys `{HashIter} {A} (m : gmap string A) k :
  k ∈ hash_keys m ↔ is_Some (m !! k).
Proof.
  unfold hash_keys. rewrite list_elem_of_fmap. split.
  - intros ([k' v] & -> & Hin). exists v. by apply elem_of_hash_iter in Hin.
  - intros [v Hk]. exists (k, v). by rewrite elem_of_hash_iter.
Qed.

Lemma hash_keys_NoDup `{HashIter} {A} (m : gmap string A) : NoDup (hash_keys m).
Proof. unfold hash_keys. rewrite hash_iter_perm. apply NoDup_fst_map_to_list. Qed.

Lemma elem_of_bt_iter {A} (m : gmap string A) k v :
  (k, v) ∈ bt_iter m ↔ m !! k = Some v.
Proof. unfold bt_iter. rewrite merge_sort_Permutation. apply elem_of_map_to_list. Qed.

Lemma elem_of_bt_keys {A} (m : gmap string A) k : k ∈ bt_keys m ↔ is_Some (m !! k).
Proof.
  unfold bt_keys. rewrite list_elem_of_fmap. split.
  - intros ([k' v] & -> & Hin). exists v. by apply elem_of_bt_iter in Hin.
  - intros [v Hk]. exists (k, v). by rewrite elem_of_bt_iter.
Qed.

Lemma bt_keys_NoDup {A} (m : gmap string A) : NoDup (bt_keys m).
Proof. unfold bt_keys, bt_iter. rewrite merge_sort_Permutation. apply NoDup_fst_map_to_list. Qed.

(** ** Lists *)

(** [Vec::dedup]: consecutive equal elements collapse to the first. *)
Fixpoint dedup `{EqDecision A} (l : list A) : list A :=
  match l with
  | [] => []
  | x :: l' =>
      match l' with
      | [] => [x]
      | y :: _ => if decide (x = y) then dedup l' else x :: dedup l'
      end
  end.

Definition sort_strs (l : list string) : list string := merge_sort String.le l.
Definition sort_dedup (l : list string) : list string := dedup (sort_strs l).

Lemma dedup_cons `{EqDecision A} (x y : A) l :
  dedup (x :: y :: l) = if decide (x = y) then dedup (y :: l) else x :: dedup (y :: l).
Proof. done. Qed.

Lemma elem_of_dedup `{EqDecision A} (l : list A) x : x ∈ dedup l ↔ x ∈ l.
Proof.
  induction l as [|y [|z l] IH]; [done|done|]. rewrite dedup_cons. case_decide as Hyz.
  - rewrite IH, Hyz, !elem_of_cons. tauto.
  - by rewrite !(elem_of_cons _ x y), IH.
Qed.

Lemma elem_of_sort_dedup l x : x ∈ sort_dedup l ↔ x ∈ l.
Proof.
  unfold sort_dedup, sort_strs. etrans; [apply elem_of_dedup|].
  by rewrite merge_sort_Permutation.
Qed.

Lemma dedup_sorted_NoDup (l : list string) :
  StronglySorted String.le l → NoDup (dedup l).
Proof.
  induction 1 as [|x l Hs IH Hall]; [constructor|].
  destruct l as [|y l]; [repeat constructor; set_solver|].
  rewrite dedup_cons. case_decide as Hxy; [done|].
  constructor; [|done]. intros Hin. rewrite elem_of_dedup in Hin.
  apply Hxy, (anti_symm String.le).
  - by inversion Hall.
  - apply elem_of_cons in Hin as [->|Hin]; [reflexivity|].
    inversion Hs as [|?? Hs' Hall']; subst. by apply (proj1 (list.Forall_forall _ _) Hall').
Qed.

Lemma sort_dedup_NoDup l : NoDup (sort_dedup l).
Proof. apply dedup_sorted_NoDup, (StronglySorted_merge_sort _). Qed.

Lemma filter_all {A} (P : A → Prop) `{∀ x, Decision (P x)} (l : list A) :
  (∀ x, x ∈ l → P x) → filter P l = l.
Proof.
  induction l as [|x l IH]; intros Hl; [done|].
  rewrite filter_cons_True by (apply Hl; set_solver). f_equal. apply IH. set_solver.
Qed.

Lemma NoDup_fst_inj {A B} (l : list (A * B)) n a b :
  NoDup l.*1 → (n, a) ∈ l → (n, b) ∈ l → a = b.
Proof.
  induction l as [|[m c] l IH]; cbn; [set_solver|].
  intros [Hm Hl]%list.NoDup_cons Ha Hb. rewrite list_elem_of_fmap in Hm.
  assert (∀ d, (m, d) ∉ l) as Hno by (intros d Hd; apply Hm; by exists (m, d)).
  rewrite !elem_of_cons in *. destruct Ha as [Ha|Ha], Hb as [Hb|Hb];
    simplify_eq; [done|by destruct (Hno b)|by destruct (Hno a)|by apply IH].
Qed.

(** [Iterator::find_map]. *)
Fixpoint find_map {A B} (f : A → option B) (l : list A) : option B :=
  match l with
  | [] => None
  | x :: l' => match f x with Some y => Some y | None => find_map f l' end
  end.

Lemma find_map_Some {A B} (f : A → option B) l y :
  find_map f l = Some y → ∃ x, x ∈ l ∧ f x = Some y.
Proof.
  induction l as [|x l IH]; cbn; [done|]. destruct (f x) eqn:E.
  - intros [= ->]. exists x. set_solver.
  - intros (x' & Hin & Hf)%IH. exists x'. by rewrite elem_of_cons; auto.
Qed.

Lemma find_map_None {A B} (f : A → option B) l :
  find_map f l = None ↔ ∀ x, x ∈ l → f x = None.
Proof.
  induction l as [|x l IH]; cbn; [set_solver|]. destruct (f x) eqn:E.
  - split; [done|]. intros H. rewrite H in E; [done|set_solver].
  - rewrite IH. setoid_rewrite elem_of_cons. naive_solver.
Qed.

(** [Iterator::find]. *)
Definition find_first {A} (p : A → bool) (l : list A) : option A :=
  find_map (λ x, if p x then Some x else None) l.

Lemma mapM_total {A B} (f : A → option B) l : (∀ x, x ∈ l → is_Some (f x)) → is_Some (mapM f l).
Proof. intros H. apply mapM_is_Some. by apply list.Forall_forall. Qed.

Lemma find_first_Some {A} (p : A → bool) l x :
  find_first p l = Some x → x ∈ l ∧ p x = true.
Proof.
  intros (y & Hy & Hp)%find_map_Some. destruct (p y) eqn:E; simplify_eq. done.
Qed.

(** [.collect()] into a [BTreeMap]: a later entry replaces an earlier one. *)
Definition collect_map {A} (l : list (string * A)) : gmap string A :=
  foldl (λ m '(k, x), <[k := x]> m) ∅ l.

Lemma lookup_collect_map {A} (l : list (string * A)) k :
  NoDup l.*1 → collect_map l !! k = snd <$> find_first (λ x, bool_decide (x.1 = k)) l.
Proof.
  unfold collect_map. assert (∀ m : gmap string A, NoDup l.*1 →
    foldl (λ m '(k, x), <[k := x]> m) m l !! k =
      match snd <$> find_first (λ x, bool_decide (x.1 = k)) l with Some x => Some x | None => (m : gmap string A) !! k end) as H.
  { induction l as [|[k' x] l IH]; intros m; cbn [foldl find_first find_map]; [done|].
    cbn [fmap list_fmap]. intros [Hk Hl]%list.NoDup_cons. rewrite IH by done. unfold find_first. cbn [find_map fst].
    case_bool_decide as Heq; cbn.
    - subst k'. destruct (find_map _ l) as [[k2 y]|] eqn:Hf; cbn; [|by rewrite lookup_insert_eq].
      apply find_map_Some in Hf as ([k3 z] & Hin & Hz). case_bool_decide as Hk3; [|done]. cbn in Hk3. subst k3.
      destruct Hk. apply list_elem_of_fmap. by exists (k, z).
    - destruct (find_map _ l); cbn; [done|]. by rewrite lookup_insert_ne. }
  intros Hl. rewrite (H ∅ Hl). by destruct (snd <$> _).
Qed.

Lemma collect_bt_iter {A} (m : gmap string A) : collect_map (bt_iter m) = m.
Proof.
  apply map_eq. intros k. rewrite lookup_collect_map by apply bt_keys_NoDup.
  destruct (find_first _ (bt_iter m)) as [[k' x]|] eqn:Hf; cbn.
  - apply find_first_Some in Hf as [Hin Hk]. apply bool_decide_eq_true in Hk. cbn in Hk. subst k'.
    by apply elem_of_bt_iter in Hin.
  - symmetry. apply eq_None_not_Some. intros [x Hx]. unfold find_first in Hf. rewrite find_map_None in Hf.
    specialize (Hf (k, x)). cbn in Hf. rewrite bool_decide_eq_true_2 in Hf by done.
    discriminate Hf. by apply elem_of_bt_iter.
Qed.

Definition sum_N (l : list N) : N := foldr N.add 0%N l.
Definition sum_nat (l : list nat) : nat := foldr Nat.add 0 l.

(** [o.is_some_and(p)] and [o.is_none_or(p)]. *)
Definition is_some_and {A} (o : option A) (p : A → bool) : bool :=
  match o with Some x => p x | None => false end.
Definition is_none_or {A} (o : option A) (p : A → bool) : bool :=
  match o with Some x => p x | None => true end.
Definition nonempty {A} (l : list A) : bool := match l with [] => false | _ => true end.
Definition str_empty (s : string) : bool := bool_decide (s = EmptyString).

(** ** Comparison functions

    [Ord::cmp], lexicographic on tuples and vectors; [sort_by] is stable and
    [min_by] returns the first of the least elements. *)

Definition lex (c1 c2 : comparison) : comparison := match c1 with Eq => c2 | _ => c1 end.
Definition bool_cmp (a b : bool) : comparison :=
  match a, b with false, true => Lt | true, false => Gt | _, _ => Eq end.
Fixpoint strs_cmp (a b : list string) : comparison :=
  match a, b with
  | [], [] => Eq
  | [], _ => Lt
  | _, [] => Gt
  | x :: a', y :: b' => lex (String.compare x y) (strs_cmp a' b')
  end.
Definition cmp_le {A} (cmp : A → A → comparison) (x y : A) : Prop := cmp x y ≠ Gt.
#[export] Instance cmp_le_dec {A} (cmp : A → A → comparison) : RelDecision (cmp_le cmp).
Proof. intros x y. unfold cmp_le. destruct (cmp x y); [left|left|right]; congruence. Defined.
Definition sort_by {A} (cmp : A → A → comparison) (l : list A) : list A :=
  merge_sort (cmp_le cmp) l.
Definition min_by {A} (cmp : A → A → comparison) (l : list A) : option A :=
  match l with
  | [] => None
  | x :: l => Some (foldl (λ m y, match cmp y m with Lt => y | _ => m end) x l)
  end.

Lemma sort_by_perm {A} (cmp : A → A → comparison) l : sort_by cmp l ≡ₚ l.
Proof. apply merge_sort_Permutation. Qed.

Lemma elem_of_sort_by {A} (cmp : A → A → comparison) l x : x ∈ sort_by cmp l ↔ x ∈ l.
Proof. by rewrite sort_by_perm. Qed.

Lemma min_by_elem {A} (cmp : A → A → comparison) l m : min_by cmp l = Some m → m ∈ l.
Proof.
  destruct l as [|x l]; [done|]. cbn. intros [= <-].
  revert x. induction l as [|y l IH]; intros x; cbn; [set_solver|].
  specialize (IH (match cmp y x with Lt => y | _ => x end)).
  rewrite !elem_of_cons in *. destruct (cmp y x); naive_solver.
Qed.

(** A comparison function that is a total preorder, which [Ord] promises. *)
Class CmpOk {A} (cmp : A → A → comparison) := {
  cmp_opp : ∀ x y, cmp y x = CompOpp (cmp x y);
  cmp_trans : ∀ x y z, cmp x y ≠ Gt → cmp y z ≠ Gt → cmp x z ≠ Gt;
}.

#[export] Instance string_cmp_ok : CmpOk String.compare.
Proof.
  split; [intros x y; apply String.compare_antisym|].
  intros x y z Hxy Hyz. assert (∀ a b, String.compare a b ≠ Gt ↔ String.le a b) as Hle.
  { intros a b. unfold String.le, String.leb. destruct (String.compare a b); naive_solver. }
  rewrite Hle in *. by etrans.
Qed.
#[export] Instance nat_cmp_ok : CmpOk Nat.compare.
Proof.
  split; [intros; apply Nat.compare_antisym|]. intros x y z.
  rewrite !Nat.compare_le_iff. lia.
Qed.
#[export] Instance N_cmp_ok : CmpOk N.compare.
Proof.
  split; [intros; apply N.compare_antisym|]. intros x y z. rewrite !N.compare_le_iff. lia.
Qed.
#[export] Instance bool_cmp_ok : CmpOk bool_cmp.
Proof. split; [by intros [] []|by intros [] [] []]. Qed.

Lemma key_cmp_ok {A B} (f : A → B) cmp `{!CmpOk cmp} : CmpOk (λ x y, cmp (f x) (f y)).
Proof. split; intros; [apply cmp_opp|by eapply cmp_trans]. Qed.
Lemma rev_cmp_ok {A} cmp `{!@CmpOk A cmp} : CmpOk (λ x y, cmp y x).
Proof. split; intros; [apply cmp_opp|by eapply cmp_trans]. Qed.

Lemma lex_cmp_ok {A} (c1 c2 : A → A → comparison) `{!CmpOk c1} `{!CmpOk c2} :
  CmpOk (λ x y, lex (c1 x y) (c2 x y)).
Proof.
  split.
  - intros x y. rewrite (cmp_opp x y), (@cmp_opp _ c2 _ x y). by destruct (c1 x y).
  - intros x y z. pose proof (@cmp_trans _ c1 _ x y z) as T. pose proof (@cmp_trans _ c1 _ z x y) as T1.
    pose proof (@cmp_trans _ c1 _ y z x) as T2. pose proof (@cmp_trans _ c2 _ x y z) as T3.
    rewrite (@cmp_opp _ c1 _ x z), (@cmp_opp _ c1 _ y z), (@cmp_opp _ c1 _ x y) in *.
    destruct (c1 x y), (c1 y z), (c1 x z); cbn in *; try congruence; auto; naive_solver.
Qed.

Lemma sort_by_sorted {A} (cmp : A → A → comparison) `{!CmpOk cmp} l :
  StronglySorted (cmp_le cmp) (sort_by cmp l).
Proof.
  assert (Total (cmp_le cmp)).
  { intros x y. unfold cmp_le. pose proof (@cmp_opp _ cmp _ x y) as ->.
    destruct (cmp x y); cbn; naive_solver. }
  assert (Transitive (cmp_le cmp)) by (intros x y z; apply cmp_trans).
  apply (StronglySorted_merge_sort _).
Qed.

Lemma min_by_least {A} (cmp : A → A → comparison) `{!CmpOk cmp} l m x :
  min_by cmp l = Some m → x ∈ l → cmp m x ≠ Gt.
Proof.
  destruct l as [|y l]; [done|]. cbn. intros [= <-].
  assert (∀ y, cmp y y ≠ Gt) as Hrefl.
  { intros z Hz. pose proof (cmp_opp z z) as Ho. rewrite Hz in Ho. done. }
  revert x y. induction l as [|z l IH]; intros x y; cbn [foldl].
  { intros ->%list_elem_of_singleton. apply Hrefl. }
  assert (∀ w u, w ∈ u :: l → cmp (foldl (λ m y, match cmp y m with Lt => y | _ => m end) u l) w ≠ Gt)
    as IH' by (intros w u Hw; by apply IH).
  pose proof (cmp_opp y z) as Hyz.
  intros [->|[->|Hin]%elem_of_cons]%elem_of_cons.
  - destruct (cmp z y) eqn:Hc; [apply IH'; set_solver| |apply IH'; set_solver].
    eapply (cmp_trans _ z); [apply IH'; set_solver|congruence].
  - destruct (cmp z y) eqn:Hc; [| apply IH'; set_solver|];
      (eapply (cmp_trans _ y); [apply IH'; set_solver|]); cbn in Hyz; destruct (cmp y z); cbn in Hyz; congruence.
  - apply IH'. set_solver.
Qed.

Lemma min_by_None {A} (cmp : A → A → comparison) l : min_by cmp l = None ↔ l = [].
Proof. by destruct l. Qed.

(** ** Results *)

Inductive Result (A E : Type) := Ok (x : A) | Err (e : E).
Global Arguments Ok {A E} _.
Global Arguments Err {A E} _.

(** The question mark operator. *)
Notation "'let?' p := r 'in' k" :=
  (match r with Ok p => k | Err e => Err e end)
  (at level 10, p strict pattern, k at level 200) : mentat_scope.
Definition ok_or {A E} (o : option A) (e : E) : Result A E :=
  match o with Some x => Ok x | None => Err e end.
Definition map_err {A E F} (f : E → F) (r : Result A E) : Result A F :=
  match r with Ok x => Ok x | Err e => Err (f e) end.
Definition ok {A E} (r : Result A E) : option A :=
  match r with Ok x => Some x | Err _ => None end.

(** Collecting an iterator of results stops at the first error. *)
Fixpoint collect {A B E} (f : A → Result B E) (l : list A) : Result (list B) E :=
  match l with
  | [] => Ok []
  | x :: l' =>
      match f x with
      | Ok y => match collect f l' with Ok ys => Ok (y :: ys) | Err e => Err e end
      | Err e => Err e
      end
  end.

Lemma collect_Ok {A B E} (f : A → Result B E) l ys :
  collect f l = Ok ys ↔ Forall2 (λ x y, f x = Ok y) l ys.
Proof.
  revert ys. induction l as [|x l IH]; intros ys; cbn.
  - split; [intros [= <-]; constructor|by inversion 1].
  - split.
    + destruct (f x) as [y|] eqn:E1; [|done]. destruct (collect f l) eqn:E2; [|done].
      intros [= <-]. constructor; [done|]. by apply IH.
    + inversion 1 as [|? y ? ys' Hx Hl]; subst. rewrite Hx.
      by rewrite (proj2 (IH ys') Hl).
Qed.

(** ** The state monad of a critical section

    An operation that runs under the daemon's lock is a function from the
    world to a result and the next world. *)

Definition M (W A : Type) : Type := W → A * W.
#[export] Instance M_ret {W} : MRet (M W) := λ A x w, (x, w).
#[export] Instance M_bind {W} : MBind (M W) := λ A B k m w, let '(x, w') := m w in k x w'.

Section monad.
Context {W : Type}.

Definition gets {A} (f : W → A) : M W A := λ w, (f w, w).
Definition modify (f : W → W) : M W unit := λ w, (tt, f w).
Definition skip : M W unit := mret tt.
Definition when (b : bool) (m : M W unit) : M W unit := if b then m else skip.

Fixpoint for_each {A} (l : list A) (f : A → M W unit) : M W unit :=
  match l with
  | [] => skip
  | x :: l' => f x ;; for_each l' f
  end.

Definition triple {A} (P : W → Prop) (m : M W A) (Q : A → W → Prop) : Prop :=
  ∀ w, P w → Q (m w).1 (m w).2.

Lemma triple_ret {A} (x : A) (Q : A → W → Prop) : triple (Q x) (mret x) Q.
Proof. by intros w. Qed.

Lemma triple_bind {A B} P (R : A → W → Prop) Q (m : M W A) (k : A → M W B) :
  triple P m R → (∀ x, triple (R x) (k x) Q) → triple P (m ≫= k) Q.
Proof.
  intros Hm Hk w Hw. unfold mbind, M_bind. specialize (Hm w Hw).
  destruct (m w) as [x w']. by apply Hk.
Qed.

Lemma triple_weaken {A} P P' (Q Q' : A → W → Prop) (m : M W A) :
  triple P m Q → (∀ w, P' w → P w) → (∀ x w, Q x w → Q' x w) → triple P' m Q'.
Proof. intros Hm HP HQ w Hw. apply HQ, Hm, HP, Hw. Qed.

Lemma triple_modify P (Q : unit → W → Prop) f :
  (∀ w, P w → Q tt (f w)) → triple P (modify f) Q.
Proof. by intros H w Hw; apply H. Qed.

Lemma triple_gets {A} P (Q : A → W → Prop) (f : W → A) :
  (∀ w, P w → Q (f w) w) → triple P (gets f) Q.
Proof. by intros H w Hw; apply H. Qed.

(** An operation that preserves a predicate of the world. *)
Definition preserves {A} (I : W → Prop) (m : M W A) : Prop := triple I m (λ _, I).

Lemma preserves_ret {A} I (x : A) : preserves I (mret x).
Proof. by intros w. Qed.
Lemma preserves_bind {A B} I (m : M W A) (k : A → M W B) :
  preserves I m → (∀ x, preserves I (k x)) → preserves I (m ≫= k).
Proof. apply triple_bind. Qed.
Lemma preserves_gets {A} I (f : W → A) : preserves I (gets f).
Proof. by intros w. Qed.
Lemma preserves_modify I f : (∀ w, I w → I (f w)) → preserves I (modify f).
Proof. intros H w. apply H. Qed.
Lemma preserves_skip I : preserves I skip.
Proof. by intros w. Qed.
Lemma preserves_when I b m : preserves I m → preserves I (when b m).
Proof. destruct b; [done|]. intros _ w. done. Qed.
Lemma preserves_for_each {A} I (l : list A) f :
  (∀ x, x ∈ l → preserves I (f x)) → preserves I (for_each l f).
Proof.
  induction l as [|x l IH]; intros Hf; [apply preserves_skip|].
  apply preserves_bind; [apply Hf; set_solver|]. intros []. apply IH. set_solver.
Qed.

Lemma bind_run {A B} (m : M W A) (k : A → M W B) w :
  (m ≫= k) w = k (m w).1 (m w).2.
Proof. unfold mbind, M_bind. by destruct (m w). Qed.

Lemma for_each_app {A} (l1 l2 : list A) (f : A → M W unit) w :
  for_each (l1 ++ l2) f w = for_each l2 f (for_each l1 f w).2.
Proof.
  revert w. induction l1 as [|x l1 IH]; intros w; [done|].
  cbn [for_each app]. rewrite !bind_run. apply IH.
Qed.
End monad.

Create HintDb preserves discriminated.
#[export] Hint Resolve preserves_ret preserves_gets preserves_skip preserves_when
  preserves_for_each : preserves.
#[export] Hint Extern 1 (preserves _ (_ ≫= _)) => apply preserves_bind; [|intros ?] : preserves.

(** Case analysis on the [match] or [if] an operation branches on, inside a
    [preserves] or [triple] goal. *)
Ltac branch :=
  match goal with
  | |- preserves _ (match ?x with _ => _ end) => destruct x eqn:?
  | |- preserves _ (if ?x then _ else _) => destruct x eqn:?
  | |- triple _ (match ?x with _ => _ end) _ => destruct x eqn:?
  end.
Ltac pres := repeat first [progress intros | branch | solve [eauto 4 with preserves]
  | apply preserves_bind | apply preserves_for_each; intros ? _ ].
