(* ===== verification/Text.v ===== *)
(** * Text

    Rust's splitting of strings into lines and words, [format!] of an integer
    and [str::parse] of it, and the last separator of an id that ends in a
    number. *)

From S2P Require Import Prelude.

(** ** Splitting *)

(** [s.split(c)]: at least one piece. *)
Fixpoint split_char (c : ascii) (s : string) : list string :=
  match s with
  | EmptyString => [EmptyString]
  | String a s' =>
      if decide (a = c) then EmptyString :: split_char c s'
      else match split_char c s' with
      | w :: l => String a w :: l
      | [] => [String a EmptyString]
      end
  end.

Definition newline : ascii := ascii_of_N 10.
(** [String::from] of a line break. *)
Definition nl : string := String newline EmptyString.
Definition carriage : ascii := ascii_of_N 13.
Definition strip_cr (s : string) : string :=
  match rsplit_once carriage s with Some (l, EmptyString) => l | _ => s end.
(** [s.lines()]: a last line break ends no line. *)
Definition lines (s : string) : list string :=
  let l := split_char newline s in
  strip_cr <$> (if bool_decide (list.last l = Some EmptyString) then take (length l - 1) l else l).

(** [s.split_whitespace()] on the ASCII range. *)
Fixpoint words_aux (s : string) : list string * string :=
  match s with
  | EmptyString => ([], EmptyString)
  | String a s' =>
      let '(ws, w) := words_aux s' in
      if is_space a then (if str_empty w then ws else w :: ws, EmptyString) else (ws, String a w)
  end.
Definition split_whitespace (s : string) : list string :=
  let '(ws, w) := words_aux s in if str_empty w then ws else w :: ws.

Definition lower_char (a : ascii) : ascii :=
  let n := N_of_ascii a in if bool_decide (65 ≤ n ≤ 90)%N then ascii_of_N (n + 32) else a.
Fixpoint to_ascii_lowercase (s : string) : string :=
  match s with EmptyString => EmptyString | String a s' => String (lower_char a) (to_ascii_lowercase s') end.

Example words_spaced : split_whitespace "  a bc  d " = ["a"; "bc"; "d"].
Proof. reflexivity. Qed.
Example lines_broken : lines ("a" +:+ String newline ("" +:+ String newline ("b" +:+ String carriage (String newline "")))) = ["a"; ""; "b"].
Proof. reflexivity. Qed.

(** ** Numbers *)

Lemma is_digit_char x : (x < 10)%N → is_digit (pretty_N_char x) = true ∧ (N_of_ascii (pretty_N_char x) - 48)%N = x.
Proof.
  intros Hx. assert (x ∈ [0;1;2;3;4;5;6;7;8;9]%N) as Hin by (repeat rewrite elem_of_cons; lia).
  repeat (apply elem_of_cons in Hin as [->|Hin]; [done|]). by apply not_elem_of_nil in Hin.
Qed.
Lemma pretty_N_go_digits x s : all_chars is_digit s = true → all_chars is_digit (pretty_N_go x s) = true.
Proof.
  revert s. induction (N.lt_wf_0 x) as [x _ IH]; intros s Hs. destruct (decide (x = 0%N)) as [->|Hx]; [done|].
  rewrite pretty_N_go_step by lia. apply IH; [apply N.div_lt; lia|]. cbn [all_chars].
  destruct (is_digit_char (x `mod` 10)) as [-> _]; [by apply N.mod_lt|done].
Qed.
Lemma pretty_digits (n : N) : all_chars is_digit (pretty n) = true.
Proof. unfold pretty, pretty_N. case_decide; [done|]. by apply pretty_N_go_digits. Qed.

Lemma parse_pretty_go x s : (x < u64_modulus)%N → parse_digits 0 (pretty_N_go x s) = parse_digits x s.
Proof.
  revert s. induction (N.lt_wf_0 x) as [x _ IH]; intros s Hx. destruct (decide (x = 0%N)) as [->|H0]; [done|].
  rewrite pretty_N_go_step by lia. pose proof (N.div_mod' x 10) as Hdm. pose proof (N.mod_lt x 10) as Hm.
  pose proof (N.div_lt x 10) as Hd. rewrite IH by lia. cbn [parse_digits].
  destruct (is_digit_char (x `mod` 10)) as [-> ->]; [lia|]. rewrite <-Hdm. by rewrite bool_decide_eq_true_2.
Qed.

Lemma parse_u64_digits s : s ≠ "" → all_chars is_digit s = true → parse_u64 s = parse_digits 0 s.
Proof.
  destruct s as [|a s]; [done|]. intros _. cbn [all_chars]. intros [Ha _]%andb_true_iff.
  destruct a as [[] [] [] [] [] [] [] []]; try discriminate Ha; reflexivity.
Qed.
Lemma pretty_nonempty (n : N) : pretty n ≠ "".
Proof.
  unfold pretty, pretty_N. case_decide as Hn; [done|]. assert (∀ x s, s ≠ "" → pretty_N_go x s ≠ "") as Hgo.
  { intros x. induction (N.lt_wf_0 x) as [x _ IH]; intros s Hs. destruct (decide (x = 0%N)) as [->|H0]; [done|].
    rewrite pretty_N_go_step by lia. apply IH; [apply N.div_lt; lia|done]. }
  rewrite pretty_N_go_step by lia. by apply Hgo.
Qed.
(** Printing a [u64] and parsing it gives it back. *)
Lemma parse_u64_pretty n : (n < u64_modulus)%N → parse_u64 (pretty n) = Some n.
Proof.
  intros Hn. rewrite parse_u64_digits by (apply pretty_nonempty || apply pretty_digits).
  unfold pretty, pretty_N. case_decide as H0; [by subst|]. by rewrite parse_pretty_go.
Qed.
Lemma rsplit_once_None c s : all_chars (λ a, negb (bool_decide (a = c))) s = true → rsplit_once c s = None.
Proof.
  induction s as [|a s IH]; [done|]. cbn. intros [Ha Hs]%andb_true_iff. rewrite IH by done.
  apply negb_true_iff, bool_decide_eq_false in Ha. by rewrite decide_False.
Qed.
Lemma rsplit_once_last c l r :
  all_chars (λ a, negb (bool_decide (a = c))) r = true → rsplit_once c (l +:+ String c r) = Some (l, r).
Proof.
  intros Hr. induction l as [|a l IH].
  - change (rsplit_once c (String c r) = Some ("", r)). cbn. rewrite rsplit_once_None by done. by rewrite decide_True.
  - change (rsplit_once c (String a (l +:+ String c r)) = Some (String a l, r)). cbn [rsplit_once]. by rewrite IH.
Qed.
Lemma all_chars_impl (p q : ascii → bool) s : (∀ a, p a = true → q a = true) → all_chars p s = true → all_chars q s = true.
Proof. intros H. induction s as [|a s IH]; [done|]. cbn. rewrite !andb_true_iff. naive_solver. Qed.
(** An id that ends in a colon and a number splits there. *)
Lemma rsplit_once_pretty l (n : N) : rsplit_once ":" (l +:+ ":" +:+ pretty n) = Some (l, pretty n).
Proof.
  apply rsplit_once_last. eapply all_chars_impl; [|apply pretty_digits]. intros a Ha.
  apply negb_true_iff, bool_decide_eq_false. by intros ->.
Qed.
