(* ===== verification/Stable.v ===== *)
(** * Stable sorting ([slice::sort_by_key])

    The sorts whose result depends on the order of equal keys: interfaces by
    the rank of the entry they match, addresses by whether they share a wire.
    A stable sort by key is the concatenation of the buckets of equal keys, each in
    its original order. *)

From S2P Require Import Prelude.

Section stable.
Context {A : Type} (key : A → nat).

Fixpoint insert_by (x : A) (l : list A) : list A :=
  match l with
  | [] => [x]
  | y :: l' => if decide (key x ≤ key y) then x :: l else y :: insert_by x l'
  end.
Definition sort_by_key (l : list A) : list A := foldr insert_by [] l.

Lemma insert_by_perm x l : insert_by x l ≡ₚ x :: l.
Proof.
  induction l as [|y l IH]; cbn; [done|]. case_decide; [done|]. rewrite IH. apply Permutation_swap.
Qed.

Lemma sort_by_key_perm l : sort_by_key l ≡ₚ l.
Proof. induction l as [|x l IH]; cbn; [done|]. by rewrite insert_by_perm, IH. Qed.

Lemma elem_of_sort_by_key l x : x ∈ sort_by_key l ↔ x ∈ l.
Proof. by rewrite sort_by_key_perm. Qed.

Lemma insert_by_sorted x l :
  StronglySorted (λ y z, key y ≤ key z) l → StronglySorted (λ y z, key y ≤ key z) (insert_by x l).
Proof.
  induction 1 as [|y l Hs IH Hall]; cbn; [repeat constructor|].
  rewrite list.Forall_forall in Hall. case_decide as Hle.
  - constructor; [by constructor; [|apply list.Forall_forall]|].
    apply list.Forall_forall. intros z [->|Hz]%elem_of_cons; [done|]. specialize (Hall z Hz). lia.
  - constructor; [done|]. apply list.Forall_forall. intros z. rewrite insert_by_perm, elem_of_cons.
    intros [->|Hz]; [lia|by apply Hall].
Qed.

Lemma sort_by_key_sorted l : StronglySorted (λ y z, key y ≤ key z) (sort_by_key l).
Proof. induction l; cbn; [constructor|by apply insert_by_sorted]. Qed.

(** Equal keys keep their order. *)
Definition bucket (k : nat) (l : list A) : list A := filter (λ x, key x = k) l.

Lemma bucket_insert k x l : bucket k (insert_by x l) = bucket k (x :: l).
Proof.
  unfold bucket. induction l as [|y l IH]; cbn [insert_by]; [done|].
  case_decide as Hle; [done|]. rewrite !filter_cons in *.
  destruct (decide (key y = k)), (decide (key x = k)); subst; try lia; by rewrite IH.
Qed.

Lemma bucket_sort k l : bucket k (sort_by_key l) = bucket k l.
Proof.
  induction l as [|x l IH]; [done|]. cbn [sort_by_key foldr]. rewrite bucket_insert.
  unfold bucket in *. rewrite !filter_cons. unfold sort_by_key in IH. by rewrite IH.
Qed.

Lemma bucket_none k l : (∀ x, x ∈ l → key x ≠ k) → bucket k l = [].
Proof.
  intros Hno. apply list.elem_of_nil_inv. intros x [Hk Hx]%list_elem_of_filter. by eapply Hno.
Qed.

(** A sorted list is the concatenation of its buckets. *)
Lemma sorted_buckets n l : StronglySorted (λ y z, key y ≤ key z) l → (∀ x, x ∈ l → key x < n) →
  l = concat ((λ k, bucket k l) <$> seq 0 n).
Proof.
  induction n as [|n IH] in l |- *; intros Hs Hn.
  { destruct l as [|x l]; [done|]. specialize (Hn x ltac:(left)). lia. }
  rewrite seq_S, fmap_app, concat_app. cbn. rewrite app_nil_r.
  set (lo := filter (λ x, key x < n) l).
  assert (l = lo ++ bucket n l) as Hsplit.
  { subst lo. clear IH. induction Hs as [|x l Hs IHl Hall]; [done|].
    specialize (IHl (λ y Hy, Hn y (list_elem_of_further _ _ _ Hy))). unfold bucket in *.
    rewrite list.Forall_forall in Hall. rewrite !filter_cons.
    destruct (decide (key x < n)) as [Hlt|Hge].
    - rewrite decide_False by lia. cbn. by f_equal.
    - pose proof (Hn x ltac:(left)). rewrite decide_True by lia.
      assert (filter (λ x, key x < n) l = []) as Hnil.
      { apply list.elem_of_nil_inv. intros y [Hk Hy]%list_elem_of_filter. specialize (Hall y Hy). lia. }
      rewrite Hnil in *. cbn in *. by f_equal. }
  rewrite Hsplit at 1. f_equal.
  transitivity (concat ((λ k, bucket k lo) <$> seq 0 n)).
  - apply IH.
    + subst lo. clear -Hs. induction Hs as [|x l Hs IHs Hall]; [constructor|].
      rewrite filter_cons. case_decide; [|done]. constructor; [done|].
      rewrite list.Forall_forall in *. intros y [_ Hy]%list_elem_of_filter. by apply Hall.
    + by intros x [Hx _]%list_elem_of_filter.
  - f_equal. apply list_fmap_ext. intros i k Hk. apply lookup_seq in Hk as [-> Hk]. subst lo.
    unfold bucket. rewrite list_filter_filter. apply list_filter_iff. intros x. lia.
Qed.

Lemma sort_by_key_buckets n l : (∀ x, x ∈ l → key x < n) →
  sort_by_key l = concat ((λ k, bucket k l) <$> seq 0 n).
Proof.
  intros Hn. rewrite (sorted_buckets n (sort_by_key l)) at 1.
  - f_equal. apply list_fmap_ext. intros. apply bucket_sort.
  - apply sort_by_key_sorted.
  - intros x Hx. apply Hn. by apply elem_of_sort_by_key.
Qed.
End stable.

(** [sort_by_key] on a boolean key: [false] first. *)
Definition sort_by_flag {A} (f : A → bool) (l : list A) : list A :=
  sort_by_key (λ x, if f x then 1 else 0) l.

Lemma sort_by_flag_spec {A} (f : A → bool) (l : list A) :
  sort_by_flag f l = filter (λ x, f x = false) l ++ filter (λ x, f x = true) l.
Proof.
  unfold sort_by_flag. rewrite (sort_by_key_buckets _ 2) by (intros x _; destruct (f x); lia).
  cbn. rewrite app_nil_r. unfold bucket. f_equal; apply list_filter_iff; intros x; by destruct (f x).
Qed.
