(* ===== verification/HoldDown.v ===== *)
(** * Hold-down

    The elector (mesh.rs) and the island keeper (island.rs) share one loop:
    each turn compares what is in force with what is fresh, and a fresh value
    takes force once it has been the candidate for the hold-down. Here are the
    candidate's next value and what it is to be due, for any kind of turn. *)

From S2P Require Import Prelude.

Section hold_down.
Context {A : Type} `{EqDecision A} {T : Type} (time hold : T → N) (current fresh : T → A).

Definition due (cand : option (A * N)) (t : T) : Prop :=
  fresh t ≠ current t ∧
  ∃ since, cand = Some (fresh t, since) ∧ (hold t ≤ saturating_sub (time t) since)%N.
#[export] Instance due_dec cand t : Decision (due cand t).
Proof.
  unfold due. destruct cand as [[c since]|].
  2: { right. intros (_ & ? & ? & _). done. }
  destruct (decide (fresh t ≠ current t ∧ c = fresh t ∧ (hold t ≤ saturating_sub (time t) since)%N)) as [(? & -> & ?)|Hn];
    [left; eauto|right]. intros (? & s & [= -> ->] & ?). by apply Hn.
Defined.

(** The candidate after a turn that does not commit. *)
Definition next_candidate (cand : option (A * N)) (t : T) : option (A * N) :=
  if decide (fresh t = current t) then None
  else match cand with
  | Some (c, since) => if decide (c = fresh t) then Some (c, since) else Some (fresh t, time t)
  | None => Some (fresh t, time t)
  end.

(** A turn that finds [c] fresh and something else in force. *)
Definition steady (c : A) (t : T) : Prop := fresh t = c ∧ current t ≠ c.

(** The candidate has been fresh since an earlier turn, and on every turn from
    there. *)
Definition counted (ts : list T) (cand : option (A * N)) : Prop :=
  ∀ c since, cand = Some (c, since) →
    ∃ pre t0 win, ts = pre ++ t0 :: win ∧ time t0 = since ∧ ∀ t, t ∈ t0 :: win → steady c t.

Lemma counted_None ts : counted ts None.
Proof. done. Qed.

Lemma counted_next ts t cand : counted ts cand → counted (ts ++ [t]) (next_candidate cand t).
Proof.
  intros Hc c since. unfold next_candidate. case_decide as Hf; [done|].
  assert (Some (fresh t, time t) = Some (c, since) →
    ∃ pre t0 win, ts ++ [t] = pre ++ t0 :: win ∧ time t0 = since ∧ ∀ t', t' ∈ t0 :: win → steady c t') as Hnew.
  { intros [= <- <-]. exists ts, t, []. split_and!; [done..|]. intros t' ->%list_elem_of_singleton.
    split; [done|congruence]. }
  destruct cand as [[c' s']|]; [|exact Hnew]. case_decide as Heq; [|exact Hnew]. intros [= <- <-].
  destruct (Hc c' s' eq_refl) as (pre & t0 & win & -> & Hup & Hst).
  exists pre, t0, (win ++ [t]). split_and!; [by rewrite <-app_assoc|done|].
  intros t'. rewrite app_comm_cons, elem_of_app, list_elem_of_singleton. intros [Hin| ->]; [by apply Hst|].
  split; [done|congruence].
Qed.

(** A commit comes after a whole hold-down of the same candidate. *)
Lemma due_held ts t cand : counted ts cand → due cand t →
  ∃ pre t0 win, ts = pre ++ t0 :: win ∧ (hold t ≤ time t - time t0)%N ∧
    ∀ t', t' ∈ t0 :: win ++ [t] → steady (fresh t) t'.
Proof.
  intros Hc (Hne & since & -> & Hup). destruct (Hc _ _ eq_refl) as (pre & t0 & win & -> & <- & Hst).
  exists pre, t0, win. split_and!; [done|done|].
  intros t'. rewrite app_comm_cons, elem_of_app, list_elem_of_singleton. intros [Hin| ->]; [by apply Hst|].
  by split.
Qed.

(** Over turns that find the same candidate, and do not commit, the count
    runs from the first of them or before. *)
Lemma next_counts c cand t : steady c t → (∀ c' since, cand = Some (c', since) → since ≤ time t)%N →
  ∃ since, next_candidate cand t = Some (c, since) ∧ (since ≤ time t)%N.
Proof.
  intros [Hc Hne] Hle. unfold next_candidate. rewrite Hc, decide_False by congruence.
  destruct cand as [[c' s']|]; [case_decide; subst|]; eauto using N.le_refl.
Qed.
Lemma next_keeps c since t : steady c t → next_candidate (Some (c, since)) t = Some (c, since).
Proof. intros [Hc Hne]. unfold next_candidate. by rewrite Hc, decide_False, decide_True by congruence. Qed.
End hold_down.
