(* ===== verification/Json.v ===== *)
(** * JSON values as serde_json holds them

    [Value] is [serde_json::Value] without the [preserve_order] feature: an
    object is a map in key order. Numbers keep serde_json's three variants,
    and an [f64] is the binary64 format of [SpecFloat], so equality,
    conversion and comparison of numbers are the program's. *)

From S2P Require Import Prelude.
From Stdlib Require Import Floats.SpecFloat ZArith.

(** ** Binary64 *)

Definition f64 := spec_float.
Definition f64_of_N (n : N) : f64 := binary_normalize 53 1024 (Z.of_N n) 0 false.
Definition f64_of_Z (z : Z) : f64 := binary_normalize 53 1024 z 0 false.
Definition f64_add (a b : f64) : f64 := SFadd 53 1024 a b.
Definition f64_zero : f64 := S754_zero false.
Definition f64_one : f64 := f64_of_N 1.
Definition f64_leb (a b : f64) : bool := SFleb a b.
Definition f64_ltb (a b : f64) : bool := SFltb a b.
Definition f64_eqb (a b : f64) : bool := SFeqb a b.

Definition f64_is_finite (f : f64) : bool :=
  match f with S754_zero _ | S754_finite _ _ _ => true | _ => false end.

(** The value of a finite number with no fractional part. [f.fract() == 0.0]
    holds exactly when it exists. *)
Definition f64_whole (f : f64) : option Z :=
  match f with
  | S754_zero _ => Some 0%Z
  | S754_finite s m e =>
      let v := Z.shiftl (Zpos m) e in
      if bool_decide (Z.shiftl v (- e) = Zpos m)
      then Some (if s then (- v)%Z else v) else None
  | _ => None
  end.

(** [f as u64], which saturates. Applied to whole numbers only. *)
Definition u64_of_whole (z : Z) : N :=
  if bool_decide (z < 0)%Z then 0%N else N.min (Z.to_N z) (u64_modulus - 1).

(** ** Values *)

Inductive Number :=
| PosInt (n : N)
| NegInt (z : Z)
| Float (f : f64).

Inductive Value :=
| Null
| Bool (b : bool)
| Num (n : Number)
| Str (s : string)
| Arr (l : list Value)
| Obj (m : list (string * Value)).

(** [#[derive(PartialEq)]] of serde_json's number: variants never mix. *)
Definition number_eqb (a b : Number) : bool :=
  match a, b with
  | PosInt x, PosInt y => bool_decide (x = y)
  | NegInt x, NegInt y => bool_decide (x = y)
  | Float x, Float y => f64_eqb x y
  | _, _ => false
  end.

Fixpoint value_eqb (a b : Value) {struct a} : bool :=
  match a, b with
  | Null, Null => true
  | Bool x, Bool y => Bool.eqb x y
  | Num x, Num y => number_eqb x y
  | Str x, Str y => bool_decide (x = y)
  | Arr x, Arr y =>
      (fix go l1 l2 := match l1, l2 with
        | [], [] => true
        | v :: l1, w :: l2 => value_eqb v w && go l1 l2
        | _, _ => false
        end) x y
  | Obj x, Obj y =>
      (fix go l1 l2 := match l1, l2 with
        | [], [] => true
        | (k, v) :: l1, (k', w) :: l2 => bool_decide (k = k') && value_eqb v w && go l1 l2
        | _, _ => false
        end) x y
  | _, _ => false
  end.

(** ** Access, as the [Index] and [as_*] methods do it *)

Definition obj_get (k : string) (m : list (string * Value)) : option Value :=
  find_map (λ '(k', v), if decide (k' = k) then Some v else None) m.

(** [v.get(k)] and [v[k]]: a missing key or a value that is no object reads
    as null. *)
Definition get (k : string) (v : Value) : option Value :=
  match v with Obj m => obj_get k m | _ => None end.
Definition index (k : string) (v : Value) : Value := default Null (get k v).

Definition as_str (v : Value) : option string := match v with Str s => Some s | _ => None end.
Definition as_bool (v : Value) : option bool := match v with Bool b => Some b | _ => None end.
Definition as_array (v : Value) : option (list Value) :=
  match v with Arr l => Some l | _ => None end.
Definition as_object (v : Value) : option (list (string * Value)) :=
  match v with Obj m => Some m | _ => None end.
Definition as_u64 (v : Value) : option N :=
  match v with Num (PosInt n) => Some n | _ => None end.
Definition number_as_f64 (n : Number) : f64 :=
  match n with PosInt n => f64_of_N n | NegInt z => f64_of_Z z | Float f => f end.
Definition as_f64 (v : Value) : option f64 :=
  match v with Num n => Some (number_as_f64 n) | _ => None end.
Definition is_null (v : Value) : bool := match v with Null => true | _ => false end.

(** [v.as_object().into_iter().flatten()], and the same for an array. *)
Definition entries (v : Value) : list (string * Value) := default [] (as_object v).
Definition items (v : Value) : list Value := default [] (as_array v).

(** ** Building *)

Fixpoint obj_insert (k : string) (v : Value) (m : list (string * Value)) : list (string * Value) :=
  match m with
  | [] => [(k, v)]
  | (k', v') :: m' =>
      if decide (k = k') then (k, v) :: m'
      else if decide (String.le k k') then (k, v) :: m
      else (k', v') :: obj_insert k v m'
  end.

(** [json!({ ... })] and collecting into a [serde_json::Map]: a later entry
    replaces an earlier one of its key. *)
Definition obj_of (l : list (string * Value)) : Value :=
  Obj (foldl (λ m '(k, v), obj_insert k v m) [] l).
Definition set_key (k : string) (v x : Value) : Value :=
  match x with Obj m => Obj (obj_insert k v m) | _ => x end.

Definition JN (n : N) : Value := Num (PosInt n).
Definition Jnat (n : nat) : Value := JN (N.of_nat n).
Definition Jopt {A} (f : A → Value) (o : option A) : Value := from_option f Null o.
Definition Jstrs (l : list string) : Value := Arr (Str <$> l).
Definition Jnums (l : list N) : Value := Arr (JN <$> l).
Definition Jmap {A} (f : A → Value) (m : gmap string A) : Value :=
  Obj ((λ '(k, x), (k, f x)) <$> bt_iter m).
Definition Jstrmap (m : gmap string string) : Value := Jmap Str m.

(** ** Objects *)

Lemma obj_get_insert k k' v m :
  obj_get k (obj_insert k' v m) = if decide (k = k') then Some v else obj_get k m.
Proof.
  unfold obj_get. induction m as [|[k2 v2] m IH]; cbn; [repeat case_decide; congruence|].
  destruct (decide (k = k')) as [->|Hk].
  - destruct (decide (k' = k2)) as [->|]; [cbn; by rewrite decide_True|].
    case_decide; cbn; [by rewrite decide_True|]. rewrite IH. by rewrite decide_False.
  - destruct (decide (k' = k2)) as [->|]; cbn; [by rewrite !decide_False by congruence|].
    case_decide; cbn; [by rewrite (decide_False (P := k' = k)) by congruence|]. rewrite IH. by repeat case_decide.
Qed.
