(* ===== verification/Proto.v ===== *)
(** * The wire protocol: version rule, messages, framing

    [Version] is rust/common/src/proto.rs, [Msg] the message type of
    rust/mentatd/src/proto.rs, and [Framing] its [write_frame] and
    [read_frame] over a byte stream that may deliver any number of bytes per
    read, be interrupted, fail, or end. The JSON encoding of a header is
    serde's and enters as a parameter of [Framing]. *)

From S2P Require Import Prelude Json.

(** ** Version rule *)

Module Version.

Definition PROTO : string := "0.99".

(** The two majors that accept each other during the cutover. *)
Definition CUTOVER : list string := ["0"; "1"].

Definition digits (s : string) : bool := negb (str_empty s) && all_chars is_digit s.

Fixpoint trim_zeros (s : string) : string :=
  match s with
  | String a s' => if decide (a = "0"%char) then trim_zeros s' else s
  | EmptyString => s
  end.

Definition major (v : string) : option string :=
  '(maj, rest) ← split_once "." v;
  if negb (digits maj) || negb (digits rest) then None
  else
    let trimmed := trim_zeros maj in
    Some (if str_empty trimmed then "0" else trimmed).

(** [major_matches] with this build's version as an argument, so that both
    ends of a link are instances of it. *)
Definition accepts (mine peer : string) : bool :=
  match major mine, major peer with
  | Some a, Some b =>
      bool_decide (a = b) || (bool_decide (a ∈ CUTOVER) && bool_decide (b ∈ CUTOVER))
  | _, _ => false
  end.
Definition major_matches (peer : string) : bool := accepts PROTO peer.

(** The decimal value of a string of digits. *)
Fixpoint value_from (acc : N) (s : string) : N :=
  match s with
  | EmptyString => acc
  | String a s' => value_from (10 * acc + (N_of_ascii a - 48)) s'
  end.
Definition value (s : string) : N := value_from 0 s.

(** *** The rule, in numbers *)

Abbreviation len s := (N.of_nat (String.length s)).

Definition is_digits (s : string) : Prop := digits s = true.

(** [v] is a version of the grammar [<digits>.<digits>] with major [n]. *)
Definition version (v : string) (n : N) : Prop :=
  ∃ maj rest, v = maj +:+ String "." rest ∧ is_digits maj ∧ is_digits rest ∧ value maj = n.

Lemma is_digit_iff a : is_digit a = true ↔ (48 ≤ N_of_ascii a ≤ 57)%N.
Proof. unfold is_digit. by rewrite bool_decide_eq_true. Qed.

Lemma is_digits_iff s : is_digits s ↔ s ≠ EmptyString ∧ all_chars is_digit s = true.
Proof.
  unfold is_digits, digits, str_empty. rewrite andb_true_iff, negb_true_iff.
  by rewrite bool_decide_eq_false.
Qed.

Lemma split_once_digits l r :
  all_chars is_digit l = true → split_once "." (l +:+ String "." r) = Some (l, r).
Proof.
  induction l as [|a l IH]; [done|]. cbn [all_chars].
  intros [Ha Hl]%andb_true_iff.
  change (String a l +:+ String "." r) with (String a (l +:+ String "." r)).
  cbn [split_once]. rewrite decide_False.
  - by rewrite IH.
  - intros ->. discriminate Ha.
Qed.

Lemma split_once_Some c s l r : split_once c s = Some (l, r) → s = l +:+ String c r.
Proof.
  revert l r. induction s as [|a s IH]; intros l r; cbn [split_once]; [done|].
  case_decide as Ha; [intros [= <- <-]; by rewrite Ha|].
  destruct (split_once c s) as [[l' r']|]; cbn; [|done].
  intros [= <- <-]. by rewrite (IH l' r').
Qed.

Lemma value_from_acc acc s :
  value_from acc s = (acc * 10 ^ len s + value s)%N.
Proof.
  unfold value. revert acc. induction s as [|a s IH]; intros acc; [cbn; lia|].
  cbn [value_from String.length]. rewrite IH, (IH (10 * 0 + _)%N).
  rewrite Nat2N.inj_succ, N.pow_succ_r'. lia.
Qed.

Lemma value_cons a s :
  value (String a s) = ((N_of_ascii a - 48) * 10 ^ len s + value s)%N.
Proof. unfold value at 1. cbn [value_from]. rewrite value_from_acc. lia. Qed.

Lemma value_bound s : all_chars is_digit s = true → (value s < 10 ^ len s)%N.
Proof.
  induction s as [|a s IH]; [done|]. cbn [all_chars].
  intros [Ha%is_digit_iff Hs]%andb_true_iff. specialize (IH Hs).
  rewrite value_cons. cbn [String.length]. rewrite Nat2N.inj_succ, N.pow_succ_r'. nia.
Qed.

Lemma value_inj_len s t :
  all_chars is_digit s = true → all_chars is_digit t = true →
  String.length s = String.length t → value s = value t → s = t.
Proof.
  revert t. induction s as [|a s IH]; intros [|b t] Hs Ht Hl Hv; try done.
  cbn [all_chars] in Hs, Ht. apply andb_true_iff in Hs as [Ha Hs], Ht as [Hb Ht].
  apply is_digit_iff in Ha, Hb. cbn in Hl. injection Hl as Hl.
  rewrite !value_cons, Hl in Hv.
  pose proof (value_bound s Hs) as Bs. pose proof (value_bound t Ht) as Bt. rewrite Hl in Bs.
  assert (N_of_ascii a - 48 = N_of_ascii b - 48 ∧ value s = value t)%N as [E1 E2].
  { generalize dependent (10 ^ len t)%N. intros p Hv Bs Bt.
    generalize dependent (N_of_ascii a - 48)%N. generalize (N_of_ascii b - 48)%N.
    intros y x Hv. destruct (N.lt_trichotomy x y) as [H|[->|H]]; [|lia|]; exfalso; nia. }
  assert (a = b) as <-.
  { rewrite <-(ascii_N_embedding a), <-(ascii_N_embedding b). f_equal. lia. }
  f_equal. by apply IH.
Qed.

(** A digit string without a leading zero, or the single zero. *)
Definition canonical_digits (s : string) : Prop :=
  all_chars is_digit s = true ∧
  match s with String a _ => (48 < N_of_ascii a)%N ∨ s = "0" | EmptyString => False end.

Lemma canonical_lower s :
  canonical_digits s → s = "0" ∨ (10 ^ len s ≤ 10 * value s)%N.
Proof.
  destruct s as [|a s]; intros [Hs Hc]; [done|]. destruct Hc as [Hc| ->]; [right|by left].
  rewrite value_cons. cbn [String.length]. rewrite Nat2N.inj_succ, N.pow_succ_r'. nia.
Qed.

Lemma canonical_inj s t :
  canonical_digits s → canonical_digits t → value s = value t → s = t.
Proof.
  intros Hs Ht Hv. pose proof (value_bound s (proj1 Hs)) as Bs.
  pose proof (value_bound t (proj1 Ht)) as Bt.
  assert (∀ x, (10 ^ N.of_nat x ≠ 0)%N) as Hpos by (intros; apply N.pow_nonzero; lia).
  assert (∀ x y, x < y → (10 * 10 ^ N.of_nat x ≤ 10 ^ N.of_nat y)%N) as Hlt.
  { intros x y Hxy. rewrite <-N.pow_succ_r'. apply N.pow_le_mono_r; lia. }
  assert (String.length s = String.length t) as Hl.
  { destruct (canonical_lower s Hs) as [->|Ls], (canonical_lower t Ht) as [->|Lt]; try done.
    - change (value "0") with 0%N in Hv. specialize (Hpos (String.length t)). lia.
    - change (value "0") with 0%N in Hv. specialize (Hpos (String.length s)). lia.
    - destruct (Nat.lt_trichotomy (String.length s) (String.length t)) as [H|[H|H]]; [|done|];
        specialize (Hlt _ _ H); lia. }
  apply value_inj_len; [apply Hs|apply Ht|done|done].
Qed.

Lemma trim_zeros_spec s :
  all_chars is_digit s = true →
  all_chars is_digit (trim_zeros s) = true ∧ value (trim_zeros s) = value s ∧
  match trim_zeros s with String a _ => (48 < N_of_ascii a)%N | EmptyString => True end.
Proof.
  induction s as [|a s IH]; [done|]. cbn [all_chars trim_zeros].
  intros [Ha%is_digit_iff Hs]%andb_true_iff. specialize (IH Hs) as (IH1 & IH2 & IH3).
  case_decide as E.
  - subst a. rewrite value_cons. cbn -[value trim_zeros]. auto.
  - split; [|split; [done|]].
    + cbn [all_chars]. rewrite Hs, andb_true_r. by apply is_digit_iff.
    + destruct (decide (N_of_ascii a = 48)%N) as [E'|]; [|lia].
      destruct E. by rewrite <-(ascii_N_embedding a), E'.
Qed.

Lemma major_spec v m :
  major v = Some m ↔ canonical_digits m ∧ version v (value m).
Proof.
  unfold major, version. split.
  - destruct (split_once "." v) as [[maj rest]|] eqn:E; cbn; [|done].
    apply split_once_Some in E. destruct (digits maj) eqn:D1, (digits rest) eqn:D2; try done.
    cbn. intros [= <-]. apply is_digits_iff in D1 as [N1 A1].
    destruct (trim_zeros_spec maj A1) as (T1 & T2 & T3). unfold str_empty. case_bool_decide as E0.
    + rewrite E0 in T2. split; [split; [done|by right]|].
      exists maj, rest. split_and!; [done|by apply is_digits_iff|done|by rewrite <-T2].
    + split; [split; [done|]|].
      { destruct (trim_zeros maj); [done|]. by left. }
      exists maj, rest. split_and!; [done|by apply is_digits_iff|done|done].
  - intros [Hc (maj & rest & -> & D1 & D2 & Hv)]. pose proof D1 as [N1 A1]%is_digits_iff.
    rewrite split_once_digits by done. cbn. rewrite D1, D2. cbn. f_equal.
    destruct (trim_zeros_spec maj A1) as (T1 & T2 & T3). unfold str_empty. case_bool_decide as E0.
    + apply canonical_inj; [split; [done|by right]|done|].
      rewrite <-Hv, <-T2, E0. done.
    + apply canonical_inj; [|done|by rewrite T2].
      split; [done|]. destruct (trim_zeros maj); [done|]. by left.
Qed.

Lemma version_major v n : version v n → ∃ m, major v = Some m ∧ value m = n.
Proof.
  intros (maj & rest & -> & D1 & D2 & <-). pose proof D1 as [N1 A1]%is_digits_iff.
  unfold major. rewrite split_once_digits by done. cbn. rewrite D1, D2. cbn.
  eexists. split; [done|]. destruct (trim_zeros_spec maj A1) as (T1 & T2 & T3).
  rewrite <-T2. unfold str_empty. by case_bool_decide as E; [rewrite E|].
Qed.

Lemma in_cutover m : canonical_digits m → m ∈ CUTOVER ↔ (value m ≤ 1)%N.
Proof.
  intros Hm. unfold CUTOVER. rewrite !elem_of_cons, elem_of_nil. split.
  - intros [->|[->|[]]]; vm_compute; discriminate.
  - intros Hv. assert (value m = 0 ∨ value m = 1)%N as [E|E] by lia; [left|right; left];
      (apply canonical_inj; [done| |by rewrite E]); (split; [done|]); [by right|].
    left. vm_compute. reflexivity.
Qed.

(** Two builds accept each other's version exactly when both versions
    have the grammar [<digits>.<digits>] and their majors are the same number,
    leading zeros apart, or are the cutover pair 0 and 1. So the rule is the
    same from both ends of a link. *)
Theorem accepts_iff mine peer :
  accepts mine peer = true ↔
  ∃ a b, version mine a ∧ version peer b ∧ (a = b ∨ (a ≤ 1 ∧ b ≤ 1)%N).
Proof.
  unfold accepts. split.
  - destruct (major mine) as [a|] eqn:Ea, (major peer) as [b|] eqn:Eb; try done.
    apply major_spec in Ea as [Ca Va], Eb as [Cb Vb].
    rewrite orb_true_iff, andb_true_iff, !bool_decide_eq_true, !in_cutover by done.
    intros H. exists (value a), (value b). split_and!; [done|done|].
    destruct H as [->|H]; auto.
  - intros (a & b & Va & Vb & H). apply version_major in Va as (ma & Ea & <-), Vb as (mb & Eb & <-).
    rewrite Ea, Eb. apply major_spec in Ea as [Ca _], Eb as [Cb _].
    rewrite orb_true_iff, andb_true_iff, !bool_decide_eq_true, !in_cutover by done.
    destruct H as [H|H]; [left; by apply canonical_inj|by right].
Qed.

End Version.

(** ** Machine inventory, services, resumed actors *)

Record Gpu := mkGpu {
  g_index : N; g_vendor : string; g_name : string; g_memory : N; g_uma : bool }.
Record Machine := mkMachine { m_memory : N; m_cpus : N; m_gpus : list Gpu }.
Record Service := mkService {
  s_host : string; s_port : N; s_path : string; s_provider : string; s_note : string }.
#[export] Instance eta_Service : Eta Service :=
  λ s, mkService (s_host s) (s_port s) (s_path s) (s_provider s) (s_note s).
Record ResumeActor := mkResume {
  r_actor_id : string; r_name : string; r_gpu_ids : list N; r_pid : N;
  r_owner : string; r_pending_refs : list string }.

Definition gpu_json (g : Gpu) : Value :=
  obj_of [("index", JN (g_index g)); ("vendor", Str (g_vendor g)); ("name", Str (g_name g));
          ("memory", JN (g_memory g)); ("uma", Bool (g_uma g))].
Definition machine_json (m : Machine) : Value :=
  obj_of [("memory", JN (m_memory m)); ("cpus", JN (m_cpus m));
          ("gpus", Arr (gpu_json <$> m_gpus m))].
Definition service_json (s : Service) : Value :=
  obj_of [("host", Str (s_host s)); ("port", JN (s_port s)); ("path", Str (s_path s));
          ("provider", Str (s_provider s)); ("note", Str (s_note s))].

(** ** Messages *)

Module Msg.

Inductive t :=
(* client to daemon *)
| Hello (proto client_id group : string) (session : bool) (kind node_ip : string)
| Nodes
| Resources
| Available
| Claim (name : string) (shape : Value)
| PgCreate (bundles : list N) (strategy claim : string)
| PgTable (pg_id : string)
| PgRemove (pg_id : string)
| ActorCreate (name : string) (num_gpus : N) (pg_id : string) (bundle_index : N)
    (env : gmap string string)
| ActorCall (actor_id method : string)
| RefGet (ref_id : string) (timeout_ms : option N)
| RefWait (ref_ids : list string) (num_returns : N) (timeout_ms : option N)
| Status (group : option string)
| ActorStop (group : string) (all : bool)
(* daemon to client *)
| Ok
| Err (error code head proto : string)
| HelloOk (proto node_id node_ip control_addr head_node_id : string)
| NodesOk (nodes : list Value)
| ResourcesOk (resources : gmap string f64)
| AvailableOk (nodes : gmap string (gmap string f64))
| ClaimOk (name : string) (generation : N) (head_node_id : string) (view : Value)
| PgCreateOk (pg_id : string)
| PgTableOk (table : Value)
| ActorCreateOk (actor_id node_id : string) (gpu_ids : list N)
| ActorCallOk (ref_id : string)
| RefGetOk (status reason : string)
| RefWaitOk (ready : list string)
| StatusOk (snapshot : Value)
(* agent and daemon *)
| AgentRegister (proto agent_id group node_ip container : string) (pid : N)
    (machine : Machine) (services : gmap string Service) (resume : list ResumeActor)
    (unacked_refs : list string) (meta : gmap string string)
| AgentRegisterOk (proto node_id : string)
| ActorSpawn (actor_id name : string) (env : gmap string string) (gpu_ids : list N)
    (owner : string)
| ActorSpawnResult (actor_id : string) (ok : bool) (error : string) (pid : N)
| ActorDispatch (actor_id ref_id method : string)
| ActorResult (ref_id : string) (ok : bool) (error : string)
| ActorExit (actor_id : string) (exit_code signal : option Z)
| ActorKill (actor_id : string)
| ServiceNote (service note : string)
| Ping
| Pong
(* daemon and daemon *)
| PeerHello (proto node_id node_ip : string) (control_port http_port : N)
    (addrs : list string) (addr_tags : gmap string (list string))
    (addr_ifaces : gmap string string)
| PeerHelloOk (proto node_id node_ip : string) (control_port http_port : N)
    (addrs : list string) (addr_tags : gmap string (list string))
    (addr_ifaces : gmap string string)
| Probe (proto node_id : string)
| ProbeOk (proto node_id : string)
| PeerStatus (snapshot : Value)
| PeerEvent (event : Value)
(* actor host and agent *)
| HostHello (proto : string)
| Ctor (proto : string)
| CtorOk
| CtorErr (error : string)
| HostCall (ref_id method : string)
| HostResult (ref_id : string) (ok : bool)
| Unknown.

(** A refusal with a message for a person and no code. *)
Definition error (e : string) : t := Err e "" "" "".
(** A refusal a program can match on. *)
Definition refused (code e : string) : t := Err e code "" "".

Definition is_unknown (m : t) : bool := match m with Unknown => true | _ => false end.

End Msg.

Record Frame := mkFrame { fr_req : N; fr_msg : Msg.t; fr_unknown_t : string }.
#[export] Instance eta_Frame : Eta Frame :=
  λ f, mkFrame (fr_req f) (fr_msg f) (fr_unknown_t f).
Definition frame_new (req : N) (msg : Msg.t) : Frame := mkFrame req msg "".

(** ** Framing *)

Module Framing.

Definition MAX_FRAME : N := 268435456.

Definition byte_of_N (n : N) : byte := default x00 (Byte.of_N (n `mod` 256)).
(** [(len as u32).to_le_bytes()]: the cast drops bits above the 32nd. *)
Definition to_le_bytes (n : N) : bytes :=
  [byte_of_N n; byte_of_N (n / 256); byte_of_N (n / 65536); byte_of_N (n / 16777216)].
Fixpoint from_le_bytes (bs : bytes) : N :=
  match bs with [] => 0%N | b :: bs' => (Byte.to_N b + 256 * from_le_bytes bs')%N end.

(** What one [read] call can do. *)
Inductive ReadEvent :=
| Data (bs : bytes)
| Interrupted
| Failed (e : string).
Inductive IoError := UnexpectedEof | InvalidData (e : string) | Other (e : string).

(** [read_exact]: fill [n] bytes, retrying interrupted reads. A read that
    returns no byte is the end of the stream. *)
Fixpoint read_exact (n : nat) (got : bytes) (evs : list ReadEvent)
    : Result (bytes * list ReadEvent) IoError :=
  match n with
  | 0 => Ok (got, evs)
  | _ =>
      match evs with
      | [] => Err UnexpectedEof
      | Interrupted :: evs' => read_exact n got evs'
      | Failed e :: _ => Err (Other e)
      | Data [] :: _ => Err UnexpectedEof
      | Data bs :: evs' =>
          if decide (length bs ≤ n) then read_exact (n - length bs) (got ++ bs) evs'
          else Ok (got ++ take n bs, Data (drop n bs) :: evs')
      end
  end.

(** [read_exact_or_eof]: the end of the stream before the first byte is
    [Ok None]. *)
Fixpoint read_exact_or_eof (n : nat) (got : bytes) (evs : list ReadEvent)
    : Result (option (bytes * list ReadEvent)) IoError :=
  match n with
  | 0 => Ok (Some (got, evs))
  | _ =>
      match evs with
      | [] => if nonempty got then Err UnexpectedEof else Ok None
      | Interrupted :: evs' => read_exact_or_eof n got evs'
      | Failed e :: _ => Err (Other e)
      | Data [] :: _ => if nonempty got then Err UnexpectedEof else Ok None
      | Data bs :: evs' =>
          if decide (length bs ≤ n) then read_exact_or_eof (n - length bs) (got ++ bs) evs'
          else Ok (Some (got ++ take n bs, Data (drop n bs) :: evs'))
      end
  end.

Section framing.
(** serde_json on a header: writing one, reading one, and reading it as an
    untyped value. *)
Context (to_vec : Frame → bytes) (from_slice : bytes → option Frame)
        (value_from_slice : bytes → option Value).

Definition framed (header payload : bytes) : bytes :=
  to_le_bytes (N.of_nat (length header)) ++ to_le_bytes (N.of_nat (length payload))
    ++ header ++ payload.
Definition write_frame (frame : Frame) (payload : bytes) : bytes := framed (to_vec frame) payload.

Definition read_frame (r : list ReadEvent)
    : Result (option (Frame * bytes * list ReadEvent)) IoError :=
  match read_exact_or_eof 8 [] r with
  | Err e => Err e
  | Ok None => Ok None
  | Ok (Some (lens, r)) =>
      let hlen := from_le_bytes (take 4 lens) in
      let plen := from_le_bytes (drop 4 lens) in
      if bool_decide (MAX_FRAME < hlen)%N || bool_decide (MAX_FRAME < plen)%N then
        Err (InvalidData ("frame over " +:+ pretty MAX_FRAME +:+ " bytes: header="
               +:+ pretty hlen +:+ " payload=" +:+ pretty plen))
      else
        let? (header, r) := read_exact (N.to_nat hlen) [] r in
        let? (payload, r) := read_exact (N.to_nat plen) [] r in
        match from_slice header with
        | None => Err (InvalidData "bad frame header")
        | Some frame =>
            let frame :=
              if Msg.is_unknown (fr_msg frame) then
                frame <| fr_unknown_t := default EmptyString
                           (value_from_slice header ≫= λ v, as_str (index "t" v)) |>
              else frame in
            Ok (Some (frame, payload, r))
        end
  end.

(** The reader's loop: frame after frame, until the link ends or fails. *)
Fixpoint read_all (fuel : nat) (r : list ReadEvent) : Result (list (Frame * bytes)) IoError :=
  match fuel with
  | 0 => Ok []
  | S fuel =>
      match read_frame r with
      | Err e => Err e
      | Ok None => Ok []
      | Ok (Some (f, p, r)) => match read_all fuel r with Ok l => Ok ((f, p) :: l) | Err e => Err e end
      end
  end.
End framing.

(** The bytes a list of reads delivers, and reads that deliver data only. *)
Fixpoint delivered (evs : list ReadEvent) : bytes :=
  match evs with
  | Data bs :: evs' => bs ++ delivered evs'
  | Interrupted :: evs' => delivered evs'
  | _ => []
  end.
Definition healthy (ev : ReadEvent) : Prop :=
  match ev with Data [] | Failed _ => False | _ => True end.

(** *** Little-endian lengths *)

Lemma byte_to_of_N n : (n < 256)%N → Byte.to_N (byte_of_N n) = n.
Proof.
  intros Hn. unfold byte_of_N. rewrite N.mod_small by done.
  destruct (Byte.of_N n) as [b|] eqn:E; [by apply Byte.to_of_N|].
  apply Byte.of_N_None_iff in E. lia.
Qed.

Lemma byte_of_N_mod n : byte_of_N n = byte_of_N (n `mod` 256).
Proof. unfold byte_of_N. by rewrite N.Div0.mod_mod. Qed.

Lemma from_to_le_bytes n : (n < 2 ^ 32)%N → from_le_bytes (to_le_bytes n) = n.
Proof.
  intros Hn.
  assert (n / 65536 = n / 256 / 256)%N as E2 by (by rewrite N.Div0.div_div).
  assert (n / 16777216 = n / 256 / 256 / 256)%N as E3 by (by rewrite !N.Div0.div_div).
  assert (n / 256 / 256 / 256 < 256)%N as Hlt.
  { rewrite !N.Div0.div_div. by apply N.Div0.div_lt_upper_bound. }
  unfold to_le_bytes, from_le_bytes. rewrite E2, E3.
  rewrite (byte_of_N_mod n), (byte_of_N_mod (n / 256)), (byte_of_N_mod (n / 256 / 256)).
  rewrite !byte_to_of_N by (done || by apply N.mod_lt).
  pose proof (N.Div0.div_mod n 256). pose proof (N.Div0.div_mod (n / 256) 256).
  pose proof (N.Div0.div_mod (n / 256 / 256) 256). lia.
Qed.

(** *** A healthy stream is read as the bytes it delivers *)

Lemma read_exact_healthy n got evs :
  Forall healthy evs → n ≤ length (delivered evs) →
  ∃ evs', read_exact n got evs = Ok (got ++ take n (delivered evs), evs') ∧
    Forall healthy evs' ∧ delivered evs' = drop n (delivered evs).
Proof.
  intros Hev. revert n got. induction Hev as [|ev evs Hh Hev IH]; intros n got Hn.
  { cbn in Hn. assert (n = 0) as -> by lia. exists []. by rewrite app_nil_r. }
  destruct n as [|n].
  { exists (ev :: evs). rewrite take_0, app_nil_r. auto. }
  destruct ev as [[|b bs]| |e]; try done; [|by apply IH].
  cbn [read_exact delivered] in *. rewrite length_app in Hn. case_decide as Hle.
  - edestruct (IH (S n - length (b :: bs)) (got ++ b :: bs)) as (evs' & -> & ? & Hd); [lia|].
    exists evs'. rewrite <-app_assoc, take_app_ge, drop_app_ge by lia. done.
  - exists (Data (drop (S n) (b :: bs)) :: evs).
    rewrite take_app_le, drop_app_le by lia. split; [done|]. split; [|done].
    constructor; [|done]. unfold healthy.
    destruct (drop (S n) (b :: bs)) eqn:E; [|done].
    apply (f_equal length) in E. rewrite length_drop in E. cbn in *. lia.
Qed.

Lemma read_exact_or_eof_healthy n got evs :
  Forall healthy evs → n ≤ length (delivered evs) →
  ∃ evs', read_exact_or_eof n got evs = Ok (Some (got ++ take n (delivered evs), evs')) ∧
    Forall healthy evs' ∧ delivered evs' = drop n (delivered evs).
Proof.
  intros Hev Hn. destruct (read_exact_healthy n got evs Hev Hn) as (evs' & Hr & H2).
  exists evs'. split; [|done]. clear H2. revert n got Hn Hr.
  induction Hev as [|ev evs Hh Hev IH]; intros n got Hn Hr.
  { cbn in Hn. assert (n = 0) as -> by lia. injection Hr as Hg <-. cbn. by rewrite <-Hg. }
  destruct n as [|n]; [injection Hr as Hg <-; cbn; by rewrite <-Hg|].
  destruct ev as [[|b bs]| |e]; try done; [|by apply IH].
  cbn [read_exact read_exact_or_eof delivered] in *. rewrite length_app in Hn.
  case_decide; [|injection Hr as Hg <-; do 3 f_equal; exact Hg].
  rewrite take_app_ge in * by lia. rewrite app_assoc. apply IH; [lia|].
  by rewrite <-app_assoc.
Qed.

Lemma read_exact_short n got evs :
  Forall healthy evs → length (delivered evs) < n → read_exact n got evs = Err UnexpectedEof.
Proof.
  intros Hev. revert n got. induction Hev as [|ev evs Hh Hev IH]; intros n got Hn;
    (destruct n as [|n]; [lia|]); [done|].
  destruct ev as [[|b bs]| |e]; try done; [|by apply IH].
  cbn [read_exact delivered] in *. rewrite length_app in Hn.
  rewrite decide_True by lia. apply IH. lia.
Qed.

Lemma read_exact_or_eof_short n got evs :
  Forall healthy evs → length (delivered evs) < n →
  read_exact_or_eof n got evs =
    if nonempty (got ++ delivered evs) then Err UnexpectedEof else Ok None.
Proof.
  intros Hev. revert n got. induction Hev as [|ev evs Hh Hev IH]; intros n got Hn;
    (destruct n as [|n]; [lia|]); [by rewrite app_nil_r|].
  destruct ev as [[|b bs]| |e]; try done; [|by apply IH].
  cbn [read_exact_or_eof delivered] in *. rewrite length_app in Hn.
  rewrite decide_True by lia. rewrite IH by lia. by rewrite <-app_assoc.
Qed.

Lemma to_le_bytes_length n : length (to_le_bytes n) = 4.
Proof. done. Qed.

Lemma frame_lengths (h p : N) rest :
  take 4 (take 8 (to_le_bytes h ++ to_le_bytes p ++ rest)) = to_le_bytes h ∧
  drop 4 (take 8 (to_le_bytes h ++ to_le_bytes p ++ rest)) = to_le_bytes p ∧
  drop 8 (to_le_bytes h ++ to_le_bytes p ++ rest) = rest.
Proof. done. Qed.

Section framing_theorems.
Context (to_vec : Frame → bytes) (from_slice : bytes → option Frame)
        (value_from_slice : bytes → option Value).
Implicit Types (f : Frame) (p : bytes) (evs : list ReadEvent).
Abbreviation write := (write_frame to_vec).
Abbreviation read := (read_frame from_slice value_from_slice).

(** The frame fits: both lengths are within [MAX_FRAME]. *)
Definition fits f p : Prop :=
  (N.of_nat (length (to_vec f)) ≤ MAX_FRAME)%N ∧ (N.of_nat (length p) ≤ MAX_FRAME)%N.

Lemma read_lengths (h p : N) rest evs :
  (h < 2 ^ 32)%N → (p < 2 ^ 32)%N → Forall healthy evs →
  delivered evs = to_le_bytes h ++ to_le_bytes p ++ rest →
  ∃ lens evs', read_exact_or_eof 8 [] evs = Ok (Some (lens, evs')) ∧
    Forall healthy evs' ∧ delivered evs' = rest ∧
    from_le_bytes (take 4 lens) = h ∧ from_le_bytes (drop 4 lens) = p.
Proof.
  intros Hh Hp Hev Hd.
  destruct (read_exact_or_eof_healthy 8 [] evs Hev) as (evs' & Hr & Hev' & Hd').
  { rewrite Hd. cbn. lia. }
  destruct (frame_lengths h p rest) as (E1 & E2 & E3).
  exists (take 8 (delivered evs)), evs'. rewrite Hd, E3 in Hd'. rewrite Hd.
  rewrite Hr, Hd. cbn [app] in *. rewrite E1, E2.
  by rewrite !from_to_le_bytes by done.
Qed.

(** A frame that arrived whole: its header decides what is read, and the
    stream is left at the next frame. *)
Lemma read_framed (header p rest : bytes) evs :
  (N.of_nat (length header) ≤ MAX_FRAME)%N → (N.of_nat (length p) ≤ MAX_FRAME)%N →
  Forall healthy evs → delivered evs = framed header p ++ rest →
  ∃ evs', read evs = match from_slice header with
      | None => Err (InvalidData "bad frame header")
      | Some f => Ok (Some (if Msg.is_unknown (fr_msg f)
          then f <| fr_unknown_t := default EmptyString (value_from_slice header ≫= λ v, as_str (index "t" v)) |>
          else f, p, evs'))
      end ∧ Forall healthy evs' ∧ delivered evs' = rest.
Proof.
  intros Hf Hp Hev Hd. unfold framed in Hd. rewrite <-!app_assoc in Hd. unfold MAX_FRAME in *.
  edestruct (read_lengths) as (lens & evs1 & Hr & Hev1 & Hd1 & E1 & E2);
    [| |exact Hev|exact Hd|]; [lia|lia|].
  unfold read_frame. rewrite Hr, E1, E2. unfold MAX_FRAME.
  rewrite !bool_decide_eq_false_2 by lia. cbn [orb]. rewrite !Nat2N.id.
  destruct (read_exact_healthy (length header) [] evs1) as (evs2 & -> & Hev2 & Hd2);
    [done|rewrite Hd1, !length_app; lia|].
  rewrite Hd1, drop_app_length in Hd2.
  destruct (read_exact_healthy (length p) [] evs2) as (evs3 & -> & Hev3 & Hd3);
    [done|rewrite Hd2, !length_app; lia|].
  rewrite Hd2, drop_app_length in Hd3. rewrite Hd1, Hd2, !take_app_length. cbn [app].
  exists evs3. destruct (from_slice header) as [f|]; [|done]. by destruct (Msg.is_unknown _).
Qed.

(** Reading what was written gives the frame and its payload back, and leaves
    the stream at the next frame, however the bytes were split into reads and
    however often a read was interrupted. *)
Lemma read_write_frame f p rest evs :
  fits f p → Msg.is_unknown (fr_msg f) = false →
  from_slice (to_vec f) = Some f →
  Forall healthy evs → delivered evs = write f p ++ rest →
  ∃ evs', read evs = Ok (Some (f, p, evs')) ∧
    Forall healthy evs' ∧ delivered evs' = rest.
Proof.
  intros [Hf Hp] Hu Henc Hev Hd.
  destruct (read_framed (to_vec f) p rest evs Hf Hp Hev Hd) as (evs' & Hr & Hrest).
  rewrite Henc, Hu in Hr. eauto.
Qed.

Lemma read_ended evs : Forall healthy evs → delivered evs = [] → read evs = Ok None.
Proof.
  intros Hev Hd. unfold read_frame. rewrite read_exact_or_eof_short by (rewrite ?Hd; cbn; done || lia). by rewrite Hd.
Qed.

(** A link's reader gives back exactly the frames and payloads that were
    written to it, in order, and then the end of the link, however the
    connection split the bytes and however often a read was interrupted. *)
Theorem frames_read_back (sent : list (Frame * bytes)) evs fuel :
  Forall (λ '(f, p), fits f p ∧ Msg.is_unknown (fr_msg f) = false ∧ from_slice (to_vec f) = Some f) sent →
  Forall healthy evs → delivered evs = sent ≫= (λ '(f, p), write f p) → length sent < fuel →
  read_all from_slice value_from_slice fuel evs = Ok sent.
Proof.
  intros Hs. revert evs fuel. induction Hs as [|[f p] sent (Hf & Hu & Henc) Hs IH]; intros evs fuel Hev Hd Hl;
    (destruct fuel as [|fuel]; [cbn in Hl; lia|]); cbn [read_all].
  - by rewrite read_ended.
  - destruct (read_write_frame f p _ evs Hf Hu Henc Hev Hd) as (evs' & -> & Hev' & Hd').
    rewrite (IH evs' fuel) by (done || cbn in Hl; lia). done.
Qed.

(** A length prefix over [MAX_FRAME] is refused from the eight length
    bytes alone, before any header or payload byte is read. *)
Theorem read_frame_oversize (h p : N) rest evs :
  (h < 2 ^ 32)%N → (p < 2 ^ 32)%N → (MAX_FRAME < h ∨ MAX_FRAME < p)%N →
  Forall healthy evs → delivered evs = to_le_bytes h ++ to_le_bytes p ++ rest →
  ∃ e, read evs = Err (InvalidData e).
Proof.
  intros Hh Hp Hbig Hev Hd.
  edestruct (read_lengths) as (lens & evs1 & Hr & _ & _ & E1 & E2);
    [| |exact Hev|exact Hd|]; [done|done|].
  unfold read_frame. rewrite Hr, E1, E2.
  destruct Hbig as [Hb|Hb]; rewrite (bool_decide_eq_true_2 _ Hb), ?orb_true_r; eauto.
Qed.

(** A stream that ends on a frame boundary is the clean end of the link,
    and one that ends inside a frame is an error. *)
Theorem read_frame_truncated f p k evs :
  fits f p → k < length (write f p) →
  Forall healthy evs → delivered evs = take k (write f p) →
  read evs = if decide (k = 0) then Ok None else Err UnexpectedEof.
Proof.
  intros [Hf Hp] Hk Hev Hd. unfold MAX_FRAME in *.
  assert (length (delivered evs) = k) as Hlen by (rewrite Hd, length_take; lia).
  unfold read_frame. destruct (decide (k < 8)) as [Hk8|Hk8].
  { rewrite read_exact_or_eof_short by (done || lia). cbn [app].
    destruct (delivered evs); cbn [nonempty length] in *; case_decide; try done; lia. }
  unfold write_frame, framed in Hd, Hk. rewrite !length_app, !to_le_bytes_length in Hk.
  rewrite take_app_ge, take_app_ge in Hd by (rewrite !to_le_bytes_length; lia).
  rewrite !to_le_bytes_length in Hd.
  edestruct (read_lengths) as (lens & evs1 & Hr & Hev1 & Hd1 & E1 & E2);
    [| |exact Hev|exact Hd|]; [lia|lia|].
  rewrite Hr, E1, E2. unfold MAX_FRAME.
  rewrite !bool_decide_eq_false_2 by lia. cbn [orb]. rewrite !Nat2N.id.
  rewrite decide_False by lia.
  assert (length (delivered evs1) = k - 4 - 4) as Hl1.
  { rewrite Hd1, length_take, length_app. lia. }
  destruct (decide (k - 4 - 4 < length (to_vec f))).
  { by rewrite read_exact_short by (done || lia). }
  destruct (read_exact_healthy (length (to_vec f)) [] evs1) as (evs2 & -> & Hev2 & Hd2);
    [done|lia|].
  rewrite read_exact_short; [done|done|]. rewrite Hd2, length_drop. lia.
Qed.
End framing_theorems.

(** A codec for one frame, to run the theorems on. *)
Definition ping_frame : Frame := frame_new 7 Msg.Ping.
Definition ping_to_vec (_ : Frame) : bytes := [x7b; x7d].
Definition ping_from_slice (bs : bytes) : option Frame :=
  if bool_decide (bs = [x7b; x7d]) then Some ping_frame else None.
Definition ping_stream : list ReadEvent :=
  [Interrupted; Data [x02; x00; x00]; Data [x00; x01; x00; x00; x00; x7b; x7d];
   Interrupted; Data [x41; x02]].

Lemma frames_read_back_witness :
  read_all ping_from_slice (λ _, None) 3
    [Data [x02]; Interrupted; Data [x00; x00; x00; x01; x00; x00; x00; x7b; x7d; x41; x02; x00; x00; x00; x00]; Data [x00; x00; x00; x7b; x7d]]
  = Ok [(ping_frame, [x41]); (ping_frame, [])].
Proof.
  apply (frames_read_back ping_to_vec ping_from_slice (λ _, None)).
  - repeat constructor; vm_compute; discriminate.
  - repeat constructor.
  - by vm_compute.
  - cbn. lia.
Defined.

Lemma read_frame_oversize_witness :
  ∃ e, read_frame ping_from_slice (λ _, None)
         [Data (to_le_bytes 2 ++ to_le_bytes (MAX_FRAME + 1) ++ [])] = Err (InvalidData e).
Proof.
  apply (read_frame_oversize ping_from_slice (λ _, None) 2 (MAX_FRAME + 1) []).
  - vm_compute. reflexivity.
  - vm_compute. reflexivity.
  - right. vm_compute. reflexivity.
  - repeat constructor.
  - vm_compute. reflexivity.
Defined.

Lemma read_frame_truncated_witness :
  read_frame ping_from_slice (λ _, None) [Data [x02; x00; x00]] = Err UnexpectedEof.
Proof.
  apply (read_frame_truncated ping_to_vec ping_from_slice (λ _, None) ping_frame [x41] 3).
  - split; vm_compute; discriminate.
  - vm_compute. lia.
  - repeat constructor.
  - vm_compute. reflexivity.
Defined.

End Framing.
