(* ===== verification/Codec.v ===== *)
(** * The header of a frame as JSON (proto.rs)

    [Proto] has the messages and the framing; here are the header's entries, as
    the attributes on [Frame], [Msg] and the structs a message holds give them:
    the tag [t] in snake case, the flattened message, the defaults, the fields
    left out when empty, and [Unknown] for any other tag. A [Codec] is one
    type's two directions with the law that the reader undoes the writer, and
    the codecs of the structs are built from those of their fields. Header
    text is serde_json's: its printer and parser are parameters, on values
    whose objects repeat no key. *)

From S2P Require Import Prelude Json Proto.

(** ** Codecs *)

Record Codec (A : Type) := mkCodec {
  enc : A → Value;
  dec : Value → option A;
  fits : A → Prop;
  dec_enc x : fits x → dec (enc x) = Some x }.
Arguments mkCodec {_}. Arguments enc {_}. Arguments dec {_}. Arguments fits {_}. Arguments dec_enc {_}.

Definition strc : Codec string.
Proof. by refine (mkCodec Str as_str (λ _, True) _). Defined.
Definition boolc : Codec bool.
Proof. by refine (mkCodec Bool as_bool (λ _, True) _). Defined.
Definition valuec : Codec Value.
Proof. by refine (mkCodec (λ v, v) Some (λ _, True) _). Defined.

(** An unsigned integer below [bound]: a number with a fraction or a sign is
    refused, as is one out of range. *)
Definition uintc (bound : N) : Codec N.
Proof.
  refine (mkCodec JN (λ v, n ← as_u64 v; if decide (n < bound)%N then Some n else None) (λ n, (n < bound)%N) _).
  intros n Hn. cbn. by rewrite decide_True.
Defined.
Definition u16c : Codec N := uintc 65536.
Definition u32c : Codec N := uintc 4294967296.
Definition u64c : Codec N := uintc u64_modulus.

Definition in_i32 (z : Z) : Prop := (-2147483648 ≤ z < 2147483648)%Z.
#[export] Instance in_i32_dec z : Decision (in_i32 z).
Proof. unfold in_i32. apply _. Defined.

Definition as_int (v : Value) : option Z :=
  match v with Num (PosInt n) => Some (Z.of_N n) | Num (NegInt z) => Some z | _ => None end.
Definition i32c : Codec Z.
Proof.
  refine (mkCodec (λ z, if decide (z < 0)%Z then Num (NegInt z) else JN (Z.to_N z))
            (λ v, z ← as_int v; if decide (in_i32 z) then Some z else None) in_i32 _).
  intros z Hz. case_decide; cbn; [by rewrite decide_True|]. rewrite Z2N.id by lia. by rewrite decide_True.
Defined.

(** A float that is not finite is written as null. *)
Definition f64c : Codec f64.
Proof.
  refine (mkCodec (λ f, if f64_is_finite f then Num (Float f) else Null) as_f64 (λ f, f64_is_finite f = true) _).
  by intros f ->.
Defined.

Lemma mapM_enc {A B} (f : A → B) (g : B → option A) (P : A → Prop) (l : list A) :
  (∀ x, P x → g (f x) = Some x) → Forall P l → mapM g (f <$> l) = Some l.
Proof. intros Hg. induction 1 as [|x l Hx Hl IH]; [done|]. cbn. rewrite Hg by done. cbn. by rewrite IH. Qed.

Definition listc {A} (c : Codec A) : Codec (list A).
Proof.
  refine (mkCodec (λ l, Arr (enc c <$> l)) (λ v, l ← as_array v; mapM (dec c) l) (Forall (fits c)) _).
  intros l Hl. cbn. eapply mapM_enc; [apply dec_enc|done].
Defined.

(** A [BTreeMap<String, A>]. *)
Definition entry {A} (c : Codec A) (kv : string * Value) : option (string * A) :=
  x ← dec c kv.2; Some (kv.1, x).
Definition mapc {A} (c : Codec A) : Codec (gmap string A).
Proof.
  refine (mkCodec (Jmap (enc c)) (λ v, l ← as_object v; collect_map <$> mapM (entry c) l) (map_Forall (λ _, fits c)) _).
  intros m Hm. cbn. erewrite mapM_enc with (P := λ kv, fits c kv.2).
  - cbn. by rewrite collect_bt_iter.
  - intros [k x] Hx. unfold entry. cbn. by rewrite dec_enc.
  - apply list.Forall_forall. intros [k x] Hx%elem_of_bt_iter. by apply (Hm k).
Defined.

(** An [Option]: None is null, so a value that is written as null would read
    back as None. *)
Definition optc {A} (c : Codec A) : Codec (option A).
Proof.
  refine (mkCodec (Jopt (enc c)) (λ v, if is_null v then Some None else Some <$> dec c v)
            (λ o, match o with Some x => fits c x ∧ is_null (enc c x) = false | None => True end) _).
  intros [x|] H; [|done]. destruct H as [Hx Hn]. cbn. rewrite Hn. by rewrite dec_enc.
Defined.

(** ** Fields *)

Abbreviation Entries := (list (string * Value)) (only parsing).

Section fields.
Context {A : Type} (name : string) (c : Codec A).

Definition req (m : Entries) : option A := v ← obj_get name m; dec c v.
(** [#[serde(default)]] *)
Definition deflt (d : A) (m : Entries) : option A :=
  match obj_get name m with Some v => dec c v | None => Some d end.
(** A missing [Option] field is None. *)
Definition opt (m : Entries) : option (option A) :=
  match obj_get name m with Some v => dec (optc c) v | None => Some None end.
End fields.

(** A struct is also read from an array of its fields in order. *)
Definition fields_of (names : list string) (v : Value) : option Entries :=
  match v with
  | Obj m => Some m
  | Arr l => if decide (length l ≤ length names) then Some (zip names l) else None
  | _ => None
  end.

(** ** The structs *)

Definition gpu_of (v : Value) : option Gpu :=
  m ← fields_of ["index"; "vendor"; "name"; "memory"; "uma"] v;
  index ← req "index" u32c m; vendor ← req "vendor" strc m; name ← req "name" strc m;
  memory ← req "memory" u64c m; uma ← deflt "uma" boolc false m;
  Some (mkGpu index vendor name memory uma).

Definition service_of (v : Value) : option Service :=
  m ← fields_of ["host"; "port"; "path"; "provider"; "note"] v;
  host ← deflt "host" strc "" m; port ← req "port" u16c m; path ← deflt "path" strc "" m;
  provider ← deflt "provider" strc "" m; note ← deflt "note" strc "" m;
  Some (mkService host port path provider note).

Definition resume_json (r : ResumeActor) : Value :=
  obj_of [("actor_id", Str (r_actor_id r)); ("name", Str (r_name r)); ("gpu_ids", Jnums (r_gpu_ids r));
          ("pid", JN (r_pid r)); ("owner", Str (r_owner r)); ("pending_refs", Jstrs (r_pending_refs r))].
Definition resume_of (v : Value) : option ResumeActor :=
  m ← fields_of ["actor_id"; "name"; "gpu_ids"; "pid"; "owner"; "pending_refs"] v;
  actor_id ← req "actor_id" strc m; name ← req "name" strc m; gpu_ids ← req "gpu_ids" (listc u32c) m;
  pid ← req "pid" u32c m; owner ← deflt "owner" strc "" m; pending ← req "pending_refs" (listc strc) m;
  Some (mkResume actor_id name gpu_ids pid owner pending).

(** The last entry of a key, which is the one an object keeps. *)
Fixpoint last_of (k : string) (l : Entries) : option Value :=
  match l with
  | [] => None
  | (k', v) :: l => match last_of k l with Some w => Some w | None => if String.eqb k k' then Some v else None end
  end.

Lemma obj_get_of k l : obj_get k (entries (obj_of l)) = last_of k l.
Proof.
  assert (∀ m, obj_get k (foldl (λ m '(k, v), obj_insert k v m) m l)
    = match last_of k l with Some w => Some w | None => obj_get k m end) as H.
  { induction l as [|[k' v] l IH]; intros m; cbn [foldl last_of]; [done|]. rewrite IH, obj_get_insert.
    destruct (last_of k l); [done|]. destruct (String.eqb_spec k k'); by case_decide. }
  etransitivity; [exact (H [])|]. by destruct (last_of k l).
Qed.

Lemma obj_of_entries l : obj_of l = Obj (entries (obj_of l)).
Proof. done. Qed.

Lemma bind_dec {A B} (c : Codec A) v x (k : A → option B) r :
  v = enc c x → fits c x → k x = r → dec c v ≫= k = r.
Proof. intros -> Hx <-. by rewrite dec_enc. Qed.

Lemma fits_strs l : fits (listc strc) l.
Proof. by apply list.Forall_forall. Qed.
Lemma fits_strmap m : fits (mapc strc) m.
Proof. done. Qed.
Lemma fits_tags m : fits (mapc (listc strc)) m.
Proof. intros k l _. apply fits_strs. Qed.
Lemma fits_values l : fits (listc valuec) l.
Proof. by apply list.Forall_forall. Qed.
Lemma fits_opt_str o : fits (optc strc) o.
Proof. by destruct o. Qed.
Create HintDb codec.
#[export] Hint Resolve fits_opt_str fits_strs fits_strmap fits_tags fits_values : codec.
#[export] Hint Extern 1 (fits _ _) => exact I : codec.

(** Read back, field by field, a struct or a message that was just written. *)
Ltac read_fields :=
  repeat (unfold req at 1 || unfold deflt at 1 || unfold opt at 1);
  rewrite !obj_get_of; cbn [last_of app String.eqb Ascii.eqb Bool.eqb mbind option_bind].
Ltac read_back :=
  read_fields; repeat (eapply bind_dec; [reflexivity|eauto with codec; fail|]); try reflexivity.
Ltac read_struct := rewrite obj_of_entries; cbn [fields_of mbind option_bind]; read_back.

Definition gpuc : Codec Gpu.
Proof.
  refine (mkCodec gpu_json gpu_of (λ g, fits u32c (g_index g) ∧ fits u64c (g_memory g)) _).
  intros [i v n m u] [Hi Hm]. unfold gpu_of, gpu_json. cbn [g_index g_vendor g_name g_memory g_uma] in *. read_struct.
Defined.

Definition servicec : Codec Service.
Proof.
  refine (mkCodec service_json service_of (λ s, fits u16c (s_port s)) _).
  intros [h po pa pr n] Hp. unfold service_of, service_json. cbn [s_host s_port s_path s_provider s_note] in *. read_struct.
Defined.

Definition resumec : Codec ResumeActor.
Proof.
  refine (mkCodec resume_json resume_of (λ r, fits (listc u32c) (r_gpu_ids r) ∧ fits u32c (r_pid r)) _).
  intros [a n g p o r] [Hg Hp]. unfold resume_of, resume_json.
  cbn [r_actor_id r_name r_gpu_ids r_pid r_owner r_pending_refs] in *. read_struct.
Defined.

Definition machine_of (v : Value) : option Machine :=
  m ← fields_of ["memory"; "cpus"; "gpus"] v;
  memory ← req "memory" u64c m; cpus ← req "cpus" u32c m; gpus ← req "gpus" (listc gpuc) m;
  Some (mkMachine memory cpus gpus).
Definition machinec : Codec Machine.
Proof.
  refine (mkCodec machine_json machine_of
    (λ m, fits u64c (m_memory m) ∧ fits u32c (m_cpus m) ∧ fits (listc gpuc) (m_gpus m)) _).
  intros [me cp gp] (Hm & Hc & Hg). unfold machine_of, machine_json. cbn [m_memory m_cpus m_gpus] in *. read_struct.
Defined.
(** ** Messages *)

(** [skip_serializing_if] with [String::is_empty] *)
Definition unless_empty (k s : string) : Entries := if str_empty s then [] else [(k, Str s)].

(** The tag of a message and its fields in order. *)
Definition msg_fields (m : Msg.t) : string * Entries :=
match m with
(* client to daemon *)
| Msg.Hello proto client_id group session kind node_ip =>
    ("hello", [("proto", Str proto); ("client_id", Str client_id); ("group", Str group);
      ("session", Bool session); ("kind", Str kind); ("node_ip", Str node_ip)])
| Msg.Nodes => ("nodes", [])
| Msg.Resources => ("resources", [])
| Msg.Available => ("available", [])
| Msg.Claim name shape => ("claim", [("name", Str name); ("shape", shape)])
| Msg.PgCreate bundles strategy claim =>
    ("pg_create", [("bundles", Jnums bundles); ("strategy", Str strategy); ("claim", Str claim)])
| Msg.PgTable pg_id => ("pg_table", [("pg_id", Str pg_id)])
| Msg.PgRemove pg_id => ("pg_remove", [("pg_id", Str pg_id)])
| Msg.ActorCreate name num_gpus pg_id bundle_index env =>
    ("actor_create", [("name", Str name); ("num_gpus", JN num_gpus); ("pg_id", Str pg_id);
      ("bundle_index", JN bundle_index); ("env", Jstrmap env)])
| Msg.ActorCall actor_id method => ("actor_call", [("actor_id", Str actor_id); ("method", Str method)])
| Msg.RefGet ref_id timeout_ms => ("ref_get", [("ref_id", Str ref_id); ("timeout_ms", Jopt JN timeout_ms)])
| Msg.RefWait ref_ids num_returns timeout_ms =>
    ("ref_wait", [("ref_ids", Jstrs ref_ids); ("num_returns", JN num_returns);
      ("timeout_ms", Jopt JN timeout_ms)])
| Msg.Status group => ("status", [("group", Jopt Str group)])
| Msg.ActorStop group all => ("actor_stop", [("group", Str group); ("all", Bool all)])
(* daemon to client *)
| Msg.Ok => ("ok", [])
| Msg.Err error code head proto =>
    ("err", ("error", Str error) :: unless_empty "code" code ++ unless_empty "head" head ++ unless_empty "proto" proto)
| Msg.HelloOk proto node_id node_ip control_addr head_node_id =>
    ("hello_ok", [("proto", Str proto); ("node_id", Str node_id); ("node_ip", Str node_ip);
      ("control_addr", Str control_addr); ("head_node_id", Str head_node_id)])
| Msg.NodesOk nodes => ("nodes_ok", [("nodes", enc (listc valuec) nodes)])
| Msg.ResourcesOk resources => ("resources_ok", [("resources", enc (mapc f64c) resources)])
| Msg.AvailableOk nodes => ("available_ok", [("nodes", enc (mapc (mapc f64c)) nodes)])
| Msg.ClaimOk name generation head_node_id view =>
    ("claim_ok", [("name", Str name); ("generation", JN generation); ("head_node_id", Str head_node_id);
      ("view", view)])
| Msg.PgCreateOk pg_id => ("pg_create_ok", [("pg_id", Str pg_id)])
| Msg.PgTableOk table => ("pg_table_ok", [("table", table)])
| Msg.ActorCreateOk actor_id node_id gpu_ids =>
    ("actor_create_ok", [("actor_id", Str actor_id); ("node_id", Str node_id); ("gpu_ids", Jnums gpu_ids)])
| Msg.ActorCallOk ref_id => ("actor_call_ok", [("ref_id", Str ref_id)])
| Msg.RefGetOk status reason => ("ref_get_ok", [("status", Str status); ("reason", Str reason)])
| Msg.RefWaitOk ready => ("ref_wait_ok", [("ready", Jstrs ready)])
| Msg.StatusOk snapshot => ("status_ok", [("snapshot", snapshot)])
(* agent and daemon *)
| Msg.AgentRegister proto agent_id group node_ip container pid machine services resume unacked_refs meta =>
    ("agent_register", [("proto", Str proto); ("agent_id", Str agent_id); ("group", Str group);
      ("node_ip", Str node_ip); ("container", Str container); ("pid", JN pid);
      ("machine", machine_json machine); ("services", Jmap service_json services);
      ("resume", Arr (resume_json <$> resume)); ("unacked_refs", Jstrs unacked_refs); ("meta", Jstrmap meta)])
| Msg.AgentRegisterOk proto node_id => ("agent_register_ok", [("proto", Str proto); ("node_id", Str node_id)])
| Msg.ActorSpawn actor_id name env gpu_ids owner =>
    ("actor_spawn", [("actor_id", Str actor_id); ("name", Str name); ("env", Jstrmap env);
      ("gpu_ids", Jnums gpu_ids); ("owner", Str owner)])
| Msg.ActorSpawnResult actor_id ok error pid =>
    ("actor_spawn_result", [("actor_id", Str actor_id); ("ok", Bool ok); ("error", Str error); ("pid", JN pid)])
| Msg.ActorDispatch actor_id ref_id method =>
    ("actor_dispatch", [("actor_id", Str actor_id); ("ref_id", Str ref_id); ("method", Str method)])
| Msg.ActorResult ref_id ok error =>
    ("actor_result", [("ref_id", Str ref_id); ("ok", Bool ok); ("error", Str error)])
| Msg.ActorExit actor_id exit_code signal =>
    ("actor_exit", [("actor_id", Str actor_id); ("exit_code", Jopt (enc i32c) exit_code);
      ("signal", Jopt (enc i32c) signal)])
| Msg.ActorKill actor_id => ("actor_kill", [("actor_id", Str actor_id)])
| Msg.ServiceNote service note => ("service_note", [("service", Str service); ("note", Str note)])
| Msg.Ping => ("ping", [])
| Msg.Pong => ("pong", [])
(* daemon and daemon *)
| Msg.PeerHello proto node_id node_ip control_port http_port addrs addr_tags addr_ifaces =>
    ("peer_hello", [("proto", Str proto); ("node_id", Str node_id); ("node_ip", Str node_ip);
      ("control_port", JN control_port); ("http_port", JN http_port); ("addrs", Jstrs addrs);
      ("addr_tags", Jmap Jstrs addr_tags); ("addr_ifaces", Jstrmap addr_ifaces)])
| Msg.PeerHelloOk proto node_id node_ip control_port http_port addrs addr_tags addr_ifaces =>
    ("peer_hello_ok", [("proto", Str proto); ("node_id", Str node_id); ("node_ip", Str node_ip);
      ("control_port", JN control_port); ("http_port", JN http_port); ("addrs", Jstrs addrs);
      ("addr_tags", Jmap Jstrs addr_tags); ("addr_ifaces", Jstrmap addr_ifaces)])
| Msg.Probe proto node_id => ("probe", [("proto", Str proto); ("node_id", Str node_id)])
| Msg.ProbeOk proto node_id => ("probe_ok", [("proto", Str proto); ("node_id", Str node_id)])
| Msg.PeerStatus snapshot => ("peer_status", [("snapshot", snapshot)])
| Msg.PeerEvent event => ("peer_event", [("event", event)])
(* actor host and agent *)
| Msg.HostHello proto => ("host_hello", [("proto", Str proto)])
| Msg.Ctor proto => ("ctor", [("proto", Str proto)])
| Msg.CtorOk => ("ctor_ok", [])
| Msg.CtorErr error => ("ctor_err", [("error", Str error)])
| Msg.HostCall ref_id method => ("host_call", [("ref_id", Str ref_id); ("method", Str method)])
| Msg.HostResult ref_id ok => ("host_result", [("ref_id", Str ref_id); ("ok", Bool ok)])
| Msg.Unknown => ("unknown", [])
end.

(** How each tag's fields are read, in the order [Msg] declares them. *)
Definition client_tags : list (string * (Entries → option Msg.t)) :=
  [("hello", λ m, proto ← req "proto" strc m; client_id ← req "client_id" strc m; group ← req "group" strc m;
     session ← req "session" boolc m; kind ← req "kind" strc m; node_ip ← deflt "node_ip" strc "" m;
     Some (Msg.Hello proto client_id group session kind node_ip));
   ("nodes", λ _, Some Msg.Nodes);
   ("resources", λ _, Some Msg.Resources);
   ("available", λ _, Some Msg.Available);
   ("claim", λ m, name ← req "name" strc m; shape ← req "shape" valuec m; Some (Msg.Claim name shape));
   ("pg_create", λ m, bundles ← req "bundles" (listc u32c) m; strategy ← req "strategy" strc m;
     claim ← deflt "claim" strc "" m; Some (Msg.PgCreate bundles strategy claim));
   ("pg_table", λ m, pg_id ← req "pg_id" strc m; Some (Msg.PgTable pg_id));
   ("pg_remove", λ m, pg_id ← req "pg_id" strc m; Some (Msg.PgRemove pg_id));
   ("actor_create", λ m, name ← req "name" strc m; num_gpus ← req "num_gpus" u32c m; pg_id ← req "pg_id" strc m;
     bundle_index ← req "bundle_index" u64c m; env ← req "env" (mapc strc) m;
     Some (Msg.ActorCreate name num_gpus pg_id bundle_index env));
   ("actor_call", λ m, actor_id ← req "actor_id" strc m; method ← req "method" strc m;
     Some (Msg.ActorCall actor_id method));
   ("ref_get", λ m, ref_id ← req "ref_id" strc m; timeout_ms ← opt "timeout_ms" u64c m;
     Some (Msg.RefGet ref_id timeout_ms));
   ("ref_wait", λ m, ref_ids ← req "ref_ids" (listc strc) m; num_returns ← req "num_returns" u64c m;
     timeout_ms ← opt "timeout_ms" u64c m; Some (Msg.RefWait ref_ids num_returns timeout_ms));
   ("status", λ m, group ← opt "group" strc m; Some (Msg.Status group));
   ("actor_stop", λ m, group ← deflt "group" strc "" m; all ← deflt "all" boolc false m;
     Some (Msg.ActorStop group all))].

Definition reply_tags : list (string * (Entries → option Msg.t)) :=
  [("ok", λ _, Some Msg.Ok);
   ("err", λ m, error ← req "error" strc m; code ← deflt "code" strc "" m; head ← deflt "head" strc "" m;
     proto ← deflt "proto" strc "" m; Some (Msg.Err error code head proto));
   ("hello_ok", λ m, proto ← req "proto" strc m; node_id ← req "node_id" strc m; node_ip ← req "node_ip" strc m;
     control_addr ← req "control_addr" strc m; head_node_id ← req "head_node_id" strc m;
     Some (Msg.HelloOk proto node_id node_ip control_addr head_node_id));
   ("nodes_ok", λ m, nodes ← req "nodes" (listc valuec) m; Some (Msg.NodesOk nodes));
   ("resources_ok", λ m, resources ← req "resources" (mapc f64c) m; Some (Msg.ResourcesOk resources));
   ("available_ok", λ m, nodes ← req "nodes" (mapc (mapc f64c)) m; Some (Msg.AvailableOk nodes));
   ("claim_ok", λ m, name ← req "name" strc m; generation ← req "generation" u64c m;
     head_node_id ← req "head_node_id" strc m; view ← req "view" valuec m;
     Some (Msg.ClaimOk name generation head_node_id view));
   ("pg_create_ok", λ m, pg_id ← req "pg_id" strc m; Some (Msg.PgCreateOk pg_id));
   ("pg_table_ok", λ m, table ← req "table" valuec m; Some (Msg.PgTableOk table));
   ("actor_create_ok", λ m, actor_id ← req "actor_id" strc m; node_id ← req "node_id" strc m;
     gpu_ids ← req "gpu_ids" (listc u32c) m; Some (Msg.ActorCreateOk actor_id node_id gpu_ids));
   ("actor_call_ok", λ m, ref_id ← req "ref_id" strc m; Some (Msg.ActorCallOk ref_id));
   ("ref_get_ok", λ m, status ← req "status" strc m; reason ← deflt "reason" strc "" m;
     Some (Msg.RefGetOk status reason));
   ("ref_wait_ok", λ m, ready ← req "ready" (listc strc) m; Some (Msg.RefWaitOk ready));
   ("status_ok", λ m, snapshot ← req "snapshot" valuec m; Some (Msg.StatusOk snapshot))].

Definition agent_tags : list (string * (Entries → option Msg.t)) :=
  [("agent_register", λ m, proto ← req "proto" strc m; agent_id ← req "agent_id" strc m;
     group ← req "group" strc m; node_ip ← req "node_ip" strc m; container ← req "container" strc m;
     pid ← req "pid" u32c m; machine ← req "machine" machinec m;
     services ← deflt "services" (mapc servicec) ∅ m; resume ← deflt "resume" (listc resumec) [] m;
     unacked_refs ← deflt "unacked_refs" (listc strc) [] m; meta ← deflt "meta" (mapc strc) ∅ m;
     Some (Msg.AgentRegister proto agent_id group node_ip container pid machine services resume unacked_refs meta));
   ("agent_register_ok", λ m, proto ← req "proto" strc m; node_id ← req "node_id" strc m;
     Some (Msg.AgentRegisterOk proto node_id));
   ("actor_spawn", λ m, actor_id ← req "actor_id" strc m; name ← req "name" strc m; env ← req "env" (mapc strc) m;
     gpu_ids ← req "gpu_ids" (listc u32c) m; owner ← req "owner" strc m;
     Some (Msg.ActorSpawn actor_id name env gpu_ids owner));
   ("actor_spawn_result", λ m, actor_id ← req "actor_id" strc m; ok ← req "ok" boolc m;
     error ← deflt "error" strc "" m; pid ← deflt "pid" u32c 0%N m;
     Some (Msg.ActorSpawnResult actor_id ok error pid));
   ("actor_dispatch", λ m, actor_id ← req "actor_id" strc m; ref_id ← req "ref_id" strc m;
     method ← req "method" strc m; Some (Msg.ActorDispatch actor_id ref_id method));
   ("actor_result", λ m, ref_id ← req "ref_id" strc m; ok ← req "ok" boolc m; error ← deflt "error" strc "" m;
     Some (Msg.ActorResult ref_id ok error));
   ("actor_exit", λ m, actor_id ← req "actor_id" strc m; exit_code ← opt "exit_code" i32c m;
     signal ← opt "signal" i32c m; Some (Msg.ActorExit actor_id exit_code signal));
   ("actor_kill", λ m, actor_id ← req "actor_id" strc m; Some (Msg.ActorKill actor_id));
   ("service_note", λ m, service ← req "service" strc m; note ← req "note" strc m;
     Some (Msg.ServiceNote service note));
   ("ping", λ _, Some Msg.Ping);
   ("pong", λ _, Some Msg.Pong)].

Definition mesh_tags : list (string * (Entries → option Msg.t)) :=
  [("peer_hello", λ m, proto ← req "proto" strc m; node_id ← req "node_id" strc m; node_ip ← req "node_ip" strc m;
     control_port ← req "control_port" u16c m; http_port ← req "http_port" u16c m;
     addrs ← req "addrs" (listc strc) m; addr_tags ← req "addr_tags" (mapc (listc strc)) m;
     addr_ifaces ← req "addr_ifaces" (mapc strc) m;
     Some (Msg.PeerHello proto node_id node_ip control_port http_port addrs addr_tags addr_ifaces));
   ("peer_hello_ok", λ m, proto ← req "proto" strc m; node_id ← req "node_id" strc m;
     node_ip ← req "node_ip" strc m; control_port ← req "control_port" u16c m;
     http_port ← req "http_port" u16c m; addrs ← req "addrs" (listc strc) m;
     addr_tags ← req "addr_tags" (mapc (listc strc)) m; addr_ifaces ← req "addr_ifaces" (mapc strc) m;
     Some (Msg.PeerHelloOk proto node_id node_ip control_port http_port addrs addr_tags addr_ifaces));
   ("probe", λ m, proto ← req "proto" strc m; node_id ← req "node_id" strc m; Some (Msg.Probe proto node_id));
   ("probe_ok", λ m, proto ← req "proto" strc m; node_id ← req "node_id" strc m; Some (Msg.ProbeOk proto node_id));
   ("peer_status", λ m, snapshot ← req "snapshot" valuec m; Some (Msg.PeerStatus snapshot));
   ("peer_event", λ m, event ← req "event" valuec m; Some (Msg.PeerEvent event))].

Definition host_tags : list (string * (Entries → option Msg.t)) :=
  [("host_hello", λ m, proto ← req "proto" strc m; Some (Msg.HostHello proto));
   ("ctor", λ m, proto ← req "proto" strc m; Some (Msg.Ctor proto));
   ("ctor_ok", λ _, Some Msg.CtorOk);
   ("ctor_err", λ m, error ← deflt "error" strc "" m; Some (Msg.CtorErr error));
   ("host_call", λ m, ref_id ← req "ref_id" strc m; method ← req "method" strc m;
     Some (Msg.HostCall ref_id method));
   ("host_result", λ m, ref_id ← req "ref_id" strc m; ok ← req "ok" boolc m; Some (Msg.HostResult ref_id ok))].

Definition tags := client_tags ++ reply_tags ++ agent_tags ++ mesh_tags ++ host_tags.

Fixpoint reader (t : string) (l : list (string * (Entries → option Msg.t))) : option (Entries → option Msg.t) :=
  match l with [] => None | (k, d) :: l => if String.eqb k t then Some d else reader t l end.

(** The reader of a tag. serde also takes a variant by its place, and a tag
    that names no variant is [Unknown], whatever else the header holds. *)
Definition decoder (t : Value) : option (Entries → option Msg.t) :=
  let unknown := λ _, Some Msg.Unknown in
  match t with
  | Str s => Some (default unknown (reader s tags))
  | Num (PosInt i) => Some (default unknown (snd <$> tags !! N.to_nat i))
  | _ => None
  end.
Definition msg_of (m : Entries) : option Msg.t := t ← obj_get "t" m; d ← decoder t; d m.

(** The header of a frame, whose message is flattened into it. *)
Definition frame_json (f : Frame) : Value :=
  let '(t, fs) := msg_fields (fr_msg f) in obj_of (("req", JN (fr_req f)) :: ("t", Str t) :: fs).
Definition frame_of (v : Value) : option Frame :=
  m ← as_object v; r ← deflt "req" u64c 0%N m; msg ← msg_of m; Some (frame_new r msg).

(** A message within its fields' widths. *)
Definition msg_fits (m : Msg.t) : Prop :=
  match m with
  | Msg.PgCreate bundles _ _ => fits (listc u32c) bundles
  | Msg.ActorCreate _ num_gpus _ bundle_index _ => fits u32c num_gpus ∧ fits u64c bundle_index
  | Msg.RefGet _ timeout_ms => fits (optc u64c) timeout_ms
  | Msg.RefWait _ num_returns timeout_ms => fits u64c num_returns ∧ fits (optc u64c) timeout_ms
  | Msg.ResourcesOk resources => fits (mapc f64c) resources
  | Msg.AvailableOk nodes => fits (mapc (mapc f64c)) nodes
  | Msg.ClaimOk _ generation _ _ => fits u64c generation
  | Msg.ActorCreateOk _ _ gpu_ids => fits (listc u32c) gpu_ids
  | Msg.AgentRegister _ _ _ _ _ pid machine services resume _ _ =>
      fits u32c pid ∧ fits machinec machine ∧ fits (mapc servicec) services ∧ fits (listc resumec) resume
  | Msg.ActorSpawn _ _ _ gpu_ids _ => fits (listc u32c) gpu_ids
  | Msg.ActorSpawnResult _ _ _ pid => fits u32c pid
  | Msg.ActorExit _ exit_code signal => fits (optc i32c) exit_code ∧ fits (optc i32c) signal
  | Msg.PeerHello _ _ _ control_port http_port _ _ _ => fits u16c control_port ∧ fits u16c http_port
  | Msg.PeerHelloOk _ _ _ control_port http_port _ _ _ => fits u16c control_port ∧ fits u16c http_port
  | Msg.Unknown => False
  | _ => True
  end.
Definition frame_fits (f : Frame) : Prop :=
  fits u64c (fr_req f) ∧ msg_fits (fr_msg f) ∧ fr_unknown_t f = "".


(** ** What is written is read back *)

Lemma last_of_app k l l' : last_of k (l ++ l') = match last_of k l' with Some v => Some v | None => last_of k l end.
Proof.
  induction l as [|[k' v] l IH]; cbn; [by destruct (last_of k l')|]. rewrite IH. by destruct (last_of k l').
Qed.
Lemma last_of_unless k k' s :
  last_of k (unless_empty k' s) = if String.eqb k k' then if str_empty s then None else Some (Str s) else None.
Proof. unfold unless_empty. destruct (str_empty s); cbn; by destruct (String.eqb k k'). Qed.

(** Pick the reader of a tag that is known. *)
Ltac find_reader :=
  match goal with |- context [decoder ?t] =>
    let d := eval cbv [decoder tags client_tags reply_tags agent_tags mesh_tags host_tags app reader
                       String.eqb Ascii.eqb Bool.eqb default from_option id] in (decoder t) in
    change (decoder t) with d end;
  cbn [mbind option_bind].

Lemma err_read_back r error code head proto :
  msg_of (entries (frame_json (mkFrame r (Msg.Err error code head proto) ""))) = Some (Msg.Err error code head proto).
Proof.
  unfold msg_of, frame_json. cbn [fr_msg fr_req msg_fields]. rewrite obj_get_of.
  cbn [last_of]. rewrite !last_of_app, !last_of_unless. cbn [String.eqb Ascii.eqb Bool.eqb mbind option_bind].
  find_reader. unfold req, deflt. rewrite !obj_get_of. cbn [last_of]. rewrite !last_of_app, !last_of_unless.
  cbn [String.eqb Ascii.eqb Bool.eqb last_of].
  destruct code, head, proto; reflexivity.
Qed.

Lemma msg_read_back r m : msg_fits m →
  msg_of (entries (frame_json (mkFrame r m ""))) = Some m.
Proof.
  destruct m; intros Hm; [..|done]; try apply err_read_back; unfold msg_of, frame_json; cbn [fr_msg fr_req msg_fields];
    rewrite obj_get_of; cbn [last_of String.eqb Ascii.eqb Bool.eqb mbind option_bind]; find_reader;
    cbn [msg_fits] in Hm; destruct_and?; try reflexivity; read_back.
Qed.

Lemma frame_read_back f : frame_fits f → frame_of (frame_json f) = Some f.
Proof.
  destruct f as [r m u]. intros (Hr & Hm & Hu). cbn [fr_req fr_msg fr_unknown_t] in *. subst u.
  unfold frame_of. assert (frame_json (mkFrame r m "") = Obj (entries (frame_json (mkFrame r m "")))) as ->.
  { unfold frame_json. by destruct (msg_fields _). }
  cbn [as_object mbind option_bind]. rewrite msg_read_back by done.
  unfold deflt, frame_json. cbn [fr_msg fr_req]. destruct (msg_fields m) as [t fs] eqn:Hfs.
  rewrite obj_get_of. cbn [last_of].
  assert (last_of "req" fs = None) as ->.
  { destruct m; cbn [msg_fields] in Hfs; injection Hfs as <- <-; try reflexivity.
    cbn [last_of]. by rewrite !last_of_app, !last_of_unless. }
  cbn [String.eqb Ascii.eqb Bool.eqb]. by rewrite (dec_enc u64c r Hr : dec u64c (JN r) = Some r).
Qed.

(** A header as bytes: [print] and [parse] are serde_json's on a value. *)
Section header_text.
Context (print : Value → bytes) (parse : bytes → option Value).

Definition to_vec (f : Frame) : bytes := print (frame_json f).
Definition from_slice (bs : bytes) : option Frame := parse bs ≫= frame_of.

(** C13: A link's reader gives back exactly the frames and payloads that were
    written to it, in order, and then the end of the link: every message, with
    numbers of its fields' widths, survives its JSON header, and the frames
    survive any split of the bytes and any interrupted read. *)
Theorem messages_read_back (sent : list (Frame * bytes)) evs fuel :
  Forall (λ '(f, p), frame_fits f ∧ Framing.fits to_vec f p ∧
            parse (print (frame_json f)) = Some (frame_json f)) sent →
  Forall Framing.healthy evs →
  Framing.delivered evs = sent ≫= (λ '(f, p), Framing.write_frame to_vec f p) →
  length sent < fuel →
  Framing.read_all from_slice parse fuel evs = Ok sent.
Proof.
  intros Hs. apply Framing.frames_read_back, (list.Forall_impl _ _ _ Hs).
  intros [f p] (Hf & Hp & Ht). repeat split; [apply Hp|apply Hp| |].
  - destruct f as [r m u]. destruct Hf as (_ & Hm & _). cbn in *. by destruct m.
  - unfold from_slice, to_vec. rewrite Ht. by apply frame_read_back.
Qed.
End header_text.

(** ** A header from a later minor *)

Definition field_names : list string :=
  ["req"; "t"; "proto"; "client_id"; "group"; "session"; "kind"; "node_ip"; "name"; "shape"; "bundles"; "strategy";
   "claim"; "pg_id"; "num_gpus"; "bundle_index"; "env"; "actor_id"; "method"; "ref_id"; "timeout_ms"; "ref_ids";
   "num_returns"; "all"; "error"; "code"; "head"; "node_id"; "control_addr"; "head_node_id"; "nodes"; "resources";
   "generation"; "view"; "table"; "gpu_ids"; "status"; "reason"; "ready"; "snapshot"; "agent_id"; "container"; "pid";
   "machine"; "services"; "resume"; "unacked_refs"; "meta"; "owner"; "ok"; "exit_code"; "signal"; "service"; "note";
   "control_port"; "http_port"; "addrs"; "addr_tags"; "addr_ifaces"; "event"].

Lemma known_name n : existsb (String.eqb n) field_names = true → n ∈ field_names.
Proof. intros (x & Hx & ->%String.eqb_eq)%existsb_exists. by apply list_elem_of_In. Qed.

Section later.
Context (k : string) (v : Value) (m : Entries) (Hk : k ∉ field_names).

Lemma obj_get_known n : existsb (String.eqb n) field_names = true → obj_get n (obj_insert k v m) = obj_get n m.
Proof. intros Hn%known_name. rewrite obj_get_insert. case_decide as He; [|done]. by subst. Qed.
Lemma req_known {A} n (c : Codec A) :
  existsb (String.eqb n) field_names = true → req n c (obj_insert k v m) = req n c m.
Proof. intros Hn. unfold req. by rewrite obj_get_known. Qed.
Lemma deflt_known {A} n (c : Codec A) d :
  existsb (String.eqb n) field_names = true → deflt n c d (obj_insert k v m) = deflt n c d m.
Proof. intros Hn. unfold deflt. by rewrite obj_get_known. Qed.
Lemma opt_known {A} n (c : Codec A) :
  existsb (String.eqb n) field_names = true → opt n c (obj_insert k v m) = opt n c m.
Proof. intros Hn. unfold opt. by rewrite obj_get_known. Qed.

(** No reader looks at a name that is not a field's. *)
Ltac ignore_later :=
  repeat first [rewrite req_known by reflexivity | rewrite deflt_known by reflexivity | rewrite opt_known by reflexivity];
  repeat (apply option_bind_ext_fun; intros ?;
    repeat first [rewrite req_known by reflexivity | rewrite deflt_known by reflexivity | rewrite opt_known by reflexivity]);
  reflexivity.

Lemma readers_ignore : Forall (λ d, d.2 (obj_insert k v m) = d.2 m) tags.
Proof.
  unfold tags, client_tags, reply_tags, agent_tags, mesh_tags, host_tags. cbn [app].
  repeat apply Forall_cons_2; [..|apply Forall_nil_2]; cbn [snd]; ignore_later.
Qed.

Lemma reader_elem t l d : reader t l = Some d → (t, d) ∈ l.
Proof.
  induction l as [|[k' d'] l IH]; cbn; [done|]. destruct (String.eqb_spec k' t) as [->|]; [intros [= ->]; left|].
  intros H. right. by apply IH.
Qed.

Lemma decoder_ignores t d : decoder t = Some d → d (obj_insert k v m) = d m.
Proof.
  assert (∀ r, (∀ d, r = Some d → ∃ n, (n, d) ∈ tags) →
    default (λ _, Some Msg.Unknown) r (obj_insert k v m) = default (λ _, Some Msg.Unknown) r m) as H.
  { intros [d'|] Hr; [|done]. destruct (Hr d' eq_refl) as [n Hin].
    pose proof readers_ignore as Hall. rewrite list.Forall_forall in Hall. exact (Hall _ Hin). }
  destruct t as [| |[i| |]|s| |]; cbn [decoder]; try done; intros [= <-]; apply H; intros d Hd.
  - destruct (tags !! N.to_nat i) as [[n d']|] eqn:Ht; [|done]. injection Hd as <-.
    exists n. by apply list_elem_of_lookup_2 in Ht.
  - exists s. by apply reader_elem.
Qed.

Lemma frame_ignores : frame_of (Obj (obj_insert k v m)) = frame_of (Obj m).
Proof.
  unfold frame_of. cbn [as_object mbind option_bind]. rewrite deflt_known by reflexivity.
  unfold msg_of. rewrite obj_get_known by reflexivity.
  destruct (obj_get "t" m) as [t|]; [|done]. cbn [mbind option_bind].
  destruct (decoder t) as [d|] eqn:Hd; [|done]. cbn [mbind option_bind]. by rewrite (decoder_ignores t d Hd).
Qed.
End later.

Lemma unknown_reader t : t ∉ tags.*1 → reader t tags = None.
Proof.
  intros Ht. destruct (reader t tags) as [d|] eqn:Hr; [|done]. destruct Ht.
  apply reader_elem in Hr. apply list_elem_of_fmap. by exists (t, d).
Qed.

(** C14: A minor bump may add a field or a message. A field this build does
    not know changes nothing of what it reads, and a message it does not know
    is read as [Unknown] with its request id, its payload and its tag, for the
    refusal to name, and the link goes on behind it. *)
Theorem later_minor_reads (parse : bytes → option Value) :
  (∀ k v m, k ∉ field_names → frame_of (Obj (obj_insert k v m)) = frame_of (Obj m)) ∧
  (∀ header payload m t r rest evs,
     parse header = Some (Obj m) → obj_get "t" m = Some (Str t) → t ∉ tags.*1 → deflt "req" u64c 0%N m = Some r →
     (N.of_nat (length header) ≤ Framing.MAX_FRAME)%N → (N.of_nat (length payload) ≤ Framing.MAX_FRAME)%N →
     Forall Framing.healthy evs → Framing.delivered evs = Framing.framed header payload ++ rest →
     ∃ evs', Framing.read_frame (from_slice parse) parse evs = Ok (Some (mkFrame r Msg.Unknown t, payload, evs')) ∧
       Forall Framing.healthy evs' ∧ Framing.delivered evs' = rest).
Proof.
  split; [apply frame_ignores|]. intros header payload m t r rest evs Hp Ht Hno Hr Hh Hpl Hev Hd.
  destruct (Framing.read_framed (from_slice parse) parse header payload rest evs Hh Hpl Hev Hd)
    as (evs' & Hread & Hev' & Hd').
  exists evs'. split; [|done]. rewrite Hread. unfold from_slice. rewrite Hp. cbn [mbind option_bind].
  unfold frame_of, msg_of. cbn [as_object mbind option_bind]. rewrite Hr, Ht. cbn [mbind option_bind].
  cbn [decoder]. rewrite unknown_reader by done. cbn. unfold index, get. by rewrite Ht.
Qed.

(** ** Examples, and a concrete text for the theorems *)

Example uma_round_trips :
  let m := mkMachine 137438953472 20 [mkGpu 0 "nvidia" "GB10" 137438953472 true] in
  dec machinec (machine_json m) = Some m.
Proof. by vm_compute. Qed.
Example uma_defaults_to_false :
  g_uma <$> gpu_of (obj_of [("index", JN 1); ("vendor", Str "nvidia"); ("name", Str "RTX 6000"); ("memory", JN 51539607552)])
  = Some false.
Proof. by vm_compute. Qed.
Example a_later_field_is_dropped :
  fr_msg <$> frame_of (obj_of [("req", JN 9); ("t", Str "actor_kill"); ("actor_id", Str "a:1"); ("added_in_1_1", Bool true)])
  = Some (Msg.ActorKill "a:1").
Proof. by vm_compute. Qed.
(** A field out of its width, and a missing one, refuse the header. *)
Example a_wide_count_is_refused :
  frame_of (obj_of [("t", Str "actor_create"); ("name", Str "W"); ("num_gpus", JN 4294967296); ("pg_id", Str "");
                    ("bundle_index", JN 0); ("env", Obj [])]) = None ∧
  frame_of (obj_of [("t", Str "actor_kill")]) = None.
Proof. by vm_compute. Qed.

Definition demo_call : Frame := frame_new 7 (Msg.ActorCall "a:01" "run").
Definition demo_exit : Frame := frame_new 0 (Msg.ActorExit "a:01" (Some (-1)%Z) None).
Definition demo_print (v : Value) : bytes := if decide (as_u64 (index "req" v) = Some 7%N) then [x61] else [x65].
Definition demo_parse (bs : bytes) : option Value :=
  if decide (bs = [x61]) then Some (frame_json demo_call)
  else if decide (bs = [x65]) then Some (frame_json demo_exit)
  else if decide (bs = [x6c]) then Some (obj_of [("req", JN 3); ("t", Str "added_in_1_1")]) else None.

Lemma messages_read_back_witness :
  Framing.read_all (from_slice demo_parse) demo_parse 3
    [Framing.Data [x01]; Framing.Interrupted; Framing.Data [x00; x00; x00; x01; x00; x00; x00; x61; x2a; x01; x00];
     Framing.Data [x00; x00; x00; x00; x00; x00; x65]]
  = Ok [(demo_call, [x2a]); (demo_exit, [])].
Proof.
  apply (messages_read_back demo_print demo_parse).
  - repeat constructor; vm_compute; first [reflexivity | discriminate].
  - repeat constructor.
  - by vm_compute.
  - cbn. lia.
Defined.

Lemma later_minor_reads_witness : ∃ evs',
  Framing.read_frame (from_slice demo_parse) demo_parse
    [Framing.Data [x01; x00; x00; x00; x00]; Framing.Interrupted; Framing.Data [x00; x00; x00; x6c; x05]]
  = Ok (Some (mkFrame 3 Msg.Unknown "added_in_1_1", [], evs')) ∧
  Forall Framing.healthy evs' ∧ Framing.delivered evs' = [x05].
Proof.
  apply (proj2 (later_minor_reads demo_parse) [x6c] [] (entries (obj_of [("req", JN 3); ("t", Str "added_in_1_1")]))
           "added_in_1_1" 3%N [x05]).
  - by vm_compute.
  - by vm_compute.
  - apply (bool_decide_unpack _). by vm_compute.
  - by vm_compute.
  - vm_compute. discriminate.
  - vm_compute. discriminate.
  - repeat constructor.
  - by vm_compute.
Defined.
