(* ===== verification/Addr.v ===== *)
(** * Addresses and node ids (rust/mentatd/src/state.rs)

    [is_loopback] over the textual address forms [std::net::IpAddr] parses,
    and the node id of an address with its inverse. The theorem shows that
    the id determines the address. *)

From S2P Require Import Prelude.

(** ** Digits *)

Definition hex_value (a : ascii) : option N :=
  let n := N_of_ascii a in
  if bool_decide (48 ≤ n ≤ 57)%N then Some (n - 48)%N
  else if bool_decide (97 ≤ n ≤ 102)%N then Some (n - 87)%N
  else if bool_decide (65 ≤ n ≤ 70)%N then Some (n - 55)%N
  else None.

Definition digit_value (radix : N) (a : ascii) : option N :=
  v ← hex_value a; if bool_decide (v < radix)%N then Some v else None.

(** ** [std::net] textual addresses

    The parser of the standard library: a reader takes a prefix of the input
    and returns the rest. *)

Fixpoint read_digits (radix : N) (s : string) : list N * string :=
  match s with
  | String a s' =>
      match digit_value radix a with
      | Some d => let '(ds, r) := read_digits radix s' in (d :: ds, r)
      | None => ([], s)
      end
  | EmptyString => ([], s)
  end.

(** [read_number(radix, max_digits, allow_zero_prefix)] into a type with
    values below [lim]. *)
Definition read_number (radix : N) (max_digits : nat) (allow_zero_prefix : bool) (lim : N)
    (s : string) : option (N * string) :=
  let '(ds, r) := read_digits radix s in
  let n := foldl (λ acc d, radix * acc + d)%N 0%N ds in
  let leading_zero := match ds with 0%N :: _ :: _ => true | _ => false end in
  if negb (nonempty ds) || bool_decide (max_digits < length ds)
     || (negb allow_zero_prefix && leading_zero) || bool_decide (lim ≤ n)%N
  then None else Some (n, r).

Definition read_char (c : ascii) (s : string) : option string :=
  match s with String a s' => if decide (a = c) then Some s' else None | EmptyString => None end.

Definition read_ipv4 (s : string) : option (list N * string) :=
  '(a, s) ← read_number 10 3 false 256 s; s ← read_char "." s;
  '(b, s) ← read_number 10 3 false 256 s; s ← read_char "." s;
  '(c, s) ← read_number 10 3 false 256 s; s ← read_char "." s;
  '(d, s) ← read_number 10 3 false 256 s; Some ([a; b; c; d], s).

(** [read_groups] over the [left] groups not read yet; [first] suppresses
    the separator. The flag tells whether the last two came from a dotted
    quad. *)
Fixpoint read_groups (left : nat) (first : bool) (s : string) : list N * bool * string :=
  match left with
  | 0 => ([], false, s)
  | S left' =>
      let after_sep := if first then Some s else read_char ":" s in
      match (if decide (left' = 0) then None else after_sep ≫= read_ipv4) with
      | Some ([a; b; c; d], r) => ([256 * a + b; 256 * c + d]%N, true, r)
      | _ =>
          match after_sep ≫= read_number 16 4 true 65536 with
          | Some (g, r) =>
              let '(gs, v4, r) := read_groups left' false r in (g :: gs, v4, r)
          | None => ([], false, s)
          end
      end
  end.

Definition read_ipv6 (s : string) : option (list N * string) :=
  let '(head, v4, r) := read_groups 8 true s in
  if decide (length head = 8) then Some (head, r)
  else if v4 then None
  else
    r ← read_char ":" r; r ← read_char ":" r;
    let '(tail, _, r) := read_groups (7 - length head) true r in
    Some (head ++ replicate (8 - length head - length tail) 0%N ++ tail, r).

Definition all_read {A} (o : option (A * string)) : option A :=
  '(x, r) ← o; if str_empty r then Some x else None.

(** Whether [ip] is a loopback address, which every box holds. *)
Definition is_loopback (ip : string) : bool :=
  match all_read (read_ipv4 ip) with
  | Some (a :: _) => bool_decide (a = 127%N)
  | _ =>
      match all_read (read_ipv6 ip) with
      | Some groups => bool_decide (groups = [0; 0; 0; 0; 0; 0; 0; 1]%N)
      | None => false
      end
  end.

Example is_loopback_forms :
  is_loopback "127.0.0.1" = true ∧ is_loopback "127.9.0.1" = true ∧ is_loopback "::1" = true ∧
  is_loopback "0:0:0:0:0:0:0:1" = true ∧ is_loopback "::0.0.0.1" = true ∧
  is_loopback "10.0.0.1" = false ∧ is_loopback "127.00.0.1" = false ∧
  is_loopback "::" = false ∧ is_loopback "" = false ∧ is_loopback "localhost" = false.
Proof. by vm_compute. Qed.

(** ** UTF-8 *)

Definition continuation (n : N) : bool := bool_decide (128 ≤ n < 192)%N.

(** [String::from_utf8] accepts the byte sequences of Unicode's table 3-7. *)
Fixpoint utf8_valid (l : list N) : bool :=
  match l with
  | [] => true
  | a :: l1 =>
      if bool_decide (a < 128)%N then utf8_valid l1
      else if bool_decide (194 ≤ a ≤ 223)%N then
        match l1 with b :: l2 => continuation b && utf8_valid l2 | _ => false end
      else if bool_decide (224 ≤ a ≤ 239)%N then
        match l1 with
        | b :: c :: l3 =>
            continuation b && continuation c
            && negb (bool_decide (a = 224 ∧ b < 160)%N) && negb (bool_decide (a = 237 ∧ 159 < b)%N)
            && utf8_valid l3
        | _ => false
        end
      else if bool_decide (240 ≤ a ≤ 244)%N then
        match l1 with
        | b :: c :: d :: l4 =>
            continuation b && continuation c && continuation d
            && negb (bool_decide (a = 240 ∧ b < 144)%N) && negb (bool_decide (a = 244 ∧ 143 < b)%N)
            && utf8_valid l4
        | _ => false
        end
      else false
  end.

(** ** Node ids *)

Definition hex2 (a : ascii) : string :=
  let n := N_of_ascii a in String (hex_digit (n / 16)) (String (hex_digit (n `mod` 16)) "").
Fixpoint hex_of (s : string) : string :=
  match s with EmptyString => EmptyString | String a s' => hex2 a +:+ hex_of s' end.

Definition pad_zeros (n : nat) (s : string) : string :=
  s +:+ String.concat EmptyString (replicate (n - String.length s) "0").

Definition node_id_for (ip : string) : string :=
  pad_zeros 56 (String.substring 0 56 (hex_of ("mentat:" +:+ ip))).

(** [u8::from_str_radix(s, 16)]: an optional plus sign, then hex digits. *)
Definition u8_from_hex (s : string) : option N :=
  let s := match s with String "+" s' => s' | _ => s end in
  '(n, r) ← read_number 16 (String.length s) true 256 s; if str_empty r then Some n else None.

(** [as_bytes().chunks(2)] *)
Fixpoint chunks2 (s : string) : list string :=
  match s with
  | String a (String b s') => String a (String b EmptyString) :: chunks2 s'
  | String a EmptyString => [String a EmptyString]
  | EmptyString => []
  end.

Fixpoint take_nonzero (l : list N) : list N :=
  match l with [] => [] | n :: l' => if decide (n = 0%N) then [] else n :: take_nonzero l' end.

Fixpoint string_of_Ns (l : list N) : string :=
  match l with [] => EmptyString | n :: l' => String (ascii_of_N n) (string_of_Ns l') end.

Definition strip_prefix (p s : string) : option string :=
  if String.prefix p s
  then Some (String.substring (String.length p) (String.length s - String.length p) s)
  else None.

(** The address a node id was built from, or none if [node_id_for] did not
    build it. *)
Definition node_ip_of (node_id : string) : option string :=
  l ← mapM u8_from_hex (chunks2 node_id);
  let text := take_nonzero l in
  if utf8_valid text then strip_prefix "mentat:" (string_of_Ns text) else None.

(** *** The round trip *)

Fixpoint codes (s : string) : list N :=
  match s with EmptyString => [] | String a s' => N_of_ascii a :: codes s' end.

Lemma app_String a s t : String a s +:+ t = String a (s +:+ t).
Proof. done. Qed.

Lemma string_length_app s t : String.length (s +:+ t) = String.length s + String.length t.
Proof. induction s as [|a s IH]; [done|]. rewrite app_String. cbn. by rewrite IH. Qed.

Lemma substring_all s n : String.length s ≤ n → String.substring 0 n s = s.
Proof.
  revert n. induction s as [|a s IH]; intros [|n] H; cbn in *; [done..|lia|].
  by rewrite IH by lia.
Qed.

Lemma substring_app_r p s n :
  String.length s ≤ n → String.substring (String.length p) n (p +:+ s) = s.
Proof.
  intros Hn. induction p as [|a p IH]; [by apply substring_all|].
  by rewrite app_String.
Qed.

Lemma prefix_app p s : String.prefix p (p +:+ s) = true.
Proof.
  induction p as [|a p IH]; [by destruct s|]. rewrite app_String. cbn.
  by destruct (ascii_dec a a).
Qed.

Lemma strip_prefix_app p s : strip_prefix p (p +:+ s) = Some s.
Proof.
  unfold strip_prefix. rewrite prefix_app, string_length_app. f_equal.
  apply substring_app_r. lia.
Qed.

Lemma hex_of_length s : String.length (hex_of s) = 2 * String.length s.
Proof. induction s as [|a s IH]; [done|]. cbn [hex_of String.length]. rewrite string_length_app, IH. cbn. lia. Qed.

Lemma u8_from_hex2 a : u8_from_hex (hex2 a) = Some (N_of_ascii a).
Proof. by destruct a as [[] [] [] [] [] [] [] []]. Qed.

Lemma chunks_hex s t : chunks2 (hex_of s +:+ t) = (hex2 <$> String.list_ascii_of_string s) ++ chunks2 t.
Proof.
  induction s as [|a s IH]; [done|].
  change (hex2 a :: chunks2 (hex_of s +:+ t) = hex2 a :: ((hex2 <$> String.list_ascii_of_string s) ++ chunks2 t)).
  by rewrite IH.
Qed.

Lemma chunks_zeros k :
  mapM u8_from_hex (chunks2 (String.concat EmptyString (replicate (2 * k) "0"))) = Some (replicate k 0%N).
Proof.
  induction k as [|[|k] IH]; [done|done|].
  replace (2 * S (S k)) with (S (S (2 * S k))) by lia.
  assert (String.concat EmptyString (replicate (S (S (2 * S k))) "0")
          = String "0" (String "0" (String.concat EmptyString (replicate (2 * S k) "0")))) as ->.
  { replace (2 * S k) with (S (S (2 * k))) by lia. done. }
  change (chunks2 (String "0" (String "0" ?s))) with ("00" :: chunks2 s).
  cbn [mapM]. rewrite IH. done.
Qed.

Lemma mapM_hex s l :
  mapM u8_from_hex l = Some (replicate (length l) 0%N) →
  mapM u8_from_hex ((hex2 <$> String.list_ascii_of_string s) ++ l)
    = Some (codes s ++ replicate (length l) 0%N).
Proof.
  intros Hl. induction s as [|a s IH]; [done|].
  cbn [String.list_ascii_of_string fmap list_fmap app mapM].
  rewrite u8_from_hex2. cbn. rewrite IH. done.
Qed.

Lemma take_nonzero_app l k :
  0%N ∉ l → take_nonzero (l ++ replicate k 0%N) = l.
Proof.
  induction l as [|n l IH]; cbn; [by destruct k|]. intros Hn. rewrite elem_of_cons in Hn.
  rewrite decide_False by (intros ->; tauto). f_equal. apply IH. tauto.
Qed.

Lemma string_of_codes s : string_of_Ns (codes s) = s.
Proof. induction s as [|a s IH]; cbn; [done|]. by rewrite IH, ascii_N_embedding. Qed.

Lemma codes_app s t : codes (s +:+ t) = codes s ++ codes t.
Proof. induction s as [|a s IH]; [done|]. rewrite app_String. cbn. by rewrite IH. Qed.

(** The address is read back from the node id built for it, for every
    address of at most 21 bytes, which covers each dotted IPv4 address. A
    longer one is cut by the 56-character shape. *)
Theorem node_ip_of_node_id_for ip :
  String.length ip ≤ 21 → 0%N ∉ codes ip → utf8_valid (codes ip) = true →
  node_ip_of (node_id_for ip) = Some ip.
Proof.
  intros Hl Hz Hu. unfold node_ip_of, node_id_for, pad_zeros.
  assert (String.length (hex_of ("mentat:" +:+ ip)) = 2 * (7 + String.length ip)) as Hlen
    by (by rewrite hex_of_length, string_length_app).
  rewrite substring_all by lia. rewrite chunks_hex, Hlen.
  replace (56 - 2 * (7 + String.length ip)) with (2 * (21 - String.length ip)) by lia.
  set (k := 21 - String.length ip). pose proof (chunks_zeros k) as Hk.
  assert (length (chunks2 (String.concat EmptyString (replicate (2 * k) "0"))) = k) as Hc.
  { apply mapM_Some_1, Forall2_length in Hk. by rewrite length_replicate in Hk. }
  rewrite mapM_hex by (by rewrite Hc). cbn [mbind option_bind].
  rewrite codes_app, take_nonzero_app.
  - assert (utf8_valid (codes "mentat:" ++ codes ip) = true) as -> by done.
    by rewrite <-codes_app, string_of_codes, strip_prefix_app.
  - rewrite elem_of_app. intros [H|H]; [|done]. revert H. cbn. set_solver by lia.
Qed.

(** Two addresses in that range share a node id only if they are equal. *)
Lemma node_id_for_inj ip ip' :
  String.length ip ≤ 21 → 0%N ∉ codes ip → utf8_valid (codes ip) = true →
  String.length ip' ≤ 21 → 0%N ∉ codes ip' → utf8_valid (codes ip') = true →
  node_id_for ip = node_id_for ip' → ip = ip'.
Proof.
  intros H1 H2 H3 H1' H2' H3' E. apply (f_equal node_ip_of) in E.
  rewrite !node_ip_of_node_id_for in E by done. by simplify_eq.
Qed.

(** The bound is sharp: past it two addresses collide. *)
Example node_id_for_collides :
  node_id_for "2001:db8:aaaa:bbbb::cc:1" = node_id_for "2001:db8:aaaa:bbbb::cc:2".
Proof. by vm_compute. Qed.

Lemma node_ip_of_node_id_for_witness :
  node_ip_of (node_id_for "192.168.100.200") = Some "192.168.100.200".
Proof.
  apply node_ip_of_node_id_for.
  - vm_compute. lia.
  - vm_compute. intros H. repeat (apply elem_of_cons in H as [H|H]; [discriminate|]).
    by apply elem_of_nil in H.
  - reflexivity.
Defined.
