(* ===== verification/Pattern.v ===== *)
(** * Searching strings and bytes

    Rust's pattern methods on [str] that several components use, with the
    facts about them: [contains], [split_once] and [strip_suffix] of a string
    pattern, [trim_matches], case-blind equality, and the search of a byte
    slice for a needle. *)

From S2P Require Import Prelude Text Proto Addr.

Fixpoint contains_str (p s : string) : bool :=
  starts_with p s || match s with EmptyString => false | String _ s' => contains_str p s' end.

(** [s.split_once(p)] at the first occurrence of a string. *)
Fixpoint split_once_str (p s : string) : option (string * string) :=
  match strip_prefix p s with
  | Some r => Some (EmptyString, r)
  | None =>
      match s with
      | EmptyString => None
      | String a s' => (λ '(l, r), (String a l, r)) <$> split_once_str p s'
      end
  end.

Definition strip_suffix (p s : string) : option string :=
  String.rev <$> strip_prefix (String.rev p) (String.rev s).

(** [s.trim_matches(c)] *)
Fixpoint trim_start_char (c : ascii) (s : string) : string :=
  match s with
  | String a s' => if decide (a = c) then trim_start_char c s' else s
  | EmptyString => s
  end.
Definition trim_matches (c : ascii) (s : string) : string :=
  String.rev (trim_start_char c (String.rev (trim_start_char c s))).

Definition eq_ignore_ascii_case (a b : string) : bool :=
  bool_decide (to_ascii_lowercase a = to_ascii_lowercase b).

(** ** Bytes *)

(** [hay.windows(n).position(|w| w == needle)], for a needle that is not
    empty. *)
Definition begins (needle hay : bytes) : bool := bool_decide (take (length needle) hay = needle).
Fixpoint find (hay needle : bytes) : option nat :=
  if begins needle hay then Some 0
  else match hay with [] => None | _ :: hay => S <$> find hay needle end.

(** [hay.strip_suffix(p)] on a slice. *)
Definition strip_suffix_bytes (p hay : bytes) : option bytes :=
  let n := length hay - length p in
  if bool_decide (length p ≤ length hay ∧ drop n hay = p) then Some (take n hay) else None.

(** [s.as_bytes()], the string of a byte slice, and [String::from_utf8]. *)
Definition bytes_of (s : string) : bytes := Framing.byte_of_N <$> codes s.
Definition string_of_bytes (b : bytes) : string := string_of_Ns (Byte.to_N <$> b).
Definition from_utf8 (b : bytes) : option string :=
  if utf8_valid (Byte.to_N <$> b) then Some (string_of_bytes b) else None.

Lemma code_bound a : (N_of_ascii a < 256)%N.
Proof. apply N_ascii_bounded. Qed.
Lemma bytes_of_app s t : bytes_of (s +:+ t) = bytes_of s ++ bytes_of t.
Proof. unfold bytes_of. by rewrite codes_app, fmap_app. Qed.
Lemma to_N_bytes_of s : Byte.to_N <$> bytes_of s = codes s.
Proof.
  unfold bytes_of. induction s as [|a s IH]; [done|]. cbn. rewrite Framing.byte_to_of_N by apply code_bound. by f_equal.
Qed.
Lemma string_of_bytes_of s : string_of_bytes (bytes_of s) = s.
Proof. unfold string_of_bytes. by rewrite to_N_bytes_of, string_of_codes. Qed.

Lemma begins_app needle rest : begins needle (needle ++ rest) = true.
Proof. unfold begins. rewrite take_app_length. by apply bool_decide_eq_true. Qed.

Lemma find_here needle rest : find (needle ++ rest) needle = Some 0.
Proof. generalize (begins_app needle rest). destruct (needle ++ rest); cbn; by intros ->. Qed.

Lemma begins_take needle l l' :
  take (length needle) l = take (length needle) l' → begins needle l = begins needle l'.
Proof. unfold begins. by intros ->. Qed.

(** A needle sought in [pre ++ needle ++ rest] is found behind [pre], unless it
    begins before: whatever a proper start of the needle adds to [pre]. *)
Lemma find_behind pre needle rest :
  needle ≠ [] → find (pre ++ take (length needle - 1) needle) needle = None →
  find (pre ++ needle ++ rest) needle = Some (length pre).
Proof.
  intros Hn. induction pre as [|b pre IH]; intros Hpre; [exact (find_here needle rest)|].
  cbn [app find] in Hpre |- *.
  assert (begins needle (b :: pre ++ needle ++ rest) = begins needle (b :: pre ++ take (length needle - 1) needle)) as ->.
  { apply begins_take. destruct needle as [|x n]; [done|]. cbn [length].
    replace (S (length n) - 1) with (length n) by lia.
    change (b :: take (length n) (pre ++ (x :: n) ++ rest) = b :: take (length n) (pre ++ take (length n) (x :: n))).
    f_equal. rewrite (take_app pre (take (length n) (x :: n))), (take_app pre), take_take. f_equal.
    rewrite Nat.min_l by lia. by rewrite take_app_le by (cbn; lia). }
  destruct (begins _ _) eqn:Hb; [done|]. rewrite IH; [done|]. by apply fmap_None in Hpre.
Qed.

Lemma find_bound hay needle i : find hay needle = Some i → i + length needle ≤ length hay.
Proof.
  revert i. induction hay as [|b hay IH]; intros i; cbn [find]; unfold begins; case_bool_decide as Hb; cbn.
  - intros [= <-]. apply (f_equal length) in Hb. rewrite length_take in Hb. cbn in *. lia.
  - done.
  - intros [= <-]. apply (f_equal length) in Hb. rewrite length_take in Hb. cbn in *. lia.
  - intros (j & Hj & ->)%fmap_Some. specialize (IH j Hj). lia.
Qed.

Lemma strip_suffix_bytes_app p v : strip_suffix_bytes p (v ++ p) = Some v.
Proof.
  unfold strip_suffix_bytes. rewrite length_app. replace (length v + length p - length p) with (length v) by lia.
  rewrite drop_app_length, take_app_length. rewrite bool_decide_eq_true_2; [done|]. split; [lia|done].
Qed.

Lemma string_rev_app (a b : string) : String.rev (a +:+ b) = String.rev b +:+ String.rev a.
Proof.
  unfold String.rev. assert (∀ s t u, String.rev_app (s +:+ t) u = String.rev_app t (String.rev_app s u)) as H.
  { induction s as [|x s IH]; intros t u; [done|]. rewrite app_String. cbn. apply IH. }
  assert (∀ s t, String.rev_app s t = String.rev_app s "" +:+ t) as H1.
  { induction s as [|x s IH]; intros t; [done|]. cbn. rewrite (IH (String x t)), (IH (String x "")).
    generalize (String.rev_app s ""). induction s0 as [|y s0 IH0]; [done|]. rewrite !app_String. by rewrite IH0. }
  by rewrite H, H1.
Qed.

(** ** Strings put together *)

Lemma str_app_nil_r s : s +:+ EmptyString = s.
Proof. induction s as [|a s IH]; [done|]. by rewrite app_String, IH. Qed.

Lemma length_str_app s t : String.length (s +:+ t) = String.length s + String.length t.
Proof. induction s as [|a s IH]; [done|]. rewrite app_String. cbn. by rewrite IH. Qed.

Lemma str_app_assoc s t u : (s +:+ t) +:+ u = s +:+ t +:+ u.
Proof. induction s as [|a s IH]; [done|]. by rewrite !app_String, IH. Qed.

Lemma strip_prefix_Some p s r : strip_prefix p s = Some r → s = p +:+ r.
Proof.
  unfold strip_prefix. destruct (String.prefix p s) eqn:Hp; [|done]. intros [= <-].
  revert s Hp. induction p as [|a p IH]; intros s Hp.
  - cbn. rewrite substring_all by lia. done.
  - destruct s as [|b s]; [done|]. cbn in Hp. destruct (ascii_dec a b) as [<-|]; [|done].
    rewrite app_String. f_equal. cbn. by apply IH.
Qed.
Lemma rev_rev s : String.rev (String.rev s) = s.
Proof.
  induction s as [|a s IH]; [done|].
  assert (String.rev (String a s) = String.rev s +:+ String a "") as -> by exact (string_rev_app (String a "") s).
  rewrite string_rev_app, IH. done.
Qed.
Lemma strip_suffix_Some p s r : strip_suffix p s = Some r → s = r +:+ p.
Proof.
  unfold strip_suffix. intros (x & Hx%strip_prefix_Some & ->)%fmap_Some.
  apply (f_equal String.rev) in Hx. by rewrite rev_rev, string_rev_app, rev_rev in Hx.
Qed.
Lemma strip_suffix_app p r : strip_suffix p (r +:+ p) = Some r.
Proof. unfold strip_suffix. rewrite string_rev_app, strip_prefix_app. cbn. by rewrite rev_rev. Qed.

(** ** Splitting a string that was put together *)

Abbreviation lacks c := (all_chars (λ a, negb (bool_decide (a = c)))).

Lemma split_once_first c l r : all_chars (λ a, negb (bool_decide (a = c))) l = true → split_once c (l +:+ String c r) = Some (l, r).
Proof.
  induction l as [|a l IH]; cbn [all_chars].
  - intros _. change (split_once c (String c r) = Some (EmptyString, r)). cbn. by rewrite decide_True.
  - intros [Ha Hl]%andb_true_iff. apply negb_true_iff, bool_decide_eq_false in Ha.
    change (split_once c (String a (l +:+ String c r)) = Some (String a l, r)). cbn [split_once].
    rewrite decide_False, IH by done. done.
Qed.
Lemma split_once_None c l : all_chars (λ a, negb (bool_decide (a = c))) l = true → split_once c l = None.
Proof.
  induction l as [|a l IH]; cbn [all_chars]; [done|].
  intros [Ha Hl]%andb_true_iff. apply negb_true_iff, bool_decide_eq_false in Ha. cbn [split_once].
  by rewrite decide_False, IH by done.
Qed.
Lemma all_chars_app p l r : all_chars p (l +:+ r) = all_chars p l && all_chars p r.
Proof. induction l as [|a l IH]; [done|]. rewrite app_String. cbn [all_chars]. by rewrite IH, andb_assoc. Qed.

Lemma lacks_cons c a s : lacks c (String a s) = true ↔ a ≠ c ∧ lacks c s = true.
Proof. cbn. rewrite andb_true_iff, negb_true_iff, bool_decide_eq_false. done. Qed.

Lemma split_char_none c s : lacks c s = true → split_char c s = [s].
Proof.
  induction s as [|a s IH]; [done|]. intros [Ha Hs]%lacks_cons. cbn. rewrite decide_False by done. by rewrite IH.
Qed.
Lemma split_char_app c s r : lacks c s = true → split_char c (s +:+ String c r) = s :: split_char c r.
Proof.
  induction s as [|a s IH]; intros Hs.
  - change (split_char c (String c r) = "" :: split_char c r). cbn. by rewrite decide_True.
  - apply lacks_cons in Hs as [Ha Hs]. rewrite app_String. cbn. rewrite decide_False by done. by rewrite IH.
Qed.
(** Pieces without the separator are read back from their join. *)
Lemma split_char_join c l : l ≠ [] → Forall (λ s, lacks c s = true) l →
  split_char c (join (String c EmptyString) l) = l.
Proof.
  intros Hne Hl. induction Hl as [|s l Hs Hl IH]; [done|]. destruct l as [|s' l]; [by apply split_char_none|].
  change (join (String c "") (s :: s' :: l)) with (s +:+ String c (join (String c "") (s' :: l))).
  by rewrite split_char_app, IH.
Qed.

(** ** Trimming *)

Definition no_space (s : string) : bool := all_chars (λ a, negb (is_space a)) s.
(** What neither begins nor ends with a space. *)
Definition tight (s : string) : Prop :=
  (∀ a r, s = String a r → is_space a = false) ∧ (∀ a r, s = r +:+ String a "" → is_space a = false).

Lemma trim_start_tight s : (∀ a r, s = String a r → is_space a = false) → trim_start s = s.
Proof. destruct s as [|a s]; [done|]. intros H. cbn. by rewrite (H a s). Qed.
Lemma rev_String a s : String.rev (String a s) = String.rev s +:+ String a "".
Proof. exact (string_rev_app (String a "") s). Qed.
Lemma trim_tight s : tight s → trim s = s.
Proof.
  intros [Hf Hl]. unfold trim. rewrite (trim_start_tight s Hf), trim_start_tight; [apply rev_rev|].
  intros a r Hr. apply (Hl a (String.rev r)). rewrite <-(rev_rev s), Hr, rev_String. done.
Qed.
Lemma trim_space s : trim (String " " s) = trim s.
Proof. done. Qed.
Lemma last_char p s a r : all_chars p s = true → s = r +:+ String a "" → p a = true.
Proof. intros Hs ->. rewrite all_chars_app in Hs. cbn in Hs. apply andb_true_iff in Hs as [_ Hs]. by apply andb_true_iff in Hs as [Hp _]. Qed.
Lemma no_space_tight s : no_space s = true → tight s.
Proof.
  intros Hs. split; intros a r Ha; apply negb_true_iff.
  - rewrite Ha in Hs. by apply andb_true_iff in Hs as [Hp _].
  - by apply (last_char (λ a, negb (is_space a)) s a r).
Qed.

Definition quoted (s : string) : string := String quote_char (s +:+ String quote_char "").
Lemma quoted_tight s : tight (quoted s).
Proof.
  split; intros a r H.
  - by injection H as <- _.
  - unfold quoted in H. change (String quote_char (s +:+ String quote_char "")) with (String quote_char s +:+ String quote_char "") in H.
    apply (f_equal String.rev) in H. rewrite !string_rev_app in H. by injection H as <- _.
Qed.
Lemma trim_start_lacks c s : lacks c s = true → trim_start_char c s = s.
Proof. destruct s as [|a s]; [done|]. intros [Ha _]%lacks_cons. cbn. by rewrite decide_False. Qed.
Lemma trim_matches_quoted s : lacks quote_char s = true → trim_matches quote_char (quoted s) = s.
Proof.
  intros Hs. unfold trim_matches, quoted. cbn [trim_start_char]. rewrite decide_True by done.
  assert (trim_start_char quote_char (s +:+ String quote_char "") = s +:+ String quote_char "" ∨ s = "") as [-> | ->].
  { destruct s as [|a s]; [by right|left]. apply lacks_cons in Hs as [Ha _]. rewrite app_String. cbn. by rewrite decide_False. }
  - rewrite string_rev_app. change (String.rev (String quote_char "") +:+ String.rev s) with (String quote_char (String.rev s)).
    cbn [trim_start_char]. rewrite decide_True by done.
    rewrite trim_start_lacks; [apply rev_rev|]. clear -Hs. induction s as [|a s IH]; [done|].
    apply lacks_cons in Hs as [Ha Hs]. rewrite rev_String, all_chars_app, IH by done. cbn.
    rewrite andb_true_r. by apply negb_true_iff, bool_decide_eq_false.
  - done.
Qed.
