(* ===== verification/Ws.v ===== *)
(** * The event stream's WebSocket (rust/mentatd/src/http.rs, rust/mentatd-serve/src/ws.rs)

    The daemon writes frames and the router reads them: the two ends are in
    different crates and agree on the wire alone. Modelled are the daemon's
    frame writer and the router's frame parser and receive loop; the handshake
    that comes before is in Handshake.v. A read is an event: some bytes, none (the end of the
    stream), a failure, or the tick running out. Text is its UTF-8 bytes. *)

From S2P Require Import Prelude Proto Addr.
Import Framing.

(** ** Big-endian integers *)

Fixpoint be_bytes (k : nat) (n : N) : bytes :=
  match k with 0 => [] | S k => byte_of_N (n / 256 ^ N.of_nat k) :: be_bytes k n end.
Definition from_be_bytes (bs : bytes) : N := foldl (λ acc b, (acc * 256 + Byte.to_N b)%N) 0%N bs.

Lemma foldl_be acc bs :
  foldl (λ acc b, (acc * 256 + Byte.to_N b)%N) acc bs
  = (acc * 256 ^ N.of_nat (length bs) + from_be_bytes bs)%N.
Proof.
  unfold from_be_bytes. revert acc. induction bs as [|b bs IH]; intros acc; cbn [foldl length].
  - rewrite N.pow_0_r. lia.
  - rewrite IH, (IH (0 * 256 + _)%N). rewrite Nat2N.inj_succ, N.pow_succ_r'. lia.
Qed.

Lemma be_bytes_length k n : length (be_bytes k n) = k.
Proof. induction k; cbn; by f_equal. Qed.

Lemma be_bytes_value k n : from_be_bytes (be_bytes k n) = (n `mod` 256 ^ N.of_nat k)%N.
Proof.
  induction k as [|k IH]; [by rewrite N.mod_1_r|]. cbn [be_bytes]. unfold from_be_bytes. cbn [foldl].
  rewrite foldl_be, IH, be_bytes_length, byte_of_N_mod, byte_to_of_N by by apply N.mod_lt.
  set (m := (256 ^ N.of_nat k)%N). assert (m ≠ 0)%N by (by apply N.pow_nonzero).
  replace (256 ^ N.of_nat (S k))%N with (m * 256)%N by (rewrite Nat2N.inj_succ, N.pow_succ_r'; subst m; lia).
  rewrite N.Div0.mod_mul_r. lia.
Qed.

Lemma be_bytes_roundtrip k n : (n < 256 ^ N.of_nat k)%N → from_be_bytes (be_bytes k n) = n.
Proof. intros Hn. by rewrite be_bytes_value, N.mod_small. Qed.

(** ** The daemon's writer *)

Definition ws_send_text (text : bytes) : bytes :=
  let n := length text in
  x81 ::
    (if decide (n < 126) then [byte_of_N (N.of_nat n)]
     else if decide (N.of_nat n ≤ 65535)%N then x7e :: be_bytes 2 (N.of_nat n)
     else x7f :: be_bytes 8 (N.of_nat n)) ++ text.

Definition ws_ping : bytes := [x89; x00].

(** What the send loop of [websocket_events] does with each turn: an event
    line, or fifteen seconds without one. *)
Inductive Outgoing := Line (text : bytes) | Quiet.
Definition ws_send (o : Outgoing) : bytes := match o with Line t => ws_send_text t | Quiet => ws_ping end.

(** ** The router's parser *)

Definition MAX_FRAME : N := 67108864.

Inductive WsError :=
| InvalidData (e : string) | ConnectionAborted (e : string) | UnexpectedEof (e : string)
| TimedOut (e : string) | ReadError (e : string).

Definition bit_and (b : byte) (mask : N) : N := N.land (Byte.to_N b) mask.

(** The payload's length and where it starts, once the header is complete. *)
Definition payload_at (b1 : byte) (b : bytes) : option (N * nat) :=
  let short := bit_and b1 127 in
  if decide (short = 126%N) then
    if decide (length b < 4) then None else Some (from_be_bytes (take 2 (drop 2 b)), 4)
  else if decide (short = 127%N) then
    if decide (length b < 10) then None else Some (from_be_bytes (take 8 (drop 2 b)), 10)
  else Some (short, 2).

(** One frame off the buffer, or none until more bytes arrive. *)
Definition try_parse (b : bytes) : Result (option (N * bytes) * bytes) WsError :=
  match b with
  | b0 :: b1 :: _ =>
      let op := bit_and b0 15 in
      if negb (bool_decide (bit_and b1 128 = 0%N)) then Err (InvalidData "masked server frame")
      else
        match payload_at b1 b with
        | None => Ok (None, b)
        | Some (len, off) =>
            if bool_decide (MAX_FRAME < len)%N then
              Err (InvalidData ("frame of " +:+ pretty len +:+ " bytes"))
            else
              let total := off + N.to_nat len in
              if decide (length b < total) then Ok (None, b)
              else Ok (Some (op, take (total - off) (drop off b)), drop total b)
        end
  | _ => Ok (None, b)
  end.

(** ** [String::from_utf8_lossy] *)

Definition replacement : list N := [239; 191; 189]%N.
Definition second_of_three (a b : N) : bool :=
  continuation b && negb (bool_decide (a = 224 ∧ b < 160)%N) && negb (bool_decide (a = 237 ∧ 159 < b)%N).
Definition second_of_four (a b : N) : bool :=
  continuation b && negb (bool_decide (a = 240 ∧ b < 144)%N) && negb (bool_decide (a = 244 ∧ 143 < b)%N).

Fixpoint lossy (l : list N) : list N :=
  match l with
  | [] => []
  | a :: l1 =>
      if bool_decide (a < 128)%N then a :: lossy l1
      else if bool_decide (194 ≤ a ≤ 223)%N then
        match l1 with
        | b :: l2 => if continuation b then a :: b :: lossy l2 else replacement ++ lossy l1
        | [] => replacement
        end
      else if bool_decide (224 ≤ a ≤ 239)%N then
        match l1 with
        | b :: l2 =>
            if second_of_three a b then
              match l2 with
              | c :: l3 => if continuation c then a :: b :: c :: lossy l3 else replacement ++ lossy l2
              | [] => replacement
              end
            else replacement ++ lossy l1
        | [] => replacement
        end
      else if bool_decide (240 ≤ a ≤ 244)%N then
        match l1 with
        | b :: l2 =>
            if second_of_four a b then
              match l2 with
              | c :: l3 =>
                  if continuation c then
                    match l3 with
                    | d :: l4 =>
                        if continuation d then a :: b :: c :: d :: lossy l4 else replacement ++ lossy l3
                    | [] => replacement
                    end
                  else replacement ++ lossy l2
              | [] => replacement
              end
            else replacement ++ lossy l1
        | [] => replacement
        end
      else replacement ++ lossy l1
  end.

Definition numbers (b : bytes) : list N := Byte.to_N <$> b.
Definition from_utf8_lossy (b : bytes) : bytes := byte_of_N <$> lossy (numbers b).

(** ** The receive loop *)

Inductive WsRead := Chunk (bs : bytes) | Elapsed | ReadFailed (e : string).

(** Frames already in the buffer: the first text, a close, or none. Each frame
    takes two bytes or more, so the buffer's length is enough fuel. *)
Fixpoint drain_frames (fuel : nat) (b : bytes) : Result (option bytes * bytes) WsError :=
  match fuel with
  | 0 => Ok (None, b)
  | S fuel =>
      match try_parse b with
      | Err e => Err e
      | Ok (None, b) => Ok (None, b)
      | Ok (Some (op, payload), b) =>
          if decide (op = 1%N) then Ok (Some (from_utf8_lossy payload), b)
          else if decide (op = 8%N) then Err (ConnectionAborted "daemon closed the websocket")
          else drain_frames fuel b
      end
  end.

(** [EventStream::next] on the buffer and the reads to come: the text, or none
    when the tick has run out, with what is left of both. *)
Fixpoint ws_next (b : bytes) (evs : list WsRead) : Result (option bytes * bytes * list WsRead) WsError :=
  match drain_frames (S (length b)) b with
  | Err e => Err e
  | Ok (Some text, b) => Ok (Some text, b, evs)
  | Ok (None, b) =>
      match evs with
      | [] => Ok (None, b, [])
      | Elapsed :: evs => Ok (None, b, evs)
      | Chunk [] :: _ => Err (UnexpectedEof "websocket EOF")
      | Chunk bs :: evs => ws_next (b ++ bs) evs
      | ReadFailed e :: _ => Err (ReadError e)
      end
  end.

(** The caller's loop: one call after another until the reads are used up. A
    tick that brings no text is a call that goes on to the next. *)
Fixpoint ws_texts (calls : nat) (b : bytes) (evs : list WsRead) : Result (list bytes * bytes) WsError :=
  match calls with
  | 0 => Ok ([], b)
  | S calls =>
      match ws_next b evs with
      | Err e => Err e
      | Ok (Some text, b, evs) =>
          match ws_texts calls b evs with Ok (ts, b) => Ok (text :: ts, b) | Err e => Err e end
      | Ok (None, b, []) => Ok ([], b)
      | Ok (None, b, evs) => ws_texts calls b evs
      end
  end.

(** ** Text that is UTF-8 is read as it was written *)

Lemma lossy_valid l : utf8_valid l = true → lossy l = l.
Proof.
  induction l as [l IH] using (induction_ltof1 _ (@length N)). unfold ltof in IH.
  destruct l as [|a l]; [done|]. cbn [utf8_valid lossy].
  destruct (bool_decide (a < 128)%N).
  { intros Hv. f_equal. apply IH; [cbn; lia|done]. }
  destruct (bool_decide (194 ≤ a ≤ 223)%N).
  { destruct l as [|b l]; [done|]. intros [Hb Hv]%andb_prop. rewrite Hb. do 2 f_equal.
    apply IH; [cbn; lia|done]. }
  destruct (bool_decide (224 ≤ a ≤ 239)%N).
  { destruct l as [|b [|c l]]; [done|done|]. rewrite !andb_true_iff. intros [[[[Hb Hc] H1] H2] Hv].
    unfold second_of_three. rewrite Hb, Hc, H1, H2. cbn [andb]. do 3 f_equal. apply IH; [cbn; lia|done]. }
  destruct (bool_decide (240 ≤ a ≤ 244)%N); [|done].
  destruct l as [|b [|c [|d l]]]; [done..|]. rewrite !andb_true_iff. intros [[[[[Hb Hc] Hd] H1] H2] Hv].
  unfold second_of_four. rewrite Hb, Hc, Hd, H1, H2. cbn [andb]. do 4 f_equal. apply IH; [cbn; lia|done].
Qed.

Lemma byte_of_to b : byte_of_N (Byte.to_N b) = b.
Proof. by destruct b. Qed.

Lemma from_utf8_lossy_valid b : utf8_valid (numbers b) = true → from_utf8_lossy b = b.
Proof.
  intros Hv. unfold from_utf8_lossy, numbers. rewrite lossy_valid by done.
  rewrite <-list_fmap_compose. rewrite <-(list_fmap_id b) at 2. apply list_fmap_ext. intros. apply byte_of_to.
Qed.

(** ** One frame *)

Lemma short_length b : (Byte.to_N b < 128)%N → bit_and b 128 = 0%N ∧ bit_and b 127 = Byte.to_N b.
Proof. by destruct b. Qed.

(** The header of a text of [n] bytes, and what the parser makes of it. *)
Definition ws_header (n : nat) : bytes :=
  x81 :: (if decide (n < 126) then [byte_of_N (N.of_nat n)]
          else if decide (N.of_nat n ≤ 65535)%N then x7e :: be_bytes 2 (N.of_nat n)
          else x7f :: be_bytes 8 (N.of_nat n)).

Lemma ws_send_header text : ws_send_text text = ws_header (length text) ++ text.
Proof. done. Qed.

Lemma ws_header_length n : 2 ≤ length (ws_header n) ≤ 10.
Proof. unfold ws_header. repeat case_decide; cbn; rewrite ?be_bytes_length; lia. Qed.

Lemma payload_at_header n body : ∃ b1 hd,
  ws_header n = x81 :: b1 :: hd ∧ bit_and b1 128 = 0%N ∧
  ((N.of_nat n < 2 ^ 64)%N → payload_at b1 (ws_header n ++ body) = Some (N.of_nat n, length (ws_header n))).
Proof.
  unfold ws_header. repeat case_decide.
  - assert (Byte.to_N (byte_of_N (N.of_nat n)) = N.of_nat n) as Hb by (apply byte_to_of_N; lia).
    destruct (short_length (byte_of_N (N.of_nat n)) ltac:(lia)) as [H128 H127].
    eexists _, _. split; [done|]. split; [done|]. intros _. unfold payload_at. rewrite H127, Hb.
    by rewrite !decide_False by lia.
  - eexists _, _. split; [done|]. split; [done|]. intros _. unfold payload_at.
    replace (bit_and x7e 127) with 126%N by done. rewrite decide_True by done.
    cbn [app length skipn]. rewrite length_app, be_bytes_length, decide_False by lia.
    by rewrite drop_0, take_app_length', be_bytes_roundtrip by (by rewrite ?be_bytes_length || (cbn; lia)).
  - eexists _, _. split; [done|]. split; [done|]. intros Hn. unfold payload_at.
    replace (bit_and x7f 127) with 127%N by done. rewrite decide_False, decide_True by done.
    cbn [app length skipn]. rewrite length_app, be_bytes_length, decide_False by lia.
    by rewrite drop_0, take_app_length', be_bytes_roundtrip by (by rewrite ?be_bytes_length || (cbn; lia)).
Qed.

(** The whole header is there: the frame is, or its rest is waited for. *)
Lemma try_parse_header n body : (N.of_nat n ≤ MAX_FRAME)%N →
  try_parse (ws_header n ++ body)
  = if decide (length body < n) then Ok (None, ws_header n ++ body)
    else Ok (Some (1%N, take n body), drop n body).
Proof.
  intros Hn. destruct (payload_at_header n body) as (b1 & hd & Hh & H128 & Hat).
  specialize (Hat ltac:(unfold MAX_FRAME in *; lia)). pose proof (ws_header_length n) as Hl.
  unfold try_parse. rewrite Hh at 1. cbn [app]. rewrite H128. cbn [bool_decide decide negb].
  rewrite bool_decide_eq_true_2 by done. cbn [negb].
  rewrite Hat.
  rewrite bool_decide_eq_false_2 by lia. rewrite Nat2N.id, length_app, drop_app_length.
  replace (length (ws_header n) + n - length (ws_header n)) with n by lia.
  rewrite <-drop_drop, drop_app_length.
  repeat case_decide; (done || lia).
Qed.

(** Part of a header says nothing yet. *)
Lemma try_parse_short n b : (N.of_nat n ≤ MAX_FRAME)%N → b `prefix_of` ws_header n → b ≠ ws_header n →
  try_parse b = Ok (None, b).
Proof.
  intros Hn [k Hk] Hne. destruct (payload_at_header n []) as (b1 & hd & Hh & H128 & _).
  destruct b as [|b0 [|b1' b]]; [done|done|]. rewrite Hk in Hh. injection Hh as -> -> Hh.
  assert (k ≠ []) by (intros ->; by rewrite app_nil_r in Hk). unfold try_parse. rewrite H128.
  rewrite bool_decide_eq_true_2 by done. cbn [negb].
  assert (length (x81 :: b1 :: b) < length (ws_header n)) as Hlt.
  { rewrite Hk, length_app. destruct k; [done|cbn; lia]. }
  unfold ws_header in Hk, Hlt. repeat case_decide.
  - cbn in Hlt. lia.
  - injection Hk as <- _. cbn [length] in Hlt. rewrite be_bytes_length in Hlt. unfold payload_at.
    rewrite decide_True by done. rewrite decide_True by (cbn; lia). done.
  - injection Hk as <- _. cbn [length] in Hlt. rewrite be_bytes_length in Hlt. unfold payload_at.
    rewrite decide_False, decide_True by done. rewrite decide_True by (cbn; lia). done.
Qed.

Lemma try_parse_ping rest : try_parse (ws_ping ++ rest) = Ok (Some (9%N, []), rest).
Proof. done. Qed.

(** ** A stream of frames, however it is cut *)

Definition sendable (o : Outgoing) : Prop :=
  match o with
  | Line t => (N.of_nat (length t) ≤ MAX_FRAME)%N ∧ utf8_valid (numbers t) = true
  | Quiet => True
  end.
Definition wire (items : list Outgoing) : bytes := items ≫= ws_send.
Definition texts (items : list Outgoing) : list bytes :=
  omap (λ o, match o with Line t => Some t | Quiet => None end) items.
Definition arrived (evs : list WsRead) : bytes :=
  evs ≫= λ ev, match ev with Chunk bs => bs | _ => [] end.
Definition flowing (ev : WsRead) : Prop :=
  match ev with Chunk [] | ReadFailed _ => False | _ => True end.

Definition parsed (o : Outgoing) : N * bytes := match o with Line t => (1%N, t) | Quiet => (9%N, []) end.

(** A buffer that starts a stream holds its first frame or part of it. *)
Lemma try_parse_first o b tail w : sendable o → b ++ tail = ws_send o ++ w →
  (∃ b', b = ws_send o ++ b' ∧ try_parse b = Ok (Some (parsed o), b')) ∨
  (length b < length (ws_send o) ∧ try_parse b = Ok (None, b)).
Proof.
  intros Hgood Heq. destruct o as [t|]; cbn [ws_send parsed].
  - destruct Hgood as [Hmax _]. rewrite ws_send_header in *. cbn [ws_send] in Heq. rewrite ws_send_header in Heq.
    rewrite <-app_assoc in Heq. apply app_eq_inv in Heq as [(k & Hb & Heq)|(k & Hk & Heq)].
    + subst b. symmetry in Heq. apply app_eq_inv in Heq as [(k' & Hk & Heq)|(k' & Hk & Heq)].
      * subst k. left. exists k'. rewrite <-app_assoc. split; [done|].
        rewrite try_parse_header by done. rewrite decide_False by (rewrite length_app; lia).
        by rewrite take_app_length, drop_app_length.
      * destruct (decide (k' = [])) as [->|Hne].
        { rewrite app_nil_r in Hk. subst t. left. exists []. rewrite app_nil_r. split; [done|].
          rewrite try_parse_header by done. rewrite decide_False by lia. by rewrite take_ge, drop_ge by lia. }
        assert (length k < length t) as Hlt.
        { rewrite Hk, length_app. destruct k'; [done|cbn; lia]. }
        right. rewrite !length_app. split; [lia|]. rewrite try_parse_header by done.
        by rewrite decide_True by lia.
    + destruct (decide (k = [])) as [->|Hne].
      * rewrite app_nil_r in Hk. subst b. destruct t as [|c t].
        -- left. exists []. rewrite !app_nil_r. split; [done|]. rewrite <-(app_nil_r (ws_header _)).
           rewrite try_parse_header by done. by rewrite decide_False by (cbn; lia).
        -- right. rewrite length_app. split; [cbn; lia|]. rewrite <-(app_nil_r (ws_header _)).
           rewrite try_parse_header by done. by rewrite decide_True by (cbn; lia).
      * right. split.
        -- rewrite length_app, Hk, length_app. destruct k; [done|cbn; lia].
        -- eapply try_parse_short; [done|by exists k|]. intros ->. rewrite <-(app_nil_r (ws_header _)) in Hk at 1.
           by apply app_inv_head in Hk.
  - destruct b as [|b0 [|b1 b]]; [by right; split; [cbn; lia|]..|].
    injection Heq as -> -> Heq. left. by exists b.
Qed.

Lemma drain_stream fuel items b tail : length b < fuel → Forall sendable items → b ++ tail = wire items →
  (∃ t b' rest, drain_frames fuel b = Ok (Some t, b') ∧ texts items = t :: texts rest ∧
     b' ++ tail = wire rest ∧ Forall sendable rest ∧ length rest < length items) ∨
  (∃ b' rest, drain_frames fuel b = Ok (None, b') ∧ texts items = texts rest ∧
     b' ++ tail = wire rest ∧ Forall sendable rest ∧ length rest ≤ length items ∧
     (tail = [] → rest = [] ∧ b' = [])).
Proof.
  revert items b. induction fuel as [|fuel IH]; intros items b Hf Hg Heq; [lia|].
  destruct items as [|o items].
  { apply app_nil in Heq as [-> ->]. right. by exists [], []. }
  pose proof Hg as Hall. apply list.Forall_cons in Hg as [Ho Hg].
  change (wire (o :: items)) with (ws_send o ++ wire items) in Heq. cbn [drain_frames].
  destruct (try_parse_first _ _ _ _ Ho Heq) as [(b' & -> & ->)|[Hlt ->]].
  - rewrite <-app_assoc in Heq. apply app_inv_head in Heq.
    destruct o as [t|]; cbn [parsed].
    + rewrite decide_True by done. left. exists t, b', items.
      rewrite from_utf8_lossy_valid by apply Ho. by split_and!; [..|cbn; lia].
    + rewrite !decide_False by done. cbn in Hf.
      destruct (IH items b' ltac:(lia) Hg Heq) as [(t & b2 & rest & ? & ? & ? & ? & ?)|(b2 & rest & ? & ? & ? & ? & ? & ?)].
      * left. exists t, b2, rest. split_and!; (done || cbn; lia).
      * right. exists b2, rest. split_and!; (done || cbn; lia).
  - right. exists b, (o :: items). split_and!; [done..|]. intros ->. rewrite app_nil_r in Heq.
    apply (f_equal length) in Heq. rewrite length_app in Heq. lia.
Qed.

Lemma ws_next_stream items b evs : Forall flowing evs → Forall sendable items →
  b ++ arrived evs = wire items →
  ∃ b' evs' rest, Forall flowing evs' ∧ Forall sendable rest ∧ b' ++ arrived evs' = wire rest ∧
    ((∃ t, ws_next b evs = Ok (Some t, b', evs') ∧ texts items = t :: texts rest ∧
           length rest < length items ∧ length evs' ≤ length evs) ∨
     (ws_next b evs = Ok (None, b', evs') ∧ texts items = texts rest ∧ length rest ≤ length items ∧
      (evs' = [] → rest = [] ∧ b' = []) ∧ (evs' ≠ [] → length evs' < length evs))).
Proof.
  revert items b. induction evs as [|ev evs IH]; intros items b Hfl Hg Heq.
  - unfold ws_next. destruct (drain_stream (S (length b)) items b [] ltac:(lia) Hg Heq)
      as [(t & b' & rest & -> & ? & ? & ? & ?)|(b' & rest & -> & ? & ? & ? & ? & Hend)].
    + exists b', [], rest. split_and!; [done..|]. left. by exists t.
    + exists b', [], rest. split_and!; [done..|]. right. split_and!; [done..|by intros _; apply Hend|done].
  - pose proof Hfl as Hall. apply list.Forall_cons in Hfl as [Hev Hfl]. cbn [ws_next].
    destruct (drain_stream (S (length b)) items b _ ltac:(lia) Hg Heq)
      as [(t & b' & rest & -> & ? & ? & ? & ?)|(b' & rest & -> & Ht & Heq' & Hg' & Hle & Hend)].
    + exists b', (ev :: evs), rest. split_and!; [done..|]. left. by exists t.
    + destruct ev as [[|c bs]| |]; [done| | |done].
      * destruct (IH rest (b' ++ c :: bs) Hfl Hg') as (b2 & evs2 & rest2 & ? & ? & ? & Hcase).
        { by rewrite <-app_assoc. }
        exists b2, evs2, rest2. split_and!; [done..|]. destruct Hcase as [(t & ? & ? & ? & ?)|(? & ? & ? & ? & Hs)].
        -- left. exists t. split_and!; [done|congruence|lia|cbn; lia].
        -- right. split_and!; [done|congruence|lia|done|]. intros Hne. specialize (Hs Hne). cbn. lia.
      * exists b', evs, rest. split_and!; [done..|]. right. split_and!; [done..| |cbn; lia].
        intros ->. by apply Hend.
Qed.

Lemma ws_texts_stream items evs b calls : Forall sendable items → Forall flowing evs →
  b ++ arrived evs = wire items → length items + length evs < calls →
  ws_texts calls b evs = Ok (texts items, []).
Proof.
  revert items evs b. induction calls as [|calls IH]; intros items evs b Hg Hfl Heq Hc; [lia|].
  cbn [ws_texts]. destruct (ws_next_stream items b evs Hfl Hg Heq) as (b' & evs' & rest & Hfl' & Hg' & Heq' & Hcase).
  destruct Hcase as [(t & -> & -> & Hlt & Hle)|(-> & -> & Hle & Hend & Hshort)].
  - rewrite (IH rest) by (done || lia). done.
  - destruct evs' as [|ev evs'].
    + destruct (Hend eq_refl) as [-> ->]. done.
    + specialize (Hshort ltac:(done)). by apply (IH rest); [..|cbn in *; lia].
Qed.

(** Whatever the daemon sends on an event stream, its lines and its pings,
    the router's receive loop returns exactly the lines, in order and byte for
    byte, however the connection cuts the bytes and whenever the poll ticks
    between them, as long as no line passes 64 MiB. *)
Theorem ws_stream_roundtrip items evs calls : Forall sendable items → Forall flowing evs →
  arrived evs = wire items → length items + length evs < calls →
  ws_texts calls [] evs = Ok (texts items, []).
Proof. intros Hg Hfl Heq. by apply ws_texts_stream. Qed.

(** A length past the cap ends the stream instead of being waited for. *)
Lemma try_parse_oversize n body : (MAX_FRAME < n < 2 ^ 64)%N →
  try_parse (x81 :: x7f :: be_bytes 8 n ++ body) = Err (InvalidData ("frame of " +:+ pretty n +:+ " bytes")).
Proof.
  intros Hn. unfold try_parse. replace (bit_and x7f 128) with 0%N by done.
  rewrite bool_decide_eq_true_2 by done. cbn [negb]. unfold payload_at.
  replace (bit_and x7f 127) with 127%N by done. rewrite decide_False, decide_True by done.
  cbn [length skipn]. rewrite length_app, be_bytes_length, decide_False by lia.
  rewrite drop_0, take_app_length', be_bytes_roundtrip by (by rewrite ?be_bytes_length || (cbn; lia)).
  by rewrite bool_decide_eq_true_2 by lia.
Qed.

(** ** Instances *)

Definition demo_lines : list Outgoing := [Line [x7b; x7d]; Quiet; Line (replicate 130 x61); Line [xc3; xa9]].
Definition demo_cut : list WsRead :=
  let w := wire demo_lines in
  [Chunk (take 1 w); Elapsed; Chunk (take 6 (drop 1 w)); Chunk (take 60 (drop 7 w)); Elapsed; Chunk (drop 67 w)].

Lemma ws_stream_roundtrip_witness :
  ws_texts 11 [] demo_cut = Ok ([[x7b; x7d]; replicate 130 x61; [xc3; xa9]], []).
Proof.
  apply (ws_stream_roundtrip demo_lines demo_cut 11).
  - repeat constructor; vm_compute; congruence.
  - vm_compute. by repeat constructor.
  - by vm_compute.
  - cbn. lia.
Defined.
