(* ===== verification/Net.v ===== *)
(** * Networks and the source allowlist (rust/mentatd-serve/src/net.rs)

    IP networks held as one 128-bit integer for both families, the entries of
    [ALLOWED_SOURCES], and the two questions asked of them: is this address on
    a wire of this box, and may it be acted on. *)

From S2P Require Import Prelude Text Addr.

(** ** Addresses *)

(** [IpAddr]: the family and the address as an integer ([key]). *)
Record IpAddr := mkIp { is_ipv6 : bool; key : N }.

Definition value_in (base : N) (l : list N) : N := foldl (λ acc d, (acc * base + d)%N) 0%N l.

(** [str::parse::<IpAddr>]: an IPv4 address, else an IPv6 one. *)
Definition parse_ip (s : string) : option IpAddr :=
  match all_read (read_ipv4 s) with
  | Some l => Some (mkIp false (value_in 256 l))
  | None => mkIp true ∘ value_in 65536 <$> all_read (read_ipv6 s)
  end.

Definition parse_u32 (s : string) : option N :=
  n ← parse_u64 s; if bool_decide (n < 2 ^ 32)%N then Some n else None.

(** ** Networks *)

Record Net := mkNet { net : N; mask : N; v6 : bool }.

Definition width_of (v6 : bool) : N := if v6 then 128 else 32.
Definition u128_max : N := N.ones 128.

(** [Net::new]. The left shift keeps 128 bits. *)
Definition net_new (addr : IpAddr) (bits : N) : Net :=
  let width := width_of (is_ipv6 addr) in
  let bits := N.min bits width in
  let m := if bool_decide (bits = 0%N) then 0%N
           else N.land (N.shiftl (N.shiftr u128_max (128 - bits)) (width - bits)) u128_max in
  mkNet (N.land (key addr) m) m (is_ipv6 addr).

(** [Net::masked]: an address with the netmask the interface list reports. *)
Definition net_masked (addr netmask : IpAddr) : Net :=
  mkNet (N.land (key addr) (key netmask)) (key netmask) (is_ipv6 addr).

Definition contains (n : Net) (addr : IpAddr) : bool :=
  bool_decide (v6 n = is_ipv6 addr) && bool_decide (N.land (key addr) (mask n) = net n).

(** [<Net as FromStr>::from_str] *)
Definition net_from_str (s : string) : option Net :=
  '(addr, bits) ← match split_once "/" s with
                  | Some (a, b) => bits ← parse_u32 (trim b); Some (a, Some bits)
                  | None => Some (s, None)
                  end;
  ip ← parse_ip (trim addr);
  let width := width_of (is_ipv6 ip) in
  let bits := default width bits in
  if bool_decide (width < bits)%N then None else Some (net_new ip bits).

(** The interface list, as (address, netmask) rows. *)
Definition local_nets (ifaces : list (option IpAddr * option IpAddr)) : list Net :=
  omap (λ '(a, m),
    match a, m with
    | Some a, Some m => if bool_decide (is_ipv6 a = is_ipv6 m) then Some (net_masked a m) else None
    | _, _ => None
    end) ifaces.

Definition on_local_net (addr : string) (local : list Net) : bool :=
  match parse_ip addr with
  | None => false
  | Some ip => existsb (λ n, contains n ip) local
  end.

(** ** ALLOWED_SOURCES *)

Record Allow := mkAllow { allow_local : bool; nets : list Net; prefixes : list string }.

Definition allow_entry (allow : Allow) (entry : string) : Allow :=
  if bool_decide (to_ascii_lowercase entry = to_ascii_lowercase "local") then
    mkAllow true (nets allow) (prefixes allow)
  else match net_from_str entry with
       | Some n => mkAllow (allow_local allow) (nets allow ++ [n]) (prefixes allow)
       | None => mkAllow (allow_local allow) (nets allow) (prefixes allow ++ [entry])
       end.
Definition allow_parse (s : string) : Allow :=
  foldl allow_entry (mkAllow false [] [])
    (filter (λ e, str_empty e = false) (trim <$> split_char "," s)).

Definition permits (a : Allow) (addr : string) (local : list Net) : bool :=
  existsb (λ p, starts_with p addr) (prefixes a) ||
  match parse_ip addr with
  | None => false
  | Some ip => existsb (λ n, contains n ip) (nets a)
               || (allow_local a && existsb (λ n, contains n ip) local)
  end.

Definition permits_now (a : Allow) (addr : string) (interfaces : list Net) : bool :=
  permits a addr (if allow_local a then interfaces else []).

(** ** A prefix length means the leading bits *)

Lemma net_mask_eq addr bits : (bits ≤ width_of (is_ipv6 addr))%N →
  mask (net_new addr bits)
  = N.shiftl (N.ones bits) (width_of (is_ipv6 addr) - bits)%N.
Proof.
  intros Hb. unfold net_new. cbn [mask]. rewrite N.min_l by done.
  set (w := width_of (is_ipv6 addr)) in *.
  assert (w ≤ 128)%N as Hw by (subst w; destruct (is_ipv6 addr); cbn; lia).
  case_bool_decide as H0; [subst bits; by rewrite N.shiftl_0_l|].
  assert (N.shiftr u128_max (128 - bits) = N.ones bits) as ->.
  { unfold u128_max. rewrite N.shiftr_div_pow2, N.ones_div_pow2 by lia. f_equal. lia. }
  unfold u128_max. rewrite N.land_ones, N.mod_small; [done|].
  rewrite N.shiftl_mul_pow2, N.ones_equiv.
  apply (N.lt_le_trans _ (2 ^ bits * 2 ^ (w - bits)))%N.
  - apply N.mul_lt_mono_pos_r; [apply N.neq_0_lt_0, N.pow_nonzero; lia|].
    apply N.lt_pred_l, N.pow_nonzero. lia.
  - rewrite <-N.pow_add_r. apply N.pow_le_mono_r; lia.
Qed.

(** Masking with the leading bits is dropping the others. *)
Lemma land_mask a bits k : (a < 2 ^ (bits + k))%N →
  N.land a (N.shiftl (N.ones bits) k) = N.shiftl (N.shiftr a k) k.
Proof.
  intros Ha. apply N.bits_inj. intros i. rewrite N.land_spec.
  destruct (N.le_gt_cases k i) as [Hi|Hi].
  - rewrite !N.shiftl_spec_high' by done. rewrite N.shiftr_spec' by lia. rewrite N.sub_add by done.
    destruct (N.lt_ge_cases (i - k) bits) as [Hlt|Hge].
    + rewrite N.ones_spec_low by done. by rewrite andb_true_r.
    + rewrite N.ones_spec_high by done. rewrite andb_false_r. symmetry.
      destruct (decide (a = 0%N)) as [->|Hz]; [apply N.bits_0|].
      apply N.bits_above_log2, N.log2_lt_pow2; [lia|].
      eapply N.lt_le_trans; [done|]. apply N.pow_le_mono_r; lia.
  - by rewrite !N.shiftl_spec_low, andb_false_r by done.
Qed.

Definition in_family (ip : IpAddr) : Prop := (key ip < 2 ^ width_of (is_ipv6 ip))%N.

(** A network written as an address and a prefix length holds exactly the
    addresses of its family whose leading bits are the address's own: all of
    the family at length 0, the address alone at full length, and a length
    past the width counts as the width. *)
Theorem contains_leading_bits addr bits ip : in_family addr → in_family ip →
  contains (net_new addr bits) ip = true ↔
  is_ipv6 addr = is_ipv6 ip ∧
  let rest := (width_of (is_ipv6 addr) - N.min bits (width_of (is_ipv6 addr)))%N in
  N.shiftr (key ip) rest = N.shiftr (key addr) rest.
Proof.
  intros Ha Hi. unfold contains. rewrite andb_true_iff, !bool_decide_eq_true. cbn [v6 net_new].
  set (w := width_of (is_ipv6 addr)). set (b := N.min bits w).
  assert (net_new addr bits = net_new addr b) as ->.
  { unfold net_new. fold w. subst b. by rewrite <-N.min_assoc, N.min_id. }
  split; intros [Hf H]; (split; [done|]); cbn zeta.
  - change (net (net_new addr b)) with (N.land (key addr) (mask (net_new addr b))) in H.
    rewrite net_mask_eq in H by (subst b w; lia). fold w in H.
    rewrite !land_mask in H.
    + apply (f_equal (λ n, N.shiftr n (w - b))) in H. by rewrite !N.shiftr_shiftl_l, N.sub_diag, !N.shiftl_0_r in H by done.
    + replace (b + (w - b))%N with w by lia. done.
    + replace (b + (w - b))%N with w by lia. unfold in_family in Hi. by rewrite <-Hf in Hi.
  - change (net (net_new addr b)) with (N.land (key addr) (mask (net_new addr b))).
    rewrite net_mask_eq by (subst b w; lia). fold w.
    rewrite !land_mask; [by rewrite H|..]; replace (b + (w - b))%N with w by lia; [done|].
    unfold in_family in Hi. by rewrite <-Hf in Hi.
Qed.

Lemma existsb_exists_in {A} (f : A → bool) l : existsb f l = true ↔ ∃ x, x ∈ l ∧ f x = true.
Proof. rewrite existsb_exists. by setoid_rewrite <-list_elem_of_In. Qed.

(** What may be acted on, entry by entry. *)
Lemma permits_spec a addr local :
  permits a addr local = true ↔
  (∃ p, p ∈ prefixes a ∧ starts_with p addr = true) ∨
  ∃ ip, parse_ip addr = Some ip ∧
    ((∃ n, n ∈ nets a ∧ contains n ip = true) ∨
     (allow_local a = true ∧ ∃ n, n ∈ local ∧ contains n ip = true)).
Proof.
  unfold permits. rewrite orb_true_iff, existsb_exists_in. destruct (parse_ip addr) as [ip|].
  - rewrite orb_true_iff, andb_true_iff, !existsb_exists_in. naive_solver.
  - naive_solver.
Qed.

(** Reading the interfaces only for [local] changes no answer. *)
Lemma permits_now_same a addr local : permits_now a addr local = permits a addr local.
Proof. unfold permits_now, permits. by destruct (allow_local a). Qed.

(** ** Instances, the unit tests of the source among them *)

Definition demo_ip (s : string) : IpAddr := default (mkIp false 0) (parse_ip s).
Definition two_homed : list Net := omap net_from_str ["10.0.0.0/24"; "192.168.1.0/24"].

Lemma contains_leading_bits_witness :
  in_family (demo_ip "10.0.0.9") ∧ contains (net_new (demo_ip "10.0.3.7") 22) (demo_ip "10.0.0.9") = true.
Proof.
  split; [by vm_compute|].
  apply (proj2 (contains_leading_bits (demo_ip "10.0.3.7") 22 (demo_ip "10.0.0.9") eq_refl eq_refl)).
  by vm_compute.
Defined.

Example entries_of_every_form :
  let a := allow_parse "Local, 10.0.0.0/22,fd00::/8 ,172.,10.1.1.1,10.0.0.0/33" in
  allow_local a = true ∧ length (nets a) = 3 ∧ prefixes a = ["172."; "10.0.0.0/33"] ∧
  permits a "10.0.3.200" [] = true ∧ permits a "10.0.4.1" [] = false ∧ permits a "fd12::9" [] = true ∧
  permits a "172.17.0.2" [] = true ∧ permits a "10.1.1.1" [] = true ∧ permits a "192.168.1.5" two_homed = true ∧
  permits a "box" two_homed = false.
Proof. vm_compute. done. Qed.
Example the_whole_family : contains (net_new (demo_ip "10.0.0.1") 0) (demo_ip "203.0.113.7") = true ∧
  contains (net_new (demo_ip "10.0.0.1") 0) (demo_ip "::1") = false.
Proof. vm_compute. done. Qed.
