(* ===== verification/Island.v ===== *)
(** * Fabric islands (rust/mentatd/src/island.rs)

    [islands] derives, from the tagged addresses and the answered probes of a
    [FabricView], the sets of nodes that reach each other over the fabric.
    The theorems show that a returned island is a clique over one tagged
    address per member, and that both loops end with their work done. *)

From S2P Require Import Prelude.

(** ** Data *)

Record Island := mkIsland { i_nodes : list string; i_addr : gmap string string }.
#[export] Instance island_eq_dec : EqDecision Island.
Proof. solve_decision. Defined.

Record Fabrics := mkFabrics { f_islands : list Island; f_tagged : gset string }.
#[export] Instance fabrics_eq_dec : EqDecision Fabrics.
Proof. solve_decision. Defined.
Definition fabrics_default : Fabrics := mkFabrics [] ∅.

Record FabricView := mkView {
  v_rdma : gmap string (list string);
  v_ok_pairs : gset (string * string) }.
#[export] Instance eta_FabricView : Eta FabricView := λ v, mkView (v_rdma v) (v_ok_pairs v).
Definition view_default : FabricView := mkView ∅ ∅.

Record Pruned := mkPruned { p_node : string; p_addr : string; p_reaches : nat; p_of : nat }.

(** A port is one node's one address. *)
Definition Port := (string * string)%type.
Definition port_cmp (x y : Port) : comparison :=
  lex (String.compare x.1 y.1) (String.compare x.2 y.2).

Definition linked (v : FabricView) (a b : string) : bool :=
  bool_decide ((a, b) ∈ v_ok_pairs v) || bool_decide ((b, a) ∈ v_ok_pairs v).

Definition ports (v : FabricView) : list Port :=
  sort_by port_cmp (bt_iter (v_rdma v) ≫= λ '(n, addrs), (λ a, (n, a)) <$> addrs).

Definition joins (v : FabricView) (x y : Port) : bool :=
  bool_decide (x.1 ≠ y.1) && linked v x.2 y.2.

(** ** The derivation *)

(** The inner [for q in &ports]: push each new neighbour of [p] on both. *)
Fixpoint visit (v : FabricView) (p : Port) (ps : list Port) (comp queue : list Port)
    : list Port * list Port :=
  match ps with
  | [] => (comp, queue)
  | q :: ps' =>
      if negb (bool_decide (q ∈ comp)) && joins v p q
      then visit v p ps' (comp ++ [q]) (q :: queue)
      else visit v p ps' comp queue
  end.

(** [while let Some(p) = queue.pop()]; the queue's top is its head. Each turn
    pops one port and a port enters once, so [length ports + 1] turns do. *)
Fixpoint component (fuel : nat) (v : FabricView) (ps comp queue : list Port) : list Port :=
  match fuel, queue with
  | S fuel', p :: queue' =>
      let '(comp, queue) := visit v p ps comp queue' in component fuel' v ps comp queue
  | _, _ => comp
  end.

Definition degree (v : FabricView) (comp : list Port) (p : Port) : nat :=
  length (filter (λ q, joins v p q = true) comp).

(** [sort_by_key(|p| (p.0, Reverse(deg[p]), p.1))]. *)
Definition choice_cmp (deg : Port → nat) (x y : Port) : comparison :=
  lex (String.compare x.1 y.1) (lex (Nat.compare (deg y) (deg x)) (String.compare x.2 y.2)).

(** [dedup_by(|later, first| later.0 == first.0)]. *)
Fixpoint dedup_nodes (last : option string) (l : list Port) : list Port :=
  match l with
  | [] => []
  | p :: l' =>
      if decide (last = Some p.1) then dedup_nodes last l'
      else p :: dedup_nodes (Some p.1) l'
  end.

Definition one_port_per_node (v : FabricView) (comp : list Port) : list Port :=
  dedup_nodes None (sort_by (choice_cmp (degree v comp)) comp).

Definition worst_cmp (x y : nat * Port) : comparison :=
  lex (Nat.compare x.1 y.1) (port_cmp x.2 y.2).

(** The pruning loop. Each turn drops a port, so [length comp] turns do. *)
Fixpoint prune (fuel : nat) (v : FabricView) (comp : list Port) (pruned : list Pruned)
    : list Port * list Pruned :=
  match fuel with
  | 0 => (comp, pruned)
  | S fuel' =>
      match min_by worst_cmp ((λ p, (degree v comp p, p)) <$> comp) with
      | None => (comp, pruned)
      | Some (deg, port) =>
          if decide (length comp ≤ deg + 1) then (comp, pruned)
          else
            prune fuel' v (filter (λ q, q ≠ port) comp)
              (pruned ++ [mkPruned port.1 port.2 deg (length comp - 1)])
      end
  end.

Definition island_of (comp : list Port) : Island :=
  let comp := sort_by port_cmp comp in
  mkIsland comp.*1 (list_to_map comp).

Definition seed_step (v : FabricView) (ps : list Port)
    (acc : list Island * list Port * list Pruned) (seed : Port)
    : list Island * list Port * list Pruned :=
  let '(out, placed, pruned) := acc in
  if bool_decide (seed ∈ placed) then acc
  else
    let comp := component (S (length ps)) v ps [seed] [seed] in
    let chosen := one_port_per_node v comp in
    let '(kept, pruned) := prune (S (length chosen)) v chosen pruned in
    (if decide (length kept < 2) then out else out ++ [island_of kept], placed ++ comp, pruned).

Definition islands (v : FabricView) : list Island * list Pruned :=
  let ps := ports v in
  let '(out, _, pruned) := foldl (seed_step v ps) ([], [], []) ps in
  (sort_by (λ a b, strs_cmp (i_nodes a) (i_nodes b)) out, pruned).

Definition fabrics (v : FabricView) : Fabrics * list Pruned :=
  let '(out, pruned) := islands v in (mkFabrics out (dom (v_rdma v)), pruned).

(** Record a node's RDMA-tagged addresses. *)
Definition is_rdma (tags : gmap string (list string)) (a : string) : bool :=
  is_some_and (tags !! a) (λ t, bool_decide ("rdma" ∈ t)).
Definition note (v : FabricView) (node : string) (addrs : list string)
    (tags : gmap string (list string)) : FabricView :=
  let tagged := filter (λ a, is_rdma tags a = true) addrs in
  if nonempty tagged then v <| v_rdma ::= <[node := tagged]> |> else v.

(** ** Facts of the loops *)

Lemma filter_all_but_one {A} (P : A → Prop) `{∀ x, Decision (P x)} (l : list A) p q :
  p ∈ l → ¬ P p → length l ≤ length (filter P l) + 1 → q ∈ l → q ≠ p → P q.
Proof.
  intros Hp HPp Hlen Hq Hne. destruct (decide (P q)) as [|HPq]; [done|exfalso].
  apply elem_of_Permutation in Hp as [k Hk]. rewrite Hk in Hq.
  apply elem_of_cons in Hq as [->|Hq]; [done|]. apply elem_of_Permutation in Hq as [k' Hk'].
  rewrite Hk' in Hk. rewrite Hk in Hlen. rewrite !filter_cons_False in Hlen by done.
  pose proof (length_filter P k'). cbn in Hlen. lia.
Qed.

Lemma linked_sym v a b : linked v a b = linked v b a.
Proof. unfold linked. apply orb_comm. Qed.

Lemma joins_sym v x y : joins v x y = joins v y x.
Proof.
  unfold joins. rewrite linked_sym. f_equal. apply bool_decide_ext. split; congruence.
Qed.

Lemma joins_irrefl v x : joins v x x = false.
Proof. unfold joins. rewrite bool_decide_eq_false_2 by congruence. done. Qed.

Lemma worst_cmp_nat x y :
  match worst_cmp x y with Lt => x.1 ≤ y.1 | _ => y.1 ≤ x.1 end.
Proof.
  unfold worst_cmp, lex. destruct (Nat.compare_spec x.1 y.1) as [E|E|E]; [|lia|lia].
  destruct (port_cmp _ _); lia.
Qed.

Lemma min_worst l m x : min_by worst_cmp l = Some m → x ∈ l → m.1 ≤ x.1.
Proof.
  destruct l as [|y l]; [done|]. cbn. intros [= <-].
  revert y x. induction l as [|z l IH]; intros y x; cbn.
  - rewrite list_elem_of_singleton. by intros ->.
  - set (w := match worst_cmp z y with Lt => z | _ => y end).
    assert (w.1 ≤ y.1 ∧ w.1 ≤ z.1) as [Hy Hz].
    { pose proof (worst_cmp_nat z y). subst w. destruct (worst_cmp z y); lia. }
    pose proof (IH w w ltac:(set_solver)) as Hw.
    rewrite !elem_of_cons. intros [->|[->|Hx]]; [lia|lia|]. apply IH. set_solver.
Qed.

(** A set of ports every two of which join. *)
Definition clique (v : FabricView) (comp : list Port) : Prop :=
  ∀ p q, p ∈ comp → q ∈ comp → p ≠ q → joins v p q = true.

Lemma degree_clique v comp :
  (∀ p, p ∈ comp → length comp ≤ degree v comp p + 1) → clique v comp.
Proof.
  intros H p q Hp Hq Hne. specialize (H p Hp). unfold degree in H.
  apply (filter_all_but_one (λ q, joins v p q = true) comp p q); [done| |done|done|congruence].
  by rewrite joins_irrefl.
Qed.

Lemma prune_clique fuel v comp pruned kept pruned' :
  length comp < fuel → prune fuel v comp pruned = (kept, pruned') →
  clique v kept ∧ sublist kept comp.
Proof.
  revert comp pruned. induction fuel as [|fuel IH]; intros comp pruned Hf; [lia|].
  cbn [prune]. destruct (min_by _ _) as [[deg port]|] eqn:Hmin.
  - pose proof (min_by_elem _ _ _ Hmin) as Hin.
    apply list_elem_of_fmap in Hin as (p & [= -> ->] & Hp).
    case_decide as Hd.
    + intros [= <- <-]. split; [|done]. apply degree_clique. intros q Hq.
      pose proof (min_worst _ _ (degree v comp q, q) Hmin) as Hle. cbn in Hle.
      etrans; [exact Hd|]. apply Nat.add_le_mono_r, Hle. apply list_elem_of_fmap. eauto.
    + intros Hr. apply IH in Hr as [Hc Hs].
      * split; [done|]. etrans; [exact Hs|]. apply sublist_filter.
      * apply Nat.lt_le_trans with (length comp); [|lia].
        apply length_filter_lt with p; [done|]. by intros [].
  - intros [= <- <-]. destruct comp; [|done]. split; [|done]. intros p q Hp. set_solver.
Qed.

Lemma visit_spec v p ps comp queue comp' queue' :
  visit v p ps comp queue = (comp', queue') →
  (∀ q, q ∈ comp' ↔ q ∈ comp ∨ (q ∈ ps ∧ joins v p q = true)) ∧
  (∀ q, q ∈ queue' ↔ q ∈ queue ∨ (q ∈ ps ∧ joins v p q = true ∧ q ∉ comp)) ∧
  (NoDup comp → NoDup comp') ∧
  length comp' + length queue = length comp + length queue'.
Proof.
  revert comp queue. induction ps as [|q ps IH]; intros comp queue; cbn [visit].
  - intros [= <- <-]. repeat split; try set_solver.
  - destruct (negb (bool_decide (q ∈ comp)) && joins v p q) eqn:E.
    + apply andb_true_iff in E as [E1%negb_true_iff%bool_decide_eq_false E2].
      intros (H1 & H2 & H3 & H4)%IH. repeat split.
      * rewrite H1. set_solver.
      * rewrite H1. set_solver.
      * rewrite H2. set_solver.
      * rewrite H2. set_unfold. intros [?|(?&?&?)]; [naive_solver|].
        destruct (decide (q0 = q)); naive_solver.
      * intros Hn. apply H3. apply list.NoDup_app. repeat split; [done|set_solver|].
        apply NoDup_singleton.
      * rewrite length_app in H4. cbn in H4. lia.
    + intros (H1 & H2 & H3 & H4)%IH.
      assert (joins v p q = true → q ∈ comp) as Hq.
      { intros Hj. rewrite Hj, andb_true_r in E. by apply negb_false_iff, bool_decide_eq_true in E. }
      repeat split; [rewrite H1; set_solver|rewrite H1; set_unfold; naive_solver
                    |rewrite H2; set_solver|rewrite H2; set_unfold; naive_solver|done|done].
Qed.

(** Ports of [comp] whose neighbours are all in [comp] are those the walk has
    popped: the ones no longer on the queue. *)
Definition walk_inv (v : FabricView) (ps comp queue : list Port) : Prop :=
  NoDup comp ∧ (∀ p, p ∈ queue → p ∈ comp) ∧ (∀ p, p ∈ comp → p ∈ ps) ∧
  (∀ p q, p ∈ comp → p ∉ queue → q ∈ ps → joins v p q = true → q ∈ comp).

Lemma walk_inv_visit v p ps comp queue comp' queue' :
  walk_inv v ps comp (p :: queue) → visit v p ps comp queue = (comp', queue') →
  walk_inv v ps comp' queue'.
Proof.
  intros (Hn & Hq & Hps & Hcl) Hv. apply visit_spec in Hv as (H1 & H2 & H3 & _).
  split; [by apply H3|]. split; [|split].
  - intros q. rewrite H2, H1. set_solver.
  - intros q. rewrite H1. set_solver.
  - intros q r. rewrite H1, H2. intros Hin Hnq Hr Hj. apply H1.
    destruct (decide (r ∈ comp)) as [|Hrc]; [by left|]. right. split; [done|].
    destruct (decide (q ∈ comp)) as [Hqc|Hqc].
    + destruct (decide (q = p)) as [->|Hne]; [done|].
      destruct Hrc. apply Hcl with q; [done|set_solver|done|done].
    + destruct Hnq. destruct Hin as [|[]]; [done|]. auto.
Qed.

Lemma component_spec fuel v ps comp queue :
  walk_inv v ps comp queue → length ps + length queue < fuel + length comp →
  let comp' := component fuel v ps comp queue in
  walk_inv v ps comp' [] ∧ (∀ p, p ∈ comp → p ∈ comp') ∧
  (∀ S : Port → Prop, (∀ p q, S p → q ∈ ps → joins v p q = true → S q) →
     (∀ p, p ∈ comp → S p) → ∀ p, p ∈ comp' → S p).
Proof.
  revert comp queue. induction fuel as [|fuel IH]; intros comp queue Hinv Hf.
  { destruct Hinv as (Hn & _ & Hps & _). exfalso.
    assert (length comp ≤ length ps); [|lia].
    by apply submseteq_length, list.NoDup_submseteq. }
  cbn [component]. destruct queue as [|p queue]; [by split_and!|].
  destruct (visit v p ps comp queue) as [comp1 queue1] eqn:Hv.
  pose proof (walk_inv_visit _ _ _ _ _ _ _ Hinv Hv) as Hinv1.
  apply visit_spec in Hv as (H1 & _ & _ & H4). cbn in Hf.
  destruct (IH comp1 queue1 Hinv1) as (Ha & Hb & Hc); [lia|].
  split_and!; [done| |].
  - intros q Hq. apply Hb, H1. by left.
  - intros S HS Hcomp. apply Hc; [done|]. intros q [Hq|[Hq Hj]]%H1; [by apply Hcomp|].
    apply HS with p; [|done|done]. apply Hcomp. apply Hinv. set_solver.
Qed.

Lemma component_seed v ps seed :
  seed ∈ ps →
  let comp := component (S (length ps)) v ps [seed] [seed] in
  walk_inv v ps comp [] ∧ seed ∈ comp ∧
  (∀ S : Port → Prop, (∀ p q, S p → q ∈ ps → joins v p q = true → S q) →
     S seed → ∀ p, p ∈ comp → S p).
Proof.
  intros Hs. destruct (component_spec (S (length ps)) v ps [seed] [seed]) as (Ha & Hb & Hc).
  - split_and!; [apply list.NoDup_singleton|done|set_solver|set_solver].
  - cbn. lia.
  - split_and!; [done|apply Hb; set_solver|].
    intros S HS Hseed. apply Hc; [done|]. intros p ->%list_elem_of_singleton. done.
Qed.

#[export] Instance port_cmp_ok : CmpOk port_cmp.
Proof.
  notypeclasses refine (@lex_cmp_ok Port (λ x y, String.compare x.1 y.1)
    (λ x y, String.compare x.2 y.2) _ _); apply (key_cmp_ok _ String.compare).
Qed.

#[export] Instance choice_cmp_ok deg : CmpOk (choice_cmp deg).
Proof.
  notypeclasses refine (@lex_cmp_ok Port (λ x y, String.compare x.1 y.1)
    (λ x y, lex (Nat.compare (deg y) (deg x)) (String.compare x.2 y.2)) _ _).
  - apply (key_cmp_ok _ String.compare).
  - notypeclasses refine (@lex_cmp_ok Port (λ x y, Nat.compare (deg y) (deg x))
      (λ x y, String.compare x.2 y.2) _ _); [|apply (key_cmp_ok _ String.compare)].
    apply (key_cmp_ok deg (λ x y, Nat.compare y x) (CmpOk0 := rev_cmp_ok Nat.compare)).
Qed.

Lemma string_cmp_le a b : String.compare a b ≠ Gt → String.le a b.
Proof. unfold String.le, String.leb. by destruct (String.compare a b). Qed.

Lemma choice_sorted_nodes deg l :
  StronglySorted (λ p q : Port, String.le p.1 q.1) (sort_by (choice_cmp deg) l).
Proof.
  generalize (sort_by_sorted (choice_cmp deg) l).
  induction 1 as [|p l' Hs IH Hall]; constructor; [done|].
  eapply list.Forall_impl; [exact Hall|]. intros q Hpq. apply string_cmp_le.
  revert Hpq. unfold cmp_le, choice_cmp, lex. by destruct (String.compare p.1 q.1).
Qed.

Lemma dedup_nodes_spec last l :
  StronglySorted (λ p q : Port, String.le p.1 q.1) l →
  (∀ n p, last = Some n → p ∈ l → String.le n p.1) →
  NoDup (dedup_nodes last l).*1 ∧ (∀ p, p ∈ dedup_nodes last l → p ∈ l ∧ last ≠ Some p.1) ∧
  (∀ p, p ∈ l → last ≠ Some p.1 → ∃ q, q ∈ dedup_nodes last l ∧ q.1 = p.1).
Proof.
  intros Hs. revert last. induction Hs as [|q l Hs IH Hall]; intros last Hlast.
  { cbn. split_and!; [constructor|set_solver|set_solver]. }
  rewrite list.Forall_forall in Hall. cbn [dedup_nodes]. case_decide as E.
  - destruct (IH last) as (H1 & H2 & H3); [intros; apply Hlast; set_solver|].
    split_and!; [done| |].
    + intros p Hp. apply H2 in Hp. set_solver.
    + intros p [->|Hp]%elem_of_cons Hne; [done|]. by apply H3.
  - destruct (IH (Some q.1)) as (H1 & H2 & H3); [intros n p [= <-] Hp; by apply Hall|].
    split_and!.
    + cbn. constructor; [|done]. rewrite list_elem_of_fmap. intros (p & Ep & Hp).
      apply H2 in Hp as [_ Hp]. congruence.
    + intros p [->|Hp]%elem_of_cons; [set_solver|]. apply H2 in Hp as [Hp Hne].
      split; [set_solver|]. intros ->. destruct Hne. f_equal.
      apply (anti_symm String.le); [by apply Hall|].
      apply (Hlast p.1 q); set_solver.
    + intros p Hp Hne. destruct (decide (p.1 = q.1)) as [Epq|Hpq].
      { exists q. set_solver. }
      apply elem_of_cons in Hp as [->|Hp]; [done|].
      destruct (H3 p) as (r & Hr & Er); [done|congruence|]. exists r. set_solver.
Qed.

Lemma one_port_per_node_spec v comp :
  NoDup (one_port_per_node v comp).*1 ∧
  (∀ p, p ∈ one_port_per_node v comp → p ∈ comp) ∧
  (∀ p, p ∈ comp → ∃ q, q ∈ one_port_per_node v comp ∧ q.1 = p.1).
Proof.
  unfold one_port_per_node.
  destruct (dedup_nodes_spec None (sort_by (choice_cmp (degree v comp)) comp)) as (H1 & H2 & H3).
  - apply choice_sorted_nodes.
  - done.
  - split_and!; [done| |].
    + intros p Hp. apply H2 in Hp as [Hp _]. by apply elem_of_sort_by in Hp.
    + intros p Hp. apply H3; [|done]. by apply elem_of_sort_by.
Qed.

(** ** What an island promises *)

(** The members are at least two distinct nodes in order, each with one of its
    own tagged addresses, and every two of those addresses answered a probe. *)
Record fabric_island (v : FabricView) (i : Island) : Prop := {
  island_distinct : NoDup (i_nodes i);
  island_size : 2 ≤ length (i_nodes i);
  island_members : ∀ n, n ∈ i_nodes i ↔ is_Some (i_addr i !! n);
  island_tagged : ∀ n a, i_addr i !! n = Some a → ∃ l, v_rdma v !! n = Some l ∧ a ∈ l;
  island_linked : ∀ n m a b, n ≠ m → i_addr i !! n = Some a → i_addr i !! m = Some b →
    linked v a b = true;
}.

Lemma elem_of_ports v p :
  p ∈ ports v ↔ ∃ l, v_rdma v !! p.1 = Some l ∧ p.2 ∈ l.
Proof.
  unfold ports. rewrite elem_of_sort_by, list_elem_of_bind. split.
  - intros ([n addrs] & Hp & Hn%elem_of_bt_iter).
    apply list_elem_of_fmap in Hp as (a & -> & Ha). eauto.
  - intros (l & Hl & Ha). exists (p.1, l). rewrite elem_of_bt_iter. split; [|done].
    apply list_elem_of_fmap. exists p.2. by destruct p.
Qed.

Lemma island_of_lookup comp n a :
  NoDup comp.*1 → i_addr (island_of comp) !! n = Some a ↔ (n, a) ∈ comp.
Proof.
  intros Hn. unfold island_of. cbn. rewrite <-elem_of_list_to_map.
  - by rewrite elem_of_sort_by.
  - by rewrite sort_by_perm.
Qed.

Lemma island_of_nodes comp : i_nodes (island_of comp) ≡ₚ comp.*1.
Proof. unfold island_of. cbn. by rewrite sort_by_perm. Qed.

Lemma island_of_good v comp :
  NoDup comp.*1 → 2 ≤ length comp → (∀ p, p ∈ comp → p ∈ ports v) → clique v comp →
  fabric_island v (island_of comp).
Proof.
  intros Hn Hlen Hps Hc. split.
  - by rewrite island_of_nodes.
  - by rewrite island_of_nodes, length_fmap.
  - intros n. rewrite island_of_nodes, list_elem_of_fmap. split.
    + intros ([n' a] & -> & Hp). exists a. by apply island_of_lookup.
    + intros [a Ha%island_of_lookup]; [|done]. by exists (n, a).
  - intros n a Ha%island_of_lookup; [|done]. by apply Hps, elem_of_ports in Ha.
  - intros n m a b Hne Ha%island_of_lookup Hb%island_of_lookup; [|done|done].
    assert (joins v (n, a) (m, b) = true) as Hj.
    { apply Hc; [done|done|]. intros [= ? ?]. done. }
    unfold joins in Hj. by apply andb_true_iff in Hj as [_ Hj].
Qed.

(** What one seed contributes: nothing, or one island inside its component. *)
Definition seed_ports (v : FabricView) (seed : Port) : list Port :=
  component (S (length (ports v))) v (ports v) [seed] [seed].
Definition seed_kept (v : FabricView) (seed : Port) (pruned : list Pruned) : list Port :=
  let chosen := one_port_per_node v (seed_ports v seed) in
  (prune (S (length chosen)) v chosen pruned).1.

Lemma seed_kept_spec v seed pruned :
  seed ∈ ports v →
  let kept := seed_kept v seed pruned in
  NoDup kept.*1 ∧ (∀ p, p ∈ kept → p ∈ seed_ports v seed) ∧
  (∀ p, p ∈ kept → p ∈ ports v) ∧ clique v kept.
Proof.
  intros Hs. unfold seed_kept.
  destruct (component_seed v (ports v) seed Hs) as ((_ & _ & Hps & _) & _ & _).
  fold (seed_ports v seed) in Hps.
  destruct (one_port_per_node_spec v (seed_ports v seed)) as (H1 & H2 & _).
  set (chosen := one_port_per_node v (seed_ports v seed)) in *.
  destruct (prune (S (length chosen)) v chosen pruned) as [kept pruned'] eqn:Hp. cbn.
  apply prune_clique in Hp as [Hc Hsub]; [|lia].
  assert (∀ p, p ∈ kept → p ∈ seed_ports v seed) as Hin.
  { intros p Hpk. apply H2. by eapply elem_of_sublist. }
  split_and!; [|done|by auto|done].
  eapply sublist_NoDup; [exact H1|]. by apply fmap_sublist.
Qed.

Lemma seed_step_eq v out placed pruned seed :
  seed_step v (ports v) (out, placed, pruned) seed =
    if bool_decide (seed ∈ placed) then (out, placed, pruned)
    else
      let kept := seed_kept v seed pruned in
      (if decide (length kept < 2) then out else out ++ [island_of kept],
       placed ++ seed_ports v seed,
       (prune (S (length (one_port_per_node v (seed_ports v seed)))) v
          (one_port_per_node v (seed_ports v seed)) pruned).2).
Proof.
  cbn [seed_step]. case_bool_decide; [done|]. unfold seed_kept, seed_ports.
  by destruct (prune _ _ _ _).
Qed.

(** The loop over seeds, for a property of one island that every seed's
    contribution has. *)
Lemma seeds_ind v (P : Island → Prop) seeds acc :
  (∀ seed pruned, seed ∈ ports v → 2 ≤ length (seed_kept v seed pruned) →
     P (island_of (seed_kept v seed pruned))) →
  (∀ s, s ∈ seeds → s ∈ ports v) →
  (∀ i, i ∈ acc.1.1 → P i) →
  ∀ i, i ∈ (foldl (seed_step v (ports v)) acc seeds).1.1 → P i.
Proof.
  intros HP. revert acc. induction seeds as [|s seeds IH]; intros acc Hs Hacc; [done|].
  cbn [foldl]. apply IH; [set_solver|]. destruct acc as [[out placed] pruned].
  rewrite seed_step_eq. case_bool_decide; [done|]. cbn. case_decide; [done|].
  intros i [Hi|Hi]%elem_of_app; [by apply Hacc|].
  apply list_elem_of_singleton in Hi as ->. apply HP; [set_solver|lia].
Qed.

Lemma islands_elem v i :
  i ∈ (islands v).1 ↔ i ∈ (foldl (seed_step v (ports v)) ([], [], []) (ports v)).1.1.
Proof.
  unfold islands. destruct (foldl _ _ _) as [[out placed] pruned]. cbn. apply elem_of_sort_by.
Qed.

(** C10: every island is a set of at least two nodes, each listening on one of
    its own tagged addresses, in which every member reaches every other over
    a probe that answered. So a placement group put inside an island never
    holds two ranks that cannot talk. *)
Theorem islands_are_mutually_reachable v i :
  i ∈ (islands v).1 → fabric_island v i.
Proof.
  rewrite islands_elem. apply seeds_ind; [|done|set_solver].
  intros seed pruned Hs Hlen.
  destruct (seed_kept_spec v seed pruned Hs) as (H1 & _ & H3 & H4).
  by apply island_of_good.
Qed.

(** A whole component: every two of its ports join, it is closed under
    joining, and it has one port per node. *)
Definition whole_component (v : FabricView) (S : list Port) : Prop :=
  NoDup S.*1 ∧ (∀ p, p ∈ S → p ∈ ports v) ∧ clique v S ∧
  (∀ p q, p ∈ S → q ∈ ports v → joins v p q = true → q ∈ S).

Lemma seed_ports_whole v S seed :
  whole_component v S → seed ∈ S → ∀ p, p ∈ seed_ports v seed ↔ p ∈ S.
Proof.
  intros (Hn & Hps & Hc & Hcl) Hseed p.
  destruct (component_seed v (ports v) seed (Hps _ Hseed)) as ((_ & _ & _ & Hwalk) & Hin & Hmin).
  fold (seed_ports v seed) in Hwalk, Hin, Hmin. split.
  - apply (Hmin (λ q, q ∈ S)); [|done]. intros q r Hq Hr Hj. by apply Hcl with q.
  - intros Hp. destruct (decide (seed = p)) as [->|Hne]; [done|].
    apply Hwalk with seed; [done|set_solver|by apply Hps|by apply Hc].
Qed.

Lemma degree_whole v comp p :
  NoDup comp → p ∈ comp → clique v comp → length comp ≤ degree v comp p + 1.
Proof.
  intros Hn Hp Hc. unfold degree.
  apply elem_of_Permutation in Hp as [k Hk].
  assert ((p ∉ k) ∧ NoDup k) as [Hpk Hk'].
  { rewrite Hk in Hn. by apply list.NoDup_cons in Hn. }
  assert (length (filter (λ q, joins v p q = true) comp) = length k) as ->.
  2: { apply Permutation_length in Hk. cbn in Hk. lia. }
  rewrite Hk, filter_cons_False by (by rewrite joins_irrefl).
  f_equal. apply filter_all. intros q Hq.
  apply Hc; [rewrite Hk; left|rewrite Hk; by right|]. by intros ->.
Qed.

Lemma prune_whole fuel v comp pruned :
  NoDup comp → clique v comp → prune fuel v comp pruned = (comp, pruned).
Proof.
  intros Hn Hc. destruct fuel as [|fuel]; [done|]. cbn [prune].
  destruct (min_by _ _) as [[deg port]|] eqn:Hmin; [|done].
  apply min_by_elem, list_elem_of_fmap in Hmin as (p & [= -> ->] & Hp).
  rewrite decide_True; [done|]. by apply degree_whole.
Qed.

Lemma nodes_NoDup_sub (l k : list Port) :
  NoDup l.*1 → NoDup k.*1 → (∀ p, p ∈ k → p ∈ l) →
  (∀ p, p ∈ l → ∃ q, q ∈ k ∧ q.1 = p.1) → k ≡ₚ l.
Proof.
  intros Hl Hk Hkl Hlk. apply list.NoDup_Permutation.
  - by eapply NoDup_fmap_1.
  - by eapply NoDup_fmap_1.
  - intros p. split; [apply Hkl|]. intros Hp. destruct (Hlk p Hp) as (q & Hq & E).
    enough (q = p) as <- by done. pose proof (Hkl q Hq) as Hq'.
    destruct p as [n a], q as [n' b]. cbn in E. subst n'. f_equal.
    apply (NoDup_fst_inj l n b a); done.
Qed.

Lemma seed_kept_whole v S seed pruned :
  whole_component v S → seed ∈ S →
  NoDup (seed_kept v seed pruned).*1 ∧ seed_kept v seed pruned ≡ₚ S.
Proof.
  intros HS Hs. unfold seed_kept.
  pose proof (seed_ports_whole v S seed HS Hs) as Hsp.
  destruct (one_port_per_node_spec v (seed_ports v seed)) as (H1 & H2 & H3).
  assert (one_port_per_node v (seed_ports v seed) ≡ₚ S) as Hperm.
  { apply nodes_NoDup_sub; [apply HS|done| |].
    - intros p Hp. by apply Hsp, H2.
    - intros p Hp. by apply H3, Hsp. }
  rewrite prune_whole; [done|by eapply NoDup_fmap_1|].
  intros p q. rewrite Hperm. apply HS.
Qed.

(** Joining is symmetric, so a walk that starts outside a whole component
    stays outside. *)
Lemma seed_ports_outside v S seed :
  whole_component v S → seed ∈ ports v → seed ∉ S → ∀ p, p ∈ seed_ports v seed → p ∉ S.
Proof.
  intros (_ & _ & _ & Hcl) Hps Hs p Hp.
  destruct (component_seed v (ports v) seed Hps) as (_ & _ & Hmin).
  enough (p ∈ ports v ∧ p ∉ S) by tauto.
  apply (Hmin (λ q, q ∈ ports v ∧ q ∉ S)); [|done|done].
  intros q r [Hq HqS] Hr Hj. split; [done|]. intros HrS. apply HqS.
  apply Hcl with r; [done|done|by rewrite joins_sym].
Qed.

Definition island_on (S : list Port) (i : Island) : Prop :=
  ∀ n a, i_addr i !! n = Some a ↔ (n, a) ∈ S.

Lemma seeds_find v S seeds out placed pruned :
  whole_component v S → 2 ≤ length S → (∀ s, s ∈ seeds → s ∈ ports v) →
  (∃ i, i ∈ out ∧ island_on S i) ∨
    ((∃ s, s ∈ seeds ∧ s ∈ S) ∧ ∀ s, s ∈ S → s ∉ placed) →
  ∃ i, i ∈ (foldl (seed_step v (ports v)) (out, placed, pruned) seeds).1.1 ∧ island_on S i.
Proof.
  intros HS Hlen. revert out placed pruned.
  induction seeds as [|s seeds IH]; intros out placed pruned Hseeds Hout.
  { destruct Hout as [Hout|[(s & Hs & _) _]]; [done|set_solver]. }
  cbn [foldl]. rewrite seed_step_eq. case_bool_decide as Hpl.
  { apply IH; [set_solver|]. destruct Hout as [Hout|[(s' & Hs' & HS') Hn]]; [by left|right].
    split; [|done]. exists s'. split; [|done].
    apply elem_of_cons in Hs' as [->|]; [|done]. by destruct (Hn s). }
  cbn zeta. apply IH; [set_solver|].
  destruct Hout as [(i & Hi & HiS)|[(s' & Hs' & HS') Hn]].
  { left. exists i. split; [|done]. case_decide; set_solver. }
  destruct (decide (s ∈ S)) as [HsS|HsS].
  - left. destruct (seed_kept_whole v S s pruned HS HsS) as (K1 & K2).
    exists (island_of (seed_kept v s pruned)). rewrite decide_False by (rewrite K2; lia).
    split; [set_solver|]. intros n a. by rewrite island_of_lookup, K2 by done.
  - right. split.
    + exists s'. split; [|done]. apply elem_of_cons in Hs' as [->|]; done.
    + intros t Ht. rewrite elem_of_app. intros [Htp|Hts]; [by apply (Hn t)|].
      by apply (seed_ports_outside v S s HS ltac:(set_solver) HsS t).
Qed.

(** Where the cabling is already whole, nothing is pruned: a component of
    at least two ports, one per node, in which every pair answered is one of
    the islands, with exactly its addresses. *)
Theorem whole_component_is_island v S :
  whole_component v S → 2 ≤ length S → ∃ i, i ∈ (islands v).1 ∧ island_on S i.
Proof.
  intros HS Hlen.
  destruct (seeds_find v S (ports v) [] [] [] HS Hlen) as (i & Hi & HiS); [done| |].
  - right. split; [|set_solver]. destruct S as [|s S]; [cbn in Hlen; lia|].
    exists s. split; [apply HS|]; set_solver.
  - exists i. split; [|done]. by apply islands_elem.
Qed.

(** *** A half-cabled ring of four and a cabled pair

    Nodes [a] to [d] are cabled in a ring, so no island holds all four, and
    [e] and [f] are a pair. *)
Definition ring_and_pair : FabricView :=
  mkView (list_to_map [("a", ["10.0.0.1"]); ("b", ["10.0.0.2"]); ("c", ["10.0.0.3"]);
                       ("d", ["10.0.0.4"]); ("e", ["10.0.0.5"]); ("f", ["10.0.0.6"])])
    (list_to_set [("10.0.0.1", "10.0.0.2"); ("10.0.0.2", "10.0.0.3"); ("10.0.0.3", "10.0.0.4");
                  ("10.0.0.4", "10.0.0.1"); ("10.0.0.6", "10.0.0.5")]).

Example ring_and_pair_islands :
  i_nodes <$> (islands ring_and_pair).1 = [["c"; "d"]; ["e"; "f"]].
Proof. by vm_compute. Qed.

Definition pair_ports : list Port := [("e", "10.0.0.5"); ("f", "10.0.0.6")].

Lemma pair_is_whole : whole_component ring_and_pair pair_ports.
Proof.
  split_and!.
  - by apply (bool_decide_unpack _); vm_compute.
  - apply list.Forall_forall, (bool_decide_unpack _). by vm_compute.
  - intros p q Hp Hq. revert p q Hp Hq.
    enough (Forall (λ p, Forall (λ q, p ≠ q → joins ring_and_pair p q = true) pair_ports)
              pair_ports) as H.
    { intros p q Hp Hq. rewrite list.Forall_forall in H. specialize (H p Hp).
      rewrite list.Forall_forall in H. by apply H. }
    apply (bool_decide_unpack _). by vm_compute.
  - enough (Forall (λ p, Forall (λ q, joins ring_and_pair p q = true → q ∈ pair_ports)
              (ports ring_and_pair)) pair_ports) as H.
    { intros p q Hp Hq. rewrite list.Forall_forall in H. specialize (H p Hp).
      rewrite list.Forall_forall in H. by apply H. }
    apply (bool_decide_unpack _). by vm_compute.
Qed.

Lemma whole_component_is_island_witness :
  ∃ i, i ∈ (islands ring_and_pair).1 ∧ island_on pair_ports i.
Proof. apply (whole_component_is_island _ _ pair_is_whole). vm_compute. lia. Defined.

Lemma islands_are_mutually_reachable_witness :
  let i := mkIsland ["e"; "f"] (list_to_map [("e", "10.0.0.5"); ("f", "10.0.0.6")]) in
  i ∈ (islands ring_and_pair).1 ∧ fabric_island ring_and_pair i.
Proof.
  split.
  - apply (bool_decide_unpack _). vm_compute. exact I.
  - apply islands_are_mutually_reachable. apply (bool_decide_unpack _). vm_compute. exact I.
Defined.
