(* ===== verification/State.v ===== *)
(** * Cluster state (rust/mentatd/src/state.rs)

    The daemon's records, its [State], and what one critical section works
    on: a [World] is the state and the effects produced so far. A socket
    ([FrameWriter]) is the identity of the stream it wraps. What the process
    reads from outside during a critical section is an [Env]: the clock, the
    configuration, this host's addresses, the outcome of writes, and fresh
    random ids. *)

From S2P Require Import Prelude Json Proto Addr Island.

Abbreviation Sock := N (only parsing).

(** ** Actors *)

Inductive ActorState :=
| Spawning
| Running
| Dead (reason : string) (at_ms : N).
#[export] Instance actor_state_eq_dec : EqDecision ActorState.
Proof. solve_decision. Defined.

Definition is_dead (s : ActorState) : bool := match s with Dead _ _ => true | _ => false end.

(** A held call: (ref_id, method, payload). *)
Definition QueuedCall := (string * string * bytes)%type.

Record ActorInfo := mkActor {
  a_id : string; a_name : string; a_group : string; a_agent : string; a_node_id : string;
  a_gpu_ids : list N; a_owner : string; a_state : ActorState; a_pid : option N;
  a_queued_calls : list QueuedCall }.
#[export] Instance eta_ActorInfo : Eta ActorInfo := λ a,
  mkActor (a_id a) (a_name a) (a_group a) (a_agent a) (a_node_id a) (a_gpu_ids a) (a_owner a)
    (a_state a) (a_pid a) (a_queued_calls a).

Definition a_live (a : ActorInfo) : bool := negb (is_dead (a_state a)).

(** ** Agents *)

Record AgentInfo := mkAgent {
  ag_id : string; ag_group : string; ag_node_id : string; ag_node_ip : string;
  ag_machine : Machine; ag_container : string; ag_pid : N;
  ag_services : gmap string Service; ag_meta : gmap string string;
  ag_writer : Sock; ag_alive : bool; ag_lost_at_ms : option N; ag_degraded : bool;
  ag_gone_since_ms : option N; ag_seq : N }.
#[export] Instance eta_AgentInfo : Eta AgentInfo := λ a,
  mkAgent (ag_id a) (ag_group a) (ag_node_id a) (ag_node_ip a) (ag_machine a) (ag_container a)
    (ag_pid a) (ag_services a) (ag_meta a) (ag_writer a) (ag_alive a) (ag_lost_at_ms a)
    (ag_degraded a) (ag_gone_since_ms a) (ag_seq a).

(** ** Placement groups *)

Inductive PgState := PgPending | PgCreated | PgRemoved.
#[export] Instance pg_state_eq_dec : EqDecision PgState.
Proof. solve_decision. Defined.

Record BundleAssignment := mkBundle {
  b_agent : string; b_node_id : string; b_gpu_ids : list N; b_env : gmap string string }.

Record PgInfo := mkPg {
  pg_id : string; pg_group : string; pg_owner : string; pg_bundles : list N;
  pg_strategy : string; pg_assignment : list (option BundleAssignment); pg_state : PgState;
  pg_created_ms : N; pg_fail_reason : option string; pg_claim : string;
  pg_island : option Island; pg_pending_reason : option string; pg_removed_ms : option N }.
#[export] Instance eta_PgInfo : Eta PgInfo := λ p,
  mkPg (pg_id p) (pg_group p) (pg_owner p) (pg_bundles p) (pg_strategy p) (pg_assignment p)
    (pg_state p) (pg_created_ms p) (pg_fail_reason p) (pg_claim p) (pg_island p)
    (pg_pending_reason p) (pg_removed_ms p).

(** [assignment.iter().flatten()] *)
Definition placed_bundles (p : PgInfo) : list BundleAssignment := omap id (pg_assignment p).

(** ** Refs, clients, claims, peers *)

Inductive RefState :=
| RefPending
| RefReady (ok : bool) (payload : bytes)
| RefActorDied (reason : string).
#[export] Instance ref_state_eq_dec : EqDecision RefState.
Proof. solve_decision. Defined.

Record RefInfo := mkRef {
  rf_state : RefState; rf_actor : option string; rf_owner : string; rf_method : string;
  rf_created_ms : N; rf_warned : bool }.
#[export] Instance eta_RefInfo : Eta RefInfo := λ r,
  mkRef (rf_state r) (rf_actor r) (rf_owner r) (rf_method r) (rf_created_ms r) (rf_warned r).

Record ClientInfo := mkClient {
  c_id : string; c_group : string; c_kind : string; c_node_id : string; c_has_session : bool }.
#[export] Instance eta_ClientInfo : Eta ClientInfo := λ c,
  mkClient (c_id c) (c_group c) (c_kind c) (c_node_id c) (c_has_session c).

Record ClaimInfo := mkClaim {
  cl_shape : Value; cl_view : Value; cl_generation : N; cl_holders : gset string }.
#[export] Instance eta_ClaimInfo : Eta ClaimInfo := λ c,
  mkClaim (cl_shape c) (cl_view c) (cl_generation c) (cl_holders c).

Record Counters := mkCounters {
  actors_spawned : N; actor_exits_clean : N; actor_exits_signal : N; actor_exits_error : N;
  calls_total : N; clients_total : N; agents_registered : N; relayed : N }.
#[export] Instance eta_Counters : Eta Counters := λ c,
  mkCounters (actors_spawned c) (actor_exits_clean c) (actor_exits_signal c)
    (actor_exits_error c) (calls_total c) (clients_total c) (agents_registered c) (relayed c).
Definition counters_default : Counters := mkCounters 0 0 0 0 0 0 0 0.

Record PairProbe := mkProbe {
  pp_ok : bool; pp_rtt_ms : N; pp_last_ok_ms : option N; pp_error : string;
  pp_neighbour_mac : option string; pp_direct : option bool }.
#[export] Instance eta_PairProbe : Eta PairProbe := λ p,
  mkProbe (pp_ok p) (pp_rtt_ms p) (pp_last_ok_ms p) (pp_error p) (pp_neighbour_mac p)
    (pp_direct p).
Definition ProbeTable := (gmap string (gmap string PairProbe)).

Record PeerInfo := mkPeer {
  pe_node_id : string; pe_outbound : bool; pe_node_ip : string; pe_link_ip : string;
  pe_addrs : list string; pe_addr_tags : gmap string (list string);
  pe_addr_ifaces : gmap string string; pe_addr_macs : gmap string string;
  pe_probe_pairs : gmap string (gmap string PairProbe); pe_ambiguous_ports : gset string;
  pe_control_port : N; pe_http_port : N; pe_writer : Sock; pe_alive : bool;
  pe_last_seen_ms : N; pe_dead_since_ms : option N; pe_stale : bool; pe_last_status : Value }.
#[export] Instance eta_PeerInfo : Eta PeerInfo := λ p,
  mkPeer (pe_node_id p) (pe_outbound p) (pe_node_ip p) (pe_link_ip p) (pe_addrs p)
    (pe_addr_tags p) (pe_addr_ifaces p) (pe_addr_macs p) (pe_probe_pairs p)
    (pe_ambiguous_ports p) (pe_control_port p) (pe_http_port p) (pe_writer p) (pe_alive p)
    (pe_last_seen_ms p) (pe_dead_since_ms p) (pe_stale p) (pe_last_status p).

(** ** The state *)

Record State := mkState {
  node_id : string; node_ip : string; hostname : string; control_addr : string;
  control_port : N; http_port : N;
  peers : gmap string PeerInfo; dialing : gset string; st_fabrics : Fabrics;
  head_node_id : string; head_generation : N; head_since_ms : option N;
  agents : gmap string AgentInfo; actors : gmap string ActorInfo; pgs : gmap string PgInfo;
  refs : gmap string RefInfo; clients : gmap string ClientInfo;
  client_links : list (string * Sock);
  claims : gmap (string * string) ClaimInfo; claim_generation : N;
  misfiled_warned : gset string; reap_pending : gmap string N;
  next_reap : N; next_seq : N; next_ref : N; counters : Counters; next_event_seq : N;
  boot_id : string; event_subs : list N }.
#[export] Instance eta_State : Eta State := λ s,
  mkState (node_id s) (node_ip s) (hostname s) (control_addr s) (control_port s) (http_port s)
    (peers s) (dialing s) (st_fabrics s) (head_node_id s) (head_generation s) (head_since_ms s)
    (agents s) (actors s) (pgs s) (refs s) (clients s) (client_links s) (claims s)
    (claim_generation s) (misfiled_warned s) (reap_pending s) (next_reap s) (next_seq s)
    (next_ref s) (counters s) (next_event_seq s) (boot_id s) (event_subs s).

(** [State::new] with the process's random boot id. *)
Definition state_new (ip host control : string) (boot : string) : State := {|
  node_id := node_id_for ip; node_ip := ip; hostname := host; control_addr := control;
  control_port := default 0%N ('(_, p) ← rsplit_once ":" control;
                               n ← parse_u64 p; if bool_decide (n < 65536)%N then Some n else None);
  http_port := 0; peers := ∅; dialing := ∅; st_fabrics := fabrics_default;
  head_node_id := EmptyString; head_generation := 0; head_since_ms := None;
  agents := ∅; actors := ∅; pgs := ∅; refs := ∅; clients := ∅; client_links := [];
  claims := ∅; claim_generation := 0; misfiled_warned := ∅; reap_pending := ∅;
  next_reap := 1; next_seq := 1; next_ref := 1; counters := counters_default;
  next_event_seq := 1; boot_id := boot; event_subs := [] |}.

(** ** Environment and effects *)

(** The MENTAT_* knobs of config.rs that the modelled code reads. *)
Record Cfg := mkCfg {
  pg_pending_timeout_ms : N; agent_degraded_after_ms : N; agent_dead_after_ms : N;
  history_keep_ms : N; peer_stale_after_ms : N; peer_dead_after_ms : N;
  election_hold_down_ms : N; election_boot_wait_ms : N; island_placement : bool;
  island_hold_down_ms : N; slow_call_warn_ms : N; session_reap_grace_ms : N }.

Definition cfg_default : Cfg :=
  mkCfg 600000 30000 60000 600000 30000 60000 5000 20000 true 5000 15000 0.

(** This host's addresses, as announce.rs reads them from the interfaces. *)
Record Host := mkHost {
  local_addrs : list string; all_local_addrs : list string;
  local_addr_tags : gmap string (list string); local_addr_ifaces : gmap string string;
  local_addr_macs : gmap string string }.

Record Env := mkEnv {
  now_ms : N; cfg : Cfg; host : Host;
  write_error : Sock → option string; sub_open : N → bool; random_hex : string }.

(** What leaves the process. A frame handed to a socket is recorded whether
    or not the write succeeds. *)
Inductive Effect :=
| Send (w : Sock) (m : Msg.t) (req : N) (payload : bytes)
| Shutdown (w : Sock)
| Deliver (sub : N) (event : Value)
| Notify.

Record World := mkWorld { st : State; out : list Effect }.
#[export] Instance eta_World : Eta World := λ w, mkWorld (st w) (out w).

Abbreviation SM := (M World).

Definition get_st {A} (f : State → A) : SM A := gets (λ w, f (st w)).
Definition modify_st (f : State → State) : SM unit := modify (λ w, w <| st ::= f |>).
Definition effect (e : Effect) : SM unit := modify (λ w, w <| out ::= λ l, l ++ [e] |>).
Definition shutdown (w : Sock) : SM unit := effect (Shutdown w).
Definition notify_all : SM unit := effect Notify.

Definition bump (f : (N → N) → Counters → Counters) : SM unit :=
  modify_st (λ s, s <| counters ::= f u64_succ |>).

(** ** Patches *)

Record Patch := mkPatch { at_path : list string; p_value : option Value }.
Definition patch_set (path : list string) (v : Value) : Patch := mkPatch path (Some v).
Definition patch_remove (path : list string) : Patch := mkPatch path None.
Definition patch_json (p : Patch) : Value :=
  match p_value p with
  | Some v => obj_of [("at", Jstrs (at_path p)); ("value", v)]
  | None => obj_of [("at", Jstrs (at_path p))]
  end.

Section ops.
Context `{HI : HashIter} (E : Env).

(** [FrameWriter::send]: [None] is success, [Some e] the I/O error. *)
Definition send (w : Sock) (m : Msg.t) (req : N) (payload : bytes) : SM (option string) :=
  effect (Send w m req payload) ;; mret (write_error E w).
Definition send_ignore (w : Sock) (m : Msg.t) (req : N) (payload : bytes) : SM unit :=
  send w m req payload ≫= λ _, mret tt.

(** Push one event to the local subscribers, dropping the closed ones. *)
Definition push_subs (event : Value) : SM unit :=
  subs ← get_st event_subs;
  for_each subs (λ s, effect (Deliver s event)) ;;
  modify_st (λ s, s <| event_subs ::= filter (λ x, sub_open E x = true) |>).

Definition emit (kind : string) (fields : Value) : SM unit :=
  seq ← get_st next_event_seq;
  node ← get_st node_id;
  modify_st (λ s, s <| next_event_seq ::= u64_succ |>) ;;
  let data := obj_of ([("type", Str kind); ("seq", JN seq); ("ts_ms", JN (now_ms E));
                       ("node", Str node)] ++ entries fields) in
  push_subs data ;;
  ps ← get_st peers;
  for_each (hash_values ps) (λ p, when (pe_alive p)
    (send_ignore (pe_writer p) (Msg.PeerEvent data) 0 [])).

Definition emit_patch (kind : string) (patch : list Patch) (why : string) : SM unit :=
  emit kind (obj_of ([("patch", Arr (patch_json <$> patch))] ++
                     if str_empty why then [] else [("why", Str why)])).

(** Deliver a peer's replicated event to local subscribers. *)
Definition deliver_peer_event (event : Value) : SM unit := push_subs event.

Definition seq : SM N :=
  s ← get_st next_seq; modify_st (λ st, st <| next_seq ::= u64_succ |>) ;; mret s.

Definition new_ref_id (actor : string) : SM string :=
  r ← get_st next_ref;
  modify_st (λ st, st <| next_ref ::= u64_succ |>) ;; mret (actor +:+ ":" +:+ pretty r).

(** [free.retain(|g| !ids.contains(g))] *)
Definition retain_not (ids free : list N) : list N := filter (λ g, g ∉ ids) free.

(** GPUs of one agent that no live placement-group bundle and no live actor
    holds. *)
Definition free_gpus_of (s : State) (agent_id : string) : list N :=
  match agents s !! agent_id with
  | None => []
  | Some agent =>
      let free := g_index <$> m_gpus (ag_machine agent) in
      let free := foldl (λ free pg,
        if decide (pg_state pg = PgRemoved) then free
        else foldl (λ free b,
          if decide (b_agent b = agent_id) then retain_not (b_gpu_ids b) free else free)
          free (placed_bundles pg)) free (hash_values (pgs s)) in
      foldl (λ free a,
        if decide (a_agent a = agent_id) then
          if is_dead (a_state a) then free else retain_not (a_gpu_ids a) free
        else free) free (hash_values (actors s))
  end.
End ops.

Definition new_actor_id (hex : string) : string := "a:" +:+ hex.
Definition new_pg_id (hex : string) : string := "p:" +:+ hex.

(** ** What free_gpus_of computes *)

(** The devices a placement group or an actor holds on one agent. *)
Definition bundle_holds (agent_id : string) (b : BundleAssignment) : list N :=
  if decide (b_agent b = agent_id) then b_gpu_ids b else [].
Definition pg_holds (agent_id : string) (p : PgInfo) : list N :=
  if decide (pg_state p = PgRemoved) then [] else placed_bundles p ≫= bundle_holds agent_id.
Definition actor_holds (agent_id : string) (a : ActorInfo) : list N :=
  if decide (a_agent a = agent_id) then if is_dead (a_state a) then [] else a_gpu_ids a else [].

(** A device of an agent is held when some live group or live actor holds it. *)
Definition held (s : State) (agent_id : string) (g : N) : Prop :=
  (∃ k p, pgs s !! k = Some p ∧ g ∈ pg_holds agent_id p) ∨
  (∃ k a, actors s !! k = Some a ∧ g ∈ actor_holds agent_id a).

Lemma retain_not_nil free : retain_not [] free = free.
Proof. apply filter_all. set_solver. Qed.

Lemma retain_not_app l1 l2 free :
  retain_not l2 (retain_not l1 free) = retain_not (l1 ++ l2) free.
Proof.
  unfold retain_not. rewrite list_filter_filter. apply list_filter_iff.
  intros g. rewrite elem_of_app. tauto.
Qed.

Lemma foldl_retain {X} (f : X → list N) (step : list N → X → list N) l free :
  (∀ free x, step free x = retain_not (f x) free) →
  foldl step free l = retain_not (l ≫= f) free.
Proof.
  intros Hs. revert free. induction l as [|x l IH]; intros free; cbn.
  - by rewrite retain_not_nil.
  - by rewrite Hs, IH, retain_not_app.
Qed.

Section free_gpus.
Context `{HI : HashIter}.
Implicit Types s : State.

Definition holdings s (agent_id : string) : list N :=
  (hash_values (pgs s) ≫= pg_holds agent_id) ++ (hash_values (actors s) ≫= actor_holds agent_id).

Lemma elem_of_holdings s agent_id g : g ∈ holdings s agent_id ↔ held s agent_id g.
Proof.
  unfold holdings, held. rewrite elem_of_app, !list_elem_of_bind.
  setoid_rewrite elem_of_hash_values. naive_solver.
Qed.

Lemma free_gpus_of_eq s agent_id :
  free_gpus_of s agent_id =
    match agents s !! agent_id with
    | None => []
    | Some a => retain_not (holdings s agent_id) (g_index <$> m_gpus (ag_machine a))
    end.
Proof.
  unfold free_gpus_of. destruct (agents s !! agent_id) as [a|]; [|done].
  rewrite (foldl_retain (pg_holds agent_id)).
  2: { intros free p. unfold pg_holds. case_decide; [by rewrite retain_not_nil|].
       apply foldl_retain. intros free' b. unfold bundle_holds.
       case_decide; [done|by rewrite retain_not_nil]. }
  rewrite (foldl_retain (actor_holds agent_id)).
  2: { intros free x. unfold actor_holds. case_decide; [|by rewrite retain_not_nil].
       destruct (is_dead _); [by rewrite retain_not_nil|done]. }
  by rewrite retain_not_app.
Qed.

Lemma elem_of_free s agent_id g :
  g ∈ free_gpus_of s agent_id ↔
  ∃ a, agents s !! agent_id = Some a ∧ g ∈ g_index <$> m_gpus (ag_machine a) ∧
    ¬ held s agent_id g.
Proof.
  rewrite free_gpus_of_eq. destruct (agents s !! agent_id) as [a|]; [|set_solver].
  unfold retain_not. rewrite list_elem_of_filter, elem_of_holdings. naive_solver.
Qed.

Lemma free_gpus_of_NoDup s agent_id :
  (∀ a, agents s !! agent_id = Some a → NoDup (g_index <$> m_gpus (ag_machine a))) →
  NoDup (free_gpus_of s agent_id).
Proof.
  rewrite free_gpus_of_eq. intros Hn. destruct (agents s !! agent_id) as [a|]; [|constructor].
  apply list.NoDup_filter. by apply Hn.
Qed.
End free_gpus.

(** The order in which the tables are walked does not change the answer. *)
Lemma free_gpus_of_any_order (H1 H2 : HashIter) s agent_id :
  @free_gpus_of H1 s agent_id = @free_gpus_of H2 s agent_id.
Proof.
  rewrite !free_gpus_of_eq. destruct (agents s !! agent_id) as [a|]; [|done].
  apply list_filter_iff. intros g. by rewrite !elem_of_holdings.
Qed.

(** The free devices of an agent are the devices it registered, in that
    order, less those a live placement group or a live actor holds, whatever
    order the tables are walked in. A dead actor and a removed group hold
    nothing, and an actor keeps its devices after its group is removed. *)
Theorem free_gpus_of_spec (H : HashIter) s agent_id :
  (∀ g, g ∈ @free_gpus_of H s agent_id ↔
    ∃ a, agents s !! agent_id = Some a ∧ g ∈ g_index <$> m_gpus (ag_machine a) ∧
      ¬ held s agent_id g) ∧
  (∀ a, agents s !! agent_id = Some a →
    sublist (@free_gpus_of H s agent_id) (g_index <$> m_gpus (ag_machine a))) ∧
  (∀ H' : HashIter, @free_gpus_of H s agent_id = @free_gpus_of H' s agent_id).
Proof.
  split_and!.
  - apply elem_of_free.
  - intros a Ha. rewrite free_gpus_of_eq, Ha. apply sublist_filter.
  - intros H'. apply free_gpus_of_any_order.
Qed.

(** ** Event stream facts

    [emit] moves the event counter and drops closed subscribers; it touches
    no table. [same_tables] is equality of states up to those two fields. *)
Definition same_tables (s s' : State) : Prop :=
  s' = s <| next_event_seq := next_event_seq s' |> <| event_subs := event_subs s' |>.

#[export] Instance same_tables_preorder : PreOrder same_tables.
Proof.
  split.
  - by intros [].
  - intros s1 s2 s3 H12 H23. unfold same_tables in *. rewrite H23, H12. by destruct s1, s3.
Qed.

Class Stable (P : State → Prop) :=
  stable : ∀ s s', same_tables s s' → P s → P s'.

Definition inv (P : State → Prop) (w : World) : Prop := P (st w).

Section event_lemmas.
Context `{HI : HashIter} (E : Env).

Lemma preserves_effect P e : preserves (inv P) (effect e).
Proof. by intros w. Qed.
Lemma preserves_shutdown P w : preserves (inv P) (shutdown w).
Proof. apply preserves_effect. Qed.
Lemma preserves_notify P : preserves (inv P) notify_all.
Proof. apply preserves_effect. Qed.
Lemma preserves_send P w m req p : preserves (inv P) (send E w m req p).
Proof. by intros x. Qed.
Lemma preserves_send_ignore P w m req p : preserves (inv P) (send_ignore E w m req p).
Proof. by intros x. Qed.
Lemma preserves_get_st {A} P (f : State → A) : preserves (inv P) (get_st f).
Proof. by intros x. Qed.
Lemma preserves_modify_st (P : State → Prop) f :
  (∀ s, P s → P (f s)) → preserves (inv P) (modify_st f).
Proof. intros H w. apply H. Qed.

Lemma preserves_push_subs P `{!Stable P} ev : preserves (inv P) (push_subs E ev).
Proof.
  apply preserves_bind; [apply preserves_get_st|]. intros subs.
  apply preserves_bind.
  - apply preserves_for_each. intros; apply preserves_effect.
  - intros _. apply preserves_modify_st. intros s. apply stable. by destruct s.
Qed.

Lemma preserves_emit P `{!Stable P} kind fields : preserves (inv P) (emit E kind fields).
Proof.
  unfold emit. apply preserves_bind; [apply preserves_get_st|]. intros sq.
  apply preserves_bind; [apply preserves_get_st|]. intros node.
  apply preserves_bind.
  { apply preserves_modify_st. intros s. apply stable. by destruct s. }
  intros _. apply preserves_bind; [by apply preserves_push_subs|].
  intros _. apply preserves_bind; [apply preserves_get_st|]. intros ps.
  apply preserves_for_each. intros p _. apply preserves_when, preserves_send_ignore.
Qed.

Lemma preserves_emit_patch P `{!Stable P} kind patch why :
  preserves (inv P) (emit_patch E kind patch why).
Proof. by apply preserves_emit. Qed.

Lemma preserves_new_ref_id (P : State → Prop) a :
  (∀ s f, P s → P (s <| next_ref ::= f |>)) → preserves (inv P) (new_ref_id a).
Proof.
  intros H. apply preserves_bind; [apply preserves_get_st|]. intros r.
  apply preserves_bind; [|intros; by intros w]. apply preserves_modify_st. intros s. apply H.
Qed.

#[export] Instance same_tables_stable s0 : Stable (same_tables s0).
Proof. intros s s' H1 H2. by etrans. Qed.

Lemma emit_same_tables kind fields w :
  same_tables (st w) (st (emit E kind fields w).2).
Proof. apply (preserves_emit (same_tables (st w))). unfold inv. reflexivity. Qed.
Lemma emit_patch_same_tables kind patch why w :
  same_tables (st w) (st (emit_patch E kind patch why w).2).
Proof. apply emit_same_tables. Qed.

Lemma for_each_effects {A} (l : list A) (f : A → list Effect) (g : A → SM unit) w :
  (∀ x w, g x w = (tt, w <| out ::= λ o, o ++ f x |>)) →
  for_each l g w = (tt, w <| out ::= λ o, o ++ (l ≫= f) |>).
Proof.
  intros Hg. revert w. induction l as [|x l IH]; intros [s o]; cbn [for_each].
  - unfold skip, mret, M_ret. cbn. by rewrite app_nil_r.
  - rewrite bind_run, Hg. cbn. rewrite IH. cbn. by rewrite <-app_assoc.
Qed.
End event_lemmas.

#[export] Hint Resolve preserves_effect preserves_shutdown preserves_notify preserves_send
  preserves_send_ignore preserves_get_st preserves_push_subs preserves_emit
  preserves_emit_patch : preserves.

(** ** The event sequence

    Events carry consecutive numbers, and each of them reaches the same
    subscribers and peers. *)

Section emit_spec.
Context `{HI : HashIter} (E : Env).

Definition event_data (s : State) (kind : string) (fields : Value) : Value :=
  obj_of ([("type", Str kind); ("seq", JN (next_event_seq s)); ("ts_ms", JN (now_ms E));
           ("node", Str (node_id s))] ++ entries fields).

Lemma push_subs_run ev w :
  push_subs E ev w = (tt, mkWorld
    ((st w) <| event_subs := filter (λ x, sub_open E x = true) (event_subs (st w)) |>)
    (out w ++ ((λ x, Deliver x ev) <$> event_subs (st w)))).
Proof.
  destruct w as [s o]. unfold push_subs. rewrite !bind_run.
  rewrite (for_each_effects _ (λ x, [Deliver x ev])) by done. cbn.
  assert ((event_subs s ≫= λ x, [Deliver x ev]) = (λ x, Deliver x ev) <$> event_subs s) as ->;
    [|done]. by induction (event_subs s) as [|x l IH]; [|cbn; f_equal].
Qed.

(** One emitted event takes the next sequence number, is offered once
    to every subscriber in order and then sent once to every live peer and
    to no dead one, and drops exactly the subscribers whose channel is
    closed. Nothing else of the state changes. *)
Theorem emit_spec kind fields w :
  let s := st w in let data := event_data s kind fields in
  emit E kind fields w =
    (tt, mkWorld
      (s <| next_event_seq := u64_succ (next_event_seq s) |>
         <| event_subs := filter (λ x, sub_open E x = true) (event_subs s) |>)
      (out w ++ ((λ x, Deliver x data) <$> event_subs s) ++
       (hash_values (peers s) ≫= λ p,
          if pe_alive p then [Send (pe_writer p) (Msg.PeerEvent data) 0 []] else []))).
Proof.
  destruct w as [s o]. unfold emit. do 3 rewrite bind_run. cbn zeta. rewrite bind_run.
  rewrite push_subs_run. rewrite bind_run.
  rewrite (for_each_effects _ (λ p, if pe_alive p
    then [Send (pe_writer p) (Msg.PeerEvent (event_data s kind fields)) 0 []] else [])).
  2: { intros p [s' o']. unfold when, send_ignore, send, effect. destruct (pe_alive p).
       - done.
       - unfold skip, mret, M_ret. cbn. by rewrite app_nil_r. }
  unfold event_data. cbn -[obj_of]. by rewrite <-app_assoc.
Qed.
End emit_spec.
