(* ===== verification/Status.v ===== *)
(** * Status rows and the snapshot (rust/mentatd/src/status.rs)

    One row builder per kind of record, used by the snapshot and by the events
    that change the record, and the snapshot that replicates between
    daemons. *)

From S2P Require Import Prelude Json Proto Addr Island State.

Definition probe_json (r : PairProbe) : Value :=
  obj_of [("ok", Bool (pp_ok r)); ("rtt_ms", JN (pp_rtt_ms r));
          ("last_ok_ms", Jopt JN (pp_last_ok_ms r)); ("error", Str (pp_error r));
          ("neighbour_mac", Jopt Str (pp_neighbour_mac r)); ("direct", Jopt Bool (pp_direct r))].
Definition probe_table (p : PeerInfo) : Value := Jmap (Jmap probe_json) (pe_probe_pairs p).

Definition actor_row (a : ActorInfo) : Value :=
  let '(state, reason) := match a_state a with
    | Spawning => ("spawning", EmptyString)
    | Running => ("running", EmptyString)
    | Dead reason _ => ("dead", reason)
    end in
  obj_of [("name", Str (a_name a)); ("node_id", Str (a_node_id a));
          ("gpu_ids", Jnums (a_gpu_ids a)); ("state", Str state); ("reason", Str reason);
          ("pid", Jopt JN (a_pid a))].

Definition pg_state_str (s : PgState) : string :=
  match s with PgPending => "PENDING" | PgCreated => "CREATED" | PgRemoved => "REMOVED" end.
Definition pg_row (p : PgInfo) : Value :=
  obj_of [("bundles", Jnums (pg_bundles p)); ("strategy", Str (pg_strategy p));
          ("state", Str (pg_state_str (pg_state p))); ("claim", Str (pg_claim p));
          ("pending_reason", Jopt Str (pg_pending_reason p));
          ("island_nodes", Jopt (λ i, Jnat (length (i_nodes i))) (pg_island p))].

Definition claim_row (c : ClaimInfo) : Value :=
  let sets := (λ '(k, v), (k, Jnat (from_option length 0 (as_array v)))) <$>
    entries (index "sets" (cl_view c)) in
  obj_of [("generation", JN (cl_generation c));
          ("holders", Jstrs (sort_strs (elements (cl_holders c)))); ("sets", obj_of sets)].

Definition peer_groups (p : PeerInfo) : Value :=
  match as_object (index "groups" (pe_last_status p)) with
  | Some gs => obj_of ((λ '(name, g),
      (name, obj_of [("gpus_total", index "gpus_total" g); ("gpus_used", index "gpus_used" g)])) <$> gs)
  | None => Null
  end.

Definition peer_row (p : PeerInfo) : Value :=
  obj_of [("node_ip", Str (pe_node_ip p)); ("link_ip", Str (pe_link_ip p));
          ("addrs", Jstrs (pe_addrs p)); ("addr_tags", Jmap Jstrs (pe_addr_tags p));
          ("addr_ifaces", Jstrmap (pe_addr_ifaces p)); ("addr_macs", Jstrmap (pe_addr_macs p));
          ("probes", probe_table p); ("control_port", JN (pe_control_port p));
          ("http_port", JN (pe_http_port p)); ("alive", Bool (pe_alive p));
          ("stale", Bool (pe_stale p)); ("last_seen_ms", JN (pe_last_seen_ms p));
          ("dead_since_ms", Jopt JN (pe_dead_since_ms p)); ("groups", peer_groups p)].

Definition client_row (c : ClientInfo) : Value :=
  obj_of [("group", Str (c_group c)); ("kind", Str (c_kind c)); ("node_id", Str (c_node_id c));
          ("session", Bool (c_has_session c))].

Section rows.
Context `{HI : HashIter}.

Definition agent_row (s : State) (a : AgentInfo) : Value :=
  obj_of [("node_ip", Str (ag_node_ip a)); ("node_id", Str (ag_node_id a));
          ("container", Str (ag_container a)); ("alive", Bool (ag_alive a));
          ("degraded", Bool (ag_degraded a)); ("gone_since_ms", Jopt JN (ag_gone_since_ms a));
          ("machine", machine_json (ag_machine a));
          ("gpus_free", Jnums (free_gpus_of s (ag_id a)));
          ("services", Jmap service_json (ag_services a)); ("meta", Jstrmap (ag_meta a));
          ("pid", JN (ag_pid a))].

(** The groups a snapshot covers. *)
Definition snapshot_groups (s : State) (scope : option string) : list string :=
  let groups := sort_dedup ((ag_group <$> hash_values (agents s)) ++
                            (a_group <$> hash_values (actors s))) in
  match scope with
  | None => groups
  | Some sc =>
      let groups := filter (λ g, g = sc) groups in
      if nonempty groups then groups else [sc]
  end.

Definition in_group (s : State) (g : string) : list AgentInfo :=
  filter (λ a, ag_group a = g) (hash_values (agents s)).
Definition live_in_group (s : State) (g : string) : list AgentInfo :=
  filter (λ a, ag_alive a = true ∧ ag_group a = g) (hash_values (agents s)).
Definition gpus_total (s : State) (g : string) : nat :=
  sum_nat ((λ a, length (m_gpus (ag_machine a))) <$> live_in_group s g).
Definition gpus_free (s : State) (g : string) : nat :=
  sum_nat ((λ a, length (free_gpus_of s (ag_id a))) <$> live_in_group s g).

(** [total - free] on usize: it wraps below zero, which [gpus_used_exact]
    rules out. *)
Definition usize_sub (a b : nat) : N :=
  if bool_decide (b ≤ a) then N.of_nat (a - b)
  else (u64_modulus + N.of_nat a - N.of_nat b)%N.
Definition gpus_used (s : State) (g : string) : N :=
  usize_sub (gpus_total s g) (gpus_free s g).

Definition claims_of (s : State) (g : string) : list (string * Value) :=
  omap (λ '((group, name), c),
    if decide (group = g) then Some (name, claim_row c) else None) (map_to_list (claims s)).

Definition group_json (s : State) (g : string) : Value :=
  obj_of [("claims", obj_of (claims_of s g));
    ("agents", obj_of ((λ a, (ag_id a, agent_row s a)) <$> in_group s g));
    ("actors", obj_of ((λ a, (a_id a, actor_row a)) <$>
       filter (λ a, a_group a = g) (hash_values (actors s))));
    ("placement_groups", obj_of ((λ p, (pg_id p, pg_row p)) <$>
       filter (λ p, pg_group p = g) (hash_values (pgs s))));
    ("gpus_total", Jnat (gpus_total s g)); ("gpus_used", JN (gpus_used s g))].

Definition counters_json (c : Counters) : Value :=
  obj_of [("actors_spawned", JN (actors_spawned c));
    ("actor_exits_clean", JN (actor_exits_clean c));
    ("actor_exits_signal", JN (actor_exits_signal c));
    ("actor_exits_error", JN (actor_exits_error c)); ("calls_total", JN (calls_total c));
    ("clients_total", JN (clients_total c)); ("agents_registered", JN (agents_registered c));
    ("relayed", JN (relayed c))].

Definition snapshot (h : Host) (s : State) (scope : option string) : Value :=
  obj_of [("proto", Str Version.PROTO); ("node_id", Str (node_id s)); ("node_ip", Str (node_ip s));
    ("addrs", Jstrs (local_addrs h)); ("addr_tags", Jmap Jstrs (local_addr_tags h));
    ("addr_ifaces", Jstrmap (local_addr_ifaces h)); ("addr_macs", Jstrmap (local_addr_macs h));
    ("hostname", Str (hostname s)); ("control_port", JN (control_port s));
    ("head_node_id", Str (head_node_id s)); ("head_generation", JN (head_generation s));
    ("seq", JN ((next_event_seq s + (u64_modulus - 1)) `mod` u64_modulus)%N);
    ("boot_id", Str (boot_id s));
    ("islands", Arr ((λ i, obj_of [("nodes", Jstrs (i_nodes i)); ("addrs", Jstrmap (i_addr i))])
       <$> f_islands (st_fabrics s)));
    ("peers", obj_of ((λ p, (pe_node_id p, peer_row p)) <$> hash_values (peers s)));
    ("clients", obj_of ((λ c, (c_id c, client_row c)) <$>
       filter (λ c, is_none_or scope (λ sc, bool_decide (c_group c = sc)) = true)
         (hash_values (clients s))));
    ("groups", obj_of ((λ g, (g, group_json s g)) <$> snapshot_groups s scope));
    ("counters", counters_json (counters s))].
End rows.

(** ** GPU accounting *)

(** Every agent is filed under its own id. *)
Definition agents_keyed (s : State) : Prop := ∀ k a, agents s !! k = Some a → ag_id a = k.

Definition devices (a : AgentInfo) : list N := g_index <$> m_gpus (ag_machine a).

Section accounting.
Context `{HI : HashIter}.

(** The devices of an agent that a live group or actor holds. *)
Definition used_gpus_of (s : State) (a : AgentInfo) : list N :=
  filter (λ g, g ∈ holdings s (ag_id a)) (devices a).

Lemma filter_length_split {A} (P : A → Prop) `{∀ x, Decision (P x)} (l : list A) :
  length (filter P l) + length (filter (λ x, ¬ P x) l) = length l.
Proof.
  induction l as [|x l IH]; [done|]. rewrite !filter_cons.
  destruct (decide (P x)), (decide (¬ P x)); cbn; try tauto; lia.
Qed.

Lemma used_free_split s a :
  agents s !! ag_id a = Some a →
  length (used_gpus_of s a) + length (free_gpus_of s (ag_id a)) = length (devices a).
Proof.
  intros Ha. rewrite free_gpus_of_eq, Ha. unfold retain_not, used_gpus_of.
  apply filter_length_split.
Qed.

Lemma sum_split {A} (f g h : A → nat) l :
  (∀ x, x ∈ l → f x + g x = h x) → sum_nat (f <$> l) + sum_nat (g <$> l) = sum_nat (h <$> l).
Proof.
  induction l as [|x l IH]; [done|]. intros Hx. rewrite !fmap_cons.
  unfold sum_nat in *. cbn [foldr]. pose proof (Hx x ltac:(set_solver)). pose proof (IH ltac:(set_solver)) as Hl. lia.
Qed.

(** The snapshot's [gpus_used] of a group is the number of devices of
    its live agents that a live placement group or a live actor holds; the
    subtraction that computes it never goes below zero. *)
Theorem gpus_used_exact s g (Hkeyed : agents_keyed s) :
  gpus_free s g ≤ gpus_total s g ∧
  gpus_used s g = N.of_nat (sum_nat ((λ a, length (used_gpus_of s a)) <$> live_in_group s g)).
Proof.
  assert (sum_nat ((λ a, length (used_gpus_of s a)) <$> live_in_group s g) + gpus_free s g =
          gpus_total s g) as Heq.
  { apply sum_split. intros a [_ Ha]%list_elem_of_filter.
    apply elem_of_hash_values in Ha as [k Hk].
    pose proof (Hkeyed k a Hk) as <-. rewrite (used_free_split s a Hk).
    unfold devices. by rewrite length_fmap. }
  split; [lia|]. unfold gpus_used, usize_sub. rewrite bool_decide_eq_true_2 by lia. lia.
Qed.
End accounting.

(** One group on two agents, one of them live with a placed group. *)
Definition demo_gpu (i : N) : Gpu := mkGpu i "nvidia" "gb10" 128 true.
Definition demo_agent (id node : string) (gpus : list Gpu) (alive : bool) : AgentInfo :=
  mkAgent id "g" node "10.0.0.1" (mkMachine 256 20 gpus) "c" 7 ∅ ∅ 5 alive None false None 1.
Definition demo_pg (b : list (option BundleAssignment)) : PgInfo :=
  mkPg "p:1" "g" "c:1" [1]%N "PACK" b PgCreated 0 None "" None None None.
Definition demo_state : State :=
  (state_new "10.0.0.1" "h" "10.0.0.1:6379" "b")
    <| agents := {[ "a1" := demo_agent "a1" "n1" [demo_gpu 0; demo_gpu 1] true;
                    "a2" := demo_agent "a2" "n2" [demo_gpu 0] false ]} |>
    <| pgs := {[ "p:1" := demo_pg [Some (mkBundle "a1" "n1" [1]%N ∅)] ]} |>.

Lemma demo_agents_keyed : agents_keyed demo_state.
Proof.
  intros k a Hk. unfold demo_state in Hk. cbn [agents update_with] in Hk.
  apply lookup_insert_Some in Hk as [[<- <-]|[_ Hk]]; [done|].
  apply lookup_singleton_Some in Hk as [<- <-]. done.
Qed.

Lemma gpus_used_exact_witness :
  @gpus_used in_key_order demo_state "g" = 1%N ∧
  @gpus_free in_key_order demo_state "g" ≤ @gpus_total in_key_order demo_state "g".
Proof.
  split; [vm_compute; reflexivity|].
  apply (@gpus_used_exact in_key_order demo_state "g" demo_agents_keyed).
Defined.
