(* ===== verification/Claim.v ===== *)
(** * Matching a shape against the topology (rust/mentatd/src/claim.rs)

    A claim request names sets of nodes and the links inside and between
    them. [solve] picks the nodes; the theorems show what its answer
    guarantees and that a refused ring or line has no answer at all. *)

From S2P Require Import Prelude Json Proto Addr Island State.

(** ** Requests *)

Inductive Link := Rdma | AnyLink.
#[export] Instance link_eq_dec : EqDecision Link.
Proof. solve_decision. Defined.
Inductive Layout := Mesh | Ring | Line.
#[export] Instance layout_eq_dec : EqDecision Layout.
Proof. solve_decision. Defined.

Definition layout_parse (s : string) : Result Layout string :=
  if bool_decide (s ∈ ["mesh"; ""]) then Ok Mesh
  else if bool_decide (s = "ring") then Ok Ring
  else if bool_decide (s = "line") then Ok Line
  else Err ("unknown layout " +:+ debug_str s +:+ ", expected mesh, ring or line").
Definition ordered (l : Layout) : bool := bool_decide (l ≠ Mesh).
Definition link_parse (s : string) : Result Link string :=
  if bool_decide (s ∈ ["rdma"; "roce"; "fabric"]) then Ok Rdma
  else if bool_decide (s ∈ ["ip"; "any"; ""]) then Ok AnyLink
  else Err ("unknown link " +:+ debug_str s +:+ ", expected rdma or ip").

(** [f.is_finite() && f >= 0.0 && f.fract() == 0.0] with the whole number. *)
Definition whole_nonneg (f : f64) : option Z :=
  if f64_is_finite f && f64_leb f64_zero f then f64_whole f else None.

Definition canon_number (v : Value) (n : Number) : Value :=
  match whole_nonneg (number_as_f64 n) with
  | Some z => if f64_leb (number_as_f64 n) (f64_of_N (u64_modulus - 1)) then JN (u64_of_whole z) else v
  | None => v
  end.

(** [canon(v, inside_set)]: a count under [bundles] is spelled out. *)
Fixpoint canon (inside_set : bool) (v : Value) : Value :=
  match (if inside_set then as_u64 v else None) with
  | Some n => Arr (replicate (N.to_nat n) (JN 1))
  | None =>
      match v with
      | Num n => canon_number v n
      | Arr a => Arr (canon false <$> a)
      | Obj o => Obj ((λ '(k, x), (k, canon (bool_decide (k = "bundles")) x)) <$> o)
      | _ => v
      end
  end.
Definition canonical (v : Value) : Value := canon false v.

Record SetReq := mkSet {
  q_name : string; q_bundles : list f64; q_link : Link; q_layout : Layout; q_vendor : string }.
Record BetweenReq := mkBetween { bw_from : string; bw_to : string; bw_link : Link }.
Record Request := mkRequest { rq_sets : list SetReq; rq_between : list BetweenReq }.

(** ** The topology *)

Record ClaimPort := mkPort { po_addr : string; po_iface : option string; po_tags : list string }.
#[export] Instance claim_port_eq_dec : EqDecision ClaimPort.
Proof. solve_decision. Defined.
Definition po_rdma (p : ClaimPort) : bool := bool_decide ("rdma" ∈ po_tags p).

Record Topology := mkTopology {
  t_islands : list Island; t_ports : gmap string (list ClaimPort);
  t_links : gmap (string * string) N; t_forwarded : gset (string * string);
  t_free_gpus : gmap string f64; t_hosts : gmap string string; t_vendors : gmap string string }.
#[export] Instance eta_Topology : Eta Topology := λ t,
  mkTopology (t_islands t) (t_ports t) (t_links t) (t_forwarded t) (t_free_gpus t) (t_hosts t)
    (t_vendors t).
Definition topology_default : Topology := mkTopology [] ∅ ∅ ∅ ∅ ∅ ∅.

Record Path := mkPath {
  pa_from : string; pa_to : string; pa_local : ClaimPort; pa_remote : ClaimPort; pa_rtt : N }.

Definition rtt (t : Topology) (a b : string) : option N :=
  match t_links t !! (a, b) with Some r => Some r | None => t_links t !! (b, a) end.
Definition is_forwarded (t : Topology) (a b : string) : bool :=
  bool_decide ((a, b) ∈ t_forwarded t) || bool_decide ((b, a) ∈ t_forwarded t).

(** [(rtt_ms, &local.addr, &remote.addr)] compared as a tuple. *)
Definition path_cmp (x y : Path) : comparison :=
  lex (N.compare (pa_rtt x) (pa_rtt y))
    (lex (String.compare (po_addr (pa_local x)) (po_addr (pa_local y)))
         (String.compare (po_addr (pa_remote x)) (po_addr (pa_remote y)))).

(** One iteration of the double loop over ports. *)
Definition path_via (t : Topology) (a b : string) (link : Link) (cable : bool)
    (x y : ClaimPort) : option Path :=
  if bool_decide (link = Rdma) && negb (po_rdma x && po_rdma y) then None
  else match rtt t (po_addr x) (po_addr y) with
       | None => None
       | Some r =>
           if cable && is_forwarded t (po_addr x) (po_addr y) then None
           else Some (mkPath a b x y r)
       end.
Definition path (t : Topology) (a b : string) (link : Link) (cable : bool) : option Path :=
  pa ← t_ports t !! a; pb ← t_ports t !! b;
  min_by path_cmp (pa ≫= λ x, omap (path_via t a b link cable x) pb).

(** ** Candidates *)

Definition free_on (t : Topology) (n : string) : f64 := default f64_zero (t_free_gpus t !! n).

(** A ring or line search stops after this many answers. *)
Definition MAX_CHAINS : nat := 32.

(** Whether [n] may be the next member after [chain]. *)
Definition extends (t : Topology) (set : SetReq) (chain : list string) (n : string) : bool :=
  negb (bool_decide (n ∈ chain)) &&
  is_some_and (q_bundles set !! length chain) (λ b, negb (f64_ltb (free_on t n) b)) &&
  negb (bool_decide (q_layout set = Ring) &&
        is_some_and (head chain) (λ first, bool_decide (str_lt n first))) &&
  is_none_or (list.last chain) (λ last, bool_decide (is_Some (path t last n (q_link set) true))).

(** Whether a full chain is an answer: a ring also closes. *)
Definition closed (t : Topology) (set : SetReq) (chain : list string) : bool :=
  bool_decide (q_layout set ≠ Ring) || bool_decide (length (q_bundles set) < 3) ||
  match list.last chain, head chain with
  | Some l, Some f => bool_decide (is_Some (path t l f (q_link set) true))
  | _, _ => false
  end.

(** The recursion goes one member deeper each time, so [length bundles] levels
    are all of it. *)
Fixpoint walk (fuel : nat) (t : Topology) (set : SetReq) (nodes chain : list string)
    (out : list (list string)) : list (list string) :=
  if bool_decide (MAX_CHAINS ≤ length out) then out
  else if bool_decide (length chain = length (q_bundles set)) then
    (if closed t set chain then out ++ [chain] else out)
  else match fuel with
  | 0 => out
  | S fuel =>
      foldl (λ out n, if extends t set chain n then walk fuel t set nodes (chain ++ [n]) out else out)
        out nodes
  end.

(** The first [want] nodes that fit, in order: the loop with its [break]. *)
Fixpoint choose (t : Topology) (set : SetReq) (avail chosen : list string) : list string :=
  match avail with
  | [] => chosen
  | n :: avail' =>
      if bool_decide (length chosen = length (q_bundles set)) then chosen
      else if is_some_and (q_bundles set !! length chosen) (λ b, f64_leb b (free_on t n))
      then choose t set avail' (chosen ++ [n])
      else choose t set avail' chosen
  end.

Definition not_taken (taken : gset string) (l : list string) : list string :=
  filter (λ n, n ∉ taken) l.

Definition candidates (t : Topology) (set : SetReq) (taken : gset string) : list (list string) :=
  let want := length (q_bundles set) in
  if ordered (q_layout set) then
    walk want t set (not_taken taken (bt_keys (t_free_gpus t))) [] []
  else match q_link set with
  | Rdma => omap (λ island,
      let avail := not_taken taken (i_nodes island) in
      if bool_decide (length avail < want) then None
      else let chosen := choose t set avail [] in
           if bool_decide (length chosen = want) then Some chosen else None) (t_islands t)
  | AnyLink =>
      let chosen := choose t set (not_taken taken (bt_keys (t_free_gpus t))) [] in
      if bool_decide (length chosen = want) then [chosen] else []
  end.

(** ** The solver *)

(** [(p.rtt_ms, &p.from, &p.to)] compared as a tuple. *)
Definition between_cmp (x y : Path) : comparison :=
  lex (N.compare (pa_rtt x) (pa_rtt y))
    (lex (String.compare (pa_from x) (pa_from y)) (String.compare (pa_to x) (pa_to y))).

Abbreviation Chosen := (gmap string (list string)) (only parsing).

Definition between_path (t : Topology) (chosen : Chosen) (b : BetweenReq) : option Path :=
  from ← chosen !! bw_from b; to ← chosen !! bw_to b;
  min_by between_cmp (from ≫= λ a, omap (λ c, path t a c (bw_link b) false) to).
Definition paths_between (t : Topology) (req : Request) (chosen : Chosen) : option (list Path) :=
  mapM (between_path t chosen) (rq_between req).

Fixpoint search (t : Topology) (req : Request) (order : list SetReq)
    (chosen : Chosen) (taken : gset string) : option Chosen :=
  match order with
  | [] => if bool_decide (is_Some (paths_between t req chosen)) then Some chosen else None
  | set :: order' =>
      find_map (λ cand, search t req order' (<[q_name set := cand]> chosen)
                          (list_to_set cand ∪ taken))
        (candidates t set taken)
  end.

(** The members before and after member [i] of [k]. *)
Definition neighbour_ixs (layout : Layout) (k i : nat) : option nat * option nat :=
  match layout with
  | Mesh => (None, None)
  | Ring => if bool_decide (1 < k) then (Some ((i + k - 1) `mod` k), Some ((i + 1) `mod` k))
            else (None, None)
  | Line => (if bool_decide (0 < i) then Some (i - 1) else None,
             if bool_decide (i + 1 < k) then Some (i + 1) else None)
  end.

Definition cable_to (t : Topology) (set : SetReq) (nodes : list string) (n : string)
    (j : option nat) : Result (option Path) string :=
  match j with
  | None => Ok None
  | Some j =>
      let m := default "" (nodes !! j) in
      match path t n m (q_link set) true with
      | Some p => Ok (Some p)
      | None => Err (n +:+ " has no cable to " +:+ m +:+ " in set " +:+ debug_str (q_name set))
      end
  end.

Definition neighbours (t : Topology) (set : SetReq) (nodes : list string) (i : nat) (n : string)
    : Result (option Path * option Path) string :=
  let '(prev, next) := neighbour_ixs (q_layout set) (length nodes) i in
  let? p := cable_to t set nodes n prev in
  let? q := cable_to t set nodes n next in Ok (p, q).

(** A fabric port that reaches a fabric port of every other member. *)
Definition reaches_all (t : Topology) (node : string) (peers : list string) (p : ClaimPort) : bool :=
  po_rdma p && forallb (λ q,
    match t_ports t !! q with
    | Some qp => existsb (λ y, po_rdma y && bool_decide (is_Some (rtt t (po_addr p) (po_addr y)))) qp
    | None => false
    end) (filter (λ q, q ≠ node) peers).
Definition bind_for (t : Topology) (set : SetReq) (node : string) (peers : list string)
    : option ClaimPort :=
  ports ← t_ports t !! node;
  match q_link set with
  | Rdma => find_first (reaches_all t node peers) ports
  | AnyLink => head ports
  end.

Record Member := mkMember {
  mb_node : string; mb_bind : ClaimPort; mb_prev : option Path; mb_next : option Path;
  mb_vendor : string }.
Record Solution := mkSolution { so_sets : gmap string (list Member); so_between : list Path }.

Definition member_of (t : Topology) (s : SetReq) (nodes : list string) (i : nat) (n : string)
    : Result Member string :=
  let? pn := neighbours t s nodes i n in
  let '(prev, next) := pn in
  let? bind := match (match next with Some p => Some p | None => prev end) with
    | Some p => Ok (pa_local p)
    | None => ok_or (bind_for t s n nodes) (n +:+ " has no address for set " +:+ debug_str (q_name s))
    end in
  Ok (mkMember n bind prev next
    (if str_empty (q_vendor s) then default "" (t_vendors t !! n) else q_vendor s)).

Definition members_of (t : Topology) (chosen : Chosen) (s : SetReq) : Result (list Member) string :=
  let nodes := default [] (chosen !! q_name s) in
  collect (λ '(i, n), member_of t s nodes i n) (imap pair nodes).

Definition set_cmp (x y : SetReq) : comparison :=
  lex (bool_cmp (bool_decide (q_link x ≠ Rdma)) (bool_decide (q_link y ≠ Rdma)))
    (String.compare (q_name x) (q_name y)).

(** Why nothing fit, one clause per set that could not have been placed. *)
Definition why_set (t : Topology) (s : SetReq) : option string :=
  let want := length (q_bundles s) in
  if ordered (q_layout s) then
    Some ("set " +:+ debug_str (q_name s) +:+ " wants a " +:+
      (if bool_decide (q_layout s = Ring) then "ring" else "line") +:+ " of " +:+ pretty want +:+
      " nodes, each cabled to the next over " +:+
      (if bool_decide (q_link s = Rdma) then "rdma" else "probed") +:+
      " links, and no such order of free nodes exists")
  else match q_link s with
  | Rdma =>
      let biggest := foldr Nat.max 0 ((λ i, length (i_nodes i)) <$> t_islands t) in
      if bool_decide (biggest < want) then
        Some ("set " +:+ debug_str (q_name s) +:+ " wants " +:+ pretty want +:+
              " nodes sharing a fabric, largest island has " +:+ pretty biggest)
      else None
  | AnyLink =>
      let have := size (t_free_gpus t) in
      if bool_decide (have < want) then
        Some ("set " +:+ debug_str (q_name s) +:+ " wants " +:+ pretty want +:+
              " nodes, cluster has " +:+ pretty have)
      else None
  end.
Definition why_not (t : Topology) (req : Request) : string :=
  let parts := omap (why_set t) (rq_sets req) in
  join ". " (if nonempty parts then parts
             else ["no assignment satisfies every set and link together"]).

(** The checks before the search: a set with no nodes, a shared name, a
    [between] naming no set. *)
Definition check_request (req : Request) : Result unit string :=
  let names : gset string := list_to_set (q_name <$> rq_sets req) in
  match find_first (λ s, negb (nonempty (q_bundles s))) (rq_sets req) with
  | Some s => Err ("set " +:+ debug_str (q_name s) +:+ " asks for no nodes")
  | None =>
      if bool_decide (size names ≠ length (rq_sets req)) then Err "two sets share a name"
      else match find_first (λ n, bool_decide (n ∉ names))
                   (rq_between req ≫= λ b, [bw_from b; bw_to b]) with
      | Some n => Err ("between names " +:+ debug_str n +:+ ", which is not a set")
      | None => Ok tt
      end
  end.

Definition solve (t : Topology) (req : Request) : Result Solution string :=
  let? _ := check_request req in
  match search t req (sort_by set_cmp (rq_sets req)) ∅ ∅ with
  | None => Err (why_not t req)
  | Some chosen =>
      let? sets := collect (λ s, let? ms := members_of t chosen s in Ok (q_name s, ms))
                     (rq_sets req) in
      let? between := ok_or (paths_between t req chosen)
                        "no probed link satisfies a between entry" in
      Ok (mkSolution (list_to_map sets) between)
  end.

(** ** Chains

    The orders a ring or line search looks for: each member fits its bundle,
    is new, and is cabled to the one before. *)

Inductive grown (t : Topology) (set : SetReq) (nodes : list string) : list string → Prop :=
| grown_nil : grown t set nodes []
| grown_snoc chain n :
    grown t set nodes chain → n ∈ nodes → extends t set chain n = true →
    grown t set nodes (chain ++ [n]).

Definition answer (t : Topology) (set : SetReq) (nodes c : list string) : Prop :=
  grown t set nodes c ∧ length c = length (q_bundles set) ∧ closed t set c = true.

Section walk_facts.
Context (t : Topology) (set : SetReq) (nodes : list string).

Lemma foldl_mono {A} (f : list A → string → list A) l out :
  (∀ o n, ∃ o', f o n = o ++ o') → ∃ o', foldl f out l = out ++ o'.
Proof.
  intros Hf. revert out. induction l as [|n l IH]; intros out; cbn.
  - exists []. by rewrite app_nil_r.
  - destruct (Hf out n) as [o1 ->]. destruct (IH (out ++ o1)) as [o2 ->].
    exists (o1 ++ o2). by rewrite app_assoc.
Qed.

Lemma walk_mono fuel chain out : ∃ o', walk fuel t set nodes chain out = out ++ o'.
Proof.
  revert chain out. induction fuel as [|fuel IH]; intros chain out; cbn [walk];
    case_bool_decide; try (exists []; by rewrite app_nil_r);
    (case_bool_decide; [destruct (closed t set chain); [by eexists|exists []; by rewrite app_nil_r]|]).
  - exists []. by rewrite app_nil_r.
  - apply foldl_mono. intros o n. destruct (extends t set chain n); [apply IH|].
    exists []. by rewrite app_nil_r.
Qed.

Lemma walk_sound fuel chain out c :
  grown t set nodes chain → c ∈ walk fuel t set nodes chain out → c ∈ out ∨ answer t set nodes c.
Proof.
  revert chain out. induction fuel as [|fuel IH]; intros chain out Hg; cbn [walk];
    case_bool_decide; auto; case_bool_decide; auto.
  1,2: destruct (closed t set chain) eqn:Hc; auto; rewrite elem_of_app, list_elem_of_singleton;
    intros [?| ->]; auto; right; by split_and!.
  assert (∀ l, (∀ n, n ∈ l → n ∈ nodes) → ∀ out,
    c ∈ foldl (λ out n, if extends t set chain n then walk fuel t set nodes (chain ++ [n]) out
                        else out) out l → c ∈ out ∨ answer t set nodes c) as Hl; [|by apply Hl].
  induction l as [|n l IHl]; intros Hl out' Hin; [by left|]. cbn in Hin.
  apply IHl in Hin as [Hin|Hin]; [|by right|intros; apply Hl; set_solver].
  destruct (extends t set chain n) eqn:He; [|by left].
  apply IH in Hin; [done|]. constructor; [done|apply Hl; set_solver|done].
Qed.

Lemma grown_prefix chain rest : grown t set nodes (chain ++ rest) → grown t set nodes chain.
Proof.
  induction rest as [|x rest IH] using rev_ind; [by rewrite app_nil_r|].
  rewrite app_assoc. inversion 1 as [He|c n Hg Hn Hx He].
  - by destruct ((chain ++ rest)).
  - apply app_inj_tail in He as [-> ->]. auto.
Qed.

Lemma grown_step chain n rest :
  grown t set nodes (chain ++ n :: rest) → n ∈ nodes ∧ extends t set chain n = true.
Proof.
  intros Hg. replace (chain ++ n :: rest) with ((chain ++ [n]) ++ rest) in Hg by
    (by rewrite <-app_assoc).
  apply grown_prefix in Hg. inversion Hg as [He|c m Hg' Hm Hx He].
  - by destruct chain.
  - apply app_inj_tail in He as [-> ->]. auto.
Qed.

Lemma walk_complete fuel chain out rest :
  answer t set nodes (chain ++ rest) → length rest ≤ fuel →
  chain ++ rest ∈ walk fuel t set nodes chain out ∨
  MAX_CHAINS ≤ length (walk fuel t set nodes chain out).
Proof.
  intros (Hg & Hlen & Hcl) Hf. revert chain out rest Hg Hlen Hcl Hf.
  induction fuel as [|fuel IH]; intros chain out rest Hg Hlen Hcl Hf; cbn [walk];
    (case_bool_decide; [by right|]); rewrite length_app in Hlen;
    (destruct rest as [|n rest];
     [rewrite app_nil_r in *; rewrite bool_decide_eq_true_2 by (cbn in *; lia); rewrite Hcl; set_solver|]);
    cbn in Hf, Hlen; [lia|]. rewrite bool_decide_eq_false_2 by lia.
  destruct (grown_step chain n rest Hg) as [Hn He].
  apply list_elem_of_split in Hn as (l1 & l2 & Hn).
  match goal with |- context [foldl ?f out nodes] => set (step := f) end.
  assert (foldl step out nodes = foldl step out (l1 ++ n :: l2)) as -> by (by rewrite <-Hn).
  rewrite foldl_app. cbn [foldl]. set (o1 := foldl step out l1).
  assert (step o1 n = walk fuel t set nodes (chain ++ [n]) o1) as -> by (unfold step; by rewrite He).
  destruct (foldl_mono step l2 (walk fuel t set nodes (chain ++ [n]) o1)) as [o2 ->].
  { intros o m. unfold step. destruct (extends t set chain m); [|exists []; by rewrite app_nil_r].
    apply walk_mono. }
  rewrite elem_of_app, length_app.
  assert ((chain ++ [n]) ++ rest = chain ++ n :: rest) as Happ by (by rewrite <-app_assoc).
  destruct (IH (chain ++ [n]) o1 rest) as [Hin|Hin]; rewrite ?Happ;
    [done|rewrite length_app; cbn; lia|done|lia| |].
  - left. left. by rewrite <-Happ.
  - right. lia.
Qed.
End walk_facts.

(** A cabled order, read off its members: distinct nodes, each with the GPUs
    of its bundle, each cabled to the next, and in a ring none below the
    first. *)
Definition cabled_order (t : Topology) (set : SetReq) (nodes c : list string) : Prop :=
  NoDup c ∧ (∀ n, n ∈ c → n ∈ nodes) ∧
  (∀ i n, c !! i = Some n →
     ∃ b, q_bundles set !! i = Some b ∧ f64_ltb (free_on t n) b = false) ∧
  (∀ i n m, c !! i = Some n → c !! S i = Some m → is_Some (path t n m (q_link set) true)) ∧
  (q_layout set = Ring → ∀ f n, head c = Some f → n ∈ c → ¬ str_lt n f).

(** A ring of three or more closes with a cable from its last to its first. *)
Definition closes (t : Topology) (set : SetReq) (c : list string) : Prop :=
  q_layout set = Ring → 3 ≤ length c →
  ∃ l f, list.last c = Some l ∧ head c = Some f ∧ is_Some (path t l f (q_link set) true).

Section chain_facts.
Context (t : Topology) (set : SetReq) (nodes : list string).

Lemma extends_iff chain n :
  extends t set chain n = true ↔
  (n ∉ chain) ∧
  (∃ b, q_bundles set !! length chain = Some b ∧ f64_ltb (free_on t n) b = false) ∧
  (q_layout set = Ring → ∀ f, head chain = Some f → ¬ str_lt n f) ∧
  (∀ l, list.last chain = Some l → is_Some (path t l n (q_link set) true)).
Proof.
  unfold extends, is_some_and, is_none_or.
  rewrite !andb_true_iff, !negb_true_iff, bool_decide_eq_false.
  split.
  - intros [[[H1 H2] H3] H4]. split_and!; [done| | |].
    + destruct (q_bundles set !! length chain) as [b|]; [|done].
      exists b. split; [done|]. by apply negb_true_iff.
    + intros Hr f Hf Hlt. rewrite bool_decide_eq_true_2 in H3 by done. rewrite Hf in H3.
      cbn in H3. by rewrite bool_decide_eq_false in H3.
    + intros l Hl. rewrite Hl in H4. by rewrite bool_decide_eq_true in H4.
  - intros (H1 & (b & Hb & Hbf) & H3 & H4). rewrite Hb, Hbf. split_and!; [done|done| |].
    + apply andb_false_iff. destruct (decide (q_layout set = Ring)) as [Hr|Hr].
      * right. destruct (head chain) as [f|]; [|done]. apply bool_decide_eq_false. by apply H3.
      * left. by apply bool_decide_eq_false.
    + destruct (list.last chain) as [l|]; [|done]. apply bool_decide_eq_true. by apply H4.
Qed.

Lemma str_lt_irrefl n : ¬ str_lt n n.
Proof. intros [_ H]. done. Qed.

Lemma head_snoc {A} (c : list A) x f : head (c ++ [x]) = Some f →
  head c = Some f ∨ c = [] ∧ f = x.
Proof. destruct c; cbn; naive_solver. Qed.

Lemma grown_cabled c : grown t set nodes c → cabled_order t set nodes c.
Proof.
  induction 1 as [|c n Hg (H1 & H2 & H3 & H4 & H5) Hn He].
  { unfold cabled_order. split_and!; try done; [constructor|set_solver]. }
  apply extends_iff in He as (E1 & E2 & E3 & E4). unfold cabled_order. split_and!.
  - apply list.NoDup_app. split_and!; [done|set_solver|apply list.NoDup_singleton].
  - set_solver.
  - intros i m Hi. apply lookup_app_Some in Hi as [Hi|[Hl Hi]]; [by apply H3|].
    apply list_lookup_singleton_Some in Hi as [Hi ->].
    by replace i with (length c) by lia.
  - intros i x m Hi HSi. apply lookup_app_Some in HSi as [HSi|[Hl HSi]].
    + rewrite lookup_app_l in Hi by (apply lookup_lt_Some in HSi; lia). by eapply H4.
    + apply list_lookup_singleton_Some in HSi as [Hz ->]. apply E4.
      rewrite lookup_app_l in Hi by lia. rewrite last_lookup. by replace (pred (length c)) with i by lia.
  - intros Hr f m Hf Hm. apply elem_of_app in Hm as [Hm|Hm%list_elem_of_singleton];
      apply head_snoc in Hf as [Hf|[-> ->]]; [by eapply H5|set_solver| |].
    + subst m. by apply E3.
    + subst m. apply str_lt_irrefl.
Qed.

Lemma cabled_grown c : cabled_order t set nodes c → grown t set nodes c.
Proof.
  induction c as [|n c IH] using rev_ind; [constructor|].
  intros (H1 & H2 & H3 & H4 & H5). constructor; [|apply H2; set_solver|].
  - apply IH. unfold cabled_order. apply list.NoDup_app in H1 as (Hn & _ & _). split_and!; [done|set_solver| | |].
    + intros i m Hi. apply H3. by apply lookup_app_l_Some.
    + intros i x m Hi HSi. eapply H4; by apply lookup_app_l_Some.
    + intros Hr f m Hf Hm. apply H5; [done| |set_solver]. by destruct c.
  - apply extends_iff. apply list.NoDup_app in H1 as (_ & Hd & _). split_and!.
    + set_solver.
    + apply H3. rewrite lookup_app_r, Nat.sub_diag by done. done.
    + intros Hr f Hf. apply H5; [done| |set_solver]. by destruct c.
    + intros l Hl. rewrite last_lookup in Hl. eapply (H4 (pred (length c))).
      * by apply lookup_app_l_Some.
      * apply lookup_lt_Some in Hl as Hlt. replace (S (pred (length c))) with (length c) by lia.
        rewrite lookup_app_r, Nat.sub_diag by done. done.
Qed.

Lemma closed_iff c :
  length c = length (q_bundles set) → closed t set c = true ↔ closes t set c.
Proof.
  intros Hl. unfold closed, closes. rewrite !orb_true_iff, !bool_decide_eq_true. split.
  - intros [[Hr|Hw]|Hp] Hring H3; [done|lia|].
    destruct (list.last c) as [l|], (head c) as [f|]; try done.
    exists l, f. by rewrite bool_decide_eq_true in Hp.
  - intros Hc. destruct (decide (q_layout set = Ring)) as [Hr|]; [|tauto].
    destruct (decide (length (q_bundles set) < 3)) as [|H3]; [tauto|].
    destruct (Hc Hr ltac:(lia)) as (l & f & -> & -> & Hp). right. by apply bool_decide_eq_true.
Qed.

Lemma answer_iff c :
  answer t set nodes c ↔
  length c = length (q_bundles set) ∧ cabled_order t set nodes c ∧ closes t set c.
Proof.
  unfold answer. split.
  - intros (Hg & Hl & Hc). split_and!; [done|by apply grown_cabled|by apply closed_iff].
  - intros (Hl & Ho & Hc). split_and!; [by apply cabled_grown|done|by apply closed_iff].
Qed.
End chain_facts.

(** The search for a ring or a line returns only cabled orders of free
    nodes that close when they are rings, finds all of them when it found
    fewer than [MAX_CHAINS], and so returns none only when there is none,
    which is what the refusal it leads to tells the caller. *)
Theorem chain_candidates (t : Topology) (set : SetReq) (taken : gset string)
    (Hord : ordered (q_layout set) = true) :
  let good c := length c = length (q_bundles set) ∧
    cabled_order t set (not_taken taken (bt_keys (t_free_gpus t))) c ∧ closes t set c in
  (∀ c, c ∈ candidates t set taken → good c) ∧
  (length (candidates t set taken) < MAX_CHAINS → ∀ c, good c → c ∈ candidates t set taken) ∧
  (candidates t set taken = [] → ∀ c, ¬ good c).
Proof.
  cbn zeta. unfold candidates. rewrite Hord. set (nodes := not_taken _ _).
  setoid_rewrite <-(answer_iff t set nodes). split_and!.
  - intros c [Hin|Ha]%walk_sound; [set_solver|done|constructor].
  - intros Hlen c Ha. destruct (walk_complete t set nodes (length (q_bundles set)) [] [] c)
      as [Hin|Hin]; [done|by destruct Ha as (_ & -> & _)|done|lia].
  - intros Hnil c Ha. destruct (walk_complete t set nodes (length (q_bundles set)) [] [] c)
      as [Hin|Hin]; [done|by destruct Ha as (_ & -> & _)|..]; rewrite Hnil in Hin;
      [set_solver|unfold MAX_CHAINS in Hin; cbn in Hin; lia].
Qed.

(** ** Mesh candidates *)

Definition fits_ix (t : Topology) (set : SetReq) (i : nat) (n : string) : Prop :=
  ∃ b, q_bundles set !! i = Some b ∧ f64_leb b (free_on t n) = true.

Section choose_facts.
Context (t : Topology) (set : SetReq).

Lemma choose_spec avail chosen :
  ∃ picked, choose t set avail chosen = chosen ++ picked ∧ sublist picked avail ∧
    (∀ i n, picked !! i = Some n → fits_ix t set (length chosen + i) n) ∧
    (length chosen ≤ length (q_bundles set) →
     length (chosen ++ picked) ≤ length (q_bundles set)).
Proof.
  revert chosen. induction avail as [|n avail IH]; intros chosen; cbn [choose].
  { exists []. rewrite app_nil_r. split_and!; [done|constructor|done|done]. }
  case_bool_decide as Hl.
  { exists []. rewrite app_nil_r. split_and!; [done|apply sublist_nil_l|done|done]. }
  destruct (is_some_and _ _) eqn:Hf.
  - destruct (IH (chosen ++ [n])) as (p & -> & Hs & Hp & Hle). exists (n :: p).
    rewrite <-app_assoc in *. cbn [app] in *. split_and!; [done|by constructor| |].
    + intros [|i] m Hi; cbn in Hi.
      * injection Hi as <-. rewrite Nat.add_0_r. unfold is_some_and in Hf.
        destruct (q_bundles set !! length chosen) as [b|] eqn:Hb; [|done]. by exists b.
      * apply Hp in Hi. rewrite length_app in Hi. cbn in Hi.
        by replace (length chosen + S i) with (length chosen + 1 + i) by lia.
    + intros H. rewrite length_app in Hle. cbn in Hle. apply Hle. lia.
  - destruct (IH chosen) as (p & -> & Hs & Hp & Hle). exists p. split_and!; [done| |done|done].
    by constructor.
Qed.

(** With equal bundles the first fit finds as many members as there are. *)
Lemma choose_uniform b avail chosen :
  (∀ i b', q_bundles set !! i = Some b' → b' = b) →
  length chosen ≤ length (q_bundles set) →
  length (choose t set avail chosen) =
    Nat.min (length (q_bundles set))
      (length chosen + length (filter (λ n, f64_leb b (free_on t n) = true) avail)).
Proof.
  intros Hu. revert chosen. induction avail as [|n avail IH]; intros chosen Hle; cbn [choose].
  { cbn. lia. }
  case_bool_decide as Hl; [lia|].
  destruct (lookup_lt_is_Some_2 (q_bundles set) (length chosen)) as [b' Hb']; [lia|].
  rewrite Hb', (Hu _ _ Hb'). cbn [is_some_and]. rewrite filter_cons.
  destruct (f64_leb b (free_on t n)) eqn:Hf.
  - rewrite IH; [|rewrite length_app; cbn; lia]. rewrite length_app.
    rewrite decide_True by done. cbn. lia.
  - rewrite IH by done. rewrite decide_False by done. done.
Qed.
End choose_facts.

Lemma omap_ne_nil {A B} (f : A → option B) l :
  omap f l ≠ [] ↔ ∃ x, is_Some (f x) ∧ x ∈ l.
Proof.
  induction l as [|x l IH]; [set_solver|]. cbn. destruct (f x) eqn:Hf.
  - split; [|done]. intros _. exists x. rewrite Hf. split; [eauto|set_solver].
  - rewrite IH. setoid_rewrite elem_of_cons. split; [naive_solver|].
    intros (y & Hy & [->|Hin]); [rewrite Hf in Hy; by destruct Hy|eauto].
Qed.

(** The nodes of an island that are not taken and have the GPUs of a bundle. *)
Definition able (t : Topology) (taken : gset string) (b : f64) (l : list string) : list string :=
  filter (λ n, f64_leb b (free_on t n) = true) (not_taken taken l).

(** A mesh set whose bundles are equal has a candidate exactly when it has
    somewhere to go: over rdma an island with enough untaken members that have
    the GPUs, otherwise enough such nodes in the cluster. *)
Theorem mesh_candidates_complete (t : Topology) (set : SetReq) (taken : gset string) (b : f64)
    (Hmesh : q_layout set = Mesh)
    (Hequal : ∀ i b', q_bundles set !! i = Some b' → b' = b) :
  let want := length (q_bundles set) in
  candidates t set taken ≠ [] ↔
  match q_link set with
  | Rdma => ∃ island, island ∈ t_islands t ∧ want ≤ length (able t taken b (i_nodes island))
  | AnyLink => want ≤ length (able t taken b (bt_keys (t_free_gpus t)))
  end.
Proof.
  cbn zeta. unfold candidates. rewrite Hmesh. change (ordered Mesh) with false. cbv iota.
  assert (∀ l, length (choose t set (not_taken taken l) []) =
    Nat.min (length (q_bundles set)) (length (able t taken b l))) as Hlen.
  { intros l. rewrite (choose_uniform t set b) by (done || (cbn; lia)). done. }
  destruct (q_link set).
  - rewrite omap_ne_nil. apply exist_proper. intros island. rewrite (and_comm (is_Some _)). split.
    + intros [Hin Hs]. split; [done|]. case_bool_decide as Ha; [by destruct Hs|].
      case_bool_decide as Hc; [|by destruct Hs]. rewrite Hlen in Hc. lia.
    + intros [Hin Hw]. split; [done|]. rewrite bool_decide_eq_false_2.
      * rewrite bool_decide_eq_true_2; [eauto|]. rewrite Hlen. lia.
      * pose proof (list.length_filter (λ n, f64_leb b (free_on t n) = true)
          (not_taken taken (i_nodes island))) as Hle. unfold able in Hw. lia.
  - case_bool_decide as Hc; rewrite Hlen in Hc; split; intros; try done; lia.
Qed.

(** ** Paths *)

#[export] Instance path_cmp_ok : CmpOk path_cmp.
Proof.
  unfold path_cmp. notypeclasses refine (@lex_cmp_ok Path (λ x y, N.compare (pa_rtt x) (pa_rtt y))
    (λ x y, lex (String.compare (po_addr (pa_local x)) (po_addr (pa_local y)))
      (String.compare (po_addr (pa_remote x)) (po_addr (pa_remote y)))) _ _).
  - apply (key_cmp_ok pa_rtt N.compare).
  - notypeclasses refine (@lex_cmp_ok Path
      (λ x y, String.compare (po_addr (pa_local x)) (po_addr (pa_local y)))
      (λ x y, String.compare (po_addr (pa_remote x)) (po_addr (pa_remote y))) _ _).
    + apply (key_cmp_ok (λ p, po_addr (pa_local p)) String.compare).
    + apply (key_cmp_ok (λ p, po_addr (pa_remote p)) String.compare).
Qed.

(** A link between two nodes that meets a request: a port of each, rdma where
    that is asked for, a probe that answered, and no box in between where a
    cable is asked for. *)
Definition usable (t : Topology) (a b : string) (link : Link) (cable : bool) (p : Path) : Prop :=
  pa_from p = a ∧ pa_to p = b ∧
  (∃ ps, t_ports t !! a = Some ps ∧ pa_local p ∈ ps) ∧
  (∃ ps, t_ports t !! b = Some ps ∧ pa_remote p ∈ ps) ∧
  rtt t (po_addr (pa_local p)) (po_addr (pa_remote p)) = Some (pa_rtt p) ∧
  (link = Rdma → po_rdma (pa_local p) = true ∧ po_rdma (pa_remote p) = true) ∧
  (cable = true → is_forwarded t (po_addr (pa_local p)) (po_addr (pa_remote p)) = false).

Lemma path_via_Some t a b link cable x y p :
  path_via t a b link cable x y = Some p ↔
  p = mkPath a b x y (pa_rtt p) ∧ rtt t (po_addr x) (po_addr y) = Some (pa_rtt p) ∧
  (link = Rdma → po_rdma x = true ∧ po_rdma y = true) ∧
  (cable = true → is_forwarded t (po_addr x) (po_addr y) = false).
Proof.
  unfold path_via. destruct (decide (link = Rdma)) as [->|Hl].
  - rewrite bool_decide_eq_true_2 by done. destruct (po_rdma x), (po_rdma y); cbn [andb negb];
      try (split; [done|]; intros (_ & _ & H & _); by destruct (H eq_refl)).
    destruct (rtt _ _ _) as [r|]; [|naive_solver].
    destruct cable, (is_forwarded _ _ _); cbn [andb]; split; try naive_solver;
      (intros [= <-]; split_and!; try done) || (intros (-> & [= ->] & _); done).
  - rewrite bool_decide_eq_false_2 by done. cbn [andb]. destruct (rtt _ _ _) as [r|]; [|naive_solver].
    destruct cable, (is_forwarded _ _ _); cbn [andb]; split; try naive_solver;
      (intros [= <-]; split_and!; try done) || (intros (-> & [= ->] & _); done).
Qed.

Definition all_paths (t : Topology) (a b : string) (link : Link) (cable : bool) : list Path :=
  match t_ports t !! a, t_ports t !! b with
  | Some pa, Some pb => pa ≫= λ x, omap (path_via t a b link cable x) pb
  | _, _ => []
  end.

Lemma path_min t a b link cable :
  path t a b link cable = min_by path_cmp (all_paths t a b link cable).
Proof.
  unfold path, all_paths. destruct (t_ports t !! a) as [pa|]; [|done].
  by destruct (t_ports t !! b) as [pb|].
Qed.

Lemma elem_of_all_paths t a b link cable p :
  p ∈ all_paths t a b link cable ↔ usable t a b link cable p.
Proof.
  unfold all_paths, usable. split.
  - destruct (t_ports t !! a) as [pa|] eqn:Ha; [|set_solver].
    destruct (t_ports t !! b) as [pb|] eqn:Hb; [|set_solver].
    intros (x & Hx & Hin)%list_elem_of_bind. apply list_elem_of_omap in Hx as (y & Hy & Hv).
    apply path_via_Some in Hv as (-> & Hr & Hl & Hc). cbn. naive_solver.
  - intros (<- & <- & (pa & -> & Hx) & (pb & -> & Hy) & Hr & Hl & Hc).
    apply list_elem_of_bind. exists (pa_local p). split; [|done]. apply list_elem_of_omap.
    exists (pa_remote p). split; [done|]. apply path_via_Some. split_and!; try done. by destruct p.
Qed.

(** [path] returns a link of the two nodes that meets the request and that
    no other such link precedes by round trip, then local, then remote address;
    it returns none exactly when no port pair meets the request. *)
Theorem path_spec t a b link cable :
  match path t a b link cable with
  | Some p => usable t a b link cable p ∧
      ∀ q, usable t a b link cable q → path_cmp p q ≠ Gt
  | None => ∀ q, ¬ usable t a b link cable q
  end.
Proof.
  rewrite path_min. destruct (min_by path_cmp _) as [p|] eqn:Hm;
    setoid_rewrite <-elem_of_all_paths.
  - split; [by eapply min_by_elem|]. intros q Hq. by apply (min_by_least _ _ _ _ Hm).
  - apply min_by_None in Hm as ->. set_solver.
Qed.

Lemma path_is_Some t a b link cable :
  is_Some (path t a b link cable) ↔ ∃ p, usable t a b link cable p.
Proof.
  pose proof (min_by_elem path_cmp (all_paths t a b link cable)) as He.
  pose proof (min_by_None path_cmp (all_paths t a b link cable)) as Hn.
  rewrite <-path_min in *. setoid_rewrite <-elem_of_all_paths.
  destruct (path t a b link cable) as [p|].
  - split; [intros _|eauto]. exists p. by apply He.
  - destruct Hn as [Hn _]. rewrite Hn by done. split; [by intros [? ?]|set_solver].
Qed.

Lemma rtt_comm_is_Some t a b : is_Some (rtt t a b) ↔ is_Some (rtt t b a).
Proof.
  unfold rtt. destruct (t_links t !! (a, b)), (t_links t !! (b, a)); split; intros []; eauto.
Qed.

Lemma is_forwarded_comm t a b : is_forwarded t a b = is_forwarded t b a.
Proof. apply orb_comm. Qed.

(** A link is there in one direction when it is there in the other. *)
Lemma path_comm t a b link cable :
  is_Some (path t a b link cable) ↔ is_Some (path t b a link cable).
Proof.
  assert (∀ a b, is_Some (path t a b link cable) → is_Some (path t b a link cable)) as Hone.
  2: { split; apply Hone. }
  clear a b. intros a b. rewrite !path_is_Some.
  intros (p & <- & <- & Ha & Hb & Hr & Hl & Hc).
  destruct (proj1 (rtt_comm_is_Some t (po_addr (pa_local p)) (po_addr (pa_remote p)))) as [r Hr'];
    [eauto|].
  exists (mkPath (pa_to p) (pa_from p) (pa_remote p) (pa_local p) r). unfold usable. cbn.
  split_and!; try done; [naive_solver|]. intros Hcab. rewrite is_forwarded_comm. auto.
Qed.

(** ** What a solution guarantees *)

(** A set on its nodes: one distinct node per bundle with the bundle's GPUs
    free; an rdma mesh inside one island; a ring or line cabled in order. *)
Definition set_placed (t : Topology) (s : SetReq) (c : list string) : Prop :=
  length c = length (q_bundles s) ∧ NoDup c ∧
  (∀ i n, c !! i = Some n → ∃ b, q_bundles s !! i = Some b ∧ f64_ltb (free_on t n) b = false) ∧
  match q_layout s with
  | Mesh => q_link s = Rdma → ∃ island, island ∈ t_islands t ∧ ∀ n, n ∈ c → n ∈ i_nodes island
  | _ => (∀ i n m, c !! i = Some n → c !! S i = Some m → is_Some (path t n m (q_link s) true)) ∧
         closes t s c
  end.

Definition islands_distinct (t : Topology) : Prop :=
  ∀ island, island ∈ t_islands t → NoDup (i_nodes island).

Lemma f64_compare_opp a b c :
  SpecFloat.SFcompare a b = Some c → SpecFloat.SFcompare b a = Some (CompOpp c).
Proof.
  destruct a as [[]|[]| |[] m e], b as [[]|[]| |[] m' e']; cbn; try (by intros [= <-]);
    intros [= <-]; rewrite (Z.compare_antisym e e'); destruct (e ?= e')%Z; cbn; try done;
    change (Pos.compare_cont Eq) with Pos.compare; rewrite (Pos.compare_antisym m m');
    by rewrite ?CompOpp_involutive.
Qed.

Lemma f64_le_not_lt b f : f64_leb b f = true → f64_ltb f b = false.
Proof.
  unfold f64_leb, f64_ltb, SpecFloat.SFleb, SpecFloat.SFltb.
  destruct (SpecFloat.SFcompare b f) as [c|] eqn:Hc; [|done].
  rewrite (f64_compare_opp _ _ _ Hc). by destruct c.
Qed.

Section solve_facts.
Context (t : Topology) (Hdistinct : islands_distinct t).

Lemma not_taken_elem taken l n : n ∈ not_taken taken l ↔ n ∈ l ∧ n ∉ taken.
Proof. unfold not_taken. rewrite list_elem_of_filter. tauto. Qed.

Lemma choose_placed set taken l c :
  NoDup l → choose t set (not_taken taken l) [] = c → length c = length (q_bundles set) →
  (∀ n, n ∈ c → n ∈ l ∧ n ∉ taken) ∧ NoDup c ∧
  (∀ i n, c !! i = Some n → ∃ b, q_bundles set !! i = Some b ∧ f64_ltb (free_on t n) b = false).
Proof.
  intros Hnd <- Hlen. destruct (choose_spec t set (not_taken taken l) []) as (p & Hp & Hs & Hf & _).
  rewrite Hp in *. cbn [app] in *. split_and!.
  - intros n Hn. apply not_taken_elem. by eapply elem_of_sublist.
  - eapply sublist_NoDup; [|done]. by apply list.NoDup_filter.
  - intros i n Hi. destruct (Hf i n Hi) as (b & Hb & Hle). exists b. split; [done|].
    by apply f64_le_not_lt.
Qed.

Lemma candidates_placed set taken c :
  c ∈ candidates t set taken → set_placed t set c ∧ ∀ n, n ∈ c → n ∉ taken.
Proof.
  unfold candidates, set_placed. destruct (ordered (q_layout set)) eqn:Ho.
  { intros [Hin|Ha]%walk_sound; [set_solver| |constructor].
    apply answer_iff in Ha as (Hl & (H1 & H2 & H3 & H4 & H5) & Hc). split.
    - split_and!; try done. by destruct (q_layout set).
    - intros n Hn. by apply H2, not_taken_elem in Hn as [_ ?]. }
  assert (q_layout set = Mesh) as Hm by (destruct (q_layout set); [done|discriminate Ho..]).
  rewrite Hm.
  destruct (q_link set) eqn:Hlink.
  - intros (island & Hin & Hsome)%list_elem_of_omap. case_bool_decide; [done|].
    case_bool_decide as Hl; [|done]. injection Hsome as <-.
    destruct (choose_placed set taken (i_nodes island) _ (Hdistinct _ Hin) eq_refl Hl) as (H1 & H2 & H3).
    split; [split_and!; try done|].
    + intros _. exists island. split; [done|]. intros n Hn. by apply H1.
    + intros n Hn. by apply H1.
  - case_bool_decide as Hl; [|set_solver]. intros ->%list_elem_of_singleton.
    destruct (choose_placed set taken (bt_keys (t_free_gpus t)) _ (bt_keys_NoDup _) eq_refl Hl)
      as (H1 & H2 & H3).
    split; [split_and!; done|]. intros n Hn. by apply H1.
Qed.

Lemma search_sound req order chosen taken chosen' :
  NoDup (q_name <$> order) → search t req order chosen taken = Some chosen' →
  (∀ k, k ∉ q_name <$> order → chosen' !! k = chosen !! k) ∧
  (∀ s, s ∈ order → ∃ c, chosen' !! q_name s = Some c ∧ set_placed t s c ∧
     ∀ n, n ∈ c → n ∉ taken) ∧
  (∀ s1 s2 c1 c2, s1 ∈ order → s2 ∈ order → q_name s1 ≠ q_name s2 →
     chosen' !! q_name s1 = Some c1 → chosen' !! q_name s2 = Some c2 →
     ∀ n, n ∈ c1 → n ∉ c2) ∧
  is_Some (paths_between t req chosen').
Proof.
  revert chosen taken. induction order as [|set order IH]; intros chosen taken Hnd; cbn [search].
  { case_bool_decide as Hp; [|done]. intros [= <-]. split_and!; set_solver. }
  cbn in Hnd. apply list.NoDup_cons in Hnd as [Hset Hnd].
  intros (cand & Hcand & Hs)%find_map_Some.
  destruct (candidates_placed set taken cand Hcand) as [Hpl Hdis].
  destruct (IH _ _ Hnd Hs) as (I1 & I2 & I3 & I4).
  assert (chosen' !! q_name set = Some cand) as Hset'.
  { rewrite I1 by done. apply lookup_insert_eq. }
  split_and!; [| | |done].
  - intros k Hk. cbn in Hk. rewrite I1 by set_solver. rewrite lookup_insert_ne; [done|set_solver].
  - intros s [->|Hin]%elem_of_cons; [by exists cand|].
    destruct (I2 s Hin) as (c & Hc & Hp & Hn). exists c. split_and!; [done..|]. set_solver.
  - intros s1 s2 c1 c2 H1 H2 Hne Hc1 Hc2 n Hn Hn'.
    apply elem_of_cons in H1 as [->|H1], H2 as [->|H2]; [done| | |by apply (I3 s1 s2 c1 c2 H1 H2 Hne Hc1 Hc2 n)].
    + destruct (I2 s2 H2) as (c & Hc & _ & Hdis2). assert (c2 = c) as -> by congruence.
      specialize (Hdis2 n Hn'). assert (c1 = cand) as -> by congruence. set_solver.
    + destruct (I2 s1 H1) as (c & Hc & _ & Hdis2). assert (c1 = c) as -> by congruence.
      specialize (Hdis2 n Hn). assert (c2 = cand) as -> by congruence. set_solver.
Qed.
End solve_facts.

Section solution_facts.
Context (t : Topology).

Lemma members_of_nodes chosen s c ms :
  chosen !! q_name s = Some c → members_of t chosen s = Ok ms → mb_node <$> ms = c.
Proof.
  intros Hc. unfold members_of. rewrite Hc. cbn [default from_option id].
  intros Hm%collect_Ok. assert (∀ k, Forall2 (λ x y, member_of t s c x.1 x.2 = Ok y)
    (imap (λ i n, (k + i, n)) c) ms → mb_node <$> ms = c) as Hgen.
  2: { apply (Hgen 0). eapply list.Forall2_impl; [exact Hm|]. by intros []. }
  clear Hm. assert (∀ l k ms, Forall2 (λ x y, member_of t s c x.1 x.2 = Ok y)
    (imap (λ i n, (k + i, n)) l) ms → mb_node <$> ms = l) as Hl; [|intros k Hk; exact (Hl c k ms Hk)].
  clear ms. induction l as [|n l IH]; intros k ms Hm; cbn in Hm; inversion Hm as [|? y ? ys Hy Hys]; subst; [done|].
  cbn. f_equal.
  - unfold member_of in Hy. cbn in Hy.
    destruct (neighbours t s c (k + 0) n) as [[prev next]|]; [|discriminate Hy].
    destruct (match next with Some _ => _ | None => _ end); [|destruct (ok_or _ _); [|discriminate Hy]];
      by injection Hy as <-.
  - apply (IH (S k)). erewrite imap_ext; [exact Hys|]. intros i x _. cbn. f_equal. lia.
Qed.

Lemma size_list_to_set_le (l : list string) : size (list_to_set l : gset string) ≤ length l.
Proof.
  induction l as [|x l IH]; [by rewrite list_to_set_nil, size_empty|].
  rewrite list_to_set_cons. cbn [length].
  pose proof (size_union_alt ({[x]} : gset string) (list_to_set l)) as Hu.
  pose proof (subseteq_size (list_to_set l ∖ {[x]} : gset string) (list_to_set l) ltac:(set_solver)).
  rewrite size_singleton in Hu. lia.
Qed.

Lemma check_request_ok req : check_request req = Ok tt →
  NoDup (q_name <$> rq_sets req) ∧ (∀ s, s ∈ rq_sets req → q_bundles s ≠ []).
Proof.
  unfold check_request. destruct (find_first _ _) eqn:He; [done|].
  case_bool_decide as Hn; [done|]. intros _. split.
  - rewrite <-(length_fmap q_name) in Hn.
    revert Hn. generalize (q_name <$> rq_sets req). intros l. induction l as [|x l IH]; [constructor|].
    rewrite list_to_set_cons. cbn [length]. destruct (decide (x ∈ l)) as [Hx|Hx].
    + rewrite subseteq_union_1_L by set_solver. intros Hs.
      pose proof (size_list_to_set_le l). lia.
    + rewrite size_union by set_solver. rewrite size_singleton. intros Hs.
      apply list.NoDup_cons. split; [done|]. apply IH. lia.
  - intros s Hs. unfold find_first in He. pose proof (proj1 (find_map_None _ _) He s Hs) as Hf.
    cbn in Hf. by destruct (q_bundles s).
Qed.

Lemma mapM_Forall2 {A B} (f : A → option B) l k :
  mapM f l = Some k → Forall2 (λ x y, f x = Some y) l k.
Proof. apply mapM_Some_1. Qed.
End solution_facts.

(** The nodes of a solved set. *)
Definition nodes_of (sol : Solution) (name : string) : list string :=
  mb_node <$> default [] (so_sets sol !! name).

(** What a [between] entry asked for, on the path reported for it. *)
Definition between_met (t : Topology) (sol : Solution) (b : BetweenReq) (p : Path) : Prop :=
  pa_from p ∈ nodes_of sol (bw_from b) ∧ pa_to p ∈ nodes_of sol (bw_to b) ∧
  usable t (pa_from p) (pa_to p) (bw_link b) false p.

Lemma between_path_met t chosen b p :
  between_path t chosen b = Some p →
  ∃ from to, chosen !! bw_from b = Some from ∧ chosen !! bw_to b = Some to ∧
    pa_from p ∈ from ∧ pa_to p ∈ to ∧ usable t (pa_from p) (pa_to p) (bw_link b) false p.
Proof.
  unfold between_path. destruct (chosen !! bw_from b) as [from|]; [|done].
  destruct (chosen !! bw_to b) as [to|]; [|done]. cbn. intros Hm%min_by_elem.
  apply list_elem_of_bind in Hm as (a & Hp & Ha). apply list_elem_of_omap in Hp as (c & Hc & Hp).
  pose proof (path_spec t a c (bw_link b) false) as Hs. rewrite Hp in Hs. destruct Hs as [Hu _].
  exists from, to. assert (pa_from p = a ∧ pa_to p = c) as [-> ->] by (unfold usable in Hu; tauto).
  done.
Qed.

(** The sets of a request in the order the search takes them. *)
Lemma solve_order_NoDup req :
  check_request req = Ok tt → NoDup (q_name <$> sort_by set_cmp (rq_sets req)).
Proof.
  intros [Hn _]%check_request_ok. by rewrite (sort_by_perm set_cmp (rq_sets req)).
Qed.

Lemma solve_inv t req sol :
  solve t req = Ok sol →
  ∃ chosen, check_request req = Ok tt ∧
    search t req (sort_by set_cmp (rq_sets req)) ∅ ∅ = Some chosen ∧
    paths_between t req chosen = Some (so_between sol) ∧
    (∀ s, s ∈ rq_sets req → ∃ ms, so_sets sol !! q_name s = Some ms ∧ members_of t chosen s = Ok ms).
Proof.
  unfold solve. destruct (check_request req) as [[]|] eqn:Hc; [|done].
  destruct (search _ _ _ _ _) as [chosen|] eqn:Hs; [|done].
  destruct (collect _ _) as [sets|] eqn:Hl; [|done].
  destruct (paths_between t req chosen) as [bt|] eqn:Hb; [|done]. intros [= <-]. exists chosen.
  split_and!; [done..|]. cbn [so_sets]. intros s Hin.
  destruct (check_request_ok req Hc) as [Hnd _]. apply collect_Ok in Hl.
  assert (sets.*1 = q_name <$> rq_sets req) as Hfst.
  { clear -Hl. induction Hl as [|x y l k Hxy Hl IH]; [done|]. cbn. rewrite IH. f_equal.
    destruct (members_of t chosen x); [|done]. by injection Hxy as <-. }
  apply list_elem_of_lookup in Hin as [i Hi].
  destruct (Forall2_lookup_l _ _ _ _ _ Hl Hi) as ([k ms] & Hy & Hm).
  destruct (members_of t chosen s) as [ms'|] eqn:Hms; [|done]. injection Hm as <- <-.
  exists ms'. split; [|done]. apply elem_of_list_to_map_1; [by rewrite Hfst|].
  by eapply list_elem_of_lookup_2.
Qed.

(** C8: a solved claim places every set as asked: one distinct node per
    bundle with the GPUs free, an rdma mesh inside one island, a ring or a
    line cabled in order; no node serves two sets; and every [between] entry
    has a probed link of its kind between a member of each of its sets. *)
Theorem solve_sound (t : Topology) (req : Request) (sol : Solution)
    (Hdistinct : islands_distinct t) (Hsolve : solve t req = Ok sol) :
  (∀ s, s ∈ rq_sets req → set_placed t s (nodes_of sol (q_name s))) ∧
  (∀ s1 s2 n, s1 ∈ rq_sets req → s2 ∈ rq_sets req → q_name s1 ≠ q_name s2 →
     n ∈ nodes_of sol (q_name s1) → n ∉ nodes_of sol (q_name s2)) ∧
  Forall2 (between_met t sol) (rq_between req) (so_between sol).
Proof.
  destruct (solve_inv t req sol Hsolve) as (chosen & Hc & Hs & Hb & Hms).
  destruct (search_sound t Hdistinct req _ _ _ _ (solve_order_NoDup req Hc) Hs) as (S1 & S2 & S3 & _).
  setoid_rewrite elem_of_sort_by in S2. setoid_rewrite elem_of_sort_by in S3.
  assert (∀ s, s ∈ rq_sets req → chosen !! q_name s = Some (nodes_of sol (q_name s))) as Hnodes.
  { intros s Hin. destruct (S2 s Hin) as (c & Hcs & _). destruct (Hms s Hin) as (ms & Hso & Hm).
    unfold nodes_of. rewrite Hso. cbn. by rewrite (members_of_nodes t chosen s c ms Hcs Hm). }
  split_and!.
  - intros s Hin. destruct (S2 s Hin) as (c & Hcs & Hp & _). rewrite Hnodes in Hcs by done.
    by injection Hcs as ->.
  - intros s1 s2 n H1 H2 Hne.
    exact (S3 s1 s2 _ _ H1 H2 Hne (Hnodes s1 H1) (Hnodes s2 H2) n).
  - apply mapM_Forall2 in Hb. eapply list.Forall2_impl; [exact Hb|]. intros b p Hp.
    destruct (between_path_met t chosen b p Hp) as (from & to & Hf & Ht & Hpf & Hpt & Hu).
    assert (∀ k c, chosen !! k = Some c → c = nodes_of sol k) as Hk.
    { intros k c Hkc. destruct (decide (k ∈ q_name <$> rq_sets req)) as [Hin|Hin].
      - apply list_elem_of_fmap in Hin as (s & -> & Hin). rewrite Hnodes in Hkc by done. congruence.
      - rewrite S1 in Hkc; [by rewrite lookup_empty in Hkc|].
        by rewrite (sort_by_perm set_cmp (rq_sets req)). }
    unfold between_met. by rewrite <-(Hk _ _ Hf), <-(Hk _ _ Ht).
Qed.

(** ** Which refusals can happen *)

(** Two members of a ring or a line that are next to each other, in the order
    or around the ring, are cabled. *)
Lemma placed_cabled t s c i j n m :
  set_placed t s c → ordered (q_layout s) = true → c !! i = Some n → c !! j = Some m →
  j = S i ∨ q_layout s = Ring ∧ S i = length c ∧ j = 0 ∧ 2 ≤ length c →
  is_Some (path t n m (q_link s) true) ∧ is_Some (path t m n (q_link s) true).
Proof.
  intros (_ & _ & _ & Hlay) Ho Hi Hj Hadj.
  cut (is_Some (path t n m (q_link s) true)); [intros H; split; [done|by apply path_comm]|].
  assert ((∀ i n m, c !! i = Some n → c !! S i = Some m → is_Some (path t n m (q_link s) true)) ∧
          closes t s c) as [Hstep Hcl] by (by destruct (q_layout s)).
  destruct Hadj as [->|(Hr & Hi' & -> & Hk)]; [by eapply Hstep|].
  destruct (decide (length c = 2)) as [H2|H2].
  - apply path_comm. eapply (Hstep 0); [done|]. by replace 1 with i by lia.
  - destruct (Hcl Hr ltac:(lia)) as (l & f & Hl & Hf & Hp).
    rewrite last_lookup in Hl. replace (pred (length c)) with i in Hl by lia.
    rewrite head_lookup in Hf. congruence.
Qed.

Lemma cable_to_ok t s c n j :
  (∀ k m, j = Some k → c !! k = Some m → is_Some (path t n m (q_link s) true)) →
  (∀ k, j = Some k → k < length c) →
  ∃ p, cable_to t s c n j = Ok p ∧ (is_Some j → is_Some p).
Proof.
  intros Hp Hlt. unfold cable_to. destruct j as [k|]; [|exists None; split; [done|by intros []]].
  destruct (lookup_lt_is_Some_2 c k (Hlt k eq_refl)) as [m Hm]. rewrite Hm. cbn.
  destruct (Hp k m eq_refl Hm) as [p ->]. exists (Some p). eauto.
Qed.

Lemma neighbours_ok t s c i n :
  set_placed t s c → ordered (q_layout s) = true → c !! i = Some n →
  ∃ prev next, neighbours t s c i n = Ok (prev, next) ∧ (2 ≤ length c → is_Some prev ∨ is_Some next).
Proof.
  intros Hpl Ho Hi. pose proof (lookup_lt_Some _ _ _ Hi) as Hlt. unfold neighbours.
  destruct (neighbour_ixs (q_layout s) (length c) i) as [pi ni] eqn:Hix.
  assert (∀ k m, pi = Some k → c !! k = Some m → is_Some (path t n m (q_link s) true)) as Hprev.
  { intros k m -> Hm. apply (placed_cabled t s c k i m n); try done. unfold neighbour_ixs in Hix.
    destruct (q_layout s); [done| |repeat case_bool_decide; simplify_eq; left; lia].
    case_bool_decide; simplify_eq. destruct (decide (i = 0)) as [->|Hne].
    - right. replace (0 + length c - 1) with (length c - 1) by lia.
      rewrite Nat.mod_small by lia. split_and!; [done|lia..].
    - left. replace (i + length c - 1) with ((i - 1) + 1 * length c) by lia.
      rewrite Nat.Div0.mod_add, Nat.mod_small by lia. lia. }
  assert (∀ k m, ni = Some k → c !! k = Some m → is_Some (path t n m (q_link s) true)) as Hnext.
  { intros k m -> Hm. apply (placed_cabled t s c i k n m); try done. unfold neighbour_ixs in Hix.
    destruct (q_layout s); [done| |repeat case_bool_decide; simplify_eq; left; lia].
    case_bool_decide; simplify_eq. destruct (decide (i + 1 = length c)) as [Heq|Hne].
    - right. rewrite Heq, Nat.Div0.mod_same. split_and!; [done|lia..].
    - left. rewrite Nat.mod_small by lia. lia. }
  assert ((∀ k, pi = Some k → k < length c) ∧ (∀ k, ni = Some k → k < length c) ∧
          (2 ≤ length c → is_Some pi ∨ is_Some ni)) as (Hpl' & Hnl & Hsome).
  { unfold neighbour_ixs in Hix. destruct (q_layout s); [done| |].
    - case_bool_decide; simplify_eq.
      + split_and!; [intros k [= <-]; apply Nat.mod_upper_bound; lia..|eauto].
      + split_and!; [done|done|lia].
    - repeat case_bool_decide; simplify_eq; split_and!; intros; simplify_eq; try lia; eauto. }
  destruct (cable_to_ok t s c n pi Hprev Hpl') as (p & -> & Hp1).
  destruct (cable_to_ok t s c n ni Hnext Hnl) as (q & -> & Hq1).
  exists p, q. split; [done|]. intros H2. destruct (Hsome H2); auto.
Qed.

Lemma collect_Err {A B E} (f : A → Result B E) l e :
  collect f l = Err e → ∃ x, x ∈ l ∧ f x = Err e.
Proof.
  induction l as [|x l IH]; cbn; [done|]. destruct (f x) as [y|e'] eqn:Hf.
  - destruct (collect f l); [done|]. intros [= ->]. destruct (IH eq_refl) as (z & Hz & Hfz).
    exists z. set_solver.
  - intros [= ->]. exists x. set_solver.
Qed.

Lemma member_err t s c i n e :
  set_placed t s c → c !! i = Some n → member_of t s c i n = Err e →
  (q_layout s = Mesh ∨ length c = 1) ∧ bind_for t s n c = None ∧
  e = n +:+ " has no address for set " +:+ debug_str (q_name s).
Proof.
  intros Hpl Hi. unfold member_of. destruct (ordered (q_layout s)) eqn:Ho.
  - destruct (neighbours_ok t s c i n Hpl Ho Hi) as (p & q & -> & Hsome).
    pose proof (lookup_lt_Some _ _ _ Hi) as Hlt.
    destruct (decide (2 ≤ length c)) as [H2|H2].
    + destruct (Hsome H2) as [[x ->]|[x ->]]; [by destruct q|done].
    + destruct q; [done|]. destruct p; [done|].
      destruct (bind_for t s n c); [done|]. cbn. intros [= <-]. split_and!; [right; lia|done..].
  - assert (q_layout s = Mesh) as Hm by (destruct (q_layout s); [done|discriminate Ho..]).
    unfold neighbours. rewrite Hm. cbn [neighbour_ixs cable_to].
    destruct (bind_for t s n c); [done|]. cbn. intros [= <-]. split_and!; auto.
Qed.

(** ** What there is to choose from

    The places a set may be given, said without the search. In a list of nodes
    the members of a mesh are picked in order, each the first that has the GPUs
    of its bundle; a ring or a line may take any cabled order of free nodes. *)
Inductive first_fit (t : Topology) : list f64 → list string → list string → Prop :=
| fit_done avail : first_fit t [] avail []
| fit_take b bs n avail c :
    f64_leb b (free_on t n) = true → first_fit t bs avail c → first_fit t (b :: bs) (n :: avail) (n :: c)
| fit_skip b bs n avail c :
    f64_leb b (free_on t n) = false → first_fit t (b :: bs) avail c → first_fit t (b :: bs) (n :: avail) c.

Definition offered (t : Topology) (s : SetReq) (taken : gset string) (c : list string) : Prop :=
  let free := not_taken taken (bt_keys (t_free_gpus t)) in
  match q_layout s, q_link s with
  | Mesh, Rdma => ∃ island, island ∈ t_islands t ∧ first_fit t (q_bundles s) (not_taken taken (i_nodes island)) c
  | Mesh, AnyLink => first_fit t (q_bundles s) free c
  | _, _ => length c = length (q_bundles s) ∧ cabled_order t s free c ∧ closes t s c
  end.

(** A place for every set in turn, none on a node of an earlier one. *)
Fixpoint placed_in_turn (t : Topology) (order : list SetReq) (taken : gset string) (places : list (list string)) : Prop :=
  match order, places with
  | [], [] => True
  | s :: order, c :: places => offered t s taken c ∧ placed_in_turn t order (list_to_set c ∪ taken) places
  | _, _ => False
  end.
Definition file_places (order : list SetReq) (places : list (list string)) (chosen : Chosen) : Chosen :=
  foldl (λ m '(s, c), <[q_name s := c]> m) chosen (zip order places).

(** Every [between] entry has a usable link from one set to the other. *)
Definition joined (t : Topology) (req : Request) (chosen : Chosen) : Prop :=
  ∀ b, b ∈ rq_between req → ∃ from to x y p,
    chosen !! bw_from b = Some from ∧ chosen !! bw_to b = Some to ∧ x ∈ from ∧ y ∈ to ∧
    usable t x y (bw_link b) false p.

Definition assignment_exists (t : Topology) (req : Request) : Prop :=
  let order := sort_by set_cmp (rq_sets req) in
  ∃ places, placed_in_turn t order ∅ places ∧ joined t req (file_places order places ∅).

(** The search for some ring or line stopped at its limit. *)
Definition chains_cut (t : Topology) (req : Request) : Prop :=
  ∃ s taken, s ∈ rq_sets req ∧ ordered (q_layout s) = true ∧ MAX_CHAINS ≤ length (candidates t s taken).

Section refusals.
Context (t : Topology).

Lemma choose_first_fit set avail chosen c :
  first_fit t (drop (length chosen) (q_bundles set)) avail c →
  length chosen ≤ length (q_bundles set) → choose t set avail chosen = chosen ++ c.
Proof.
  revert chosen c. induction avail as [|n avail IH]; intros chosen c Hf Hl; cbn [choose].
  { inversion Hf; subst. by rewrite app_nil_r. }
  case_bool_decide as Heq.
  { rewrite drop_ge in Hf by lia. inversion Hf; subst. by rewrite app_nil_r. }
  destruct (lookup_lt_is_Some_2 (q_bundles set) (length chosen)) as [b Hb]; [lia|].
  rewrite (drop_S _ b) in Hf by done. rewrite Hb. cbn [is_some_and]. inversion Hf; subst.
  - match goal with H : f64_leb b _ = true |- _ => rewrite H end. erewrite IH; [by rewrite <-app_assoc| |].
    + rewrite length_app, Nat.add_1_r. done.
    + rewrite length_app. cbn. lia.
  - match goal with H : f64_leb b _ = false |- _ => rewrite H end. apply IH; [|done]. by rewrite (drop_S _ b).
Qed.
Lemma first_fit_length bs avail c : first_fit t bs avail c → length c = length bs.
Proof. induction 1; cbn in *; lia. Qed.
Lemma first_fit_room bs avail c : first_fit t bs avail c → length bs ≤ length avail.
Proof. induction 1; cbn in *; lia. Qed.

(** Short of the limit the search tries every place there is. *)
Lemma offered_candidate set taken c :
  (ordered (q_layout set) = true → length (candidates t set taken) < MAX_CHAINS) →
  offered t set taken c → c ∈ candidates t set taken.
Proof.
  intros Hcut. unfold offered. destruct (q_layout set) eqn:Hl.
  2,3: intros Hc; destruct (chain_candidates t set taken) as (_ & H & _); [by rewrite Hl|];
    apply H; [by apply Hcut|exact Hc].
  unfold candidates. rewrite Hl. change (ordered Mesh) with false. cbv iota. destruct (q_link set).
  - intros (island & Hi & Hf). apply list_elem_of_omap. exists island. split; [done|].
    pose proof (first_fit_room _ _ _ Hf) as Hr. pose proof (first_fit_length _ _ _ Hf) as Hn.
    rewrite bool_decide_eq_false_2 by lia.
    rewrite (choose_first_fit set _ [] c) by (done || (cbn; lia)). cbn [app]. by rewrite bool_decide_eq_true_2.
  - intros Hf. pose proof (first_fit_length _ _ _ Hf) as Hn.
    rewrite (choose_first_fit set _ [] c) by (done || (cbn; lia)). cbn [app].
    rewrite bool_decide_eq_true_2 by done. by apply list_elem_of_singleton.
Qed.

Lemma joined_paths req chosen : joined t req chosen → is_Some (paths_between t req chosen).
Proof.
  intros Hj. apply mapM_is_Some_2, list.Forall_forall. intros b Hb.
  destruct (Hj b Hb) as (from & to & x & y & p & Hf & Ht & Hx & Hy & Hp).
  cbn. unfold between_path. rewrite Hf. cbn. rewrite Ht. cbn.
  destruct (min_by between_cmp _) as [q|] eqn:Hm; [by eexists|]. apply min_by_None in Hm.
  destruct (proj2 (path_is_Some t x y (bw_link b) false)) as [r Hr]; [by exists p|].
  assert (r ∈ (from ≫= λ a, omap (λ c, path t a c (bw_link b) false) to)) as Hin.
  { apply list_elem_of_bind. exists x. split; [|done]. apply list_elem_of_omap. by exists y. }
  rewrite Hm in Hin. by apply not_elem_of_nil in Hin.
Qed.

Lemma search_complete req order chosen taken places :
  (∀ s tk, s ∈ order → ordered (q_layout s) = true → length (candidates t s tk) < MAX_CHAINS) →
  search t req order chosen taken = None → placed_in_turn t order taken places →
  ¬ joined t req (file_places order places chosen).
Proof.
  revert chosen taken places. induction order as [|s order IH]; intros chosen taken [|c places] Hcut Hs Hp; try done.
  - cbn in *. intros Hj%joined_paths. by rewrite bool_decide_eq_true_2 in Hs.
  - cbn [search placed_in_turn] in *. destruct Hp as [Hc Hp].
    change (file_places (s :: order) (c :: places) chosen) with (file_places order places (<[q_name s := c]> chosen)).
    apply (IH _ (list_to_set c ∪ taken)); [intros; apply Hcut; [by right|done]| |done].
    rewrite find_map_None in Hs. apply Hs. apply offered_candidate; [|done]. apply Hcut. by left.
Qed.
End refusals.

(** Once the search succeeded, what can still fail is an address. *)
Lemma unbound_member (t : Topology) (req : Request) (chosen : Chosen) (e : string) :
  islands_distinct t → check_request req = Ok tt →
  search t req (sort_by set_cmp (rq_sets req)) ∅ ∅ = Some chosen →
  (let? sets := collect (λ s, let? ms := members_of t chosen s in Ok (q_name s, ms)) (rq_sets req) in
   let? between := ok_or (paths_between t req chosen) "no probed link satisfies a between entry" in
   Ok (mkSolution (list_to_map sets) between)) = Err e →
  ∃ s c n, s ∈ rq_sets req ∧ set_placed t s c ∧ n ∈ c ∧
    (q_layout s = Mesh ∨ length c = 1) ∧ bind_for t s n c = None ∧
    e = n +:+ " has no address for set " +:+ debug_str (q_name s).
Proof.
  intros Hdistinct Hc Hs Herr.
  destruct (search_sound t Hdistinct req _ _ _ _ (solve_order_NoDup req Hc) Hs) as (_ & S2 & _ & [b Hb]).
  rewrite Hb in Herr. destruct (collect _ _) as [?|e'] eqn:Hl; [done|]. injection Herr as <-.
  apply collect_Err in Hl as (s & Hin & Hms).
  destruct (S2 s) as (c & Hcs & Hpl & _); [by apply elem_of_sort_by|].
  destruct (members_of t chosen s) as [|e''] eqn:Hm; [done|]. injection Hms as <-.
  unfold members_of in Hm. rewrite Hcs in Hm. apply collect_Err in Hm as ([i n] & Hx & He).
  apply elem_of_lookup_imap in Hx as (j & x & [= -> ->] & Hj).
  exists s, c, x. destruct (member_err t s c j x _ Hpl Hj He) as (H1 & H2 & H3).
  split_and!; try done. by eapply list_elem_of_lookup_2.
Qed.

(** C9: a claim is refused for three reasons only. The request is malformed. Or
    there is no assignment: whatever places the sets are given, each of those
    on offer to it once the sets before it (rdma sets first, then by name)
    have theirs, some [between] entry has no probed link; or some ring or line
    had 32 orders or more, of which the solver tries the first 32. Or a member
    outside a chain has no address to bind. On offer to a ring or line is every
    cabled order of free nodes, to a mesh only the first fit in the cluster,
    or for rdma in each island, so that a mesh of unequal bundles may be
    refused although other nodes would do ([first_fit_misses]). Once the search
    succeeded, no cable and no [between] link is missing. *)
Theorem solve_refusals (t : Topology) (req : Request) (e : string)
    (Hdistinct : islands_distinct t) (Herr : solve t req = Err e) :
  check_request req = Err e ∨
  (check_request req = Ok tt ∧ e = why_not t req ∧ (¬ chains_cut t req → ¬ assignment_exists t req)) ∨
  (∃ s c n, s ∈ rq_sets req ∧ set_placed t s c ∧ n ∈ c ∧
     (q_layout s = Mesh ∨ length c = 1) ∧ bind_for t s n c = None ∧
     e = n +:+ " has no address for set " +:+ debug_str (q_name s)).
Proof.
  unfold solve in Herr. destruct (check_request req) as [[]|] eqn:Hc; [|left; by injection Herr as <-].
  right. destruct (search _ _ _ _ _) as [chosen|] eqn:Hs; [right|left].
  - by apply (unbound_member t req chosen).
  - injection Herr as <-. split_and!; [done..|].
    intros Hcut (places & Hp & Hj). eapply search_complete; [|exact Hs|exact Hp|exact Hj].
    intros s tk Hin%elem_of_sort_by Ho. apply Nat.lt_nge. intros Hge. apply Hcut. by exists s, tk.
Qed.

(** ** Reading a request *)

Definition parse_bundle (name : string) (b : Value) : Result f64 string :=
  ok_or (f ← as_f64 b; if bool_decide (is_Some (whole_nonneg f)) then Some f else None)
    ("set " +:+ debug_str name +:+ ": every bundle is a whole number of GPUs").

Definition parse_set (s : Value) : Result SetReq string :=
  let? name := ok_or (as_str (index "name" s)) "a set needs a name" in
  let? bundles := match index "bundles" s with
    | Arr a => collect (parse_bundle name) a
    | Num n => Ok (replicate (N.to_nat (default 0%N (as_u64 (Num n)))) f64_one)
    | _ => Err ("set " +:+ debug_str name +:+ " needs bundles")
    end in
  let? link := link_parse (default "ip" (as_str (index "link" s))) in
  let? layout := layout_parse (default "mesh" (as_str (index "layout" s))) in
  Ok (mkSet name bundles link layout (default "" (as_str (index "vendor" s)))).

Definition parse_between (b : Value) : Result BetweenReq string :=
  let? from := ok_or (as_str (index "from" b)) "between needs from" in
  let? to := ok_or (as_str (index "to" b)) "between needs to" in
  let? link := link_parse (default "ip" (as_str (index "link" b))) in
  Ok (mkBetween from to link).

Definition parse (shape : Value) : Result Request string :=
  let? sets := ok_or (as_array (index "sets" shape)) "shape needs a sets array" in
  let? sets := collect parse_set sets in
  let? between := match as_array (index "between" shape) with
    | Some a => collect parse_between a
    | None => Ok []
    end in
  Ok (mkRequest sets between).

(** ** The topology a daemon sees *)

Definition port_of (tags : gmap string (list string)) (ifaces : gmap string string) (a : string)
    : ClaimPort := mkPort a (ifaces !! a) (default [] (tags !! a)).

Definition record (node host : string) (addrs : list string) (tags : gmap string (list string))
    (ifaces : gmap string string) (t : Topology) : Topology :=
  let ports := port_of tags ifaces <$> addrs in
  let t := if nonempty ports then t <| t_ports ::= <[node := ports]> |> else t in
  t <| t_hosts ::= <[node := host]> |>.

(** One probed pair: a link when it answered, a forward when a third box did. *)
Definition record_pair (local remote : string) (ok : bool) (rtt_ms : N) (direct : option bool)
    (t : Topology) : Topology :=
  let t := if ok then t <| t_links ::= <[(local, remote) := rtt_ms]> |> else t in
  if bool_decide (direct = Some false) then t <| t_forwarded ::= λ f, {[(local, remote)]} ∪ f |> else t.

Definition record_peer (t : Topology) (p : PeerInfo) : Topology :=
  let t := record (pe_node_id p) (pe_node_ip p) (pe_addrs p) (pe_addr_tags p) (pe_addr_ifaces p) t in
  let t := foldl (λ t '(local, remotes),
    foldl (λ t '(remote, r), record_pair local remote (pp_ok r) (pp_rtt_ms r) (pp_direct r) t)
      t (bt_iter remotes)) t (bt_iter (pe_probe_pairs p)) in
  foldl (λ t '(_, q),
    if default false (as_bool (index "alive" q)) then
      foldl (λ t '(local, remotes),
        foldl (λ t '(remote, r),
          record_pair local remote (default false (as_bool (index "ok" r)))
            (default 0%N (as_u64 (index "rtt_ms" r))) (as_bool (index "direct" r)) t)
          t (entries remotes)) t (entries (index "probes" q))
    else t) t (entries (index "peers" (pe_last_status p))).

Section topology.
Context `{HI : HashIter}.

Definition record_agent (s : State) (t : Topology) (a : AgentInfo) : Topology :=
  let node := ag_node_id a in
  let t := t <| t_free_gpus ::= <[node :=
    f64_add (default f64_zero (t_free_gpus t !! node)) (f64_of_N (N.of_nat (length (free_gpus_of s (ag_id a)))))]> |> in
  let t := match m_gpus (ag_machine a), t_vendors t !! node with
    | g :: _, None => t <| t_vendors ::= <[node := g_vendor g]> |>
    | _, _ => t
    end in
  let t := match t_ports t !! node with
    | None => t <| t_ports ::= <[node := [mkPort (ag_node_ip a) None []]]> |>
    | Some _ => t
    end in
  match t_hosts t !! node with
  | None => t <| t_hosts ::= <[node := ag_node_ip a]> |>
  | Some _ => t
  end.

Definition topology (h : Host) (s : State) : Topology :=
  let t := topology_default <| t_islands := f_islands (st_fabrics s) |> in
  let t := record (node_id s) (hostname s) (local_addrs h) (local_addr_tags h)
             (local_addr_ifaces h) t in
  let t := foldl record_peer t (filter (λ p, pe_alive p = true) (hash_values (peers s))) in
  foldl (record_agent s) t (filter (λ a, ag_alive a = true) (hash_values (agents s))).
End topology.

(** ** The answer as JSON *)

Definition path_end (hosts sets : gmap string string) (n : string) (p : ClaimPort) : Value :=
  obj_of [("set", Str (default "" (sets !! n))); ("node", Str n);
          ("host", Str (default n (hosts !! n))); ("addr", Str (po_addr p));
          ("iface", Jopt Str (po_iface p))].
Definition path_json (hosts sets : gmap string string) (p : Path) : Value :=
  obj_of [("from", path_end hosts sets (pa_from p) (pa_local p));
          ("to", path_end hosts sets (pa_to p) (pa_remote p)); ("rtt_ms", JN (pa_rtt p))].

Definition member_json (t : Topology) (m : Member) : Value :=
  let name n := default n (t_hosts t !! n) in
  let link (key : string) (p : option Path) := match p with
    | Some p => [(key, obj_of [("node", Str (pa_to p)); ("host", Str (name (pa_to p)));
                   ("addr", Str (po_addr (pa_remote p))); ("bind", Str (po_addr (pa_local p)));
                   ("iface", Jopt Str (po_iface (pa_local p)))])]
    | None => []
    end in
  obj_of ([("node", Str (mb_node m)); ("host", Str (name (mb_node m))); ("vendor", Str (mb_vendor m));
           ("bind", Str (po_addr (mb_bind m))); ("iface", Jopt Str (po_iface (mb_bind m)));
           ("tags", Jstrs (po_tags (mb_bind m)))] ++ link "prev" (mb_prev m) ++ link "next" (mb_next m)).

Definition set_of_nodes (sol : Solution) : gmap string string :=
  foldl (λ m '(k, ms), foldl (λ m mb, <[mb_node mb := k]> m) m ms) ∅ (bt_iter (so_sets sol)).

Definition solution_json (sol : Solution) (t : Topology) : Value :=
  obj_of [("sets", Jmap (λ ms, Arr (member_json t <$> ms)) (so_sets sol));
          ("between", Arr (path_json (t_hosts t) (set_of_nodes sol) <$> so_between sol))].

(** ** Concrete cases *)

Definition demo_port (a : string) : ClaimPort := mkPort a (Some "eth") ["rdma"].

(** Three nodes in a ring of cables, two of them an island. *)
Definition demo_topology : Topology :=
  topology_default
    <| t_islands := [mkIsland ["n1"; "n2"] ∅] |>
    <| t_ports := {[ "n1" := [demo_port "a1"]; "n2" := [demo_port "a2"]; "n3" := [demo_port "a3"] ]} |>
    <| t_links := {[ ("a1", "a2") := 1%N; ("a2", "a3") := 2%N; ("a1", "a3") := 3%N ]} |>
    <| t_free_gpus := {[ "n1" := f64_of_N 1; "n2" := f64_of_N 2; "n3" := f64_of_N 1 ]} |>.

Definition demo_pair : SetReq := mkSet "pair" [f64_one; f64_one] Rdma Mesh "".
Definition demo_one : SetReq := mkSet "one" [f64_one] AnyLink Mesh "".
Definition demo_ring : SetReq := mkSet "ring" [f64_one; f64_one; f64_one] Rdma Ring "".
Definition demo_request : Request :=
  mkRequest [demo_one; demo_pair] [mkBetween "one" "pair" AnyLink].
Definition demo_solution : Solution :=
  match solve demo_topology demo_request with Ok s => s | Err _ => mkSolution ∅ [] end.

Example demo_ring_found :
  candidates demo_topology demo_ring ∅ = [["n1"; "n2"; "n3"]; ["n1"; "n3"; "n2"]].
Proof. vm_compute. reflexivity. Qed.

Lemma demo_distinct : islands_distinct demo_topology.
Proof.
  intros i Hi. cbn in Hi. apply list_elem_of_singleton in Hi as ->. cbn.
  apply (bool_decide_unpack _). by vm_compute.
Qed.

Lemma solve_sound_witness :
  solve demo_topology demo_request = Ok demo_solution ∧
  nodes_of demo_solution "pair" = ["n1"; "n2"] ∧ nodes_of demo_solution "one" = ["n3"] ∧
  Forall2 (between_met demo_topology demo_solution) (rq_between demo_request)
    (so_between demo_solution).
Proof.
  assert (solve demo_topology demo_request = Ok demo_solution) as Hs by (vm_compute; reflexivity).
  split_and!; [done|vm_compute; reflexivity|vm_compute; reflexivity|].
  apply (solve_sound demo_topology demo_request demo_solution demo_distinct Hs).
Defined.

Lemma chain_candidates_witness :
  length (candidates demo_topology demo_ring ∅) = 2 ∧
  cabled_order demo_topology demo_ring (not_taken ∅ (bt_keys (t_free_gpus demo_topology)))
    ["n1"; "n3"; "n2"].
Proof.
  split; [vm_compute; reflexivity|].
  destruct (chain_candidates demo_topology demo_ring ∅ eq_refl) as [H _].
  apply (H ["n1"; "n3"; "n2"]). rewrite demo_ring_found. set_solver.
Defined.

Lemma mesh_candidates_complete_witness : candidates demo_topology demo_pair ∅ ≠ [].
Proof.
  apply (mesh_candidates_complete demo_topology demo_pair ∅ f64_one eq_refl).
  - intros [|[|i]] b' Hb; [by injection Hb as <-|by injection Hb as <-|discriminate Hb].
  - cbn. exists (mkIsland ["n1"; "n2"] ∅). split; [set_solver|].
    apply (bool_decide_unpack _). by vm_compute.
Defined.

(** With unequal bundles the first fit can miss: [n1] has one GPU, [n2] two,
    and a request for two and then one finds nothing. *)
Example first_fit_misses :
  candidates demo_topology (mkSet "pair" [f64_of_N 2; f64_one] Rdma Mesh "") ∅ = [] ∧
  candidates demo_topology (mkSet "pair" [f64_one; f64_of_N 2] Rdma Mesh "") ∅ = [["n1"; "n2"]].
Proof. split; vm_compute; reflexivity. Qed.

(** A pinned vendor does not restrict where a set goes. *)
Example solve_ignores_vendor :
  let t := demo_topology <| t_vendors := {[ "n1" := "nvidia"; "n2" := "amd"; "n3" := "nvidia" ]} |> in
  ∃ sol, solve t (mkRequest [mkSet "pair" [f64_one; f64_one] Rdma Mesh "nvidia"] []) = Ok sol ∧
    nodes_of sol "pair" = ["n1"; "n2"].
Proof. eexists. split; vm_compute; reflexivity. Qed.

(** A count of bundles spelled as a float is another shape than the same
    count spelled as an integer, and reads as no nodes until it has been made
    canonical. *)
Example canonical_counts_differ :
  canonical (obj_of [("bundles", Num (Float (f64_of_N 2)))]) ≠
  canonical (obj_of [("bundles", JN 2)]) ∧
  canonical (canonical (obj_of [("bundles", Num (Float (f64_of_N 2)))])) =
  canonical (obj_of [("bundles", JN 2)]).
Proof. split; [vm_compute; discriminate|vm_compute; reflexivity]. Qed.

Definition demo_twice : Request := mkRequest [demo_one; demo_one] [].
(** Two pairs on the one island: the second is left without a place. *)
Definition demo_pairs : Request := mkRequest [demo_pair; mkSet "qair" [f64_one; f64_one] Rdma Mesh ""] [].
Definition demo_refusal : string := "no assignment satisfies every set and link together".

Lemma solve_refusals_witness :
  solve demo_topology demo_twice = Err "two sets share a name" ∧
  solve demo_topology demo_pairs = Err demo_refusal ∧ ¬ assignment_exists demo_topology demo_pairs.
Proof.
  assert (solve demo_topology demo_pairs = Err demo_refusal) as He by (vm_compute; reflexivity).
  split; [vm_compute; reflexivity|]. split; [exact He|].
  destruct (solve_refusals demo_topology demo_pairs _ demo_distinct He) as [H|[(_ & _ & H)|(s & c & n & Hs & Hp & Hn & _ & _ & H)]].
  - vm_compute in H. discriminate H.
  - apply H. intros (s & tk & Hs & Ho & _).
    change (s ∈ [demo_pair; mkSet "qair" [f64_one; f64_one] Rdma Mesh ""]) in Hs.
    apply elem_of_cons in Hs as [->|Hs]; [discriminate Ho|]. apply list_elem_of_singleton in Hs as ->. discriminate Ho.
  - exfalso. change (s ∈ [demo_pair; mkSet "qair" [f64_one; f64_one] Rdma Mesh ""]) in Hs.
    assert (q_layout s = Mesh ∧ q_link s = Rdma) as [Hl Hk].
    { clear -Hs. apply elem_of_cons in Hs as [->|Hs]; [by split|]. apply list_elem_of_singleton in Hs as ->. by split. }
    destruct Hp as (_ & _ & _ & Hp). rewrite Hl in Hp. destruct (Hp Hk) as (island & Hi & Hc).
    change (island ∈ [mkIsland ["n1"; "n2"] ∅]) in Hi. apply list_elem_of_singleton in Hi as ->.
    specialize (Hc n Hn). change (n ∈ ["n1"; "n2"]) in Hc. apply elem_of_cons in Hc as [->|Hc]; [discriminate H|].
    apply list_elem_of_singleton in Hc as ->. discriminate H.
Defined.
