(* ===== verification/Placement.v ===== *)
(** * Placement (rust/mentatd/src/daemon.rs, from set_pending_reason to
    no_fit_reason)

    [try_place] runs on every state change. It places each pending group it
    can, all bundles at once, inside one scope: the nodes of a claim, the order
    of a ring or line claim, one fabric island, or the whole cluster. *)

From S2P Require Import Prelude Json Proto Addr Island State Status Claim.

(** ** Small helpers of the source *)

(** A bundle of no GPUs takes one device. *)
Definition need_of (spec : N) : nat := N.to_nat (N.max spec 1).
Definition total_need (bundles : list N) : nat := sum_nat (need_of <$> bundles).

Definition claimed_nodes (view : Value) : list string :=
  sort_dedup (entries (index "sets" view) ≫= λ '(_, members),
    omap (λ m, as_str (index "node" m)) (items members)).

(** The variables that name a ring or line rank's neighbours. *)
Definition rank_link (key : string) (p : Value) (acc : gmap string string * list string)
    : gmap string string * list string :=
  let '(env, ifaces) := acc in
  let env := match as_str (index "addr" p) with
    | Some addr => <["MENTAT_FABRIC_" +:+ key := addr]> env
    | None => env
    end in
  match as_str (index "iface" p) with
  | Some iface =>
      (<["MENTAT_FABRIC_" +:+ key +:+ "_IFACE" := iface]> env,
       if bool_decide (iface ∈ ifaces) then ifaces else ifaces ++ [iface])
  | None => (env, ifaces)
  end.
Definition rank_env (layout : Layout) (prev next : Value) : gmap string string :=
  let name := if bool_decide (layout = Ring) then "ring" else "line" in
  let '(env, ifaces) :=
    rank_link "NEXT" next (rank_link "PREV" prev ({[ "MENTAT_FABRIC_LAYOUT" := name ]}, [])) in
  if nonempty ifaces then <["MENTAT_FABRIC_IFACES" := join "," ifaces]> env else env.

Definition rotate_left {A} (i : nat) (l : list A) : list A := drop i l ++ take i l.

Abbreviation RankOrder := (list (string * gmap string string)) (only parsing).

(** A ring starts at the driver. A line is turned round when the driver is on
    its far end, and refused when the driver is inside it. *)
Definition claim_rows (view : Value) (name : string) : option (list (string * Value * Value)) :=
  match as_array (index name (index "sets" view)) with
  | None => None
  | Some ms =>
      Some ((λ m, (default "" (as_str (index "node" m)), index "prev" m, index "next" m)) <$> ms)
  end.

Fixpoint index_of (n : string) (l : list string) : option nat :=
  match l with
  | [] => None
  | x :: l' => if decide (x = n) then Some 0 else S <$> index_of n l'
  end.

Definition inside_line (claim : string) : string :=
  "claim " +:+ debug_str claim +:+
  " is a line and the driver's node is inside it. Start the driver on a node at one end of the line".

Definition orient (layout : Layout) (claim driver_node : string)
    (order : list (string * Value * Value)) : Result (list (string * Value * Value)) string :=
  let last := length order - 1 in
  match layout, index_of driver_node ((λ x, x.1.1) <$> order) with
  | Ring, Some i => Ok (rotate_left i order)
  | Line, Some i =>
      if bool_decide (i = last ∧ 0 < i) then
        Ok ((λ '(n, prev, next), (n, next, prev)) <$> reverse order)
      else if bool_decide (0 < i) then Err (inside_line claim)
      else Ok order
  | _, _ => Ok order
  end.

Definition claim_order (s : State) (group claim driver_node : string)
    : option (Result RankOrder string) :=
  c ← claims s !! (group, claim);
  req ← ok (parse (cl_shape c));
  match rq_sets req with
  | [set] =>
      if negb (ordered (q_layout set)) then None
      else
        order ← claim_rows (cl_view c) (q_name set);
        Some (let? order := orient (q_layout set) claim driver_node order in
              Ok ((λ '(n, prev, next), (n, rank_env (q_layout set) prev next)) <$> order))
  | _ => None
  end.

(** ** Fitting bundles *)

(** The inner loop of [fit]: the first agent with enough free devices gives
    its first [need]. *)
Fixpoint take_from (need : nat) (avail : list (string * list N))
    : option (string * list N * list (string * list N)) :=
  match avail with
  | [] => None
  | (id, free) :: rest =>
      if bool_decide (need ≤ length free) then
        Some (id, take need free, (id, drop need free) :: rest)
      else '(id', gpus, rest') ← take_from need rest; Some (id', gpus, (id, free) :: rest')
  end.

Definition candidate_cmp (x y : bool * N * string) : comparison :=
  lex (bool_cmp x.1.1 y.1.1) (lex (N.compare x.1.2 y.1.2) (String.compare x.2 y.2)).
Definition seq_cmp (x y : N * string) : comparison :=
  lex (N.compare x.1 y.1) (String.compare x.2 y.2).
(** [(a.1, a.0, &a.2).cmp(..)] on a scope's rank. *)
Definition scope_cmp (x y : nat * bool * list string * Island) : comparison :=
  lex (bool_cmp x.1.1.2 y.1.1.2)
    (lex (Nat.compare x.1.1.1 y.1.1.1) (strs_cmp x.1.2 y.1.2)).

Section placement.
Context `{HI : HashIter} (E : Env).

Definition group_agents (s : State) (group : string) : list AgentInfo :=
  filter (λ a, ag_alive a = true ∧ ag_group a = group) (hash_values (agents s)).

Definition fit_candidates (s : State) (group driver_node : string) (nodes : option (list string))
    : list string :=
  (λ x, x.2) <$> sort_by candidate_cmp
    ((λ a, (bool_decide (ag_node_id a ≠ driver_node), ag_seq a, ag_id a)) <$>
       filter (λ a, is_none_or nodes (λ ns, bool_decide (ag_node_id a ∈ ns)) = true)
         (group_agents s group)).

Definition node_of_agent (s : State) (id : string) : string :=
  from_option ag_node_id "" (agents s !! id).

Fixpoint fit_bundles (s : State) (bundles : list N) (avail : list (string * list N))
    : option (list (option BundleAssignment)) :=
  match bundles with
  | [] => Some []
  | spec :: rest =>
      '(id, gpus, avail') ← take_from (need_of spec) avail;
      more ← fit_bundles s rest avail';
      Some (Some (mkBundle id (node_of_agent s id) gpus ∅) :: more)
  end.

Definition fit (s : State) (group : string) (bundles : list N) (driver_node : string)
    (nodes : option (list string)) : option (list (option BundleAssignment)) :=
  fit_bundles s bundles
    ((λ id, (id, free_gpus_of s id)) <$> fit_candidates s group driver_node nodes).

(** The agents of one node of a claim's order, by registration. *)
Definition node_agents (s : State) (group node : string) : list string :=
  (λ x, x.2) <$> sort_by seq_cmp ((λ a, (ag_seq a, ag_id a)) <$>
    filter (λ a, ag_node_id a = node) (group_agents s group)).

(** [agents.find_map(..)], which fills [free] for every agent it tries. *)
Fixpoint take_on_node (s : State) (need : nat) (ids : list string) (free : gmap string (list N))
    : option (string * list N) * gmap string (list N) :=
  match ids with
  | [] => (None, free)
  | id :: rest =>
      let f := default (free_gpus_of s id) (free !! id) in
      if bool_decide (need ≤ length f) then
        (Some (id, take need f), <[id := drop need f]> free)
      else take_on_node s need rest (<[id := f]> free)
  end.

Definition no_agent_reason (group node : string) (need : nat) : string :=
  let host := default node (node_ip_of node) in
  "the claim's node " +:+ host +:+ " has no agent of group '" +:+ group +:+ "' with " +:+
  pretty need +:+ " free GPUs".

Fixpoint fit_ranks (s : State) (group : string) (ranks : list (N * (string * gmap string string)))
    (free : gmap string (list N)) : Result (list (option BundleAssignment)) string :=
  match ranks with
  | [] => Ok []
  | (spec, (node, env)) :: rest =>
      match take_on_node s (need_of spec) (node_agents s group node) free with
      | (Some (id, gpus), free') =>
          let? more := fit_ranks s group rest free' in Ok (Some (mkBundle id node gpus env) :: more)
      | (None, _) => Err (no_agent_reason group node (need_of spec))
      end
  end.

Definition fit_ordered (s : State) (group : string) (bundles : list N) (order : RankOrder)
    : Result (list (option BundleAssignment)) string :=
  if bool_decide (length bundles ≠ length order) then
    Err ("the claim orders " +:+ pretty (length order) +:+ " nodes and the group asks for " +:+
         pretty (length bundles) +:+ " bundles")
  else fit_ranks s group (zip bundles order) ∅.

(** ** Scopes *)

Definition free_in (s : State) (group : string) (nodes : list string) : nat :=
  sum_nat ((λ a, length (free_gpus_of s (ag_id a))) <$>
    filter (λ a, ag_node_id a ∈ nodes) (group_agents s group)).

Definition opted_in (s : State) (group : string) : bool :=
  island_placement (cfg E) &&
  existsb (λ a, bool_decide (ag_node_id a ∈ f_tagged (st_fabrics s))) (group_agents s group).

Definition tuple_max (x y : nat * nat) : nat * nat :=
  if bool_decide (x.1 < y.1 ∨ x.1 = y.1 ∧ x.2 ≤ y.2) then y else x.
Definition no_island_reason (s : State) (group : string) (bundles need : nat) : string :=
  let offers := omap (λ i,
    let ags := filter (λ a, ag_node_id a ∈ i_nodes i) (group_agents s group) in
    if nonempty ags then
      Some (sum_nat ((λ a, length (free_gpus_of s (ag_id a))) <$> ags), length (i_nodes i))
    else None) (f_islands (st_fabrics s)) in
  let head := pretty bundles +:+ " bundles (" +:+ pretty need +:+ " GPUs) must share one rdma fabric" in
  match offers with
  | o :: os =>
      let '(free, nodes) := foldl tuple_max o os in
      head +:+ ". The best fabric holding group '" +:+ group +:+ "' offers " +:+ pretty free +:+
      " free GPUs across " +:+ pretty nodes +:+ " nodes"
  | [] => head +:+ ", and no node holding group '" +:+ group +:+ "' is on one"
  end.

Definition no_fit_reason (s : State) (group : string) (bundles : list N) : string :=
  let free := sum_nat ((λ a, length (free_gpus_of s (ag_id a))) <$> group_agents s group) in
  pretty (length bundles) +:+ " bundles need " +:+ pretty (total_need bundles) +:+
  " GPUs and group '" +:+ group +:+ "' has " +:+ pretty free +:+ " free".

Definition unserved_reason (s : State) (group claim missing : string) : string :=
  let where_ := from_option pe_node_ip missing
    (find_first (λ p, bool_decide (pe_node_id p = missing)) (hash_values (peers s))) in
  let head := from_option (λ p, pe_node_ip p +:+ ":" +:+ pretty (pe_control_port p)) "this node"
    (find_first (λ p, bool_decide (pe_node_id p = head_node_id s)) (hash_values (peers s))) in
  "claim " +:+ debug_str claim +:+ " placed a bundle on " +:+ where_ +:+
  ", which has no agent of group " +:+ group +:+
  " registered with this daemon. The head solved the claim against the whole mesh. " +:+
  "Point the driver and every agent of the group at the head, " +:+ head.

Definition claim_scope (s : State) (group claim : string)
    : Result (list (option Island * option (list string))) string :=
  match claims s !! (group, claim) with
  | None => Err ("claim " +:+ debug_str claim +:+ " is not held here")
  | Some c =>
      let nodes := claimed_nodes (cl_view c) in
      if negb (nonempty nodes) then Err ("claim " +:+ debug_str claim +:+ " names no nodes")
      else match find_first (λ n, bool_decide (n ∉ ag_node_id <$> group_agents s group)) nodes with
      | Some missing => Err (unserved_reason s group claim missing)
      | None => Ok [(None, Some nodes)]
      end
  end.

(** The islands that can hold the group, then each node on no island that
    can hold it alone, ranked driver first, then smallest. *)
Definition island_scopes (s : State) (group : string) (bundles : list N) (driver_node : string)
    : list (nat * bool * list string * Island) :=
  let need := total_need bundles in
  let on_islands := omap (λ i,
    if bool_decide (need ≤ free_in s group (i_nodes i)) then
      Some (length (i_nodes i), bool_decide (driver_node ∉ i_nodes i), i_nodes i, i)
    else None) (f_islands (st_fabrics s)) in
  let islanded := f_islands (st_fabrics s) ≫= i_nodes in
  let lone := sort_dedup (filter (λ n, n ∉ islanded) (ag_node_id <$> group_agents s group)) in
  let on_lone := omap (λ n,
    if bool_decide (need ≤ free_in s group [n]) then
      Some (1, bool_decide (n ≠ driver_node), [n], mkIsland [n] ∅)
    else None) lone in
  sort_by scope_cmp (on_islands ++ on_lone).

Definition placement_scopes (s : State) (group : string) (bundles : list N)
    (driver_node claim : string) : Result (list (option Island * option (list string))) string :=
  if negb (str_empty claim) then claim_scope s group claim
  else if bool_decide (length bundles < 2) || negb (opted_in s group) then Ok [(None, None)]
  else match island_scopes s group bundles driver_node with
  | [] => Err (no_island_reason s group (length bundles) (total_need bundles))
  | scopes => Ok ((λ '(_, _, nodes, island),
      (if bool_decide (1 < length (i_nodes island)) then Some island else None, Some nodes)) <$> scopes)
  end.

(** What [try_place] decides for one group: a place, or why not. *)
Definition decide_place (s : State) (pg : PgInfo)
    : Result (option Island * list (option BundleAssignment)) string :=
  let group := pg_group pg in let bundles := pg_bundles pg in let claim := pg_claim pg in
  let driver_node := from_option c_node_id "" (clients s !! pg_owner pg) in
  match (if str_empty claim then None else claim_order s group claim driver_node) with
  | Some order =>
      let? o := order in let? a := fit_ordered s group bundles o in Ok (None, a)
  | None =>
      let? scopes := placement_scopes s group bundles driver_node claim in
      ok_or (find_map (λ '(island, nodes), a ← fit s group bundles driver_node nodes; Some (island, a))
               scopes)
        (no_fit_reason s group bundles)
  end.

(** ** Patches and the loop *)

Definition agent_patch (s : State) (agent_id : string) : option Patch :=
  a ← agents s !! agent_id;
  Some (patch_set ["groups"; ag_group a; "agents"; agent_id] (agent_row s a)).
Definition agent_patches (s : State) (pg_id : string) : list Patch :=
  match pgs s !! pg_id with
  | None => []
  | Some pg => omap (agent_patch s) (sort_dedup (b_agent <$> placed_bundles pg))
  end.

Definition pg_patch (s : State) (group pg_id : string) : list Patch :=
  match pgs s !! pg_id with
  | Some pg => [patch_set ["groups"; group; "placement_groups"; pg_id] (pg_row pg)]
  | None => []
  end.

Definition set_pending_reason (pg_id why : string) : SM unit :=
  ps ← get_st pgs;
  match ps !! pg_id with
  | None => skip
  | Some pg =>
      if bool_decide (pg_pending_reason pg = Some why) then skip
      else
        modify_st (λ s, s <| pgs ::= alter (λ p, p <| pg_pending_reason := Some why |>) pg_id |>) ;;
        s ← get_st id;
        emit_patch E "pg_pending" (pg_patch s (pg_group pg) pg_id) ""
  end.

Definition place_one (pg_id : string) : SM unit :=
  s ← get_st id;
  match pgs s !! pg_id with
  | None => skip
  | Some pg =>
      match decide_place s pg with
      | Err why => set_pending_reason pg_id why
      | Ok (island, assignment) =>
          modify_st (λ s, s <| pgs ::= alter (λ p, p <| pg_assignment := assignment |>
            <| pg_state := PgCreated |> <| pg_island := island |>
            <| pg_pending_reason := None |>) pg_id |>) ;;
          s ← get_st id;
          emit_patch E "pg_ready" (pg_patch s (pg_group pg) pg_id ++ agent_patches s pg_id) "" ;;
          notify_all
      end
  end.

Definition try_place : SM unit :=
  ps ← get_st pgs;
  for_each (pg_id <$> filter (λ p, pg_state p = PgPending) (hash_values ps)) place_one.
End placement.

(** ** What an assignment promises *)

(** The devices an assignment takes on one agent, in bundle order. *)
Definition takes (asg : list (option BundleAssignment)) (agent_id : string) : list N :=
  omap id asg ≫= bundle_holds agent_id.

(** One bundle on a live agent of the group, with the devices it asked for. *)
Definition bundle_ok (s : State) (group : string) (on : string → Prop) (spec : N)
    (ob : option BundleAssignment) : Prop :=
  ∃ b a, ob = Some b ∧ length (b_gpu_ids b) = need_of spec ∧ agents s !! b_agent b = Some a ∧
    ag_alive a = true ∧ ag_group a = group ∧ b_node_id b = ag_node_id a ∧ on (b_node_id b).

(** Every bundle is placed, and on each agent the bundles together take a
    prefix of its free devices: no device twice and none that is held. *)
Definition assignment_ok `{HashIter} (s : State) (group : string) (on : nat → string → Prop)
    (bundles : list N) (asg : list (option BundleAssignment)) : Prop :=
  length asg = length bundles ∧
  (∀ i spec ob, bundles !! i = Some spec → asg !! i = Some ob → bundle_ok s group (on i) spec ob) ∧
  ∀ id, takes asg id `prefix_of` free_gpus_of s id.

Lemma take_from_Some need avail id gpus avail' :
  take_from need avail = Some (id, gpus, avail') →
  ∃ l1 free l2, avail = l1 ++ (id, free) :: l2 ∧ avail' = l1 ++ (id, drop need free) :: l2 ∧
    gpus = take need free ∧ need ≤ length free ∧ Forall (λ x, length x.2 < need) l1.
Proof.
  revert id gpus avail'. induction avail as [|[i f] avail IH]; intros id gpus avail'; cbn; [done|].
  case_bool_decide as Hle.
  - intros [= <- <- <-]. exists [], f, avail. split_and!; [done..|constructor].
  - destruct (take_from need avail) as [[[i' g'] a']|]; [|done]. cbn. intros [= <- <- <-].
    destruct (IH _ _ _ eq_refl) as (l1 & free & l2 & -> & -> & -> & Hn & Hf).
    exists ((i, f) :: l1), free, l2. split_and!; [done..|]. constructor; [cbn; lia|done].
Qed.

Section fit_facts.
Context `{HI : HashIter} (s : State).

Lemma fit_bundles_take bundles avail asg :
  NoDup avail.*1 → fit_bundles s bundles avail = Some asg →
  ∀ id, takes asg id = [] ∨ ∃ free, (id, free) ∈ avail ∧ takes asg id `prefix_of` free.
Proof.
  revert avail asg. induction bundles as [|spec bundles IH]; intros avail asg Hnd; cbn [fit_bundles].
  { intros [= <-] id. by left. }
  destruct (take_from (need_of spec) avail) as [[[i gpus] avail']|] eqn:Ht; [|done]. cbn.
  destruct (fit_bundles s bundles avail') as [more|] eqn:Hf; [|done]. cbn. intros [= <-] id.
  destruct (take_from_Some _ _ _ _ _ Ht) as (l1 & free & l2 & -> & -> & -> & Hle & _).
  assert (NoDup (l1 ++ (i, drop (need_of spec) free) :: l2).*1) as Hnd'.
  { by rewrite fmap_app in *. }
  specialize (IH _ _ Hnd' Hf id). unfold takes in *. cbn. unfold bundle_holds at 1 3. cbn.
  destruct (decide (i = id)) as [->|Hne].
  - right. exists free. split; [set_solver|]. destruct IH as [->|(f & Hin & Hp)].
    + rewrite app_nil_r. exists (drop (need_of spec) free). by rewrite take_drop.
    + assert (f = drop (need_of spec) free) as ->.
      { eapply NoDup_fst_inj; [exact Hnd'|exact Hin|set_solver]. }
      destruct Hp as [k Hk]. exists k. by rewrite <-app_assoc, <-Hk, take_drop.
  - destruct IH as [->|(f & Hin & Hp)]; [by left|]. right. exists f. split; [|done].
    rewrite !elem_of_app, !elem_of_cons in *. naive_solver.
Qed.

Lemma fit_bundles_each bundles avail asg :
  fit_bundles s bundles avail = Some asg →
  Forall2 (λ spec ob, ∃ id gpus, ob = Some (mkBundle id (node_of_agent s id) gpus ∅) ∧
    length gpus = need_of spec ∧ id ∈ avail.*1) bundles asg.
Proof.
  revert avail asg. induction bundles as [|spec bundles IH]; intros avail asg; cbn [fit_bundles].
  { intros [= <-]. constructor. }
  destruct (take_from (need_of spec) avail) as [[[i gpus] avail']|] eqn:Ht; [|done]. cbn.
  destruct (fit_bundles s bundles avail') as [more|] eqn:Hf; [|done]. cbn. intros [= <-].
  destruct (take_from_Some _ _ _ _ _ Ht) as (l1 & free & l2 & -> & -> & -> & Hle & _).
  constructor.
  - exists i, (take (need_of spec) free). split_and!; [done| |].
    + rewrite length_take. lia.
    + rewrite fmap_app. set_solver.
  - specialize (IH _ _ Hf). rewrite fmap_app in *. exact IH.
Qed.

Lemma elem_of_group_agents group a :
  a ∈ group_agents s group ↔
  ag_alive a = true ∧ ag_group a = group ∧ ∃ k, agents s !! k = Some a.
Proof. unfold group_agents. rewrite list_elem_of_filter, elem_of_hash_values. tauto. Qed.

Context (Hkeyed : agents_keyed s).

Lemma group_agents_lookup group a : a ∈ group_agents s group → agents s !! ag_id a = Some a.
Proof. intros (_ & _ & k & Hk)%elem_of_group_agents. by rewrite (Hkeyed k a Hk). Qed.

Lemma hash_values_ids : ag_id <$> hash_values (agents s) = hash_keys (agents s).
Proof.
  unfold hash_values, hash_keys. rewrite <-list_fmap_compose. apply list_fmap_ext.
  intros i [k a] Hi. cbn. apply Hkeyed. apply (elem_of_hash_iter (agents s)).
  by eapply list_elem_of_lookup_2.
Qed.

Lemma group_agents_ids_NoDup group : NoDup (ag_id <$> group_agents s group).
Proof.
  eapply sublist_NoDup; [|apply fmap_sublist, sublist_filter].
  rewrite hash_values_ids. apply hash_keys_NoDup.
Qed.

Lemma fit_candidates_perm group driver nodes :
  fit_candidates s group driver nodes ≡ₚ
  ag_id <$> filter (λ a, is_none_or nodes (λ ns, bool_decide (ag_node_id a ∈ ns)) = true)
              (group_agents s group).
Proof. unfold fit_candidates. rewrite sort_by_perm. by rewrite <-list_fmap_compose. Qed.

Lemma elem_of_fit_candidates group driver nodes id :
  id ∈ fit_candidates s group driver nodes ↔
  ∃ a, agents s !! id = Some a ∧ ag_alive a = true ∧ ag_group a = group ∧
    is_none_or nodes (λ ns, bool_decide (ag_node_id a ∈ ns)) = true.
Proof.
  rewrite fit_candidates_perm, list_elem_of_fmap. setoid_rewrite list_elem_of_filter. split.
  - intros (a & -> & Hn & Hin). exists a. pose proof (group_agents_lookup group a Hin).
    apply elem_of_group_agents in Hin. naive_solver.
  - intros (a & Ha & Hal & Hg & Hn). exists a. pose proof (Hkeyed id a Ha).
    split_and!; [done..|]. apply elem_of_group_agents. naive_solver.
Qed.

Lemma fit_candidates_NoDup group driver nodes : NoDup (fit_candidates s group driver nodes).
Proof.
  rewrite fit_candidates_perm. eapply sublist_NoDup; [|apply fmap_sublist, sublist_filter].
  apply group_agents_ids_NoDup.
Qed.

Lemma fit_sound group bundles driver nodes asg :
  fit s group bundles driver nodes = Some asg →
  assignment_ok s group (λ _ n, is_none_or nodes (λ ns, bool_decide (n ∈ ns)) = true) bundles asg.
Proof.
  intros Hfit. unfold fit in Hfit. set (avail := _ <$> _) in Hfit.
  assert (avail.*1 = fit_candidates s group driver nodes) as Hfst.
  { unfold avail. rewrite <-list_fmap_compose. apply list_fmap_id. }
  pose proof (fit_bundles_each _ _ _ Hfit) as Heach. split_and!.
  - symmetry. by eapply Forall2_length.
  - intros i spec ob Hi Ho.
    destruct (Forall2_lookup_lr _ _ _ _ _ _ Heach Hi Ho) as (id & gpus & -> & Hlen & Hin).
    rewrite Hfst, elem_of_fit_candidates in Hin. destruct Hin as (a & Ha & Hal & Hg & Hn).
    exists (mkBundle id (node_of_agent s id) gpus ∅), a. unfold node_of_agent. rewrite Ha. cbn.
    by split_and!.
  - intros id. destruct (fit_bundles_take bundles avail asg) with (id := id) as [->|(f & Hin & Hp)];
      [rewrite Hfst; apply fit_candidates_NoDup|done|apply prefix_nil|].
    unfold avail in Hin. apply list_elem_of_fmap in Hin as (id' & [= -> ->] & _). done.
Qed.
End fit_facts.

Section fit_ordered_facts.
Context `{HI : HashIter} (s : State) (Hkeyed : agents_keyed s).

(** What is left of an agent's devices in the table [fit_ordered] keeps. *)
Definition left_of (free : gmap string (list N)) (id : string) : list N :=
  default (free_gpus_of s id) (free !! id).

Lemma left_of_insert free id f id' :
  left_of (<[id := f]> free) id' = if decide (id = id') then f else left_of free id'.
Proof.
  unfold left_of. destruct (decide (id = id')) as [->|Hne];
    [by rewrite lookup_insert_eq|by rewrite lookup_insert_ne].
Qed.

Lemma take_on_node_spec need ids free id gpus free' :
  take_on_node s need ids free = (Some (id, gpus), free') →
  id ∈ ids ∧ need ≤ length (left_of free id) ∧ gpus = take need (left_of free id) ∧
  ∀ j, left_of free' j = if decide (id = j) then drop need (left_of free j) else left_of free j.
Proof.
  revert free. induction ids as [|i ids IH]; intros free; cbn [take_on_node]; [done|].
  fold (left_of free i). case_bool_decide as Hle.
  - intros [= <- <- <-]. split_and!; [set_solver|done|done|]. intros j. rewrite left_of_insert.
    by destruct (decide (i = j)) as [->|].
  - intros Ht. destruct (IH _ Ht) as (Hin & Hn & -> & Hj).
    assert (∀ j, left_of (<[i := left_of free i]> free) j = left_of free j) as Hsame.
    { intros j. rewrite left_of_insert. by destruct (decide (i = j)) as [->|]. }
    rewrite Hsame in *. split_and!; [set_solver|done|done|]. intros j. by rewrite Hj, Hsame.
Qed.

Lemma elem_of_node_agents group node id :
  id ∈ node_agents s group node ↔
  ∃ a, agents s !! id = Some a ∧ ag_alive a = true ∧ ag_group a = group ∧ ag_node_id a = node.
Proof.
  unfold node_agents. rewrite sort_by_perm, <-list_fmap_compose, list_elem_of_fmap. cbn.
  setoid_rewrite list_elem_of_filter. split.
  - intros (a & -> & Hn & Hin). exists a. pose proof (group_agents_lookup s Hkeyed group a Hin).
    apply elem_of_group_agents in Hin. naive_solver.
  - intros (a & Ha & Hal & Hg & Hn). exists a. pose proof (Hkeyed id a Ha).
    split_and!; [done..|]. apply elem_of_group_agents. naive_solver.
Qed.

Lemma fit_ranks_sound group ranks free asg :
  fit_ranks s group ranks free = Ok asg →
  Forall2 (λ r ob, bundle_ok s group (λ n, n = r.2.1) r.1 ob ∧
    ∃ b, ob = Some b ∧ b_env b = r.2.2) ranks asg ∧
  ∀ id, takes asg id `prefix_of` left_of free id.
Proof.
  revert free asg. induction ranks as [|[spec [node env]] ranks IH]; intros free asg; cbn [fit_ranks].
  { intros [= <-]. split; [constructor|]. intros id. apply prefix_nil. }
  destruct (take_on_node s (need_of spec) (node_agents s group node) free) as [[[i gpus]|] free'] eqn:Ht;
    [|done].
  destruct (fit_ranks s group ranks free') as [more|] eqn:Hf; [|done]. intros [= <-].
  destruct (take_on_node_spec _ _ _ _ _ _ Ht) as (Hin & Hle & -> & Hj).
  destruct (IH _ _ Hf) as [H2 Hp]. apply elem_of_node_agents in Hin as (a & Ha & Hal & Hg & Hn).
  split.
  - constructor; [|done]. split.
    + exists (mkBundle i node (take (need_of spec) (left_of free i)) env), a. cbn.
      split_and!; try done. rewrite length_take. lia.
    + eexists. by split.
  - intros id. specialize (Hp id). rewrite Hj in Hp. unfold takes in *. cbn.
    unfold bundle_holds at 1. cbn. destruct (decide (i = id)) as [->|Hne]; [|done].
    destruct Hp as [k Hk]. exists k. by rewrite <-app_assoc, <-Hk, take_drop.
Qed.

Lemma fit_ordered_sound group bundles order asg :
  fit_ordered s group bundles order = Ok asg →
  length order = length bundles ∧
  assignment_ok s group (λ i n, order.*1 !! i = Some n) bundles asg ∧
  (∀ i n env ob, order !! i = Some (n, env) → asg !! i = Some ob →
     ∃ b, ob = Some b ∧ b_env b = env).
Proof.
  unfold fit_ordered. case_bool_decide as Hlen; [done|].
  intros Hf. assert (length bundles = length order) as Hl by lia.
  destruct (fit_ranks_sound _ _ _ _ Hf) as [H2 Hp]. split_and!; [done| |].
  - split_and!.
    + apply Forall2_length in H2. rewrite length_zip_with in H2. lia.
    + intros i spec ob Hi Ho. destruct (lookup_lt_is_Some_2 order i) as [[n env] Hn].
      { rewrite <-Hl. by eapply lookup_lt_Some. }
      assert (zip bundles order !! i = Some (spec, (n, env))) as Hz.
      { apply lookup_zip_with_Some. eauto. }
      destruct (Forall2_lookup_lr _ _ _ _ _ _ H2 Hz Ho) as [(b & a & Hb) _].
      exists b, a. cbn in Hb. rewrite list_lookup_fmap, Hn. cbn.
      destruct Hb as (H1 & H3 & H4 & H5 & H6 & H7 & H8). split_and!; try done.
      by rewrite H8.
    + exact Hp.
  - intros i n env ob Hn Ho. destruct (lookup_lt_is_Some_2 bundles i) as [spec Hi].
    { rewrite Hl. by eapply lookup_lt_Some. }
    assert (zip bundles order !! i = Some (spec, (n, env))) as Hz.
    { apply lookup_zip_with_Some. eauto. }
    by destruct (Forall2_lookup_lr _ _ _ _ _ _ H2 Hz Ho) as [_ Hb].
Qed.
End fit_ordered_facts.

(** ** Rank 0 and the driver *)

#[export] Instance candidate_cmp_ok : CmpOk candidate_cmp.
Proof.
  unfold candidate_cmp. notypeclasses refine (@lex_cmp_ok (bool * N * string)
    (λ x y, bool_cmp x.1.1 y.1.1) (λ x y, lex (N.compare x.1.2 y.1.2) (String.compare x.2 y.2)) _ _).
  - apply (key_cmp_ok (λ x : bool * N * string, x.1.1) bool_cmp).
  - notypeclasses refine (@lex_cmp_ok (bool * N * string)
      (λ x y, N.compare x.1.2 y.1.2) (λ x y, String.compare x.2 y.2) _ _).
    + apply (key_cmp_ok (λ x : bool * N * string, x.1.2) N.compare).
    + apply (key_cmp_ok (λ x : bool * N * string, x.2) String.compare).
Qed.

(** The first agent in line with room is the first of those on the driver's
    node, when one of them has room. *)
Lemma take_from_first need avail id gpus avail' :
  take_from need avail = Some (id, gpus, avail') →
  ∀ id' f', (id', f') ∈ avail → need ≤ length f' →
  ∃ l1 f l2, avail = l1 ++ (id, f) :: l2 ∧ (id', f') ∈ (id, f) :: l2.
Proof.
  intros Ht id' f' Hin Hle.
  destruct (take_from_Some _ _ _ _ _ Ht) as (l1 & f & l2 & -> & _ & _ & _ & Hf).
  exists l1, f, l2. split; [done|]. apply elem_of_app in Hin as [Hin|Hin]; [|done].
  pose proof (proj1 (list.Forall_forall _ _) Hf _ Hin) as Hlt. cbn in Hlt. lia.
Qed.

Section rank_zero.
Context `{HI : HashIter} (s : State) (Hkeyed : agents_keyed s).

Lemma fit_candidates_sorted group driver nodes l1 x l2 y :
  fit_candidates s group driver nodes = l1 ++ x :: l2 → y ∈ x :: l2 →
  node_of_agent s y = driver → node_of_agent s x = driver.
Proof.
  unfold fit_candidates. set (rows := sort_by candidate_cmp _). intros Heq Hy Hn.
  assert (StronglySorted (cmp_le candidate_cmp) rows) as Hs by apply (sort_by_sorted candidate_cmp).
  assert (∀ r, r ∈ rows → r.1.1 = bool_decide (node_of_agent s r.2 ≠ driver)) as Hr.
  { intros r Hr. unfold rows in Hr. rewrite sort_by_perm, list_elem_of_fmap in Hr.
    destruct Hr as (a & -> & [_ Ha]%list_elem_of_filter). cbn. unfold node_of_agent.
    by rewrite (group_agents_lookup s Hkeyed group a Ha). }
  apply fmap_app_inv in Heq as (r1 & r2 & -> & Hr2 & Hrows). symmetry in Hr2.
  apply fmap_cons_inv in Hr2 as (rx & r2' & -> & -> & ->).
  rewrite Hrows in Hs, Hr. apply StronglySorted_app_1_r in Hs.
  apply elem_of_cons in Hy as [->|Hy]; [done|].
  apply list_elem_of_fmap in Hy as (ry & -> & Hry).
  apply StronglySorted_inv in Hs as [_ Hall]. pose proof (proj1 (list.Forall_forall _ _) Hall ry Hry) as Hle.
  pose proof (Hr rx ltac:(set_solver)) as Hx. pose proof (Hr ry ltac:(set_solver)) as Hyb.
  rewrite bool_decide_eq_false_2 in Hyb by (intros H; by apply H).
  unfold cmp_le, candidate_cmp in Hle. rewrite Hyb in Hle.
  destruct (decide (node_of_agent s rx.2 = driver)) as [|Hne]; [done|].
  rewrite bool_decide_eq_true_2 in Hx by done. rewrite Hx in Hle. by destruct Hle.
Qed.

(** When an agent of the group on the driver's node is in scope and has
    the devices bundle 0 asks for, a placement without a chain puts bundle 0,
    which is rank 0, on the driver's node. *)
Theorem fit_rank_zero_on_driver group spec bundles driver (nodes : option (list string)) a b asg
    (Hagent : a ∈ group_agents s group) (Hnode : ag_node_id a = driver)
    (Hscope : is_none_or nodes (λ ns, bool_decide (driver ∈ ns)) = true)
    (Hroom : need_of spec ≤ length (free_gpus_of s (ag_id a)))
    (Hfit : fit s group (spec :: bundles) driver nodes = Some (Some b :: asg)) :
  b_node_id b = driver.
Proof.
  unfold fit in Hfit. cbn [fit_bundles] in Hfit. set (avail := _ <$> _) in Hfit.
  destruct (take_from (need_of spec) avail) as [[[i gpus] avail']|] eqn:Ht; [|done]. cbn in Hfit.
  destruct (fit_bundles s bundles avail') as [more|]; [|done]. injection Hfit as <- _. cbn.
  destruct (take_from_first _ _ _ _ _ Ht (ag_id a) (free_gpus_of s (ag_id a))) as (l1 & f & l2 & Heq & Hin).
  - unfold avail. apply list_elem_of_fmap. exists (ag_id a). split; [done|].
    apply elem_of_fit_candidates; [done|]. exists a.
    pose proof (group_agents_lookup s Hkeyed group a Hagent).
    apply elem_of_group_agents in Hagent. rewrite Hnode. naive_solver.
  - done.
  - assert (avail.*1 = fit_candidates s group driver nodes) as Hfst.
    { unfold avail. rewrite <-list_fmap_compose. apply list_fmap_id. }
    rewrite Heq, fmap_app in Hfst. cbn in Hfst. symmetry in Hfst.
    eapply (fit_candidates_sorted _ _ _ _ _ _ (ag_id a) Hfst).
    + apply (list_elem_of_fmap_2 fst) in Hin. exact Hin.
    + unfold node_of_agent. by rewrite (group_agents_lookup s Hkeyed group a Hagent).
Qed.
End rank_zero.

Lemma swap_links_nodes (l : list (string * Value * Value)) :
  (λ x, x.1.1) <$> ((λ '(n, prev, next), (n, next, prev)) <$> l) = (λ x, x.1.1) <$> l.
Proof. induction l as [|[[n p] q] l IH]; [done|]. cbn. by f_equal. Qed.

(** The order of a ring or line claim puts rank 0 on the driver's node
    whenever that node is in the claim: a ring is rotated, so every member
    keeps its neighbours; a line is kept or reversed with its links swapped,
    and refused when the driver is inside it. *)
Theorem orient_rank_zero layout claim driver order :
  let nodes := (λ x, x.1.1) <$> order in
  (layout = Ring → driver ∈ nodes →
   ∃ l1 l2 order', order = l1 ++ l2 ∧ orient layout claim driver order = Ok order' ∧
     order' = l2 ++ l1 ∧ head ((λ x, x.1.1) <$> order') = Some driver) ∧
  (layout = Line → driver ∈ nodes → NoDup nodes →
   match orient layout claim driver order with
   | Ok order' => head ((λ x, x.1.1) <$> order') = Some driver ∧
       (order' = order ∨ order' = (λ '(n, prev, next), (n, next, prev)) <$> reverse order)
   | Err _ => head nodes ≠ Some driver ∧ list.last nodes ≠ Some driver
   end) ∧
  (driver ∉ nodes → orient layout claim driver order = Ok order).
Proof.
  cbn zeta. set (nodes := (λ x : string * Value * Value, x.1.1) <$> order).
  assert (∀ n l, match index_of n l with
    | Some i => l !! i = Some n ∧ (∀ j, j < i → l !! j ≠ Some n) | None => n ∉ l end) as Hix.
  { intros n l. induction l as [|x l IH]; [set_solver|]. cbn. case_decide as Hx.
    - split; [by subst|lia].
    - destruct (index_of n l) as [i|]; [|set_solver]. destruct IH as [Hi Hm]. split; [done|].
      intros [|j] Hj; [cbn; congruence|]. apply Hm. lia. }
  specialize (Hix driver nodes). unfold orient. fold nodes.
  assert (length nodes = length order) as Hlen by apply length_fmap.
  split_and!.
  - intros -> Hin. destruct (index_of driver nodes) as [i|]; [|done]. destruct Hix as [Hi _].
    exists (take i order), (drop i order), (rotate_left i order). unfold rotate_left.
    split_and!; [by rewrite take_drop|done|done|].
    rewrite fmap_app, fmap_drop. fold nodes. rewrite (drop_S _ _ _ Hi). done.
  - intros -> Hin Hnd. destruct (index_of driver nodes) as [i|]; [|done]. destruct Hix as [Hi _].
    pose proof (lookup_lt_Some _ _ _ Hi) as Hlt.
    case_bool_decide as Hlast; [|case_bool_decide as H0].
    + split; [|by right]. destruct Hlast as [-> _].
      rewrite (swap_links_nodes (reverse order)), fmap_reverse. fold nodes. rewrite head_reverse, last_lookup.
      by replace (pred (length nodes)) with (length order - 1) by lia.
    + rewrite head_lookup, last_lookup. split; intros Hd.
      * assert (0 = i) by (by eapply NoDup_lookup). lia.
      * assert (pred (length nodes) = i) by (by eapply NoDup_lookup). lia.
    + assert (i = 0) as -> by lia. rewrite head_lookup. by split; [|left].
  - intros Hn. destruct (index_of driver nodes) as [i|]; [|by destruct layout].
    destruct Hix as [Hi _]. destruct Hn. by eapply list_elem_of_lookup_2.
Qed.

(** ** No device is given out twice *)

(** A live actor that runs inside a placed bundle holds exactly its devices. *)
Definition shares (a : ActorInfo) (p : PgInfo) : Prop :=
  pg_state p ≠ PgRemoved ∧
  ∃ b, b ∈ placed_bundles p ∧ b_agent b = a_agent a ∧ b_gpu_ids b = a_gpu_ids a.

(** The allocation invariant: tables filed under their ids, devices listed
    once per agent, no bundle on a pending group, no device in two bundles,
    and a live actor's devices either those of one bundle or of no group, the
    same as another live actor's or apart from them. *)
Record alloc_ok (D : gset string) (s : State) : Prop := {
  al_agents : agents_keyed s;
  al_pgs : ∀ k p, pgs s !! k = Some p → pg_id p = k;
  al_devices : ∀ k a, agents s !! k = Some a → NoDup (devices a);
  al_pending : ∀ k p, pgs s !! k = Some p → pg_state p = PgPending → placed_bundles p = [];
  al_bundles : ∀ k p id, pgs s !! k = Some p → NoDup (pg_holds id p);
  al_groups : ∀ k1 k2 p1 p2 id g, pgs s !! k1 = Some p1 → pgs s !! k2 = Some p2 → k1 ≠ k2 →
    g ∈ pg_holds id p1 → g ∉ pg_holds id p2;
  al_actor_group : ∀ j k a p, actors s !! j = Some a → pgs s !! k = Some p → a_live a = true →
    j ∉ D → shares a p ∨ ∀ g, g ∈ a_gpu_ids a → g ∉ pg_holds (a_agent a) p;
  al_actors : ∀ j1 j2 a1 a2, actors s !! j1 = Some a1 → actors s !! j2 = Some a2 →
    a_live a1 = true → a_live a2 = true → a_agent a1 = a_agent a2 →
    j1 ∉ D → j2 ∉ D → a_gpu_ids a1 = a_gpu_ids a2 ∨ ∀ g, g ∈ a_gpu_ids a1 → g ∉ a_gpu_ids a2;
}.
#[global] Arguments al_agents {D} s _.
#[global] Arguments al_pgs {D} s _.
#[global] Arguments al_devices {D} s _.
#[global] Arguments al_pending {D} s _.
#[global] Arguments al_bundles {D} s _.
#[global] Arguments al_groups {D} s _.
#[global] Arguments al_actor_group {D} s _.
#[global] Arguments al_actors {D} s _.

#[export] Instance alloc_ok_stable D : Stable (alloc_ok D).
Proof. intros s s' ->. destruct s. by intros []. Qed.

Lemma alter_Some {A} (f : A → A) k (m : gmap string A) x :
  m !! k = Some x → alter f k m = <[k := f x]> m.
Proof.
  intros Hk. apply map_eq. intros j. destruct (decide (k = j)) as [<-|Hne].
  - by rewrite lookup_alter_eq, lookup_insert_eq, Hk.
  - by rewrite lookup_alter_ne, lookup_insert_ne.
Qed.

Section alloc.
Context {D : gset string}.

(** Replacing one group's row. *)
Lemma alloc_ok_pg s k p p' :
  alloc_ok D s → pgs s !! k = Some p → pg_id p' = k →
  (pg_state p' = PgPending → placed_bundles p' = []) →
  (∀ id, NoDup (pg_holds id p')) →
  (∀ id g, g ∈ pg_holds id p' → g ∈ pg_holds id p ∨ ¬ held s id g) →
  (∀ j a, actors s !! j = Some a → a_live a = true →
     j ∉ D → shares a p' ∨ ∀ g, g ∈ a_gpu_ids a → g ∉ pg_holds (a_agent a) p') →
  alloc_ok D (s <| pgs := <[k := p']> (pgs s) |>).
Proof.
  intros Hok Hk Hid Hpend Hnd Hnew Hact. pose proof Hok as []. split; cbn; try done.
  - intros k' q Hq. apply lookup_insert_Some in Hq as [[<- <-]|[_ Hq]]; auto.
  - intros k' q Hq. apply lookup_insert_Some in Hq as [[<- <-]|[_ Hq]]; eauto.
  - intros k' q id Hq. apply lookup_insert_Some in Hq as [[<- <-]|[_ Hq]]; eauto.
  - assert (∀ k' q id g, pgs s !! k' = Some q → k ≠ k' → g ∈ pg_holds id p' → g ∉ pg_holds id q) as Hd.
    { intros k' q id g Hq Hne Hg Hg'. destruct (Hnew id g Hg) as [Hin|Hh].
      - by apply (al_groups s Hok k k' p q id g).
      - apply Hh. left. eauto. }
    intros k1 k2 p1 p2 id g H1 H2 Hne Hg1 Hg2.
    apply lookup_insert_Some in H1 as [[<- <-]|[Hn1 H1]],
      H2 as [[<- <-]|[Hn2 H2]]; [done|by apply (Hd k2 p2 id g)|by apply (Hd k1 p1 id g)|].
    by apply (al_groups s Hok k1 k2 p1 p2 id g).
  - intros j k' a q Ha Hq Hlive. apply lookup_insert_Some in Hq as [[<- <-]|[_ Hq]]; eauto.
Qed.

Lemma held_actor s j a g :
  actors s !! j = Some a → a_live a = true → g ∈ a_gpu_ids a → held s (a_agent a) g.
Proof.
  intros Ha Hl Hg. right. exists j, a. split; [done|]. unfold actor_holds.
  rewrite decide_True by done. unfold a_live in Hl. by destruct (is_dead (a_state a)).
Qed.

(** An edit of a row that keeps its state and its bundles. *)
Lemma alloc_ok_pg_same s k p f :
  alloc_ok D s → pgs s !! k = Some p → pg_id (f p) = pg_id p → pg_state (f p) = pg_state p →
  pg_assignment (f p) = pg_assignment p → alloc_ok D (s <| pgs ::= alter f k |>).
Proof.
  intros Hok Hk Hid Hst Has. cbn. rewrite (alter_Some f k _ p Hk). pose proof Hok as [].
  assert (placed_bundles (f p) = placed_bundles p) as Hpb by (unfold placed_bundles; by rewrite Has).
  assert (∀ id, pg_holds id (f p) = pg_holds id p) as Hh.
  { intros id. unfold pg_holds. by rewrite Hst, Hpb. }
  apply (alloc_ok_pg s k p); try done.
  - rewrite Hid. eauto.
  - rewrite Hst, Hpb. eauto.
  - intros id. rewrite Hh. eauto.
  - intros id g. rewrite Hh. auto.
  - intros j a Ha Hl Hj. rewrite Hh. unfold shares. rewrite Hst, Hpb.
    by apply (al_actor_group s Hok j k).
Qed.

(** Placing a pending group on free devices. *)
Lemma alloc_ok_place `{HashIter} s k p p' :
  alloc_ok D s → pgs s !! k = Some p → pg_id p' = pg_id p → pg_state p' = PgCreated →
  (∀ id, takes (pg_assignment p') id `prefix_of` free_gpus_of s id) →
  alloc_ok D (s <| pgs := <[k := p']> (pgs s) |>).
Proof.
  intros Hok Hk Hid Hst Hpre. pose proof Hok as [].
  assert (∀ id, pg_holds id p' = takes (pg_assignment p') id) as Hh.
  { intros id. unfold pg_holds. rewrite decide_False by congruence. done. }
  assert (∀ id g, g ∈ pg_holds id p' → ¬ held s id g) as Hfree.
  { intros id g Hg Hheld. rewrite Hh in Hg. destruct (Hpre id) as [r Hr].
    assert (g ∈ free_gpus_of s id) as Hf by (rewrite Hr; set_solver).
    apply elem_of_free in Hf as (a & _ & _ & Hn). done. }
  apply (alloc_ok_pg s k p); try done.
  - rewrite Hid. eauto.
  - congruence.
  - intros id. rewrite Hh. destruct (Hpre id) as [r Hr].
    assert (NoDup (free_gpus_of s id)) as Hnd by (apply free_gpus_of_NoDup; intros; eauto).
    rewrite Hr in Hnd. by apply list.NoDup_app in Hnd as [? _].
  - intros id g Hg. right. by apply Hfree.
  - intros j a Ha Hl Hj. right. intros g Hg Hg'. apply (Hfree _ _ Hg'). by eapply held_actor.
Qed.

End alloc.

Section decide_facts.
Context `{HI : HashIter} (E : Env) (s : State) (Hkeyed : agents_keyed s).

Lemma claim_order_layout group claim driver o :
  claim_order s group claim driver = Some (Ok o) →
  ∃ c req set rows rows', claims s !! (group, claim) = Some c ∧
    parse (cl_shape c) = Ok req ∧ rq_sets req = [set] ∧
    ordered (q_layout set) = true ∧ claim_rows (cl_view c) (q_name set) = Some rows ∧
    orient (q_layout set) claim driver rows = Ok rows' ∧
    o = (λ '(n, prev, next), (n, rank_env (q_layout set) prev next)) <$> rows'.
Proof.
  unfold claim_order. destruct (claims s !! (group, claim)) as [c|]; [|done]. cbn.
  destruct (parse (cl_shape c)) as [[sets btw]|] eqn:Hparse; [|done]. cbn.
  destruct sets as [|set [|? ?]]; try done. destruct (ordered (q_layout set)) eqn:Ho; [|done]. cbn.
  destruct (claim_rows (cl_view c) (q_name set)) as [rows|] eqn:Hr; [|done]. cbn.
  destruct (orient (q_layout set) claim driver rows) as [rows'|] eqn:Hor; [|done].
  intros [= <-]. exists c, (mkRequest [set] btw), set, rows, rows'. by split_and!.
Qed.

(** An assignment that was decided is one that [fit] or [fit_ordered] made. *)
Lemma decide_place_ok pg island asg :
  decide_place E s pg = Ok (island, asg) →
  ∃ on, assignment_ok s (pg_group pg) on (pg_bundles pg) asg.
Proof.
  unfold decide_place. destruct (if str_empty (pg_claim pg) then None else _) as [[o|]|]; [|done|].
  - destruct (fit_ordered s (pg_group pg) (pg_bundles pg) o) as [a|] eqn:Hf; [|done].
    intros [= <- <-]. destruct (fit_ordered_sound s Hkeyed _ _ _ _ Hf) as (_ & Ha & _). eauto.
  - destruct (placement_scopes _ _ _ _ _ _) as [scopes|]; [|done].
    destruct (find_map _ scopes) as [[i a]|] eqn:Hfm; [|done]. intros [= <- <-].
    apply find_map_Some in Hfm as ([i' nodes] & _ & Hf).
    destruct (fit s (pg_group pg) (pg_bundles pg) _ nodes) as [a'|] eqn:Hfit; [|done].
    injection Hf as <- <-. apply (fit_sound s Hkeyed) in Hfit. eauto.
Qed.
End decide_facts.

Section try_place_facts.
Context `{HI : HashIter} (E : Env) {D : gset string}.

Lemma set_pending_reason_ok k why : preserves (inv (alloc_ok D)) (set_pending_reason E k why).
Proof.
  intros w Hw. unfold set_pending_reason. rewrite bind_run. cbn [get_st gets fst snd].
  destruct (pgs (st w) !! k) as [p|] eqn:Hk; [|done]. case_bool_decide; [done|].
  rewrite bind_run. apply preserves_bind; [apply preserves_get_st| |].
  { intros s. apply (preserves_emit_patch E (alloc_ok D)). }
  unfold inv. cbn. by apply (alloc_ok_pg_same _ _ p).
Qed.

Lemma place_one_ok k : preserves (inv (alloc_ok D)) (place_one E k).
Proof.
  intros w Hw. unfold place_one. rewrite bind_run. cbn [get_st gets fst snd id].
  destruct (pgs (st w) !! k) as [p|] eqn:Hk; [|done]. destruct (decide_place E (st w) p) as [[island asg]|why] eqn:Hd.
  - rewrite bind_run. apply preserves_bind; [apply preserves_get_st| |].
    { intros s. apply preserves_bind; [apply (preserves_emit_patch E (alloc_ok D))|].
      intros _. apply preserves_notify. }
    unfold inv. cbn. rewrite (alter_Some _ k _ p Hk).
    destruct (decide_place_ok E (st w) (al_agents _ Hw) p island asg Hd) as [on (_ & _ & Hpre)].
    by eapply alloc_ok_place.
  - by apply set_pending_reason_ok.
Qed.

(** Placing groups never gives a device out twice. From a state where
    no two live holders overlap, except an actor with the bundle it runs
    in, [try_place] leads to another such state, whatever the tables hold
    and in whatever order it meets the pending groups. *)
Theorem try_place_no_double_alloc w (Hok : alloc_ok D (st w)) :
  alloc_ok D (st (try_place E w).2).
Proof.
  unfold try_place. apply preserves_bind; [apply preserves_get_st| |exact Hok].
  intros ps. apply preserves_for_each. intros k _. apply place_one_ok.
Qed.
End try_place_facts.

(** ** All or nothing *)

(** What one turn of the loop does to its group: every bundle placed on a live
    agent of the group with the devices it asked for, or none and a reason. *)
Definition settled (s : State) (p p' : PgInfo) : Prop :=
  (pg_state p' = PgCreated ∧ pg_pending_reason p' = None ∧
   length (pg_assignment p') = length (pg_bundles p) ∧
   ∀ i spec ob, pg_bundles p !! i = Some spec → pg_assignment p' !! i = Some ob →
     bundle_ok s (pg_group p) (λ _, True) spec ob) ∨
  (pg_state p' = pg_state p ∧ pg_assignment p' = pg_assignment p ∧
   ∃ why, pg_pending_reason p' = Some why).

Lemma same_tables_pgs s s' : same_tables s s' → pgs s' = pgs s ∧ agents s' = agents s.
Proof. by intros ->. Qed.

Section settle.
Context `{HI : HashIter} (E : Env) {D : gset string}.

Lemma set_pending_reason_spec k why w p :
  pgs (st w) !! k = Some p →
  let w' := (set_pending_reason E k why w).2 in
  agents (st w') = agents (st w) ∧
  pgs (st w') = <[k := p <| pg_pending_reason := Some why |>]> (pgs (st w)).
Proof.
  intros Hk. cbn zeta. unfold set_pending_reason. rewrite bind_run. cbn [get_st gets fst snd].
  rewrite Hk. case_bool_decide as Hr.
  - cbn. split; [done|]. rewrite insert_id; [done|]. rewrite Hk. f_equal. destruct p. cbn in *. by rewrite Hr.
  - rewrite !bind_run. cbn [get_st gets fst snd].
    match goal with |- context [emit_patch E ?kd ?pa ?wy ?w0] =>
      destruct (same_tables_pgs _ _ (emit_patch_same_tables E kd pa wy w0)) as [-> ->] end.
    split; [done|]. cbn. by rewrite (alter_Some _ k _ p Hk).
Qed.

Lemma place_one_spec k w p :
  agents_keyed (st w) → pgs (st w) !! k = Some p →
  let w' := (place_one E k w).2 in
  agents (st w') = agents (st w) ∧
  ∃ p', pgs (st w') = <[k := p']> (pgs (st w)) ∧ settled (st w) p p'.
Proof.
  intros Hkeyed Hk. cbn zeta. unfold place_one. rewrite bind_run. cbn [get_st gets fst snd id].
  rewrite Hk. destruct (decide_place E (st w) p) as [[island asg]|why] eqn:Hd.
  - destruct (decide_place_ok E (st w) Hkeyed p island asg Hd) as [on (Hlen & Hok & _)].
    rewrite !bind_run. cbn [get_st gets fst snd].
    match goal with |- context [emit_patch E ?kd ?pa ?wy ?w0] =>
      destruct (same_tables_pgs _ _ (emit_patch_same_tables E kd pa wy w0)) as [Hp Ha] end.
    cbn in Hp, Ha |- *. rewrite Hp, Ha. split; [done|]. eexists. split; [by rewrite (alter_Some _ k _ p Hk)|].
    left. cbn. split_and!; try done. intros i spec ob Hi Ho.
    destruct (Hok i spec ob Hi Ho) as (b & a & ? & ? & ? & ? & ? & ? & _). exists b, a. by split_and!.
  - destruct (set_pending_reason_spec k why w p Hk) as [Ha Hp]. split; [done|].
    eexists. split; [exact Hp|]. right. cbn. eauto.
Qed.

Lemma bundle_ok_agents s s' group on spec ob :
  agents s' = agents s → bundle_ok s' group on spec ob → bundle_ok s group on spec ob.
Proof. intros Ha. unfold bundle_ok. by rewrite Ha. Qed.

Lemma place_list_spec ks w :
  agents_keyed (st w) → NoDup ks →
  let w' := (for_each ks (place_one E) w).2 in
  agents (st w') = agents (st w) ∧
  ∀ k p, pgs (st w) !! k = Some p → ∃ p', pgs (st w') !! k = Some p' ∧
    (k ∈ ks → settled (st w) p p') ∧ (k ∉ ks → p' = p).
Proof.
  cbn zeta. revert w. induction ks as [|k ks IH]; intros w Hkeyed Hnd.
  { split; [done|]. intros k p Hk. exists p. split_and!; [done|set_solver|done]. }
  apply list.NoDup_cons in Hnd as [Hk0 Hnd]. cbn [for_each]. rewrite bind_run.
  destruct (pgs (st w) !! k) as [p0|] eqn:Hk.
  - destruct (place_one_spec k w p0 Hkeyed Hk) as (Ha & p1 & Hp1 & Hs).
    destruct (IH (place_one E k w).2) as [Ha' Hrest]; [|done|].
    { unfold agents_keyed. by rewrite Ha. }
    split; [by rewrite Ha', Ha|]. intros k' p Hk'. destruct (decide (k = k')) as [<-|Hne].
    + destruct (Hrest k p1) as (p' & Hp' & _ & Hsame); [by rewrite Hp1, lookup_insert_eq|].
      exists p'. rewrite (Hsame Hk0). assert (p0 = p) as -> by congruence.
      split_and!; [by rewrite Hp', (Hsame Hk0)|done|set_solver].
    + destruct (Hrest k' p) as (p' & Hp' & Hin & Hout); [by rewrite Hp1, lookup_insert_ne|].
      exists p'. split_and!; [done| |set_solver]. intros [->|Hin']%elem_of_cons; [done|].
      destruct (Hin Hin') as [(H1 & H2 & H3 & H4)|H]; [|by right]. left. split_and!; try done.
      intros i spec ob Hi Ho. eapply bundle_ok_agents; [exact Ha|by eapply H4].
  - assert ((place_one E k w).2 = w) as Hw.
    { unfold place_one. rewrite bind_run. cbn [get_st gets fst snd id]. by rewrite Hk. }
    rewrite Hw. destruct (IH w Hkeyed Hnd) as [Ha Hrest]. split; [done|].
    intros k' p Hk'. destruct (Hrest k' p Hk') as (p' & Hp' & Hin & Hout). exists p'.
    split_and!; [done| |set_solver]. intros [->|?]%elem_of_cons; [congruence|auto].
Qed.

Lemma try_place_rows w k p :
  alloc_ok D (st w) → pgs (st w) !! k = Some p →
  ∃ p', pgs (st (try_place E w).2) !! k = Some p' ∧
    (pg_state p = PgPending → settled (st w) p p') ∧ (pg_state p ≠ PgPending → p' = p).
Proof.
  intros Hok Hk. unfold try_place. rewrite bind_run. cbn [get_st gets fst snd]. set (ks := _ <$> _).
  assert (∀ k p, pgs (st w) !! k = Some p → (k ∈ ks ↔ pg_state p = PgPending)) as Hks.
  { intros k' p' Hk'. unfold ks. rewrite list_elem_of_fmap. setoid_rewrite list_elem_of_filter.
    setoid_rewrite elem_of_hash_values. split.
    - intros (q & -> & Hq & j & Hj). rewrite (al_pgs _ Hok j q Hj) in Hk'. congruence.
    - intros Hp. exists p'. rewrite (al_pgs _ Hok k' p' Hk'). eauto. }
  assert (NoDup ks) as Hnd.
  { unfold ks. eapply sublist_NoDup; [|apply fmap_sublist, sublist_filter].
    assert (pg_id <$> hash_values (pgs (st w)) = hash_keys (pgs (st w))) as ->; [|apply hash_keys_NoDup].
    unfold hash_values, hash_keys. rewrite <-list_fmap_compose. apply list_fmap_ext.
    intros i [j q] Hi. cbn. apply (al_pgs _ Hok). apply (elem_of_hash_iter (pgs (st w))).
    by eapply list_elem_of_lookup_2. }
  destruct (place_list_spec ks w (al_agents _ Hok) Hnd) as [_ Hrest].
  destruct (Hrest k p Hk) as (p' & Hp' & Hin & Hout). exists p'.
  pose proof (Hks k p Hk). split_and!; [done|naive_solver..].
Qed.

(** C5: [try_place] answers for every pending group: it is now created with
    all of its bundles on live agents of its group, each with the number of
    devices it asked for, or it still has none and its row says why. Groups
    that were not pending are untouched. *)
Theorem try_place_all_or_nothing w (Hok : alloc_ok D (st w)) k p (Hk : pgs (st w) !! k = Some p) :
  ∃ p', pgs (st (try_place E w).2) !! k = Some p' ∧
    (pg_state p = PgPending → settled (st w) p p') ∧ (pg_state p ≠ PgPending → p' = p).
Proof. by apply try_place_rows. Qed.
End settle.

(** ** Where a group may go *)

Definition placed_on (asg : list (option BundleAssignment)) (nodes : list string) : Prop :=
  ∀ b, Some b ∈ asg → b_node_id b ∈ nodes.

Lemma assignment_placed_on `{HashIter} s group on bundles asg nodes :
  assignment_ok s group on bundles asg → (∀ i n, on i n → n ∈ nodes) → placed_on asg nodes.
Proof.
  intros (Hlen & Hok & _) Hon b Hb. apply list_elem_of_lookup in Hb as [i Hi].
  destruct (lookup_lt_is_Some_2 bundles i) as [spec Hs].
  { rewrite <-Hlen. by eapply lookup_lt_Some. }
  destruct (Hok i spec _ Hs Hi) as (b' & a & [= <-] & _ & _ & _ & _ & _ & Hn). by eapply Hon.
Qed.

(** Every row of a claim's view names its node, which [solve] sees to. *)
Definition view_named (view : Value) : Prop :=
  ∀ k members m, (k, members) ∈ entries (index "sets" view) → m ∈ items members →
    is_Some (as_str (index "node" m)).

Lemma elem_of_claimed_nodes view n :
  n ∈ claimed_nodes view ↔
  ∃ k members m, (k, members) ∈ entries (index "sets" view) ∧ m ∈ items members ∧
    as_str (index "node" m) = Some n.
Proof.
  unfold claimed_nodes. rewrite elem_of_sort_dedup, list_elem_of_bind. split.
  - intros ([k ms] & Hn & Hin). apply list_elem_of_omap in Hn as (m & Hm & Hn). eauto 6.
  - intros (k & ms & m & Hin & Hm & Hn). exists (k, ms). split; [|done].
    apply list_elem_of_omap. eauto.
Qed.

Lemma index_array_entries k v l :
  as_array (index k v) = Some l → (k, Arr l) ∈ entries v.
Proof.
  unfold index, get, entries. destruct v as [| | | | |m]; try done. cbn.
  unfold obj_get. destruct (find_map _ m) as [x|] eqn:Hf; [|done]. cbn.
  apply find_map_Some in Hf as ([k' v'] & Hin & Hk). case_decide; [|done]. simplify_eq.
  destruct x; try done. by intros [= ->].
Qed.

Lemma orient_nodes layout claim driver order order' :
  orient layout claim driver order = Ok order' →
  ∀ n, n ∈ (λ x, x.1.1) <$> order' → n ∈ (λ x, x.1.1) <$> order.
Proof.
  unfold orient. destruct layout; [by intros [= ->]| |]; destruct (index_of _ _) as [i|];
    try by intros [= ->].
  - intros [= <-] n. unfold rotate_left. rewrite fmap_app, !list_elem_of_fmap.
    setoid_rewrite <-(take_drop i order) at 3. set_solver.
  - case_bool_decide; [|case_bool_decide; by intros [= ->]]. intros [= <-] n.
    rewrite (swap_links_nodes (reverse order)), fmap_reverse. by rewrite elem_of_reverse.
Qed.

Section scope_facts.
Context `{HI : HashIter} (E : Env) (s : State) (Hkeyed : agents_keyed s).

Lemma scopes_fit (pg : PgInfo) driver (scopes : list (option Island * option (list string))) island asg :
  find_map (λ '(island, nodes), a ← fit s (pg_group pg) (pg_bundles pg) driver nodes; Some (island, a))
    scopes = Some (island, asg) →
  ∃ nodes, (island, nodes) ∈ scopes ∧
    fit s (pg_group pg) (pg_bundles pg) driver nodes = Some asg.
Proof.
  intros Hf. apply find_map_Some in Hf as ([i nodes] & Hin & Hf). exists nodes.
  destruct (fit s _ _ driver nodes) as [a|]; [|done]. by injection Hf as <- <-.
Qed.

Lemma opted_in_true group :
  island_placement (cfg E) = true → (∃ a, a ∈ group_agents s group ∧ ag_node_id a ∈ f_tagged (st_fabrics s)) →
  opted_in E s group = true.
Proof.
  intros Hon (a & Ha & Ht). unfold opted_in. rewrite Hon. apply existsb_exists. exists a.
  split; [by apply list_elem_of_In|by apply bool_decide_eq_true].
Qed.

(** A single bundle is on a single node. *)
Lemma few_on_one_node (pg : PgInfo) driver island asg :
  length (pg_bundles pg) < 2 →
  ok_or (find_map (λ '(island, nodes), a ← fit s (pg_group pg) (pg_bundles pg) driver nodes; Some (island, a))
      [(None : option Island, None)]) (no_fit_reason s (pg_group pg) (pg_bundles pg)) = Ok (island, asg) →
  ∃ n, placed_on asg [n] ∧ island = None.
Proof.
  intros Hfew Hf. unfold ok_or in Hf. destruct (find_map _ _) as [[i a]|] eqn:Hm; [|done]. injection Hf as -> ->.
  apply scopes_fit in Hm as (nodes & [= -> ->]%list_elem_of_singleton & Hfit).
  destruct (fit_sound s Hkeyed _ _ _ _ _ Hfit) as (Hlen & _).
  destruct asg as [|[b|] [|]]; cbn in Hlen; try lia.
  - exists "". split; [|done]. by intros b ?%elem_of_nil.
  - exists (b_node_id b). split; [|done]. intros b' [= ->]%list_elem_of_singleton. by apply list_elem_of_singleton.
  - exists "". split; [|done]. by intros b' ?%list_elem_of_singleton.
Qed.

(** C6: with MENTAT_ISLAND_PLACEMENT on and an agent of the group on a tagged
    fabric, a placement group that names no claim goes inside one island, whose
    addresses it is given, or onto a single node, and never across two. A group
    under a claim follows the claim's nodes instead ([claim_fence]), and with
    the setting off, or no agent on a tagged fabric, bundles go wherever
    devices are free ([free_for_all]). *)
Theorem placement_one_fabric pg island asg
    (Hclaim : pg_claim pg = "") (Hsetting : island_placement (cfg E) = true)
    (Htagged : ∃ a, a ∈ group_agents s (pg_group pg) ∧ ag_node_id a ∈ f_tagged (st_fabrics s))
    (Hplaced : decide_place E s pg = Ok (island, asg)) :
  (∃ i, i ∈ f_islands (st_fabrics s) ∧ placed_on asg (i_nodes i) ∧
     (1 < length (i_nodes i) → island = Some i)) ∨
  (∃ n, placed_on asg [n] ∧ island = None).
Proof.
  unfold decide_place in Hplaced. rewrite Hclaim in Hplaced. change (str_empty "") with true in Hplaced.
  cbv iota in Hplaced. unfold placement_scopes in Hplaced.
  change (negb (str_empty "")) with false in Hplaced. cbv iota in Hplaced.
  rewrite (opted_in_true _ Hsetting Htagged), orb_false_r in Hplaced. case_bool_decide as Hfew.
  { right. by eapply few_on_one_node. }
  set (driver := from_option c_node_id "" _) in Hplaced.
  assert (∀ x, x ∈ island_scopes s (pg_group pg) (pg_bundles pg) driver →
    (x.2 ∈ f_islands (st_fabrics s) ∧ x.1.2 = i_nodes x.2) ∨ ∃ n, x.2 = mkIsland [n] ∅ ∧ x.1.2 = [n])
    as Hscopes.
  { intros x. unfold island_scopes. rewrite elem_of_sort_by, elem_of_app, !list_elem_of_omap.
    intros [(i & Hi & Hx)|(n & Hn & Hx)]; case_bool_decide; simplify_eq; [by left|by eauto]. }
  destruct (island_scopes s (pg_group pg) (pg_bundles pg) driver) as [|sc scs] eqn:Heq; [done|].
  destruct (find_map _ _) as [[i a]|] eqn:Hf; [|done]. injection Hplaced as -> ->.
  apply scopes_fit in Hf as (nodes & Hin & Hfit). apply list_elem_of_fmap in Hin as ([[[len far] ns] isl] & Hx & Hin).
  injection Hx as -> ->. apply (fit_sound s Hkeyed) in Hfit.
  assert (placed_on asg ns) as Hon.
  { eapply assignment_placed_on; [exact Hfit|]. intros ? n Hn. by apply bool_decide_eq_true in Hn. }
  destruct (Hscopes _ Hin) as [[Hi Hns]|(n & Hi & Hns)]; cbn in *; subst.
  - left. exists isl. split_and!; [done..|]. intros Hl. by rewrite bool_decide_eq_true_2.
  - right. exists n. done.
Qed.

(** C7: a group placed under a claim goes only onto the claim's nodes, and
    is not placed at all when the claim is not held. *)
Theorem claim_fence pg island asg (Hclaim : pg_claim pg ≠ "")
    (Hnamed : ∀ c, claims s !! (pg_group pg, pg_claim pg) = Some c → view_named (cl_view c))
    (Hplaced : decide_place E s pg = Ok (island, asg)) :
  ∃ c, claims s !! (pg_group pg, pg_claim pg) = Some c ∧ placed_on asg (claimed_nodes (cl_view c)).
Proof.
  unfold decide_place in Hplaced. unfold str_empty in Hplaced at 1.
  rewrite bool_decide_eq_false_2 in Hplaced by done.
  set (driver := from_option c_node_id "" _) in Hplaced.
  destruct (claim_order s (pg_group pg) (pg_claim pg) driver) as [[o|]|] eqn:Ho; [|done|].
  - destruct (fit_ordered s _ _ o) as [a|] eqn:Hf; [|done]. injection Hplaced as <- <-.
    destruct (claim_order_layout s _ _ _ _ Ho) as (c & req & set & rows & rows' & Hc & _ & _ & _ & Hr & Hor & ->).
    exists c. split; [done|]. destruct (fit_ordered_sound s Hkeyed _ _ _ _ Hf) as (_ & Ha & _).
    eapply assignment_placed_on; [exact Ha|]. intros i n Hn. cbn in Hn.
    assert (n ∈ (λ x : string * Value * Value, x.1.1) <$> rows') as Hin.
    { apply list_elem_of_lookup. exists i. rewrite <-Hn, <-list_fmap_compose. f_equal.
      apply list_fmap_ext. by intros ? [[? ?] ?] _. }
    apply (orient_nodes _ _ _ _ _ Hor) in Hin. unfold claim_rows in Hr.
    destruct (as_array (index (q_name set) (index "sets" (cl_view c)))) as [ms|] eqn:Hms; [|done].
    injection Hr as <-. rewrite <-list_fmap_compose, list_elem_of_fmap in Hin.
    destruct Hin as (m & -> & Hm). apply index_array_entries in Hms.
    apply elem_of_claimed_nodes. exists (q_name set), (Arr ms), m. split_and!; [done..|]. cbn.
    by destruct (Hnamed c Hc _ _ m Hms Hm) as [x ->].
  - unfold placement_scopes in Hplaced. unfold str_empty in Hplaced at 1.
    rewrite bool_decide_eq_false_2 in Hplaced by done. cbn [negb] in Hplaced. unfold claim_scope in Hplaced.
    destruct (claims s !! (pg_group pg, pg_claim pg)) as [c|]; [|done]. exists c. split; [done|].
    destruct (nonempty (claimed_nodes (cl_view c))); [|done]. cbn [negb] in Hplaced.
    destruct (find_first _ _); [done|].
    destruct (find_map _ _) as [[i a]|] eqn:Hf; [|done]. injection Hplaced as -> ->.
    apply scopes_fit in Hf as (nodes & Hin & Hfit). apply list_elem_of_singleton in Hin as [= -> ->].
    apply (fit_sound s Hkeyed) in Hfit. eapply assignment_placed_on; [exact Hfit|].
    intros ? n Hn. by apply bool_decide_eq_true in Hn.
Qed.
End scope_facts.

(** ** A concrete cluster

    Two nodes on one island, an agent on each, a driver on the second and a
    group of two bundles waiting. *)

Definition demo_host : Host := mkHost ["10.0.0.1"] ["10.0.0.1"] ∅ ∅ ∅.
Definition demo_env : Env := mkEnv 1000 cfg_default demo_host (λ _, None) (λ _, true) "ab".
Definition demo_waiting : PgInfo :=
  mkPg "p:2" "g" "c:1" [1; 1]%N "PACK" [] PgPending 0 None "" None None None.
Definition demo_island : Island := mkIsland ["n1"; "n2"] {[ "n1" := "f1"; "n2" := "f2" ]}.
Definition demo_cluster : State :=
  (state_new "10.0.0.1" "h" "10.0.0.1:6379" "b")
    <| agents := {[ "a1" := demo_agent "a1" "n1" [demo_gpu 0; demo_gpu 1] true;
                    "a2" := demo_agent "a2" "n2" [demo_gpu 0] true ]} |>
    <| st_fabrics := mkFabrics [demo_island] {[ "n1"; "n2" ]} |>
    <| clients := {[ "c:1" := mkClient "c:1" "g" "driver" "n2" true ]} |>
    <| pgs := {[ "p:2" := demo_waiting ]} |>.
Definition demo_world : World := mkWorld demo_cluster [].

Lemma demo_cluster_agents k a :
  agents demo_cluster !! k = Some a →
  a = demo_agent "a1" "n1" [demo_gpu 0; demo_gpu 1] true ∧ k = "a1" ∨
  a = demo_agent "a2" "n2" [demo_gpu 0] true ∧ k = "a2".
Proof.
  unfold demo_cluster. cbn [agents update_with].
  intros [[<- <-]|[_ Hk]]%lookup_insert_Some; [by left|].
  apply lookup_singleton_Some in Hk as [<- <-]. by right.
Qed.

Lemma demo_cluster_keyed : agents_keyed demo_cluster.
Proof. by intros k a [[-> ->]|[-> ->]]%demo_cluster_agents. Qed.

Lemma demo_cluster_ok : alloc_ok ∅ demo_cluster.
Proof.
  assert (∀ k p, pgs demo_cluster !! k = Some p → k = "p:2" ∧ p = demo_waiting) as Hp.
  { intros k p Hk. change (({[ "p:2" := demo_waiting ]} : gmap string PgInfo) !! k = Some p) in Hk.
    by apply lookup_singleton_Some in Hk as [<- <-]. }
  split.
  - apply demo_cluster_keyed.
  - by intros k p [-> ->]%Hp.
  - intros k a [[-> ->]|[-> ->]]%demo_cluster_agents; apply (bool_decide_unpack _); by vm_compute.
  - by intros k p [-> ->]%Hp.
  - intros k p id [-> ->]%Hp. constructor.
  - intros k1 k2 p1 p2 id g [-> ->]%Hp [-> ->]%Hp. done.
  - intros j k a p Ha. change ((∅ : gmap string ActorInfo) !! j = Some a) in Ha.
    by rewrite lookup_empty in Ha.
  - intros j1 j2 a1 a2 Ha. change ((∅ : gmap string ActorInfo) !! j1 = Some a1) in Ha.
    by rewrite lookup_empty in Ha.
Qed.

Lemma try_place_no_double_alloc_witness :
  alloc_ok ∅ demo_cluster ∧ alloc_ok ∅ (st (@try_place in_key_order demo_env demo_world).2).
Proof.
  split; [apply demo_cluster_ok|].
  apply (@try_place_no_double_alloc in_key_order demo_env ∅ demo_world demo_cluster_ok).
Defined.

Lemma try_place_all_or_nothing_witness :
  pgs demo_cluster !! "p:2" = Some demo_waiting ∧
  ∃ p', pgs (st (@try_place in_key_order demo_env demo_world).2) !! "p:2" = Some p' ∧
    settled demo_cluster demo_waiting p'.
Proof.
  assert (pgs demo_cluster !! "p:2" = Some demo_waiting) as Hk by (vm_compute; reflexivity).
  split; [exact Hk|].
  destruct (@try_place_all_or_nothing in_key_order demo_env ∅ demo_world demo_cluster_ok
    "p:2" demo_waiting Hk) as (p' & Hp & Hs & _).
  exists p'. split; [exact Hp|]. by apply Hs.
Defined.

(** The island is chosen, and rank 0 goes to the driver's node. *)
Definition demo_place : option (option Island * list (option BundleAssignment)) :=
  match @decide_place in_key_order demo_env demo_cluster demo_waiting with
  | Ok x => Some x | Err _ => None end.
Example demo_placed :
  demo_place = Some (Some demo_island,
    [Some (mkBundle "a2" "n2" [0]%N ∅); Some (mkBundle "a1" "n1" [0]%N ∅)]).
Proof. vm_compute. reflexivity. Qed.

Lemma demo_decided :
  @decide_place in_key_order demo_env demo_cluster demo_waiting = Ok (Some demo_island,
    [Some (mkBundle "a2" "n2" [0]%N ∅); Some (mkBundle "a1" "n1" [0]%N ∅)]).
Proof. vm_compute. reflexivity. Qed.

Lemma placement_one_fabric_witness :
  let asg := [Some (mkBundle "a2" "n2" [0]%N ∅); Some (mkBundle "a1" "n1" [0]%N ∅)] in
  (∃ i, i ∈ f_islands (st_fabrics demo_cluster) ∧ placed_on asg (i_nodes i) ∧
     (1 < length (i_nodes i) → Some demo_island = Some i)) ∨
  (∃ n, placed_on asg [n] ∧ Some demo_island = None).
Proof.
  cbn zeta. apply (@placement_one_fabric in_key_order demo_env demo_cluster demo_cluster_keyed
    demo_waiting (Some demo_island)).
  - reflexivity.
  - reflexivity.
  - exists (demo_agent "a2" "n2" [demo_gpu 0] true). split; [|apply (bool_decide_unpack _); by vm_compute].
    apply elem_of_group_agents. split_and!; [done|done|]. exists "a2". vm_compute. reflexivity.
  - exact demo_decided.
Defined.

(** With the setting off a group is placed across two nodes of no island. *)
Example free_for_all :
  @decide_place in_key_order
    (mkEnv 1000 (mkCfg 600000 30000 60000 600000 30000 60000 5000 20000 false 5000 15000 0)
      demo_host (λ _, None) (λ _, true) "ab")
    (demo_cluster <| st_fabrics := mkFabrics [] {[ "n1"; "n2" ]} |>) demo_waiting =
  Ok (None, [Some (mkBundle "a2" "n2" [0]%N ∅); Some (mkBundle "a1" "n1" [0]%N ∅)]).
Proof. vm_compute. reflexivity. Qed.

Lemma fit_rank_zero_on_driver_witness :
  b_node_id (mkBundle "a2" "n2" [0]%N ∅) = "n2".
Proof.
  apply (@fit_rank_zero_on_driver in_key_order demo_cluster demo_cluster_keyed "g" 1%N [1%N] "n2"
    (Some ["n1"; "n2"]) (demo_agent "a2" "n2" [demo_gpu 0] true) (mkBundle "a2" "n2" [0]%N ∅)
    [Some (mkBundle "a1" "n1" [0]%N ∅)]).
  - apply elem_of_group_agents. split_and!; [done|done|]. exists "a2". vm_compute. reflexivity.
  - reflexivity.
  - vm_compute. reflexivity.
  - apply (bool_decide_unpack _). by vm_compute.
  - vm_compute. reflexivity.
Defined.

Definition demo_view : Value :=
  obj_of [("sets", obj_of [("tp", Arr [obj_of [("node", Str "n1")]; obj_of [("node", Str "n2")]])])].
Definition demo_claimed : State :=
  demo_cluster <| claims := {[ ("g", "tp") := mkClaim Null demo_view 1 {[ "c:1" ]} ]} |>.
Definition demo_claimant : PgInfo := demo_waiting <| pg_claim := "tp" |>.

Lemma demo_view_named : view_named demo_view.
Proof.
  intros k ms m Hin Hm. cbn in Hin. apply list_elem_of_singleton in Hin as [= -> ->].
  cbn in Hm. rewrite !elem_of_cons in Hm. destruct Hm as [->|[->|Hm]]; [by eexists..|set_solver].
Qed.

Lemma claim_fence_witness :
  ∃ c, claims demo_claimed !! ("g", "tp") = Some c ∧
    placed_on [Some (mkBundle "a2" "n2" [0]%N ∅); Some (mkBundle "a1" "n1" [0]%N ∅)]
      (claimed_nodes (cl_view c)).
Proof.
  apply (@claim_fence in_key_order demo_env demo_claimed demo_cluster_keyed demo_claimant None).
  - discriminate.
  - intros c Hc. vm_compute in Hc. injection Hc as <-. apply demo_view_named.
  - vm_compute. reflexivity.
Defined.

(** A mesh claim fences the nodes and does not spread the bundles over them:
    a node with room takes every bundle. *)
Example claim_bundles_share_a_node :
  @decide_place in_key_order demo_env
    (demo_claimed <| clients := {[ "c:1" := mkClient "c:1" "g" "driver" "n1" true ]} |>) demo_claimant
  = Ok (None, [Some (mkBundle "a1" "n1" [0]%N ∅); Some (mkBundle "a1" "n1" [1]%N ∅)]).
Proof. vm_compute. reflexivity. Qed.

(** Nothing in placement reads a device's vendor: two ranks of one group may
    sit on two vendors. *)
Definition demo_mixed : State :=
  demo_cluster <| agents := {[ "a1" := demo_agent "a1" "n1" [mkGpu 0 "amd" "mi300" 192 false] true;
                               "a2" := demo_agent "a2" "n2" [demo_gpu 0] true ]} |>.
Example placement_mixes_vendors :
  @decide_place in_key_order demo_env demo_mixed demo_waiting = Ok (Some demo_island,
    [Some (mkBundle "a2" "n2" [0]%N ∅); Some (mkBundle "a1" "n1" [0]%N ∅)]).
Proof. vm_compute. reflexivity. Qed.
