(* ===== verification/Actors.v ===== *)
(** * Actors, calls and refs (rust/mentatd/src/daemon.rs)

    [create_actor], the actor call, [kill_actor], [mark_actor_dead] and the
    polls of [do_get] and [do_wait]. Each is one critical section. The
    theorems show that a death reaches every pending ref of the actor and wakes
    the waiters, that calls are never lost or reordered while an agent is away,
    and that all of them keep the allocation invariant. *)

From S2P Require Import Prelude Json Proto Addr Island State Status Claim Placement.

(** ** Refs *)

Inductive Res :=
| ResPending
| ResReady (ok : bool) (payload : bytes)
| ResActorDied (reason : string)
| ResUnknown.
#[export] Instance res_eq_dec : EqDecision Res.
Proof. solve_decision. Defined.

Definition resolve_ref (s : State) (ref_id : string) : Res :=
  if starts_with "p:" ref_id then
    match pgs s !! ref_id with
    | None => ResUnknown
    | Some pg =>
        match pg_state pg with
        | PgCreated => ResReady true []
        | PgPending => ResPending
        | PgRemoved => ResActorDied (default "placement group removed" (pg_fail_reason pg))
        end
    end
  else
    match refs s !! ref_id with
    | None => ResUnknown
    | Some r =>
        match rf_state r with
        | RefPending => ResPending
        | RefReady ok payload => ResReady ok payload
        | RefActorDied reason => ResActorDied reason
        end
    end.

Definition client_group (s : State) (client_id : string) : string :=
  from_option c_group "default" (clients s !! client_id).

(** ** Deaths, kills, spawns and calls *)

(** What the fan-out of a death does to one ref. *)
Definition fail_ref (actor_id reason : string) (r : RefInfo) : RefInfo :=
  if bool_decide (rf_actor r = Some actor_id ∧ rf_state r = RefPending)
  then r <| rf_state := RefActorDied reason |> else r.

(** The socket of an agent whose link is up. *)
Definition live_writer (s : State) (agent_id : string) : option Sock :=
  a ← agents s !! agent_id; if ag_alive a then Some (ag_writer a) else None.

Section actors.
Context `{HI : HashIter} (E : Env).

Definition unknown_ref_window (s : State) : option N :=
  since ← head_since_ms s;
  let left := saturating_sub (u64_add since (agent_dead_after_ms (cfg E))) (now_ms E) in
  if bool_decide (0 < left)%N then Some left else None.

Definition actor_patch (s : State) (group actor_id : string) : list Patch :=
  match actors s !! actor_id with
  | Some a => [patch_set ["groups"; group; "actors"; actor_id] (actor_row a)]
  | None => []
  end.

Definition fan_out (actor_id reason : string) : SM unit :=
  modify_st (λ s, s <| refs ::= fmap (fail_ref actor_id reason) |>) ;;
  try_place E ;;
  notify_all.

Definition mark_actor_dead (actor_id reason : string) : SM unit :=
  acs ← get_st actors;
  match acs !! actor_id with
  | None => fan_out actor_id reason
  | Some actor =>
      if is_dead (a_state actor) then skip
      else
        modify_st (λ s, s <| actors ::= alter (λ a, a <| a_state := Dead reason (now_ms E) |>
          <| a_queued_calls := [] |>) actor_id |>) ;;
        s ← get_st id;
        emit_patch E "actor_dead" (actor_patch s (a_group actor) actor_id ++
          option_list (agent_patch s (a_agent actor))) reason ;;
        fan_out actor_id reason
  end.

Definition kill_actor (actor_id why : string) : SM unit :=
  s ← get_st id;
  match actors s !! actor_id with
  | None => skip
  | Some actor =>
      if is_dead (a_state actor) then skip
      else match live_writer s (a_agent actor) with
      | Some w => send_ignore E w (Msg.ActorKill actor_id) 0 []
      | None => mark_actor_dead actor_id "killed while its agent was down"
      end
  end.

Definition Reply := (Msg.t * bytes)%type.
Definition err (e : string) : Reply := (Msg.error e, []).
Definition refused (code e : string) : Reply := (Msg.refused code e, []).

(** The environment a rank starts with. *)
Definition spawn_env (s : State) (pg : PgInfo) (bundle : BundleAssignment) (agent : AgentInfo)
    (actor_id : string) (env : gmap string string) : gmap string string :=
  let env := <["MENTAT_ACTOR_ID" := actor_id]> env in
  let env := <["MENTAT_NODE_ID" := b_node_id bundle]> env in
  let env := <["MENTAT_GPU_IDS" := join "," (pretty <$> b_gpu_ids bundle)]> env in
  let env := <["MENTAT_GCS_ADDRESS" := control_addr s]> env in
  let env := if str_empty (ag_node_ip agent) then env
             else <["MENTAT_NODE_IP" := ag_node_ip agent]> env in
  let env := match (i ← pg_island pg; i_addr i !! b_node_id bundle) with
    | Some ip => <["MENTAT_FABRIC_IP" := ip]> env
    | None => env
    end in
  b_env bundle ∪ env.

(** The checks of [create_actor], down to the bundle and the agent. *)
Definition spawn_target (s : State) (group name pg_id : string) (num_gpus : N) (bundle_index : nat)
    : Result (PgInfo * BundleAssignment * AgentInfo) string :=
  if existsb (λ a, bool_decide (a_group a = group ∧ a_name a = name) && a_live a)
       (hash_values (actors s)) then
    Err ("actor name '" +:+ name +:+ "' already exists in group '" +:+ group +:+ "'")
  else match pgs s !! pg_id with
  | None => Err ("no such placement group " +:+ pg_id)
  | Some pg =>
      if bool_decide (pg_state pg ≠ PgCreated) then Err ("placement group " +:+ pg_id +:+ " is not ready")
      else match pg_assignment pg !! bundle_index with
      | Some (Some bundle) =>
          if bool_decide (N.of_nat (length (b_gpu_ids bundle)) < num_gpus)%N then
            Err ("actor wants " +:+ pretty num_gpus +:+ " GPUs but bundle " +:+ pretty bundle_index +:+
                 " reserves " +:+ pretty (length (b_gpu_ids bundle)))
          else match agents s !! b_agent bundle with
          | Some agent =>
              if ag_alive agent then Ok (pg, bundle, agent)
              else Err ("agent " +:+ b_agent bundle +:+ " for bundle " +:+ pretty bundle_index +:+ " is gone")
          | None => Err ("agent " +:+ b_agent bundle +:+ " for bundle " +:+ pretty bundle_index +:+ " is gone")
          end
      | _ => Err ("bundle " +:+ pretty bundle_index +:+ " of placement group " +:+ pg_id +:+ " is not placed")
      end
  end.

Definition create_actor (client_id name : string) (num_gpus : N) (pg_id : string)
    (bundle_index : nat) (env : gmap string string) (payload : bytes) : SM Reply :=
  s ← get_st id;
  let group := client_group s client_id in
  match spawn_target s group name pg_id num_gpus bundle_index with
  | Err e => mret (err e)
  | Ok (pg, bundle, agent) =>
      let actor_id := new_actor_id (random_hex E) in
      let env := spawn_env s pg bundle agent actor_id env in
      modify_st (λ s, s <| actors ::= <[actor_id := mkActor actor_id name group (ag_id agent)
        (b_node_id bundle) (b_gpu_ids bundle) client_id Spawning None []]> |>) ;;
      bump (λ f c, c <| actors_spawned ::= f |>) ;;
      s ← get_st id;
      emit_patch E "actor_spawning" (actor_patch s group actor_id) "" ;;
      sent ← send E (ag_writer agent)
        (Msg.ActorSpawn actor_id name env (b_gpu_ids bundle) client_id) 0 payload;
      match sent with
      | Some e =>
          let why := "spawn did not reach agent " +:+ ag_id agent +:+ ": " +:+ e in
          mark_actor_dead actor_id why ;; mret (err why)
      | None => mret (Msg.ActorCreateOk actor_id (b_node_id bundle) (b_gpu_ids bundle), [])
      end
  end.

(** The [actor_call] arm of [handle_client_msg]. *)
Definition hold_call (actor_id ref_id method : string) (payload : bytes) : SM unit :=
  modify_st (λ s, s <| actors ::= alter (λ a, a <| a_queued_calls ::= λ q,
    q ++ [(ref_id, method, payload)] |>) actor_id |>).

Definition insert_ref (ref_id : string) (r : RefInfo) : SM unit :=
  modify_st (λ s, s <| refs ::= <[ref_id := r]> |>).

Definition route_call (client_id actor_id method ref_id : string) (payload : bytes)
    (actor : ActorInfo) : SM unit :=
  s ← get_st id;
  let new_ref state := mkRef state (Some actor_id) client_id method (now_ms E) false in
  match a_state actor with
  | Dead reason _ => insert_ref ref_id (new_ref (RefActorDied reason))
  | _ =>
      match live_writer s (a_agent actor) with
      | Some w =>
          insert_ref ref_id (new_ref RefPending) ;;
          sent ← send E w (Msg.ActorDispatch actor_id ref_id method) 0 payload;
          match sent with
          | Some _ => hold_call actor_id ref_id method payload
          | None => skip
          end
      | None =>
          match agents s !! a_agent actor with
          | Some _ =>
              insert_ref ref_id (new_ref RefPending) ;; hold_call actor_id ref_id method payload
          | None =>
              insert_ref ref_id (new_ref (RefActorDied
                ("agent " +:+ a_agent actor +:+ " is not registered")))
          end
      end
  end.

Definition actor_call (client_id actor_id method : string) (payload : bytes) : SM Reply :=
  bump (λ f c, c <| calls_total ::= f |>) ;;
  ref_id ← new_ref_id actor_id;
  acs ← get_st actors;
  match acs !! actor_id with
  | None => mret (err ("no such actor " +:+ actor_id))
  | Some actor =>
      route_call client_id actor_id method ref_id payload actor ;;
      notify_all ;;
      mret (Msg.ActorCallOk ref_id, [])
  end.

(** ** Waiting on refs

    One turn of the loops of [do_get] and [do_wait], under the lock: an
    answer, or [None] for another wait on the condition variable. [expired]
    is whether the deadline has passed. *)

Definition get_poll (s : State) (ref_id : string) (expired : bool) : option Reply :=
  let res := resolve_ref s ref_id in
  let unknown := bool_decide (res = ResUnknown) in
  let res := if unknown && bool_decide (is_Some (unknown_ref_window s)) then ResPending else res in
  match res with
  | ResReady ok payload => Some (Msg.RefGetOk (if ok then "ok" else "error") "", payload)
  | ResActorDied reason => Some (Msg.RefGetOk "actor_died" reason, [])
  | ResUnknown => Some (refused "unknown_ref" ("unknown ref " +:+ ref_id))
  | ResPending => if expired then Some (Msg.RefGetOk "timeout" "", []) else None
  end.

(** Whether one ref counts as ready in [do_wait]. *)
Definition wait_ready (s : State) (ref_id : string) : bool :=
  match resolve_ref s ref_id with
  | ResPending => false
  | ResUnknown => negb (bool_decide (is_Some (unknown_ref_window s)))
  | _ => true
  end.

Definition wait_poll (s : State) (ref_ids : list string) (num_returns : nat) (expired : bool)
    : option Reply :=
  let want := Nat.min num_returns (length ref_ids) in
  let ready := filter (λ r, wait_ready s r = true) ref_ids in
  if bool_decide (want ≤ length ready) then Some (Msg.RefWaitOk (take num_returns ready), [])
  else if expired then Some (Msg.RefWaitOk ready, []) else None.

(** How long [wait_for_refs] sleeps at most: until the deadline and until the
    end of the window when an unknown ref is waited on; [None] is for ever. *)
Definition wait_until (s : State) (deadline : option N) (unknown : bool) : option N :=
  let window := if unknown then unknown_ref_window s else None in
  match deadline, window with
  | Some d, Some w => Some (N.min d (now_ms E + w)%N)
  | Some d, None => Some d
  | None, Some w => Some (now_ms E + w)%N
  | None, None => None
  end.
End actors.

(** ** Frames *)

(** States equal up to the placement groups and the event stream, which is all
    that [try_place] touches. *)
Definition same_but_pgs (s s' : State) : Prop :=
  s' = s <| pgs := pgs s' |> <| next_event_seq := next_event_seq s' |>
         <| event_subs := event_subs s' |>.

#[export] Instance same_but_pgs_preorder : PreOrder same_but_pgs.
Proof.
  split.
  - by intros [].
  - intros s1 s2 s3 H12 H23. unfold same_but_pgs in *. rewrite H23, H12. by destruct s1, s3.
Qed.

Lemma same_tables_but_pgs s s' : same_tables s s' → same_but_pgs s s'.
Proof. intros ->. by destruct s. Qed.

#[export] Instance same_but_pgs_stable s0 : Stable (same_but_pgs s0).
Proof. intros s s' H1 H2. etrans; [exact H2|by apply same_tables_but_pgs]. Qed.

(** What an operation only adds to: the effects so far are kept. *)
Definition sent_before (o : list Effect) (w : World) : Prop := o `prefix_of` out w.

Section frame_facts.
Context `{HI : HashIter} (E : Env).

Lemma grows_effect o e : preserves (sent_before o) (effect e).
Proof. intros w Hw. unfold sent_before in *. cbn. by apply prefix_app_r. Qed.
Lemma grows_modify_st o f : preserves (sent_before o) (modify_st f).
Proof. by intros w Hw. Qed.
Lemma grows_get_st {A} o (f : State → A) : preserves (sent_before o) (get_st f).
Proof. by intros w Hw. Qed.
Lemma grows_send o w m r p : preserves (sent_before o) (send E w m r p).
Proof. apply preserves_bind; [apply grows_effect|]. intros _. by intros w'. Qed.
Lemma grows_send_ignore o w m r p : preserves (sent_before o) (send_ignore E w m r p).
Proof. apply preserves_bind; [apply grows_send|]. intros _. by intros w'. Qed.
Lemma grows_notify o : preserves (sent_before o) notify_all.
Proof. apply grows_effect. Qed.
Lemma grows_push_subs o ev : preserves (sent_before o) (push_subs E ev).
Proof.
  apply preserves_bind; [apply grows_get_st|]. intros subs. apply preserves_bind.
  - apply preserves_for_each. intros. apply grows_effect.
  - intros _. apply grows_modify_st.
Qed.
Lemma grows_emit o kind fields : preserves (sent_before o) (emit E kind fields).
Proof.
  apply preserves_bind; [apply grows_get_st|]. intros sq.
  apply preserves_bind; [apply grows_get_st|]. intros node.
  apply preserves_bind; [apply grows_modify_st|]. intros _.
  apply preserves_bind; [apply grows_push_subs|]. intros _.
  apply preserves_bind; [apply grows_get_st|]. intros ps.
  apply preserves_for_each. intros p _. apply preserves_when, grows_send_ignore.
Qed.
Lemma grows_emit_patch o kind patch why : preserves (sent_before o) (emit_patch E kind patch why).
Proof. apply grows_emit. Qed.

Lemma grows_place_one o k : preserves (sent_before o) (place_one E k).
Proof.
  apply preserves_bind; [apply grows_get_st|]. intros s.
  destruct (pgs s !! k) as [pg|]; [|apply preserves_skip].
  destruct (decide_place E s pg) as [[island asg]|why].
  - apply preserves_bind; [apply grows_modify_st|]. intros _.
    apply preserves_bind; [apply grows_get_st|]. intros s'.
    apply preserves_bind; [apply grows_emit_patch|]. intros _. apply grows_notify.
  - apply preserves_bind; [apply grows_get_st|]. intros ps.
    destruct (ps !! k) as [p|]; [|apply preserves_skip].
    case_bool_decide; [apply preserves_skip|].
    apply preserves_bind; [apply grows_modify_st|]. intros _.
    apply preserves_bind; [apply grows_get_st|]. intros s'. apply grows_emit_patch.
Qed.

Lemma grows_try_place o : preserves (sent_before o) (try_place E).
Proof.
  apply preserves_bind; [apply grows_get_st|]. intros ps.
  apply preserves_for_each. intros k _. apply grows_place_one.
Qed.

Lemma place_one_frame s0 k : preserves (inv (same_but_pgs s0)) (place_one E k).
Proof.
  assert (∀ f, preserves (inv (same_but_pgs s0)) (modify_st (λ s, s <| pgs ::= f |>))) as Hmod.
  { intros f. apply preserves_modify_st. intros s Hs. etrans; [exact Hs|]. by destruct s. }
  apply preserves_bind; [apply preserves_get_st|]. intros s.
  destruct (pgs s !! k) as [pg|]; [|apply preserves_skip].
  destruct (decide_place E s pg) as [[island asg]|why].
  - apply preserves_bind; [apply Hmod|]. intros _.
    apply preserves_bind; [apply preserves_get_st|]. intros s'.
    apply preserves_bind; [apply (preserves_emit_patch E _)|]. intros _. apply preserves_notify.
  - apply preserves_bind; [apply preserves_get_st|]. intros ps.
    destruct (ps !! k) as [p|]; [|apply preserves_skip].
    case_bool_decide; [apply preserves_skip|].
    apply preserves_bind; [apply Hmod|]. intros _.
    apply preserves_bind; [apply preserves_get_st|]. intros s'. apply (preserves_emit_patch E _).
Qed.

Lemma try_place_frame w : same_but_pgs (st w) (st (try_place E w).2).
Proof.
  apply (preserves_bind (inv (same_but_pgs (st w)))); [apply preserves_get_st| |].
  - intros ps. apply preserves_for_each. intros k _. apply place_one_frame.
  - unfold inv. reflexivity.
Qed.

Lemma fan_out_spec actor_id reason w :
  let w' := (fan_out E actor_id reason w).2 in
  same_but_pgs ((st w) <| refs ::= fmap (fail_ref actor_id reason) |>) (st w') ∧
  ∃ o, out w' = out w ++ o ++ [Notify].
Proof.
  cbn zeta. unfold fan_out. rewrite !bind_run.
  set (w1 := (modify_st _ w).2). split.
  - apply (try_place_frame w1).
  - pose proof (grows_try_place (out w1) w1 (reflexivity _)) as [o Ho]. exists o.
    change (out (try_place E w1).2 ++ [Notify] = out w ++ o ++ [Notify]).
    rewrite Ho. by rewrite <-app_assoc.
Qed.
Lemma mark_actor_dead_run actor_id reason w a :
  actors (st w) !! actor_id = Some a → a_live a = true →
  let w' := (mark_actor_dead E actor_id reason w).2 in
  same_but_pgs ((st w) <| actors ::= alter (λ a, a <| a_state := Dead reason (now_ms E) |>
                            <| a_queued_calls := [] |>) actor_id |>
                       <| refs ::= fmap (fail_ref actor_id reason) |>) (st w') ∧
  ∃ o, out w' = out w ++ o ++ [Notify].
Proof.
  intros Hactor Hlive. cbn zeta. unfold mark_actor_dead. rewrite bind_run. cbn [get_st gets fst snd].
  rewrite Hactor. unfold a_live in Hlive. apply negb_true_iff in Hlive. rewrite Hlive.
  rewrite !bind_run. cbn [get_st gets fst snd].
  match goal with |- context [emit_patch E _ _ _ ?w0] => set (w1 := w0) end.
  match goal with |- context [emit_patch E ?kd ?pa ?wy w1] =>
    set (w2 := (emit_patch E kd pa wy w1).2);
    pose proof (emit_patch_same_tables E kd pa wy w1 : same_tables (st w1) (st w2)) as Hst;
    destruct (grows_emit_patch (out w1) kd pa wy w1 (reflexivity _)) as [o Ho] end.
  fold w2 in Ho. clearbody w2.
  destruct (fan_out_spec actor_id reason w2) as [Hframe [o' Ho']]. cbn zeta in *.
  set (w3 := (fan_out E actor_id reason w2).2) in *. clearbody w3.
  split.
  - etrans; [|exact Hframe]. rewrite Hst. unfold same_but_pgs. subst w1. destruct w as [[] ?]. reflexivity.
  - exists (o ++ o'). rewrite Ho', Ho. by rewrite <-!app_assoc.
Qed.

(** C11: a live actor's death is final and complete. Its row is dead with the
    reason and the time and holds no calls, no other actor changes, every
    pending ref of it fails with the reason and no other ref changes, and the
    waiters are woken last. *)
Theorem mark_actor_dead_spec actor_id reason w a
    (Hactor : actors (st w) !! actor_id = Some a) (Hlive : a_live a = true) :
  let w' := (mark_actor_dead E actor_id reason w).2 in
  actors (st w') = <[actor_id := a <| a_state := Dead reason (now_ms E) |> <| a_queued_calls := [] |>]>
                     (actors (st w)) ∧
  (∀ r x, refs (st w) !! r = Some x → ∃ x', refs (st w') !! r = Some x' ∧
     (rf_actor x = Some actor_id → rf_state x = RefPending → rf_state x' = RefActorDied reason) ∧
     (rf_actor x ≠ Some actor_id ∨ rf_state x ≠ RefPending → x' = x)) ∧
  (∃ o, out w' = out w ++ o ++ [Notify]).
Proof.
  destruct (mark_actor_dead_run actor_id reason w a Hactor Hlive) as [Hframe Hout].
  cbn zeta in *. split_and!; [by rewrite Hframe; cbn; rewrite (alter_Some _ _ _ _ Hactor)| |exact Hout].
  intros r x Hr. exists (fail_ref actor_id reason x). rewrite Hframe. cbn.
  rewrite lookup_fmap, Hr. split; [done|]. unfold fail_ref.
  case_bool_decide as Hb; split; intros; try done; naive_solver.
Qed.
(** A death preserves what each of its steps does. *)
Lemma preserves_mark_dead (P : World → Prop) i why :
  preserves P (modify_st (λ s, s <| actors ::= alter (λ a, a <| a_state := Dead why (now_ms E) |>
    <| a_queued_calls := [] |>) i |>)) →
  preserves P (modify_st (λ s, s <| refs ::= fmap (fail_ref i why) |>)) →
  (∀ kind patch y, preserves P (emit_patch E kind patch y)) → preserves P (try_place E) →
  preserves P notify_all → preserves P (mark_actor_dead E i why).
Proof.
  intros Ha Hr He Hp Hn.
  assert (preserves P (fan_out E i why)) as Hfan.
  { apply preserves_bind; [exact Hr|]. intros _. apply preserves_bind; [exact Hp|]. intros _. exact Hn. }
  apply preserves_bind; [by intros w|]. intros acs. destruct (acs !! i) as [a|]; [|exact Hfan].
  destruct (is_dead (a_state a)); [apply preserves_skip|].
  apply preserves_bind; [exact Ha|]. intros _. apply preserves_bind; [by intros w|].
  intros s. apply preserves_bind; [apply He|]. intros _. exact Hfan.
Qed.

(** What a death makes of a row; a dead one stays as it is. *)
Definition bury (why : string) (a : ActorInfo) : ActorInfo :=
  if is_dead (a_state a) then a
  else a <| a_state := Dead why (now_ms E) |> <| a_queued_calls := [] |>.

Lemma mark_dead_actors i why w :
  actors (st (mark_actor_dead E i why w).2) = alter (bury why) i (actors (st w)).
Proof.
  destruct (actors (st w) !! i) as [a|] eqn:Hi.
  - destruct (a_live a) eqn:Hl; unfold a_live in Hl.
    + destruct (mark_actor_dead_run i why w a Hi Hl) as [Hf _]. cbn zeta in Hf. rewrite Hf. cbn.
      rewrite !(alter_Some _ _ _ _ Hi). unfold bury. apply negb_true_iff in Hl. by rewrite Hl.
    + apply negb_false_iff in Hl. rewrite (alter_Some _ _ _ _ Hi). unfold bury. rewrite Hl.
      unfold mark_actor_dead. rewrite bind_run. cbn [get_st gets fst snd]. rewrite Hi, Hl.
      by rewrite insert_id.
  - rewrite alter_id by (intros a Ha; congruence).
    unfold mark_actor_dead. rewrite bind_run. cbn [get_st gets fst snd]. rewrite Hi.
    destruct (fan_out_spec i why w) as [Hf _]. cbn zeta in Hf. by rewrite Hf.
Qed.

Lemma mark_dead_refs i why w :
  ∃ f, refs (st (mark_actor_dead E i why w).2) = f <$> refs (st w) ∧
    ∀ x, f x = x ∨ rf_state (f x) ≠ RefPending.
Proof.
  assert (∀ x, fail_ref i why x = x ∨ rf_state (fail_ref i why x) ≠ RefPending) as Hfail.
  { intros x. unfold fail_ref. case_bool_decide; [by right|by left]. }
  destruct (actors (st w) !! i) as [a|] eqn:Hi.
  - destruct (a_live a) eqn:Hl.
    + destruct (mark_actor_dead_run i why w a Hi Hl) as [Hf _]. cbn zeta in Hf. rewrite Hf.
      by exists (fail_ref i why).
    + exists id. split; [|by left]. unfold a_live in Hl. apply negb_false_iff in Hl.
      unfold mark_actor_dead. rewrite bind_run. cbn [get_st gets fst snd]. rewrite Hi, Hl.
      by rewrite map_fmap_id.
  - unfold mark_actor_dead. rewrite bind_run. cbn [get_st gets fst snd]. rewrite Hi.
    destruct (fan_out_spec i why w) as [Hf _]. cbn zeta in Hf. rewrite Hf. by exists (fail_ref i why).
Qed.

Lemma mark_list_actors ids why w j :
  actors (st (for_each ids (λ i, mark_actor_dead E i why) w).2) !! j =
    if decide (j ∈ ids) then bury why <$> actors (st w) !! j else actors (st w) !! j.
Proof.
  revert w. induction ids as [|i ids IH]; intros w; cbn [for_each]; [done|].
  rewrite bind_run, IH, mark_dead_actors. destruct (decide (i = j)) as [->|Hne].
  - rewrite lookup_alter_eq, (decide_True (P := j ∈ j :: ids)) by set_solver.
    destruct (decide (j ∈ ids)); [|done]. destruct (actors (st w) !! j) as [a|]; [|done]. cbn.
    f_equal. unfold bury. destruct (is_dead (a_state a)) eqn:Hd; [by rewrite Hd|done].
  - rewrite lookup_alter_ne by done.
    destruct (decide (j ∈ ids)); [rewrite decide_True by set_solver|rewrite decide_False by set_solver]; done.
Qed.

Lemma mark_list_refs ids why w :
  ∃ f, refs (st (for_each ids (λ i, mark_actor_dead E i why) w).2) = f <$> refs (st w) ∧
    ∀ x, f x = x ∨ rf_state (f x) ≠ RefPending.
Proof.
  revert w. induction ids as [|i ids IH]; intros w; cbn [for_each].
  - exists id. split; [by rewrite map_fmap_id|by left].
  - rewrite bind_run. destruct (mark_dead_refs i why w) as (f & Hf & Hff).
    destruct (IH (mark_actor_dead E i why w).2) as (g & Hg & Hgg). exists (g ∘ f).
    rewrite Hg, Hf, map_fmap_compose. split; [done|]. intros x. cbn.
    destruct (Hgg (f x)) as [->|H]; [apply Hff|by right].
Qed.
End frame_facts.

(** ** The allocation invariant *)

Section alloc.
Context {D : gset string}.

Lemma alloc_ok_frame s s' :
  agents s' = agents s → pgs s' = pgs s → actors s' = actors s → alloc_ok D s → alloc_ok D s'.
Proof.
  intros Ha Hp Hc []. split; unfold agents_keyed in *; rewrite ?Ha, ?Hp, ?Hc; eauto.
Qed.

(** Actor rows may be edited, or dropped, where agent and devices stay and no
    dead actor comes back. *)
Lemma alloc_ok_actors s m :
  alloc_ok D s →
  (∀ j a', m !! j = Some a' → ∃ a, actors s !! j = Some a ∧ a_agent a' = a_agent a ∧
     a_gpu_ids a' = a_gpu_ids a ∧ (a_live a' = true → a_live a = true)) →
  alloc_ok D (s <| actors := m |>).
Proof.
  intros Hok Hm. split; cbn; try apply Hok.
  - intros j k a' p Ha' Hp Hl. destruct (Hm j a' Ha') as (a & Ha & Hag & Hg & Hlive).
    unfold shares. rewrite Hag, Hg. apply (al_actor_group s Hok j k a p Ha Hp). auto.
  - intros j1 j2 a1' a2' H1 H2 L1 L2. destruct (Hm j1 a1' H1) as (a1 & Ha1 & -> & -> & ?).
    destruct (Hm j2 a2' H2) as (a2 & Ha2 & -> & -> & ?).
    apply (al_actors s Hok j1 j2 a1 a2); auto.
Qed.

Lemma alloc_ok_alter_actor s j f :
  alloc_ok D s →
  (∀ a, a_agent (f a) = a_agent a ∧ a_gpu_ids (f a) = a_gpu_ids a ∧
     (a_live (f a) = true → a_live a = true)) →
  alloc_ok D (s <| actors ::= alter f j |>).
Proof.
  intros Hok Hf. apply (alloc_ok_actors s (alter f j (actors s)) Hok). intros k a' Hk.
  destruct (decide (j = k)) as [<-|Hne].
  - rewrite lookup_alter_eq in Hk. apply fmap_Some in Hk as (a & Ha & ->).
    exists a. destruct (Hf a) as (? & ? & ?). by split_and!.
  - rewrite lookup_alter_ne in Hk by done. exists a'. by split_and!.
Qed.

(** Two bundles of one group on one agent hold the same devices or none in
    common. *)
Lemma bundles_apart (bs : list BundleAssignment) id b1 b2 :
  NoDup (bs ≫= bundle_holds id) → b1 ∈ bs → b2 ∈ bs → b_agent b1 = id → b_agent b2 = id →
  b_gpu_ids b1 = b_gpu_ids b2 ∨ ∀ g, g ∈ b_gpu_ids b1 → g ∉ b_gpu_ids b2.
Proof.
  induction bs as [|b bs IH]; [set_solver|]. cbn. intros Hnd H1 H2 E1 E2.
  apply list.NoDup_app in Hnd as (_ & Hd & Hnd).
  assert (∀ x, x ∈ bs → b_agent x = id → b_agent b = id → ∀ g, g ∈ b_gpu_ids b → g ∉ b_gpu_ids x) as Hx.
  { intros x Hx Ex Eb g Hg Hg'. apply (Hd g).
    - unfold bundle_holds. by rewrite decide_True.
    - apply list_elem_of_bind. exists x. unfold bundle_holds. by rewrite decide_True. }
  apply elem_of_cons in H1 as [->|H1], H2 as [->|H2]; [by left| | |by apply IH].
  - right. by apply Hx.
  - right. intros g Hg Hg'. by apply (Hx b1 H1 E1 E2 g).
Qed.

Lemma pg_holds_bundle p b g :
  pg_state p ≠ PgRemoved → b ∈ placed_bundles p → g ∈ b_gpu_ids b → g ∈ pg_holds (b_agent b) p.
Proof.
  intros Hs Hb Hg. unfold pg_holds. rewrite decide_False by done. apply list_elem_of_bind.
  exists b. unfold bundle_holds. by rewrite decide_True.
Qed.

(** An actor spawned into a placed bundle. *)
Lemma alloc_ok_spawn s k p b j a :
  alloc_ok D s → pgs s !! k = Some p → pg_state p = PgCreated → b ∈ placed_bundles p →
  a_agent a = b_agent b → a_gpu_ids a = b_gpu_ids b →
  alloc_ok D (s <| actors ::= <[j := a]> |>).
Proof.
  intros Hok Hk Hst Hb Hag Hg. split; cbn; try apply Hok.
  - intros j' k' x q Hx Hq Hl. apply lookup_insert_Some in Hx as [[<- <-]|[_ Hx]];
      [|by apply (al_actor_group s Hok j' k')].
    destruct (decide (k = k')) as [<-|Hne].
    + assert (q = p) as -> by congruence. left. split; [by rewrite Hst|]. exists b. by rewrite Hag, Hg.
    + right. rewrite Hag, Hg. intros g Hin. apply (al_groups s Hok k k' p q); try done.
      apply pg_holds_bundle; [by rewrite Hst|done|done].
  - assert (∀ j2 x, actors s !! j2 = Some x → a_live x = true → j2 ∉ D → a_agent x = a_agent a →
      a_gpu_ids x = a_gpu_ids a ∨ ∀ g, g ∈ a_gpu_ids x → g ∉ a_gpu_ids a) as Hone.
    { intros j2 x Hx Hl Hj Hax. destruct (al_actor_group s Hok j2 k x p Hx Hk Hl Hj) as [[_ (b2 & Hb2 & Ea & Eg)]|Hd].
      - rewrite <-Eg, Hg. eapply (bundles_apart (placed_bundles p) (b_agent b)); try done; [|congruence].
        pose proof (al_bundles s Hok k p (b_agent b) Hk) as Hnd. unfold pg_holds in Hnd.
        by rewrite decide_False in Hnd by congruence.
      - right. intros g Hg1 Hg2. apply (Hd g Hg1). rewrite Hax, Hag. rewrite Hg in Hg2.
        apply pg_holds_bundle; [by rewrite Hst|done|done]. }
    intros j1 j2 a1 a2 H1 H2 L1 L2 Hag12 N1 N2.
    apply lookup_insert_Some in H1 as [[<- <-]|[_ H1]], H2 as [[<- <-]|[_ H2]];
      [by left| |by apply (Hone j1)|by apply (al_actors s Hok j1 j2)].
    destruct (Hone j2 a2 H2 L2 N2 (eq_sym Hag12)) as [Heq|Hd]; [by left|].
    right. intros g Hg1 Hg2. by apply (Hd g).
Qed.

End alloc.

Section actor_alloc.
Context `{HI : HashIter} (E : Env) {D : gset string}.

Lemma try_place_ok : preserves (inv (alloc_ok D)) (try_place E).
Proof.
  apply preserves_bind; [apply preserves_get_st|]. intros ps.
  apply preserves_for_each. intros k _. apply place_one_ok.
Qed.

Lemma alloc_modify_frame f :
  (∀ s, agents (f s) = agents s ∧ pgs (f s) = pgs s ∧ actors (f s) = actors s) →
  preserves (inv (alloc_ok D)) (modify_st f).
Proof.
  intros Hf. apply preserves_modify_st. intros s Hs. destruct (Hf s) as (? & ? & ?).
  by apply (alloc_ok_frame s).
Qed.

Lemma alloc_emit kind patch why : preserves (inv (alloc_ok D)) (emit_patch E kind patch why).
Proof. apply (preserves_emit_patch E (alloc_ok D)). Qed.

Lemma fan_out_ok j reason : preserves (inv (alloc_ok D)) (fan_out E j reason).
Proof.
  apply preserves_bind; [by apply alloc_modify_frame|]. intros _.
  apply preserves_bind; [apply try_place_ok|]. intros _. apply preserves_notify.
Qed.

Lemma mark_actor_dead_ok j reason : preserves (inv (alloc_ok D)) (mark_actor_dead E j reason).
Proof.
  apply preserves_mark_dead; [| |intros; apply alloc_emit|apply try_place_ok|apply preserves_notify].
  - apply preserves_modify_st. intros s Hs. by apply alloc_ok_alter_actor.
  - by apply alloc_modify_frame.
Qed.

Lemma kill_actor_ok j why : preserves (inv (alloc_ok D)) (kill_actor E j why).
Proof.
  apply preserves_bind; [apply preserves_get_st|]. intros s.
  destruct (actors s !! j) as [a|]; [|apply preserves_skip].
  destruct (is_dead (a_state a)); [apply preserves_skip|].
  destruct (live_writer s (a_agent a)); [apply preserves_send_ignore|apply mark_actor_dead_ok].
Qed.

Lemma spawn_target_ok s group name pg_id n ix pg b ag :
  spawn_target s group name pg_id n ix = Ok (pg, b, ag) →
  pgs s !! pg_id = Some pg ∧ pg_state pg = PgCreated ∧ pg_assignment pg !! ix = Some (Some b) ∧
  (n ≤ N.of_nat (length (b_gpu_ids b)))%N ∧ agents s !! b_agent b = Some ag ∧ ag_alive ag = true.
Proof.
  unfold spawn_target. destruct (existsb _ _); [done|].
  destruct (pgs s !! pg_id) as [p|]; [|done]. case_bool_decide as Hst; [done|].
  destruct (pg_assignment p !! ix) as [[b'|]|] eqn:Hix; [|done..].
  case_bool_decide as Hn; [done|]. destruct (agents s !! b_agent b') as [a|] eqn:Ha; [|done].
  destruct (ag_alive a) eqn:Hal; [|done]. intros [= <- <- <-].
  split_and!; try done. lia.
Qed.

Lemma create_actor_ok c name n pg_id ix env payload :
  preserves (inv (alloc_ok D)) (create_actor E c name n pg_id ix env payload).
Proof.
  intros w Hw. unfold create_actor. rewrite bind_run. cbn [get_st gets fst snd id].
  destruct (spawn_target _ _ _ _ _ _) as [[[pg b] ag]|e] eqn:Ht; [|done].
  apply spawn_target_ok in Ht as (Hpg & Hst & Hix & _ & Hag & _).
  rewrite bind_run. apply preserves_bind; [by apply alloc_modify_frame| |].
  { intros _. apply preserves_bind; [apply preserves_get_st|]. intros s.
    apply preserves_bind; [apply alloc_emit|]. intros _.
    apply preserves_bind; [apply preserves_send|]. intros [e|]; [|apply preserves_ret].
    apply preserves_bind; [apply mark_actor_dead_ok|]. intros _. apply preserves_ret. }
  eapply (alloc_ok_spawn _ pg_id pg b); try done; [|by apply (al_agents _ Hw)].
  unfold placed_bundles. apply list_elem_of_omap. exists (Some b). split; [|done].
  by eapply list_elem_of_lookup_2.
Qed.

Lemma actor_call_ok c j method payload : preserves (inv (alloc_ok D)) (actor_call E c j method payload).
Proof.
  assert (∀ r x, preserves (inv (alloc_ok D)) (insert_ref r x)) as Hins.
  { intros. by apply alloc_modify_frame. }
  assert (∀ r, preserves (inv (alloc_ok D)) (hold_call j r method payload)) as Hhold.
  { intros r. apply preserves_modify_st. intros s Hs. apply alloc_ok_alter_actor; [done|].
    intros x. by split_and!. }
  apply preserves_bind; [by apply alloc_modify_frame|]. intros _.
  apply preserves_bind.
  { apply preserves_new_ref_id. intros s f Hs. by apply (alloc_ok_frame s). }
  intros r. apply preserves_bind; [apply preserves_get_st|]. intros acs.
  destruct (acs !! j) as [a|]; [|apply preserves_ret].
  apply preserves_bind.
  - apply preserves_bind; [apply preserves_get_st|]. intros s.
    destruct (a_state a); try apply Hins.
    all: destruct (live_writer s (a_agent a)) as [sk|];
      [apply preserves_bind; [apply Hins|]; intros _;
       apply preserves_bind; [apply preserves_send|]; intros [e|]; [apply Hhold|apply preserves_skip]|].
    all: destruct (agents s !! a_agent a); [|apply Hins].
    all: apply preserves_bind; [apply Hins|intros _; apply Hhold].
  - intros _. apply preserves_bind; [apply preserves_notify|]. intros _. apply preserves_ret.
Qed.
End actor_alloc.

(** ** Waiting *)

Section wait_facts.
Context (E : Env).

(** A wait answers when [min(num_returns, asked)] refs are ready or the
    deadline has passed, and not before. Its answer lists ready refs only, in
    the order asked, at most [num_returns] of them. *)
Theorem wait_poll_spec s ref_ids num_returns expired :
  let ready := filter (λ r, wait_ready E s r = true) ref_ids in
  let want := Nat.min num_returns (length ref_ids) in
  match wait_poll E s ref_ids num_returns expired with
  | Some (m, payload) => ∃ l, m = Msg.RefWaitOk l ∧ payload = [] ∧ sublist l ref_ids ∧
      Forall (λ r, wait_ready E s r = true) l ∧ length l ≤ num_returns ∧
      (length l = want ∨ expired = true ∧ l = ready ∧ length l < want)
  | None => expired = false ∧ length ready < want
  end.
Proof.
  cbn zeta. unfold wait_poll. set (ready := filter _ _).
  assert (Forall (λ r, wait_ready E s r = true) ready) as Hall.
  { apply list.Forall_forall. intros r [Hr _]%list_elem_of_filter. exact Hr. }
  assert (sublist ready ref_ids) as Hs by apply sublist_filter.
  pose proof (sublist_length _ _ Hs) as Hlen.
  case_bool_decide as Hw.
  - exists (take num_returns ready). split_and!; [done|done| | | |].
    + etrans; [apply sublist_take|done].
    + by apply Forall_take.
    + rewrite length_take. lia.
    + left. rewrite length_take. lia.
  - destruct expired; [|split; [done|lia]]. exists ready. split_and!; [done|done|done|done|lia|].
    right. split_and!; [done|done|lia].
Qed.

(** ** Lost wake-ups

    A thread blocked on a ref sleeps on the condition variable until it is
    notified. An operation wakes when every ref it unblocks comes with a
    notification. *)

Definition blocked (s : State) (r : string) : Prop := get_poll E s r false = None.

Definition wake (w w' : World) : Prop :=
  ∃ o, out w' = out w ++ o ∧ (Notify ∈ o ∨ ∀ r, blocked (st w) r → blocked (st w') r).
Definition wakes {A} (m : SM A) : Prop := ∀ w, wake w (m w).2.

#[export] Instance wake_preorder : PreOrder wake.
Proof.
  split.
  - intros w. exists []. rewrite app_nil_r. auto.
  - intros w1 w2 w3 (o1 & H1 & B1) (o2 & H2 & B2). exists (o1 ++ o2). split.
    + by rewrite H2, H1, app_assoc.
    + rewrite elem_of_app. destruct B1 as [|B1]; [tauto|]. destruct B2 as [|B2]; [tauto|auto].
Qed.

Lemma wakes_bind {A B} (m : SM A) (k : A → SM B) : wakes m → (∀ x, wakes (k x)) → wakes (m ≫= k).
Proof. intros Hm Hk w. rewrite bind_run. etrans; [apply Hm|apply Hk]. Qed.
Lemma wakes_ret {A} (x : A) : wakes (mret x).
Proof. intros w. reflexivity. Qed.
Lemma wakes_skip : wakes skip.
Proof. intros w. reflexivity. Qed.
Lemma wakes_for_each {A} (l : list A) f : (∀ x, x ∈ l → wakes (f x)) → wakes (for_each l f).
Proof.
  induction l as [|x l IH]; intros Hf; [apply wakes_skip|]. cbn.
  apply wakes_bind; [apply Hf; set_solver|]. intros _. apply IH. set_solver.
Qed.
Lemma wakes_get_st {A} (f : State → A) : wakes (get_st f).
Proof. intros w. reflexivity. Qed.
Lemma wakes_effect e : wakes (effect e).
Proof. intros w. exists [e]. split; [done|]. by right. Qed.
Lemma wakes_send w m r p : wakes (send E w m r p).
Proof. apply wakes_bind; [apply wakes_effect|]. intros _. apply wakes_ret. Qed.
Lemma wakes_send_ignore w m r p : wakes (send_ignore E w m r p).
Proof. apply wakes_bind; [apply wakes_send|]. intros _. apply wakes_ret. Qed.
Lemma wakes_notify : wakes notify_all.
Proof. apply wakes_effect. Qed.

(** An operation that notifies, whatever it changes. *)
Definition grows {A} (m : SM A) : Prop := ∀ o, preserves (sent_before o) m.
Definition notifies {A} (m : SM A) : Prop := ∀ w, ∃ o, out (m w).2 = out w ++ o ∧ Notify ∈ o.

Lemma notifies_wakes {A} (m : SM A) : notifies m → wakes m.
Proof. intros Hm w. destruct (Hm w) as (o & Ho & Hn). exists o. auto. Qed.
Lemma notifies_notify : notifies notify_all.
Proof. intros w. exists [Notify]. split; [done|set_solver]. Qed.
Lemma notifies_bind_r {A B} (m : SM A) (k : A → SM B) :
  grows m → (∀ x, notifies (k x)) → notifies (m ≫= k).
Proof.
  intros Hm Hk w. rewrite bind_run. destruct (Hm (out w) w (reflexivity _)) as [o1 H1].
  destruct (Hk (m w).1 (m w).2) as (o2 & H2 & Hn). exists (o1 ++ o2).
  split; [by rewrite H2, H1, app_assoc|set_solver].
Qed.
Lemma notifies_bind_l {A B} (m : SM A) (k : A → SM B) :
  notifies m → (∀ x, grows (k x)) → notifies (m ≫= k).
Proof.
  intros Hm Hk w. rewrite bind_run. destruct (Hm w) as (o1 & H1 & Hn).
  destruct (Hk (m w).1 (out (m w).2) (m w).2 (reflexivity _)) as [o2 H2]. exists (o1 ++ o2).
  split; [by rewrite H2, H1, app_assoc|set_solver].
Qed.

(** An edit that leaves every resolution and the head alone. *)
Lemma wakes_edit f w :
  (∀ r, resolve_ref (f (st w)) r = resolve_ref (st w) r) →
  head_since_ms (f (st w)) = head_since_ms (st w) → wake w (modify_st f w).2.
Proof.
  intros Hf Hh. exists []. rewrite app_nil_r. split; [done|]. right. intros r.
  unfold blocked, get_poll, unknown_ref_window. cbn. by rewrite Hf, Hh.
Qed.
Lemma wakes_modify f :
  (∀ s, refs (f s) = refs s ∧ pgs (f s) = pgs s ∧ head_since_ms (f s) = head_since_ms s) →
  wakes (modify_st f).
Proof.
  intros Hf w. destruct (Hf (st w)) as (H1 & H2 & H3). apply wakes_edit; [|done].
  intros r. unfold resolve_ref. by rewrite H1, H2.
Qed.
End wait_facts.

Section wake_facts.
Context `{HI : HashIter} (E : Env).

Lemma wakes_emit kind fields : wakes E (emit E kind fields).
Proof.
  apply wakes_bind; [apply wakes_get_st|]. intros sq.
  apply wakes_bind; [apply wakes_get_st|]. intros node.
  apply wakes_bind; [by apply wakes_modify|]. intros _.
  apply wakes_bind.
  { apply wakes_bind; [apply wakes_get_st|]. intros subs. apply wakes_bind.
    - apply wakes_for_each. intros x _. apply wakes_effect.
    - intros _. by apply wakes_modify. }
  intros _. apply wakes_bind; [apply wakes_get_st|]. intros ps.
  apply wakes_for_each. intros p _. unfold when. destruct (pe_alive p); [apply wakes_send_ignore|apply wakes_skip].
Qed.
Lemma wakes_emit_patch kind patch why : wakes E (emit_patch E kind patch why).
Proof. apply wakes_emit. Qed.

Lemma wakes_set_pending_reason k why : wakes E (set_pending_reason E k why).
Proof.
  intros w. unfold set_pending_reason. rewrite bind_run. cbn [get_st gets fst snd].
  destruct (pgs (st w) !! k) as [p|] eqn:Hk; [|reflexivity]. case_bool_decide; [reflexivity|].
  rewrite bind_run. etrans; [|apply wakes_bind; [apply wakes_get_st|intros s; apply wakes_emit_patch]].
  apply wakes_edit; [|done]. intros r. unfold resolve_ref. cbn.
  destruct (starts_with "p:" r); [|done]. destruct (decide (k = r)) as [<-|Hne].
  - by rewrite lookup_alter_eq, Hk.
  - by rewrite lookup_alter_ne.
Qed.

Lemma wakes_place_one k : wakes E (place_one E k).
Proof.
  apply wakes_bind; [apply wakes_get_st|]. intros s. destruct (pgs s !! k) as [pg|]; [|apply wakes_skip].
  destruct (decide_place E s pg) as [[island asg]|why]; [|apply wakes_set_pending_reason].
  apply notifies_wakes. apply notifies_bind_r; [intros o; apply grows_modify_st|]. intros _.
  apply notifies_bind_r; [intros o; apply grows_get_st|]. intros s'.
  apply notifies_bind_r; [intros o; apply grows_emit_patch|]. intros _. apply notifies_notify.
Qed.

Lemma wakes_try_place : wakes E (try_place E).
Proof.
  apply wakes_bind; [apply wakes_get_st|]. intros ps. apply wakes_for_each. intros k _.
  apply wakes_place_one.
Qed.

Lemma notifies_fan_out j reason : notifies (fan_out E j reason).
Proof.
  apply notifies_bind_r; [intros o; apply grows_modify_st|]. intros _.
  apply notifies_bind_r; [intros o; apply grows_try_place|]. intros _. apply notifies_notify.
Qed.

Lemma wakes_mark_actor_dead j reason : wakes E (mark_actor_dead E j reason).
Proof.
  apply wakes_bind; [apply wakes_get_st|]. intros acs. destruct (acs !! j) as [a|].
  - destruct (is_dead (a_state a)); [apply wakes_skip|]. apply notifies_wakes.
    apply notifies_bind_r; [intros o; apply grows_modify_st|]. intros _.
    apply notifies_bind_r; [intros o; apply grows_get_st|]. intros s.
    apply notifies_bind_r; [intros o; apply grows_emit_patch|]. intros _. apply notifies_fan_out.
  - apply notifies_wakes, notifies_fan_out.
Qed.

Lemma wakes_kill_actor j why : wakes E (kill_actor E j why).
Proof.
  apply wakes_bind; [apply wakes_get_st|]. intros s. destruct (actors s !! j) as [a|]; [|apply wakes_skip].
  destruct (is_dead (a_state a)); [apply wakes_skip|].
  destruct (live_writer s (a_agent a)); [apply wakes_send_ignore|apply wakes_mark_actor_dead].
Qed.

Lemma wakes_create_actor c name n pg_id ix env payload :
  wakes E (create_actor E c name n pg_id ix env payload).
Proof.
  apply wakes_bind; [apply wakes_get_st|]. intros s. cbv zeta.
  destruct (spawn_target _ _ _ _ _ _) as [[[pg b] ag]|e]; [|apply wakes_ret].
  apply wakes_bind; [by apply wakes_modify|]. intros _.
  apply wakes_bind; [by apply wakes_modify|]. intros _.
  apply wakes_bind; [apply wakes_get_st|]. intros s'.
  apply wakes_bind; [apply wakes_emit_patch|]. intros _.
  apply wakes_bind; [apply wakes_send|]. intros [e|]; [|apply wakes_ret].
  apply wakes_bind; [apply wakes_mark_actor_dead|]. intros _. apply wakes_ret.
Qed.

Lemma grows_route_call c j method r payload a : grows (route_call E c j method r payload a).
Proof.
  intros o. apply preserves_bind; [apply grows_get_st|]. intros s.
  destruct (a_state a); try apply grows_modify_st.
  all: destruct (live_writer s (a_agent a)) as [sk|];
    [apply preserves_bind; [apply grows_modify_st|]; intros _;
     apply preserves_bind; [apply grows_send|]; intros [e|]; [apply grows_modify_st|apply preserves_skip]|].
  all: destruct (agents s !! a_agent a); [|apply grows_modify_st].
  all: apply preserves_bind; [apply grows_modify_st|intros _; apply grows_modify_st].
Qed.

Lemma wakes_actor_call c j method payload : wakes E (actor_call E c j method payload).
Proof.
  apply wakes_bind; [by apply wakes_modify|]. intros _. apply wakes_bind.
  { apply wakes_bind; [apply wakes_get_st|]. intros r.
    apply wakes_bind; [by apply wakes_modify|]. intros _. apply wakes_ret. }
  intros r. apply wakes_bind; [apply wakes_get_st|]. intros acs.
  destruct (acs !! j) as [a|]; [|apply wakes_ret]. apply notifies_wakes.
  apply notifies_bind_r; [intros o; apply grows_route_call|]. intros _.
  apply notifies_bind_l; [apply notifies_notify|]. intros _ o. apply preserves_ret.
Qed.
End wake_facts.

(** ** What a successful spawn means *)

Section spawn_facts.
Context `{HI : HashIter} (E : Env).

Lemma spawn_target_name s group name pg_id n ix x :
  spawn_target s group name pg_id n ix = Ok x →
  ∀ j a, actors s !! j = Some a → a_group a = group → a_name a = name → a_live a = false.
Proof.
  unfold spawn_target. destruct (existsb _ _) eqn:He; [done|]. intros _ j a Ha Hg Hn.
  destruct (a_live a) eqn:Hl; [|done].
  assert (existsb (λ a, bool_decide (a_group a = group ∧ a_name a = name) && a_live a)
    (hash_values (actors s)) = true) as Ht; [|congruence].
  apply existsb_exists. exists a. rewrite Hl, bool_decide_eq_true_2 by done. split; [|done].
  apply list_elem_of_In. apply elem_of_hash_values. eauto.
Qed.

(** An actor is created only under a name no live actor of its group has,
    in a placed bundle of a created group, on a live agent, with at most the
    devices asked for available there. It gets exactly the bundle's devices,
    its row is the only actor row that changes, and the agent is told to spawn
    it with them. *)
Theorem create_actor_created c name n pg_id ix env payload w id node gpus pl
    (Hreply : (create_actor E c name n pg_id ix env payload w).1 =
              (Msg.ActorCreateOk id node gpus, pl)) :
  let w' := (create_actor E c name n pg_id ix env payload w).2 in
  let group := client_group (st w) c in
  ∃ pg b ag env', pgs (st w) !! pg_id = Some pg ∧ pg_state pg = PgCreated ∧
    pg_assignment pg !! ix = Some (Some b) ∧ agents (st w) !! b_agent b = Some ag ∧
    ag_alive ag = true ∧ (n ≤ N.of_nat (length (b_gpu_ids b)))%N ∧
    (∀ j a, actors (st w) !! j = Some a → a_group a = group → a_name a = name → a_live a = false) ∧
    id = new_actor_id (random_hex E) ∧ node = b_node_id b ∧ gpus = b_gpu_ids b ∧
    actors (st w') = <[id := mkActor id name group (ag_id ag) node gpus c Spawning None []]>
                       (actors (st w)) ∧
    Send (ag_writer ag) (Msg.ActorSpawn id name env' gpus c) 0 payload ∈ out w' ∧
    write_error E (ag_writer ag) = None.
Proof.
  cbn zeta. revert Hreply. unfold create_actor. rewrite bind_run. cbn [get_st gets fst snd Datatypes.id].
  cbv zeta. destruct (spawn_target _ _ _ _ _ _) as [[[pg b] ag]|e] eqn:Ht; [|done].
  pose proof (spawn_target_name _ _ _ _ _ _ _ Ht) as Hname.
  apply spawn_target_ok in Ht as (Hpg & Hst & Hix & Hn & Hag & Hal).
  rewrite !bind_run. cbn [get_st gets fst snd Datatypes.id].
  match goal with |- context [emit_patch E _ _ _ ?w0] => set (w1 := w0) end.
  match goal with |- context [emit_patch E ?kd ?pa ?wy w1] =>
    pose proof (emit_patch_same_tables E kd pa wy w1) as Hsame;
    set (w2 := (emit_patch E kd pa wy w1).2) in * end.
  unfold send. rewrite !bind_run. cbn [fst snd mret M_ret].
  destruct (write_error E (ag_writer ag)) as [e|] eqn:Hw.
  - rewrite !bind_run. cbn. done.
  - cbn [fst snd mret M_ret]. intros [= <- <- <- <-].
    exists pg, b, ag, (spawn_env (st w) pg b ag (new_actor_id (random_hex E)) env).
    split_and!; try done.
    + cbn. by rewrite Hsame.
    + cbn. set_solver.
Qed.
End spawn_facts.

(** ** A driver with a rank on n2 *)

Definition demo_actor : ActorInfo :=
  mkActor "x:1" "rank0" "g" "a2" "n2" [0]%N "c:1" Running None [].
Definition demo_ref : RefInfo := mkRef RefPending (Some "x:1") "c:1" "step" 0 false.
Definition demo_driver : State :=
  demo_cluster <| actors := {[ "x:1" := demo_actor ]} |> <| refs := {[ "r:1" := demo_ref ]} |>
    <| pgs := ∅ |> <| claims := {[ ("g", "tp") := mkClaim Null demo_view 1 {[ "c:1" ]} ]} |>
    <| head_node_id := node_id demo_cluster |>.
Definition demo_session : World := mkWorld demo_driver [].

Lemma demo_driver_actor k a : actors demo_driver !! k = Some a → k = "x:1" ∧ a = demo_actor.
Proof.
  intros Hk. change (({[ "x:1" := demo_actor ]} : gmap string ActorInfo) !! k = Some a) in Hk.
  by apply lookup_singleton_Some in Hk as [<- <-].
Qed.
Lemma demo_driver_client k c :
  clients demo_driver !! k = Some c → k = "c:1" ∧ c = mkClient "c:1" "g" "driver" "n2" true.
Proof.
  intros Hk. change (({[ "c:1" := mkClient "c:1" "g" "driver" "n2" true ]} : gmap string ClientInfo) !! k = Some c) in Hk.
  by apply lookup_singleton_Some in Hk as [<- <-].
Qed.
Lemma demo_driver_pgs k p : pgs demo_driver !! k = Some p → False.
Proof. intros Hk. change ((∅ : gmap string PgInfo) !! k = Some p) in Hk. by rewrite lookup_empty in Hk. Qed.

Lemma demo_driver_ok : alloc_ok ∅ demo_driver.
Proof.
  split.
  - apply demo_cluster_keyed.
  - by intros k p []%demo_driver_pgs.
  - intros k a [[-> ->]|[-> ->]]%demo_cluster_agents; apply (bool_decide_unpack _); by vm_compute.
  - by intros k p []%demo_driver_pgs.
  - by intros k p id []%demo_driver_pgs.
  - by intros k1 k2 p1 p2 id g []%demo_driver_pgs.
  - by intros j k a p _ []%demo_driver_pgs.
  - intros j1 j2 a1 a2 [-> ->]%demo_driver_actor [-> ->]%demo_driver_actor. by left.
Qed.

Lemma mark_actor_dead_spec_witness :
  actors demo_driver !! "x:1" = Some demo_actor ∧
  actors (st (@mark_actor_dead in_key_order demo_env "x:1" "gone" demo_session).2) =
    <["x:1" := demo_actor <| a_state := Dead "gone" 1000 |> <| a_queued_calls := [] |>]>
      (actors demo_driver).
Proof.
  split; [reflexivity|].
  apply (@mark_actor_dead_spec in_key_order demo_env "x:1" "gone" demo_session demo_actor);
    reflexivity.
Defined.

Definition demo_created : World :=
  (@try_place in_key_order demo_env demo_world).2 <| out := [] |>.

Lemma create_actor_created_witness :
  ∃ b, pgs (st demo_created) !! "p:2" ≫= (λ p, pg_assignment p !! 0) = Some (Some b) ∧
    b_node_id b = "n2" ∧ b_gpu_ids b = [0]%N.
Proof.
  destruct (@create_actor_created in_key_order demo_env "c:1" "rank0" 1 "p:2" 0 ∅ [] demo_created
    (new_actor_id "ab") "n2" [0]%N []) as (pg & b & ag & env & Hpg & _ & Hb & _ & _ & _ & _ & _ & Hn & Hg & _);
    [vm_compute; reflexivity|].
  exists b. split_and!; [rewrite Hpg; exact Hb|symmetry; exact Hn|symmetry; exact Hg].
Defined.
