(* ===== verification/Clients.v ===== *)
(** * Client connections, claims and reaping (rust/mentatd/src/daemon.rs)

    The critical sections of [client_conn], [handle_client_msg], [claim],
    [release], [reap_client] and [reap_client_resources]. A connection's
    thread runs several of them in turn, and other threads may run between;
    Daemon.v interleaves them. *)

From S2P Require Import Prelude Json Proto Addr Island State Status Claim Placement Actors.

Section clients.
Context `{HI : HashIter} (E : Env).

(** ** Who a client is *)

(** The live actors of a group that a new driver session replaces. *)
Definition orphans_of (s : State) (group client_id : string) : list string :=
  a_id <$> filter (λ a, a_group a = group ∧ a_owner a ≠ client_id ∧ a_live a = true ∧
      is_some_and (clients s !! a_owner a) c_has_session = false ∧
      reap_pending s !! a_owner a = None) (hash_values (actors s)).

Definition client_node (s : State) (peer_ip : string) : string :=
  if is_loopback peer_ip || bool_decide (peer_ip = node_ip s) ||
     bool_decide (peer_ip ∈ all_local_addrs (host E)) then node_id s
  else match find_first (λ p, bool_decide (pe_node_ip p = peer_ip ∨ peer_ip ∈ pe_addrs p))
               (hash_values (peers s)) with
  | Some p => pe_node_id p
  | None =>
      from_option ag_node_id (node_id_for peer_ip)
        (find_first (λ a, bool_decide (ag_node_ip a = peer_ip)) (hash_values (agents s)))
  end.

(** ** Hello and close *)

Definition proto_mismatch (offered : string) : Msg.t :=
  Msg.Err ("proto " +:+ Version.PROTO +:+ " here, " +:+ offered +:+ " offered") "proto_mismatch" ""
    Version.PROTO.

Definition group_has_session (s : State) (group client_id : string) : bool :=
  existsb (λ c, bool_decide (c_group c = group) && c_has_session c && bool_decide (c_id c ≠ client_id))
    (hash_values (clients s)).

(** The row a hello leaves: an earlier row of the client keeps its kind, its
    node and its session. *)
Definition hello_row (s : State) (client_id group kind node : string) (session : bool) : ClientInfo :=
  let entry := default (mkClient client_id group kind node false) (clients s !! client_id) in
  let entry := entry <| c_group := group |> in
  if session then entry <| c_has_session := true |> else entry.

(** The hello section of [client_conn]: the orphans to kill, or [None] when
    the connection is refused. *)
Definition client_hello (w : Sock) (req : N) (proto client_id group : string) (session : bool)
    (kind claimed peer_ip : string) : SM (option (list string)) :=
  if negb (Version.major_matches proto) then
    send_ignore E w (proto_mismatch proto) req [] ;; mret None
  else
    s ← get_st id;
    if session && group_has_session s group client_id then
      send_ignore E w (Msg.refused "duplicate_session" ("group '" +:+ group +:+
        "' already has an active driver session. Run a second instance under a different MENTAT_GROUP"))
        req [] ;; mret None
    else
      let node := client_node s (if str_empty claimed then peer_ip else claimed) in
      let orphans := if session then orphans_of s group client_id else [] in
      let row := hello_row s client_id group kind node session in
      modify_st (λ s, s <| clients ::= <[client_id := row]> |>) ;;
      bump (λ f c, c <| clients_total ::= f |>) ;;
      (if session then
         emit_patch E "driver_connected" [patch_set ["clients"; client_id] (client_row row)] ""
       else skip) ;;
      modify_st (λ s, s <| client_links ::= λ l, l ++ [(client_id, w)] |>) ;;
      send_ignore E w (Msg.HelloOk Version.PROTO (c_node_id row) (node_ip s) (control_addr s)
        (head_node_id s)) req [] ;;
      mret (Some orphans).

(** The close of a connection: whether the head has moved away. *)
Definition client_closed (w : Sock) : SM bool :=
  modify_st (λ s, s <| client_links ::= filter (λ x, x.2 ≠ w) |>) ;;
  get_st (λ s, bool_decide (head_node_id s ≠ node_id s)).

(** The close of a connection that is not reaped. *)
Definition client_forget (client_id : string) (moved : bool) : SM unit :=
  cs ← get_st clients;
  match cs !! client_id with
  | Some c =>
      if negb (c_has_session c) || moved then modify_st (λ s, s <| clients ::= delete client_id |>)
      else skip
  | None => skip
  end.

(** ** Claims *)

Definition find_peer (s : State) (node : string) : option PeerInfo :=
  find_first (λ p, bool_decide (pe_node_id p = node)) (hash_values (peers s)).

Definition claim (client_id group name : string) (shape : Value) : SM (Result (N * Value) Msg.t) :=
  s ← get_st id;
  if str_empty (trim name) then mret (Err (Msg.refused "bad_claim_name" "a claim needs a name"))
  else if bool_decide (head_node_id s ≠ node_id s) then
    let addr := from_option (λ p, pe_node_ip p +:+ ":" +:+ pretty (pe_control_port p)) ""
                  (find_peer s (head_node_id s)) in
    mret (Err (Msg.Err ("this node is not the head. Send claims to " +:+ head_node_id s +:+ " at " +:+ addr)
      "not_head" addr ""))
  else
    let key := (group, name) in
    match claims s !! key with
    | Some c =>
        if negb (value_eqb (cl_shape c) (canonical shape)) then
          mret (Err (Msg.refused "shape_conflict" ("claim " +:+ debug_str name +:+
            " is held for a different shape. Use another name")))
        else
          modify_st (λ s, s <| claims ::= alter (λ c, c <| cl_holders ::= λ h, {[client_id]} ∪ h |>) key |>) ;;
          mret (Ok (cl_generation c, cl_view c))
    | None =>
        match parse shape with
        | Err e => mret (Err (Msg.refused "bad_shape" e))
        | Ok req =>
            let topo := topology (host E) s in
            match solve topo req with
            | Err e => mret (Err (Msg.refused "unsolvable_claim" e))
            | Ok solution =>
                let generation := u64_succ (claim_generation s) in
                let view := solution_json solution topo in
                let row := mkClaim (canonical shape) view generation {[client_id]} in
                modify_st (λ s, s <| claim_generation := generation |> <| claims ::= <[key := row]> |>) ;;
                emit_patch E "claim_solved" [patch_set ["groups"; group; "claims"; name] (claim_row row)] "" ;;
                mret (Ok (generation, view))
            end
        end
    end.

Definition release (client_id : string) (key : string * string) : SM unit :=
  cs ← get_st claims;
  match cs !! key with
  | None => skip
  | Some c =>
      let c := c <| cl_holders ::= λ h, h ∖ {[client_id]} |> in
      let at_ := ["groups"; key.1; "claims"; key.2] in
      if bool_decide (cl_holders c = ∅) then
        modify_st (λ s, s <| claims ::= delete key |>) ;;
        emit_patch E "claim_released" [patch_remove at_] ""
      else
        modify_st (λ s, s <| claims ::= <[key := c]> |>) ;;
        emit_patch E "claim_released" [patch_set at_ (claim_row c)] ""
  end.

Definition key_cmp (x y : string * string) : comparison :=
  lex (String.compare x.1 y.1) (String.compare x.2 y.2).
Definition claim_keys (s : State) : list (string * string) :=
  sort_by key_cmp (map_to_list (claims s)).*1.
Definition release_all (client_id : string) : SM unit :=
  keys ← get_st claim_keys;
  for_each keys (release client_id).

(** ** Reaping *)

(** [reap_client] up to the grace: the row goes, and the driver's group is
    returned. *)
Definition reap_begin (client_id : string) : SM string :=
  group ← get_st (λ s, client_group s client_id);
  modify_st (λ s, s <| clients ::= delete client_id |>) ;;
  emit_patch E "driver_disconnected" [patch_remove ["clients"; client_id]] "" ;;
  notify_all ;;
  mret group.

(** The deferred reap's token, a section of its own. *)
Definition reap_defer (client_id : string) : SM N :=
  token ← get_st next_reap;
  modify_st (λ s, s <| next_reap ::= u64_succ |> <| reap_pending ::= <[client_id := token]> |>) ;;
  mret token.

Definition remove_pg (pg : PgInfo) : PgInfo :=
  pg <| pg_state := PgRemoved |> <| pg_removed_ms := Some (now_ms E) |>.

Definition owned_live_pgs (s : State) (client_id : string) : list PgInfo :=
  filter (λ p, pg_owner p = client_id ∧ pg_state p ≠ PgRemoved) (hash_values (pgs s)).
Definition owned_live_actors (s : State) (client_id : string) : list string :=
  a_id <$> filter (λ a, a_owner a = client_id ∧ a_live a = true) (hash_values (actors s)).

Definition emit_pg_removed (why : string) (x : string * string) : SM unit :=
  s ← get_st id;
  match pgs s !! x.2 with
  | Some pg => emit_patch E "pg_removed" (pg_patch s x.1 x.2 ++ agent_patches s x.2) why
  | None => skip
  end.

(** The first section of [reap_client_resources]: the actors to kill, or
    [None] when a later disconnect or a reopened session owns the reap. *)
Definition reap_start (client_id group : string) (token : option N) : SM (option (list string)) :=
  s ← get_st id;
  if is_some_and token (λ t, bool_decide (reap_pending s !! client_id ≠ Some t)) then mret None
  else
    modify_st (λ s, s <| reap_pending ::= delete client_id |>) ;;
    if is_some_and (clients s !! client_id) c_has_session then mret None
    else
      release_all client_id ;;
      s ← get_st id;
      let ids := owned_live_actors s client_id in
      let removed := (λ p, (pg_group p, pg_id p)) <$> owned_live_pgs s client_id in
      modify_st (λ s, s <| pgs ::= fmap (λ p,
        if bool_decide (pg_owner p = client_id ∧ pg_state p ≠ PgRemoved) then remove_pg p else p) |>) ;;
      for_each removed (emit_pg_removed "driver session closed") ;;
      (if nonempty ids then emit_patch E "driver_gone_reaping" []
         (pretty (length ids) +:+ " actors in group " +:+ group)
       else skip) ;;
      mret (Some ids).

(** The last section of [reap_client_resources], after the kills. *)
Definition reap_finish (client_id : string) : SM unit :=
  modify_st (λ s, s <| refs ::= filter (λ x, rf_owner x.2 ≠ client_id) |>) ;;
  try_place E ;;
  notify_all.

(** The whole reap, when nothing runs between its sections. *)
Definition reap_client_resources (client_id group : string) (token : option N) : SM unit :=
  ids ← reap_start client_id group token;
  match ids with
  | None => skip
  | Some ids =>
      for_each ids (λ i, kill_actor E i "driver session closed") ;;
      reap_finish client_id
  end.

(** ** Requests *)

Definition live_agents_of (s : State) (group : string) : list AgentInfo := group_agents s group.

Definition node_entry (node ip : string) (gpus cpus memory : f64) : Value :=
  obj_of [("NodeID", Str node); ("NodeManagerAddress", Str ip); ("Alive", Bool true);
    ("Resources", obj_of [("GPU", Num (Float gpus)); ("CPU", Num (Float cpus));
      ("memory", Num (Float memory)); ("object_store_memory", Num (Float f64_zero));
      ("node:" +:+ ip, Num (Float f64_one))])].

Definition nodes_step (nodes : gmap string Value) (a : AgentInfo) : gmap string Value :=
  let cpus := f64_of_N (m_cpus (ag_machine a)) in
  let e := default (node_entry (ag_node_id a) (ag_node_ip a) f64_zero cpus f64_zero)
             (nodes !! ag_node_id a) in
  let e := match get "Resources" e with
    | Some (Obj res) =>
        let g := default f64_zero (obj_get "GPU" res ≫= as_f64) in
        let res := obj_insert "GPU" (Num (Float (f64_add g
          (f64_of_N (N.of_nat (length (m_gpus (ag_machine a)))))))) res in
        let res := obj_insert "CPU" (Num (Float cpus)) res in
        let res := obj_insert "memory" (Num (Float (f64_of_N (m_memory (ag_machine a))))) res in
        set_key "Resources" (Obj res) e
    | _ => e
    end in
  <[ag_node_id a := e]> nodes.
Definition nodes_reply (s : State) (group : string) : Reply :=
  let own := {[ node_id s := node_entry (node_id s) (node_ip s) f64_zero (f64_of_N 8) f64_zero ]} in
  (Msg.NodesOk (bt_values (foldl nodes_step own (live_agents_of s group))), []).

Definition f64_sum (l : list f64) : f64 := foldl f64_add f64_zero l.
Definition resources_reply (s : State) (group : string) : Reply :=
  let ags := live_agents_of s group in
  (Msg.ResourcesOk {[
     "GPU" := f64_sum ((λ a, f64_of_N (N.of_nat (length (m_gpus (ag_machine a))))) <$> ags);
     "CPU" := f64_sum ((λ a, f64_of_N (m_cpus (ag_machine a))) <$> ags);
     "memory" := f64_sum ((λ a, f64_of_N (m_memory (ag_machine a))) <$> ags);
     "object_store_memory" := f64_zero ]}, []).

Definition available_step (s : State) (nodes : gmap string (gmap string f64)) (a : AgentInfo)
    : gmap string (gmap string f64) :=
  let free := f64_of_N (N.of_nat (length (free_gpus_of s (ag_id a)))) in
  let e := default ∅ (nodes !! ag_node_id a) in
  let e := <["GPU" := f64_add (default f64_zero (e !! "GPU")) free]> e in
  let e := <["CPU" := f64_of_N (m_cpus (ag_machine a))]> e in
  let e := <["memory" := f64_of_N (m_memory (ag_machine a))]> e in
  let e := <["node:" +:+ ag_node_ip a := f64_one]> e in
  <[ag_node_id a := e]> nodes.
Definition available_reply (s : State) (group : string) : Reply :=
  (Msg.AvailableOk (foldl (available_step s) ∅ (live_agents_of s group)), []).

Definition pg_create (client_id : string) (bundles : list N) (strategy claim_name : string)
    : SM Reply :=
  group ← get_st (λ s, client_group s client_id);
  let id_ := new_pg_id (random_hex E) in
  let pg := mkPg id_ group client_id bundles strategy (replicate (length bundles) None) PgPending
              (now_ms E) None claim_name None None None in
  modify_st (λ s, s <| pgs ::= <[id_ := pg]> |>) ;;
  s ← get_st id;
  emit_patch E "pg_created" (pg_patch s group id_) "" ;;
  try_place E ;;
  mret (Msg.PgCreateOk id_, []).

Definition pg_table (s : State) (id_ : string) : Reply :=
  match pgs s !! id_ with
  | None => err ("no such placement group " +:+ id_)
  | Some pg =>
      let bundles := imap (λ i spec, (pretty i, obj_of [("GPU", JN spec)])) (pg_bundles pg) in
      let b2n := omap id (imap (λ i _, match pg_assignment pg !! i with
        | Some (Some a) => Some (pretty i, Str (b_node_id a)) | _ => None end) (pg_bundles pg)) in
      (Msg.PgTableOk (obj_of [("placement_group_id", Str (pg_id pg)); ("name", Str "");
        ("bundles", obj_of bundles); ("bundles_to_node_id", obj_of b2n);
        ("strategy", Str (pg_strategy pg)); ("state", Str (pg_state_str (pg_state pg)));
        ("stats", obj_of [])]), [])
  end.

Definition pg_remove (id_ : string) : SM Reply :=
  modify_st (λ s, s <| pgs ::= alter remove_pg id_ |>) ;;
  s ← get_st id;
  match pgs s !! id_ with
  | Some pg => emit_patch E "pg_removed" (pg_patch s (pg_group pg) id_ ++ agent_patches s id_) ""
  | None => skip
  end ;;
  try_place E ;;
  mret (Msg.Ok, []).

(** The groups an [actor_stop] without a target lists. *)
Definition stop_usage (s : State) : Reply :=
  let groups := sort_dedup (a_group <$> hash_values (actors s)) in
  err ("actor_stop takes a group or all. Groups: " +:+
       if nonempty groups then join ", " groups else "none").
Definition stop_ids (s : State) (group : string) (all : bool) : list string :=
  a_id <$> filter (λ a, (all = true ∨ a_group a = group) ∧ a_live a = true) (hash_values (actors s)).

(** What a request leads to: an answer, a wait on refs, or kills and then an
    answer. *)
Inductive Handled :=
| Answer (r : Reply)
| WaitGet (ref_id : string) (timeout_ms : option N)
| WaitMany (ref_ids : list string) (num_returns : nat) (timeout_ms : option N)
| Kill (ids : list string) (why : string) (r : Reply).

(** [{other:?}] of a message. *)
Context (debug_msg : Msg.t → string).

Definition handle_client_msg (client_id : string) (msg : Msg.t) (unknown_t : string)
    (payload : bytes) : SM Handled :=
  s ← get_st id;
  let group := client_group s client_id in
  match msg with
  | Msg.Nodes => mret (Answer (nodes_reply s group))
  | Msg.Resources => mret (Answer (resources_reply s group))
  | Msg.Available => mret (Answer (available_reply s group))
  | Msg.Claim name shape =>
      r ← claim client_id group name shape;
      match r with
      | Ok (generation, view) =>
          mret (Answer (Msg.ClaimOk name generation (head_node_id s) view, []))
      | Err refusal => mret (Answer (refusal, []))
      end
  | Msg.PgCreate bundles strategy claim => r ← pg_create client_id bundles strategy claim; mret (Answer r)
  | Msg.PgTable id_ => mret (Answer (pg_table s id_))
  | Msg.PgRemove id_ => r ← pg_remove id_; mret (Answer r)
  | Msg.ActorCreate name num_gpus id_ ix env =>
      r ← create_actor E client_id name num_gpus id_ (N.to_nat ix) env payload; mret (Answer r)
  | Msg.ActorCall actor_id method => r ← actor_call E client_id actor_id method payload; mret (Answer r)
  | Msg.RefGet ref_id timeout_ms => mret (WaitGet ref_id timeout_ms)
  | Msg.RefWait ref_ids num_returns timeout_ms => mret (WaitMany ref_ids (N.to_nat num_returns) timeout_ms)
  | Msg.ActorKill actor_id => mret (Kill [actor_id] "ray.kill" (Msg.Ok, []))
  | Msg.Status scope => mret (Answer (Msg.StatusOk (snapshot (host E) s scope), []))
  | Msg.ActorStop grp all =>
      if negb (Bool.eqb (str_empty grp) all) then mret (Answer (stop_usage s))
      else mret (Kill (stop_ids s grp all) "mentat stop" (Msg.Ok, []))
  | Msg.Unknown => mret (Answer (refused "unknown_message" ("no such message type " +:+ debug_str unknown_t)))
  | other => mret (Answer (err ("unexpected client message: " +:+ debug_msg other)))
  end.
End clients.

(** ** The allocation invariant *)

Section alloc.
Context {D : gset string}.

(** Groups may be dropped or removed: they then hold nothing. *)
Lemma alloc_ok_pgs s m :
  alloc_ok D s →
  (∀ k p', m !! k = Some p' → ∃ p, pgs s !! k = Some p ∧ pg_id p' = pg_id p ∧
     (p' = p ∨ pg_state p' = PgRemoved)) →
  alloc_ok D (s <| pgs := m |>).
Proof.
  intros Hok Hm.
  assert (∀ p id, pg_state p = PgRemoved → pg_holds id p = []) as Hrem.
  { intros p id Hp. unfold pg_holds. by rewrite decide_True. }
  split; cbn; try apply Hok.
  - intros k p' Hp'. destruct (Hm k p' Hp') as (p & Hp & -> & _). by apply (al_pgs s Hok).
  - intros k p' Hp' Hst. destruct (Hm k p' Hp') as (p & Hp & _ & [->|Hr]); [|congruence].
    by apply (al_pending s Hok k).
  - intros k p' id Hp'. destruct (Hm k p' Hp') as (p & Hp & _ & [->|Hr]).
    + by apply (al_bundles s Hok k).
    + rewrite Hrem by done. constructor.
  - intros k1 k2 p1' p2' id g H1 H2 Hne. destruct (Hm k1 p1' H1) as (p1 & Hp1 & _ & [->|Hr1]);
      [|rewrite (Hrem p1') by done; set_solver].
    destruct (Hm k2 p2' H2) as (p2 & Hp2 & _ & [->|Hr2]); [|rewrite (Hrem p2') by done; set_solver].
    by apply (al_groups s Hok k1 k2).
  - intros j k a p' Ha Hp' Hl. destruct (Hm k p' Hp') as (p & Hp & _ & [->|Hr]).
    + by apply (al_actor_group s Hok j k).
    + right. rewrite Hrem by done. set_solver.
Qed.

(** A new group holds nothing. *)
Lemma alloc_ok_new_pg s k p :
  alloc_ok D s → pg_id p = k → placed_bundles p = [] →
  alloc_ok D (s <| pgs ::= <[k := p]> |>).
Proof.
  intros Hok Hid Hb.
  assert (∀ id, pg_holds id p = []) as Hh.
  { intros id. unfold pg_holds. rewrite Hb. by destruct (decide _). }
  split; cbn; try apply Hok.
  - intros k' q [[<- <-]|[_ Hq]]%lookup_insert_Some; [done|by apply (al_pgs s Hok)].
  - intros k' q [[<- <-]|[_ Hq]]%lookup_insert_Some; [done|by apply (al_pending s Hok k')].
  - intros k' q id [[<- <-]|[_ Hq]]%lookup_insert_Some; [rewrite Hh; constructor|].
    by apply (al_bundles s Hok k').
  - intros k1 k2 p1 p2 id g [[<- <-]|[_ H1]]%lookup_insert_Some [[<- <-]|[_ H2]]%lookup_insert_Some;
      rewrite ?Hh; try set_solver. by apply (al_groups s Hok k1 k2).
  - intros j k' a q Ha [[<- <-]|[_ Hq]]%lookup_insert_Some Hl Hj; [right; rewrite Hh; set_solver|].
    by apply (al_actor_group s Hok j k').
Qed.

End alloc.

Section client_alloc.
Context `{HI : HashIter} (E : Env) {D : gset string}.

Lemma client_hello_ok w r pr c g se k cl pip :
  preserves (inv (alloc_ok D)) (client_hello E w r pr c g se k cl pip).
Proof.
  unfold client_hello. destruct (negb _).
  { apply preserves_bind; [apply preserves_send_ignore|]. intros _. apply preserves_ret. }
  apply preserves_bind; [apply preserves_get_st|]. intros s. destruct (se && _).
  { apply preserves_bind; [apply preserves_send_ignore|]. intros _. apply preserves_ret. }
  cbv zeta. apply preserves_bind; [by apply alloc_modify_frame|]. intros _.
  apply preserves_bind; [by apply alloc_modify_frame|]. intros _.
  apply preserves_bind; [destruct se; [apply alloc_emit|apply preserves_skip]|]. intros _.
  apply preserves_bind; [by apply alloc_modify_frame|]. intros _.
  apply preserves_bind; [apply preserves_send_ignore|]. intros _. apply preserves_ret.
Qed.

Lemma client_closed_ok w : preserves (inv (alloc_ok D)) (client_closed w).
Proof.
  apply preserves_bind; [by apply alloc_modify_frame|]. intros _. apply preserves_get_st.
Qed.

Lemma client_forget_ok c moved : preserves (inv (alloc_ok D)) (client_forget c moved).
Proof.
  apply preserves_bind; [apply preserves_get_st|]. intros cs. destruct (cs !! c) as [x|]; [|apply preserves_skip].
  destruct (_ || _); [by apply alloc_modify_frame|apply preserves_skip].
Qed.

Lemma claim_ok c g n sh : preserves (inv (alloc_ok D)) (claim E c g n sh).
Proof.
  apply preserves_bind; [apply preserves_get_st|]. intros s. destruct (str_empty _); [apply preserves_ret|].
  case_bool_decide; [apply preserves_ret|]. cbv zeta. destruct (claims s !! (g, n)) as [x|].
  - destruct (negb _); [apply preserves_ret|].
    apply preserves_bind; [by apply alloc_modify_frame|]. intros _. apply preserves_ret.
  - destruct (parse sh) as [rq|]; [|apply preserves_ret].
    destruct (solve _ rq) as [sol|]; [|apply preserves_ret].
    apply preserves_bind; [by apply alloc_modify_frame|]. intros _.
    apply preserves_bind; [apply alloc_emit|]. intros _. apply preserves_ret.
Qed.

Lemma release_ok c key : preserves (inv (alloc_ok D)) (release E c key).
Proof.
  apply preserves_bind; [apply preserves_get_st|]. intros cs. destruct (cs !! key) as [x|]; [|apply preserves_skip].
  cbv zeta. case_bool_decide; (apply preserves_bind; [by apply alloc_modify_frame|]);
    intros _; apply alloc_emit.
Qed.

Lemma release_all_ok c : preserves (inv (alloc_ok D)) (release_all E c).
Proof.
  apply preserves_bind; [apply preserves_get_st|]. intros ks. apply preserves_for_each.
  intros k _. apply release_ok.
Qed.

Lemma reap_begin_ok c : preserves (inv (alloc_ok D)) (reap_begin E c).
Proof.
  apply preserves_bind; [apply preserves_get_st|]. intros g.
  apply preserves_bind; [by apply alloc_modify_frame|]. intros _.
  apply preserves_bind; [apply alloc_emit|]. intros _.
  apply preserves_bind; [apply preserves_notify|]. intros _. apply preserves_ret.
Qed.

Lemma reap_defer_ok c : preserves (inv (alloc_ok D)) (reap_defer c).
Proof.
  apply preserves_bind; [apply preserves_get_st|]. intros t.
  apply preserves_bind; [by apply alloc_modify_frame|]. intros _. apply preserves_ret.
Qed.

Lemma reap_start_ok c g token : preserves (inv (alloc_ok D)) (reap_start E c g token).
Proof.
  apply preserves_bind; [apply preserves_get_st|]. intros s. destruct (is_some_and token _); [apply preserves_ret|].
  apply preserves_bind; [by apply alloc_modify_frame|]. intros _.
  destruct (is_some_and (clients s !! c) _); [apply preserves_ret|].
  apply preserves_bind; [apply release_all_ok|]. intros _.
  apply preserves_bind; [apply preserves_get_st|]. intros s'. cbv zeta.
  apply preserves_bind.
  { apply preserves_modify_st. intros s0 Hs. apply (alloc_ok_pgs s0 _ Hs). intros k p' Hp'.
    rewrite lookup_fmap in Hp'. apply fmap_Some in Hp' as (p & Hp & ->). exists p.
    case_bool_decide; split_and!; auto. }
  intros _. apply preserves_bind.
  { apply preserves_for_each. intros x _. apply preserves_bind; [apply preserves_get_st|]. intros s0.
    destruct (pgs s0 !! x.2); [apply alloc_emit|apply preserves_skip]. }
  intros _. apply preserves_bind; [|intros _; apply preserves_ret].
  destruct (nonempty _); [apply alloc_emit|apply preserves_skip].
Qed.

Lemma reap_finish_ok c : preserves (inv (alloc_ok D)) (reap_finish E c).
Proof.
  apply preserves_bind; [by apply alloc_modify_frame|]. intros _.
  apply preserves_bind; [apply try_place_ok|]. intros _. apply preserves_notify.
Qed.

Lemma pg_create_ok c b st_ cl : preserves (inv (alloc_ok D)) (pg_create E c b st_ cl).
Proof.
  apply preserves_bind; [apply preserves_get_st|]. intros g. cbv zeta. apply preserves_bind.
  { apply preserves_modify_st. intros s Hs. apply alloc_ok_new_pg; [done|done|].
    unfold placed_bundles. cbn. by induction (length b). }
  intros _. apply preserves_bind; [apply preserves_get_st|]. intros s.
  apply preserves_bind; [apply alloc_emit|]. intros _.
  apply preserves_bind; [apply try_place_ok|]. intros _. apply preserves_ret.
Qed.

Lemma pg_remove_ok k : preserves (inv (alloc_ok D)) (pg_remove E k).
Proof.
  apply preserves_bind.
  { apply preserves_modify_st. intros s Hs. apply (alloc_ok_pgs s _ Hs). intros j p' Hp'.
    destruct (decide (k = j)) as [<-|Hne].
    - rewrite lookup_alter_eq in Hp'. apply fmap_Some in Hp' as (p & Hp & ->). exists p. auto.
    - rewrite lookup_alter_ne in Hp' by done. eauto. }
  intros _. apply preserves_bind; [apply preserves_get_st|]. intros s.
  apply preserves_bind; [destruct (pgs s !! k); [apply alloc_emit|apply preserves_skip]|]. intros _.
  apply preserves_bind; [apply try_place_ok|]. intros _. apply preserves_ret.
Qed.

Lemma handle_client_msg_ok dbg c msg u p : preserves (inv (alloc_ok D)) (handle_client_msg E dbg c msg u p).
Proof.
  apply preserves_bind; [apply preserves_get_st|]. intros s. cbv zeta.
  destruct msg; try apply preserves_ret.
  - apply preserves_bind; [apply claim_ok|]. intros [[gen view]|]; apply preserves_ret.
  - apply preserves_bind; [apply pg_create_ok|]. intros; apply preserves_ret.
  - apply preserves_bind; [apply pg_remove_ok|]. intros; apply preserves_ret.
  - apply preserves_bind; [apply create_actor_ok|]. intros; apply preserves_ret.
  - apply preserves_bind; [apply actor_call_ok|]. intros; apply preserves_ret.
  - destruct (negb _); apply preserves_ret.
Qed.
End client_alloc.

(** ** Wake-ups *)

Section client_wakes.
Context `{HI : HashIter} (E : Env).

Lemma wakes_release c key : wakes E (release E c key).
Proof.
  apply wakes_bind; [apply wakes_get_st|]. intros cs. destruct (cs !! key) as [x|]; [|apply wakes_skip].
  cbv zeta. case_bool_decide; (apply wakes_bind; [by apply wakes_modify|]);
    intros _; apply wakes_emit_patch.
Qed.

Lemma wakes_client_hello w r pr c g se k cl pip :
  wakes E (client_hello E w r pr c g se k cl pip).
Proof.
  unfold client_hello. destruct (negb _).
  { apply wakes_bind; [apply wakes_send_ignore|]. intros _. apply wakes_ret. }
  apply wakes_bind; [apply wakes_get_st|]. intros s. destruct (se && _).
  { apply wakes_bind; [apply wakes_send_ignore|]. intros _. apply wakes_ret. }
  cbv zeta. apply wakes_bind; [by apply wakes_modify|]. intros _.
  apply wakes_bind; [by apply wakes_modify|]. intros _.
  apply wakes_bind; [destruct se; [apply wakes_emit_patch|apply wakes_skip]|]. intros _.
  apply wakes_bind; [by apply wakes_modify|]. intros _.
  apply wakes_bind; [apply wakes_send_ignore|]. intros _. apply wakes_ret.
Qed.

Lemma wakes_claim c g n sh : wakes E (claim E c g n sh).
Proof.
  apply wakes_bind; [apply wakes_get_st|]. intros s. destruct (str_empty _); [apply wakes_ret|].
  case_bool_decide; [apply wakes_ret|]. cbv zeta. destruct (claims s !! (g, n)) as [x|].
  - destruct (negb _); [apply wakes_ret|].
    apply wakes_bind; [by apply wakes_modify|]. intros _. apply wakes_ret.
  - destruct (parse sh) as [rq|]; [|apply wakes_ret].
    destruct (solve _ rq) as [sol|]; [|apply wakes_ret].
    apply wakes_bind; [by apply wakes_modify|]. intros _.
    apply wakes_bind; [apply wakes_emit_patch|]. intros _. apply wakes_ret.
Qed.

(** A new group's id is a ref: it was unknown, and is pending from here on. *)
Lemma wakes_pg_create c b s_ cl : wakes E (pg_create E c b s_ cl).
Proof.
  apply wakes_bind; [apply wakes_get_st|]. intros g. cbv zeta. apply wakes_bind.
  - intros w. exists []. rewrite app_nil_r. split; [done|]. right. intros r.
    unfold blocked, get_poll, resolve_ref, unknown_ref_window. cbn.
    destruct (starts_with "p:" r); [|done].
    destruct (decide (new_pg_id (random_hex E) = r)) as [<-|Hne];
      [by rewrite lookup_insert_eq|by rewrite lookup_insert_ne].
  - intros _. apply wakes_bind; [apply wakes_get_st|]. intros s.
    apply wakes_bind; [apply wakes_emit_patch|]. intros _.
    apply wakes_bind; [apply wakes_try_place|]. intros _. apply wakes_ret.
Qed.

(** No client request but the removal of a group can lose a wake-up: when
    it unblocks a ref that a thread may be waiting on, it notifies. *)
Theorem client_requests_wake dbg c msg u p w :
  (∀ k, msg ≠ Msg.PgRemove k) → wake E w (handle_client_msg E dbg c msg u p w).2.
Proof.
  intros Hmsg. apply wakes_bind; [apply wakes_get_st|]. intros s. cbv zeta.
  destruct msg; try apply wakes_ret; try (by destruct (Hmsg pg_id)).
  - apply wakes_bind; [apply wakes_claim|]. intros [[gen view]|]; apply wakes_ret.
  - apply wakes_bind; [apply wakes_pg_create|]. intros; apply wakes_ret.
  - apply wakes_bind; [apply wakes_create_actor|]. intros; apply wakes_ret.
  - apply wakes_bind; [apply wakes_actor_call|]. intros; apply wakes_ret.
  - destruct (negb _); apply wakes_ret.
Qed.
End client_wakes.

Definition is_notify (e : Effect) : bool := match e with Notify => true | _ => false end.

(** The removal of a pending group fails its ready ref and notifies nobody, so
    a driver thread waiting on that ref sleeps on. *)
Example pg_remove_loses_a_wake_up :
  let w := mkWorld (demo_cluster <| agents := ∅ |>) [] in
  let w' := (@pg_remove in_key_order demo_env "p:2" w).2 in
  blocked demo_env (st w) "p:2" ∧ resolve_ref (st w') "p:2" = ResActorDied "placement group removed" ∧
  existsb is_notify (out w') = false.
Proof. split_and!; vm_compute; reflexivity. Qed.

(** ** Sessions *)

(** A group has at most one client with a session. *)
Definition one_session (s : State) : Prop :=
  ∀ k1 k2 c1 c2, clients s !! k1 = Some c1 → clients s !! k2 = Some c2 →
    c_has_session c1 = true → c_has_session c2 = true → c_group c1 = c_group c2 → k1 = k2.

Definition clients_keyed (s : State) : Prop := ∀ k c, clients s !! k = Some c → c_id c = k.

Section sessions.
Context `{HI : HashIter} (E : Env).

Lemma group_has_session_iff s g c :
  clients_keyed s →
  group_has_session s g c = true ↔
  ∃ k x, clients s !! k = Some x ∧ c_group x = g ∧ c_has_session x = true ∧ k ≠ c.
Proof.
  intros Hk. unfold group_has_session. rewrite existsb_exists. split.
  - intros (x & Hx%list_elem_of_In & Hb). apply elem_of_hash_values in Hx as [k Hx].
    rewrite !andb_true_iff, !bool_decide_eq_true in Hb. destruct Hb as [[Hg Hs] Hn].
    rewrite (Hk k x Hx) in Hn. eauto 6.
  - intros (k & x & Hx & Hg & Hs & Hn). exists x. split.
    + apply list_elem_of_In, elem_of_hash_values. eauto.
    + rewrite !andb_true_iff, !bool_decide_eq_true. by rewrite (Hk k x Hx).
Qed.

(** What an accepted hello does to the client table. *)
Lemma client_hello_clients w sk r pr c g se k cl pip :
  clients (st (client_hello E sk r pr c g se k cl pip w).2) =
    match (client_hello E sk r pr c g se k cl pip w).1 with
    | None => clients (st w)
    | Some _ =>
        let node := client_node E (st w) (if str_empty cl then pip else cl) in
        <[c := hello_row (st w) c g k node se]> (clients (st w))
    end.
Proof.
  unfold client_hello. destruct (negb _); [done|]. rewrite bind_run. cbn [get_st gets fst snd id].
  destruct (se && _) eqn:Hse; [done|]. cbv zeta. destruct se.
  - rewrite !bind_run. cbn [get_st gets fst snd id].
    match goal with |- context [emit_patch E ?kd ?pa ?wy ?w0] =>
      pose proof (emit_patch_same_tables E kd pa wy w0) as Hsame; set (w1 := (emit_patch E kd pa wy w0).2) in * end.
    cbn. by rewrite Hsame.
  - done.
Qed.

(** Whether the client's row has a session, and whether no other client of the
    group has one. *)
Definition had_session (s : State) (c : string) : Prop :=
  ∃ x, clients s !! c = Some x ∧ c_has_session x = true.
Definition alone_in (s : State) (g c : string) : Prop :=
  ∀ k x, clients s !! k = Some x → c_group x = g → c_has_session x = true → k = c.

Lemma client_hello_accepts w sk r pr c g se k cl pip : clients_keyed (st w) →
  is_Some (client_hello E sk r pr c g se k cl pip w).1 ↔
  Version.major_matches pr = true ∧ (se = true → alone_in (st w) g c).
Proof.
  intros Hkeyed. assert (group_has_session (st w) g c = false ↔ alone_in (st w) g c) as <-.
  { rewrite <-not_true_iff_false, (group_has_session_iff _ g c Hkeyed). split.
    - intros Hn k' x Hx Hg Hs. destruct (decide (k' = c)); [done|]. destruct Hn. eauto 6.
    - intros Hall (k' & x & Hx & Hg & Hs & Hne). by apply Hne, (Hall k' x). }
  unfold client_hello. destruct (Version.major_matches pr); cbn [negb];
    [|split; [by intros []|by intros []]].
  rewrite bind_run. cbn [get_st gets fst snd id]. destruct se; cbn [andb].
  - destruct (group_has_session (st w) g c); [split; [by intros []|intros [_ H]; by specialize (H eq_refl)]|].
    cbv zeta. rewrite !bind_run. cbn [fst snd mret M_ret]. split; [done|eauto].
  - cbv zeta. rewrite !bind_run. cbn [fst snd mret M_ret]. split; [done|eauto].
Qed.

Lemma hello_row_fields s c g k node se : clients_keyed s →
  c_id (hello_row s c g k node se) = c ∧ c_group (hello_row s c g k node se) = g ∧
  (c_has_session (hello_row s c g k node se) = true ↔ se = true ∨ had_session s c).
Proof.
  intros Hkeyed. unfold hello_row, had_session. cbv zeta. destruct (clients s !! c) as [x|] eqn:Hx; cbn [default from_option].
  - destruct se; (split_and!; [by apply (Hkeyed c x)|done|]); cbn.
    + tauto.
    + split; [eauto|]. intros [?|(y & [= <-] & ?)]; done.
  - destruct se; (split_and!; [done|done|]); cbn; [tauto|]. split; [done|]. by intros [?|(? & ? & ?)].
Qed.

(** C27: a hello is accepted exactly when the major versions agree and, if it
    asks for a session, no other client of its group has one. A refusal leaves
    the table as it was. Accepted, the client's row, and no other, is written:
    it is in the group named, and has a session if one was asked for or it had
    one. So hellos that ask for a session never give a group a second. A hello
    that asks for none is not held to that: of a client with a session, it
    moves the row into the group it names, and exactly when another client
    there has a session the group then has two. *)
Theorem hello_session (w : World) (sk : Sock) (r : N) (pr c g : string) (se : bool) (k cl pip : string)
    (Hkeyed : clients_keyed (st w)) (Hone : one_session (st w)) :
  let res := client_hello E sk r pr c g se k cl pip w in
  let s := st w in let s' := st res.2 in
  (is_Some res.1 ↔ Version.major_matches pr = true ∧ (se = true → alone_in s g c)) ∧
  (res.1 = None → clients s' = clients s) ∧
  (is_Some res.1 → ∃ x, clients s' = <[c := x]> (clients s) ∧ c_id x = c ∧ c_group x = g ∧
     (c_has_session x = true ↔ se = true ∨ had_session s c)) ∧
  (one_session s' ↔ (is_Some res.1 → se = false → had_session s c → alone_in s g c)).
Proof.
  cbn zeta. pose proof (client_hello_accepts w sk r pr c g se k cl pip Hkeyed) as Hiff.
  unfold one_session at 1. rewrite client_hello_clients.
  destruct (client_hello E sk r pr c g se k cl pip w).1 as [orph|].
  2: { split_and!; [exact Hiff|done|by intros []|]. split; [by intros _ []|intros _; exact Hone]. }
  destruct (proj1 Hiff ltac:(eauto)) as [_ Hfree]. cbv zeta.
  set (row := hello_row _ _ _ _ _ _). destruct (hello_row_fields (st w) c g k (client_node E (st w) (if str_empty cl then pip else cl)) se Hkeyed)
    as (Hri & Hrg & Hrs). fold row in Hri, Hrg, Hrs.
  split_and!; [exact Hiff|done|intros _; by exists row|]. split.
  - intros H1 _ _ Hhad k' x Hx Hg Hs. destruct (decide (k' = c)) as [|Hne]; [done|].
    apply (H1 k' c x row); [by rewrite lookup_insert_ne|by rewrite lookup_insert_eq|done|apply Hrs; by right|congruence].
  - intros Hal. assert (c_has_session row = true → alone_in (st w) g c) as Hrow.
    { intros [->|Hhad]%Hrs; [by apply Hfree|]. destruct se; [by apply Hfree|by apply Hal]. }
    intros k1 k2 c1 c2 [[<- <-]|[_ H1]]%lookup_insert_Some [[<- <-]|[_ H2]]%lookup_insert_Some S1 S2 Hg;
      [done| | |by eapply Hone].
    + symmetry. apply (Hrow S1 k2 c2 H2); congruence.
    + apply (Hrow S2 k1 c1 H1); congruence.
Qed.
End sessions.

(** ** Claims *)

(** A held claim has a holder, and every row of its view names its node. *)
Definition claims_ok (s : State) : Prop :=
  ∀ key c, claims s !! key = Some c → cl_holders c ≠ ∅ ∧ view_named (cl_view c).

#[export] Instance claims_ok_stable : Stable claims_ok.
Proof. intros s s' ->. by destruct s. Qed.

Lemma index_sets_solution sol t :
  index "sets" (solution_json sol t) = Jmap (λ ms, Arr (member_json t <$> ms)) (so_sets sol).
Proof. reflexivity. Qed.

Lemma index_node_member t m : as_str (index "node" (member_json t m)) = Some (mb_node m).
Proof. unfold member_json. destruct (mb_prev m), (mb_next m); reflexivity. Qed.

Lemma solution_view_named sol t : view_named (solution_json sol t).
Proof.
  intros k ms m Hin Hm. rewrite index_sets_solution in Hin. unfold entries, Jmap in Hin. cbn in Hin.
  apply list_elem_of_fmap in Hin as ([k' l] & [= -> ->] & _). cbn in Hm.
  apply list_elem_of_fmap in Hm as (x & -> & _). rewrite index_node_member. eauto.
Qed.

Section claim_facts.
Context `{HI : HashIter} (E : Env).

(** The name is the reservation. A second holder with the same shape gets
    the first holder's generation and view and moves nothing; a second holder
    with another shape is refused and changes nothing; a daemon that is not
    the head answers no claim. *)
Theorem claim_repeats (w : World) (c g n : string) (sh : Value) (x : ClaimInfo)
    (Hname : trim n ≠ "") (Hhead : head_node_id (st w) = node_id (st w))
    (Hheld : claims (st w) !! (g, n) = Some x) :
  let res := claim E c g n sh w in
  if value_eqb (cl_shape x) (canonical sh) then
    res.1 = Ok (cl_generation x, cl_view x) ∧ out res.2 = out w ∧
    st res.2 = (st w) <| claims ::= alter (λ x, x <| cl_holders ::= λ h, {[c]} ∪ h |>) (g, n) |>
  else (∃ e, res.1 = Err (Msg.refused "shape_conflict" e)) ∧ res.2 = w.
Proof.
  cbn zeta. unfold claim. rewrite bind_run. cbn [get_st gets fst snd id].
  unfold str_empty. rewrite bool_decide_eq_false_2, bool_decide_eq_false_2 by (done || (intros Hn; by apply Hn)).
  rewrite Hheld. destruct (value_eqb (cl_shape x) (canonical sh)); cbn [negb].
  - by rewrite bind_run.
  - split; [by eexists|done].
Qed.

Lemma claim_claims_ok c g n sh : preserves (inv claims_ok) (claim E c g n sh).
Proof.
  intros w Hw. unfold claim. rewrite bind_run. cbn [get_st gets fst snd id].
  destruct (str_empty _); [done|]. case_bool_decide; [done|]. cbv zeta.
  destruct (claims (st w) !! (g, n)) as [x|] eqn:Hx.
  - destruct (negb _); [done|]. rewrite bind_run. apply preserves_ret.
    intros key y Hy. cbn in Hy. destruct (decide ((g, n) = key)) as [<-|Hne].
    + rewrite lookup_alter_eq, Hx in Hy. injection Hy as <-. destruct (Hw _ _ Hx). cbn. split; [set_solver|done].
    + rewrite lookup_alter_ne in Hy by done. by apply (Hw key).
  - destruct (parse sh) as [rq|]; [|done]. destruct (solve _ rq) as [sol|]; [|done].
    rewrite bind_run. apply preserves_bind;
      [apply (preserves_emit_patch E claims_ok)|intros _; apply preserves_ret|].
    intros key y Hy. cbn in Hy. apply lookup_insert_Some in Hy as [[<- <-]|[_ Hy]]; [|by apply (Hw key)].
    cbn. split; [set_solver|apply solution_view_named].
Qed.

Lemma release_claims_ok c key : preserves (inv claims_ok) (release E c key).
Proof.
  intros w Hw. unfold release. rewrite bind_run. cbn [get_st gets fst snd].
  destruct (claims (st w) !! key) as [x|] eqn:Hx; [|done]. cbv zeta.
  destruct (Hw _ _ Hx) as [_ Hn]. case_bool_decide as Hh; rewrite bind_run;
    apply (preserves_emit_patch E claims_ok); intros k y Hy; cbn in Hy.
  - apply lookup_delete_Some in Hy as [_ Hy]. by apply (Hw k).
  - apply lookup_insert_Some in Hy as [[<- <-]|[_ Hy]]; [done|by apply (Hw k)].
Qed.

(** The claims after one release: the holder is gone from that claim, which
    goes with its last holder. *)
Definition released (c : string) (m : gmap (string * string) ClaimInfo) (key : string * string)
    : gmap (string * string) ClaimInfo :=
  match m !! key with
  | None => m
  | Some x =>
      let x := x <| cl_holders ::= λ h, h ∖ {[c]} |> in
      if bool_decide (cl_holders x = ∅) then delete key m else <[key := x]> m
  end.

Lemma claims_same s : same_tables (s <| claims := claims s |>) s.
Proof. unfold same_tables. by destruct s. Qed.

Lemma release_run c key w :
  same_tables ((st w) <| claims := released c (claims (st w)) key |>) (st (release E c key w).2).
Proof.
  unfold release, released. rewrite bind_run. cbn [get_st gets fst snd].
  destruct (claims (st w) !! key) as [x|]; [|apply claims_same]. cbv zeta.
  case_bool_decide; rewrite bind_run; apply (emit_patch_same_tables E).
Qed.

Lemma release_list_run c keys w :
  same_tables ((st w) <| claims := foldl (released c) (claims (st w)) keys |>)
    (st (for_each keys (release E c) w).2).
Proof.
  revert w. induction keys as [|key keys IH]; intros w; cbn [for_each foldl]; [apply claims_same|].
  rewrite bind_run. etrans; [|apply IH]. pose proof (release_run c key w) as ->. cbn.
  unfold same_tables. by destruct (st w).
Qed.

Lemma released_fold c m keys key :
  foldl (released c) m keys !! key =
    if decide (key ∈ keys) then
      x ← m !! key; let x := x <| cl_holders ::= λ h, h ∖ {[c]} |> in
      if bool_decide (cl_holders x = ∅) then None else Some x
    else m !! key.
Proof.
  assert (∀ m k, released c m k !! key =
    if decide (k = key) then
      x ← m !! key; let x := x <| cl_holders ::= λ h, h ∖ {[c]} |> in
      if bool_decide (cl_holders x = ∅) then None else Some x
    else m !! key) as Hone.
  { clear m. intros m k. unfold released. destruct (decide (k = key)) as [->|Hne].
    - destruct (m !! key) as [x|] eqn:Hx; [|done]. cbn.
      case_bool_decide; [by rewrite lookup_delete_eq|by rewrite lookup_insert_eq].
    - destruct (m !! k); [|done]. cbv zeta.
      case_bool_decide; [by rewrite lookup_delete_ne|by rewrite lookup_insert_ne]. }
  revert m. induction keys as [|k keys IH]; intros m; [done|]. cbn [foldl]. rewrite IH, Hone.
  destruct (decide (key ∈ keys)) as [Hin|Hin].
  - rewrite (decide_True (P := key ∈ k :: keys)) by set_solver.
    destruct (decide (k = key)) as [->|Hne]; [|done]. destruct (m !! key) as [x|]; [|done]. cbn.
    case_bool_decide as Hb; [done|]. cbn. 
    case_bool_decide as Hb2; [destruct Hb; set_solver|]. do 2 f_equal. set_solver.
  - destruct (decide (k = key)) as [->|Hne].
    + by rewrite (decide_True (P := key ∈ key :: keys)) by set_solver.
    + by rewrite (decide_False (P := key ∈ k :: keys)) by set_solver.
Qed.

Lemma release_all_run c w :
  same_tables ((st w) <| claims := foldl (released c) (claims (st w)) (claim_keys (st w)) |>)
    (st (release_all E c w).2).
Proof. unfold release_all. rewrite bind_run. apply release_list_run. Qed.

Lemma release_all_lookup c w key :
  claims (st (release_all E c w).2) !! key =
    x ← claims (st w) !! key;
    if bool_decide (cl_holders x ∖ {[c]} = ∅) then None
    else Some (x <| cl_holders := cl_holders x ∖ {[c]} |>).
Proof.
  rewrite (release_all_run c w). cbn. rewrite released_fold.
  destruct (claims (st w) !! key) as [x|] eqn:Hx; [|by destruct (decide _)].
  rewrite decide_True; [done|]. unfold claim_keys. rewrite (sort_by_perm key_cmp).
  apply list_elem_of_fmap. exists (key, x). split; [done|]. by apply elem_of_map_to_list.
Qed.

(** When a driver goes, it holds no claim any more, a claim goes exactly
    when its last holder does, the other holders keep theirs with its view and
    generation, and no other table changes. *)
Theorem release_all_spec c w :
  let s := st w in let s' := st (release_all E c w).2 in
  same_tables (s <| claims := claims s' |>) s' ∧
  ∀ key, claims s' !! key =
    match claims s !! key with
    | None => None
    | Some x =>
        if bool_decide (cl_holders x ∖ {[c]} = ∅) then None
        else Some (x <| cl_holders := cl_holders x ∖ {[c]} |>)
    end.
Proof.
  cbn zeta. split; [|intros key; apply release_all_lookup].
  unfold same_tables. rewrite (release_all_run c w). by destruct (st w).
Qed.

Lemma release_all_reads {B} c w (f : State → B) :
  (∀ s s', same_tables s s' → f s' = f s) → (∀ s m, f (s <| claims := m |>) = f s) →
  f (st (release_all E c w).2) = f (st w).
Proof.
  intros H1 H2.
  rewrite (H1 _ _ (release_all_run c w)). apply H2.
Qed.
End claim_facts.

(** ** Reaping *)

Section reaping.
Context `{HI : HashIter} (E : Env) {D : gset string}.

Lemma emit_removed_frame s0 why l :
  preserves (inv (same_tables s0)) (for_each l (emit_pg_removed E why)).
Proof.
  apply preserves_for_each. intros x _. apply preserves_bind; [apply preserves_get_st|]. intros s.
  destruct (pgs s !! x.2); [apply (preserves_emit_patch E _)|apply preserves_skip].
Qed.

(** Whether a reap with this token has been overtaken. *)
Definition superseded (s : State) (c : string) (token : option N) : Prop :=
  match token with Some t => reap_pending s !! c ≠ Some t | None => False end.
Definition reopened (s : State) (c : string) : Prop :=
  ∃ x, clients s !! c = Some x ∧ c_has_session x = true.
Definition owned_live_pg (c : string) (p : PgInfo) : Prop := pg_owner p = c ∧ pg_state p ≠ PgRemoved.
#[export] Instance owned_live_pg_dec c p : Decision (owned_live_pg c p) := _.

Lemma reap_stops c g token w :
  (superseded (st w) c token → reap_start E c g token w = (None, w)) ∧
  (¬ superseded (st w) c token → reopened (st w) c →
   reap_start E c g token w = (None, w <| st ::= λ s, s <| reap_pending ::= delete c |> |>)).
Proof.
  unfold reap_start. rewrite bind_run. cbn [get_st gets fst snd id]. split.
  - destruct token as [t|]; [|by intros []]. cbn. intros Ht. by rewrite bool_decide_eq_true_2.
  - intros Hs (x & Hx & Hses).
    assert (is_some_and token (λ t, bool_decide (reap_pending (st w) !! c ≠ Some t)) = false) as ->.
    { destruct token as [t|]; [|done]. cbn. by apply bool_decide_eq_false_2. }
    rewrite bind_run. unfold is_some_and. rewrite Hx, Hses. by destruct w.
Qed.

Lemma reap_runs c g token w :
  ¬ superseded (st w) c token → ¬ reopened (st w) c →
  let res := reap_start E c g token w in
  let s1 := st (release_all E c (w <| st ::= λ s, s <| reap_pending ::= delete c |> |>)).2 in
  res.1 = Some (owned_live_actors (st w) c) ∧
  same_tables (s1 <| pgs ::= fmap (λ p, if bool_decide (owned_live_pg c p) then remove_pg E p else p) |>)
    (st res.2).
Proof.
  intros Hs Hr. cbn zeta. unfold reap_start. rewrite bind_run. cbn [get_st gets fst snd id].
  assert (is_some_and token (λ t, bool_decide (reap_pending (st w) !! c ≠ Some t)) = false) as ->.
  { destruct token as [t|]; [|done]. cbn. apply bool_decide_eq_false_2. intros H. by apply Hs. }
  rewrite bind_run. set (w1 := (modify_st _ w).2).
  assert (is_some_and (clients (st w) !! c) c_has_session = false) as ->.
  { destruct (clients (st w) !! c) as [x|] eqn:Hx; [|done]. cbn. apply not_true_is_false.
    intros H. apply Hr. by exists x. }
  rewrite bind_run. cbv zeta.
  replace (w <| st ::= λ s : State, s <| reap_pending ::= delete c |> |>) with w1 by (by destruct w).
  set (w2 := (release_all E c w1).2). rewrite !bind_run. cbn [get_st gets modify_st modify fst snd id].
  match goal with |- context [for_each ?l (emit_pg_removed E ?why) ?w0] =>
    pose proof (emit_removed_frame (st w0) why l w0 ltac:(unfold inv; reflexivity)) as Hfr;
    set (w3 := (for_each l (emit_pg_removed E why) w0).2) in * end.
  split.
  - cbn. f_equal. apply (release_all_reads E c w1 (λ s, owned_live_actors s c)); [|done].
    by intros s s' ->.
  - unfold inv in Hfr. cbn in Hfr. etrans; [exact Hfr|]. destruct (nonempty _); [|done].
    apply emit_patch_same_tables.
Qed.

(** What a kill leaves alone. *)
Definition kill_frame (s s' : State) : Prop :=
  s' = s <| actors := actors s' |> <| refs := refs s' |> <| pgs := pgs s' |>
         <| next_event_seq := next_event_seq s' |> <| event_subs := event_subs s' |>.
#[export] Instance kill_frame_preorder : PreOrder kill_frame.
Proof.
  split; [by intros []|]. intros s1 s2 s3 H12 H23. unfold kill_frame in *. rewrite H23, H12.
  by destruct s1, s3.
Qed.

(** An actor that is dead, or whose agent has been told to kill it. *)
Definition ended (w : World) (i : string) : Prop :=
  ∀ a, actors (st w) !! i = Some a → a_live a = true →
    ∃ sk, live_writer (st w) (a_agent a) = Some sk ∧ Send sk (Msg.ActorKill i) 0 [] ∈ out w.

(** A kill ends its own actor, and undoes the end of none. *)
Definition actors_kept (s s' : State) : Prop :=
  ∀ i a', actors s' !! i = Some a' → ∃ a, actors s !! i = Some a ∧ (a' = a ∨ a_live a' = false).

Lemma ended_kept w w' i :
  kill_frame (st w) (st w') → actors_kept (st w) (st w') → out w `prefix_of` out w' →
  ended w i → ended w' i.
Proof.
  intros Hf Ha [o Ho] He a' Ha' Hl. destruct (Ha i a' Ha') as (a & Hia & [->|Hd]); [|congruence].
  destruct (He a Hia Hl) as (sk & Hsk & Hin). exists sk. split.
  - rewrite Hf. exact Hsk.
  - rewrite Ho. set_solver.
Qed.

Lemma kill_actor_run i why w :
  let w' := (kill_actor E i why w).2 in
  kill_frame (st w) (st w') ∧ actors_kept (st w) (st w') ∧ out w `prefix_of` out w' ∧ ended w' i.
Proof.
  cbn zeta. unfold kill_actor. rewrite bind_run. cbn [get_st gets fst snd id].
  assert (actors_kept (st w) (st w)) as Hid by (intros j x Hx; eauto).
  destruct (actors (st w) !! i) as [a|] eqn:Hi.
  2: { split_and!; [reflexivity|done|done|]. intros x Hx. cbn in Hx. congruence. }
  destruct (is_dead (a_state a)) eqn:Hd.
  { split_and!; [reflexivity|done|done|]. intros x Hx Hl.
    change (actors (st w) !! i = Some x) in Hx. assert (x = a) as -> by congruence.
    unfold a_live in Hl. by rewrite Hd in Hl. }
  assert (a_live a = true) as Hl by (unfold a_live; by rewrite Hd).
  destruct (live_writer (st w) (a_agent a)) as [sk|] eqn:Hsk.
  - cbn. split_and!; [reflexivity|done|by apply prefix_app_r|].
    intros x Hx _. change (actors (st w) !! i = Some x) in Hx.
    assert (x = a) as -> by congruence. exists sk. split; [done|]. cbn. set_solver.
  - destruct (mark_actor_dead_run E i "killed while its agent was down" w a Hi Hl) as [Hf [o Ho]].
    cbn zeta in *. set (w' := (mark_actor_dead E _ _ w).2) in *.
    assert (actors (st w') = <[i := a <| a_state := Dead "killed while its agent was down" (now_ms E) |>
      <| a_queued_calls := [] |>]> (actors (st w))) as Hacs by (rewrite Hf; cbn; by rewrite (alter_Some _ _ _ _ Hi)).
    split_and!.
    + unfold kill_frame. rewrite Hf. by destruct (st w).
    + intros j x Hx. rewrite Hacs in Hx. apply lookup_insert_Some in Hx as [[<- <-]|[_ Hx]]; eauto.
    + rewrite Ho. by apply prefix_app_r.
    + intros x Hx. rewrite Hacs, lookup_insert_eq in Hx. injection Hx as <-. done.
Qed.

Lemma kill_list_run ids why w :
  let w' := (for_each ids (λ i, kill_actor E i why) w).2 in
  kill_frame (st w) (st w') ∧ actors_kept (st w) (st w') ∧ out w `prefix_of` out w' ∧
  ∀ i, i ∈ ids → ended w' i.
Proof.
  cbn zeta. revert w. induction ids as [|i ids IH]; intros w; cbn [for_each].
  - split_and!; [reflexivity|intros j x Hx; eauto|done|set_solver].
  - rewrite bind_run. destruct (kill_actor_run i why w) as (Hf & Ha & Ho & He). cbn zeta in *.
    set (w1 := (kill_actor E i why w).2) in *. destruct (IH w1) as (Hf' & Ha' & Ho' & He').
    split_and!; [by etrans| |by etrans|].
    + intros j x Hx. destruct (Ha' j x Hx) as (y & Hy & Hxy). destruct (Ha j y Hy) as (z & Hz & Hyz).
      exists z. split; [done|]. destruct Hxy as [->|]; auto.
    + intros j [->|Hj]%elem_of_cons; [by apply (ended_kept w1)|auto].
Qed.

(** No live group of the driver's, in an allocation that is in order. *)
Definition no_live_pgs (c : string) (s : State) : Prop :=
  ∀ k p, pgs s !! k = Some p → pg_owner p = c → pg_state p = PgRemoved.
Definition cleared (c : string) (s : State) : Prop := alloc_ok D s ∧ no_live_pgs c s.

#[export] Instance cleared_stable c : Stable (cleared c).
Proof. intros s s' Hs [H1 H2]. split; [by eapply alloc_ok_stable|]. intros k p. rewrite Hs. apply H2. Qed.

(** The groups [try_place] visits are none of the driver's. *)
Definition skips (c : string) (ks : list string) (s : State) : Prop :=
  ∀ k p, pgs s !! k = Some p → pg_owner p = c → pg_state p = PgRemoved ∧ k ∉ ks.

Lemma skips_alter c ks k f s :
  k ∈ ks → (∀ p, pg_owner (f p) = pg_owner p) → skips c ks s → skips c ks (s <| pgs ::= alter f k |>).
Proof.
  intros Hk Hf Hs j p. cbn. destruct (decide (k = j)) as [<-|Hne].
  - rewrite lookup_alter_eq. intros (p0 & Hp & ->)%fmap_Some. rewrite Hf. intros Ho.
    by destruct (Hs k p0 Hp Ho).
  - rewrite lookup_alter_ne by done. apply Hs.
Qed.

Lemma place_one_skips c ks k : k ∈ ks → preserves (inv (skips c ks)) (place_one E k).
Proof.
  intros Hk. assert (Stable (skips c ks)) as Hst by (intros s s' ->; by destruct s).
  apply preserves_bind; [apply preserves_get_st|]. intros s. destruct (pgs s !! k) as [pg|]; [|apply preserves_skip].
  destruct (decide_place E s pg) as [[island asg]|why].
  - apply preserves_bind; [apply preserves_modify_st; intros s0; by apply skips_alter|]. intros _.
    apply preserves_bind; [apply preserves_get_st|]. intros s'.
    apply preserves_bind; [apply (preserves_emit_patch E _)|]. intros _. apply preserves_notify.
  - apply preserves_bind; [apply preserves_get_st|]. intros ps.
    destruct (ps !! k) as [p|]; [|apply preserves_skip]. case_bool_decide; [apply preserves_skip|].
    apply preserves_bind; [apply preserves_modify_st; intros s0; by apply skips_alter|]. intros _.
    apply preserves_bind; [apply preserves_get_st|]. intros s'. apply (preserves_emit_patch E _).
Qed.

Lemma try_place_cleared c : preserves (inv (cleared c)) (try_place E).
Proof.
  intros w [Hok Hq]. split; [by apply try_place_ok|]. unfold try_place. rewrite bind_run.
  cbn [get_st gets fst snd]. set (ks := _ <$> _).
  assert (inv (skips c ks) (for_each ks (place_one E) w).2) as Hs.
  { apply preserves_for_each; [intros k Hk; by apply place_one_skips|]. intros k p Hp Ho.
    pose proof (Hq k p Hp Ho) as Hrem. split; [done|]. unfold ks. rewrite list_elem_of_fmap.
    intros (q & -> & [Hpend [j Hj]%elem_of_hash_values]%list_elem_of_filter).
    rewrite (al_pgs _ Hok j q Hj) in Hp. congruence. }
  intros k p Hp Ho. by apply (Hs k p).
Qed.

Lemma cleared_modify c f :
  (∀ s, pgs (f s) = pgs s) → preserves (inv (alloc_ok D)) (modify_st f) → preserves (inv (cleared c)) (modify_st f).
Proof.
  intros Hf Hok w [H1 H2]. split; [by apply Hok|]. intros k p. cbn. rewrite Hf. apply H2.
Qed.

Lemma mark_dead_cleared c i why : preserves (inv (cleared c)) (mark_actor_dead E i why).
Proof.
  apply preserves_mark_dead; [| |intros; apply (preserves_emit_patch E _)|apply try_place_cleared|apply preserves_notify].
  - apply cleared_modify; [done|]. apply preserves_modify_st. intros s0 Hs. by apply alloc_ok_alter_actor.
  - apply cleared_modify; [done|]. by apply alloc_modify_frame.
Qed.

Lemma kill_actor_cleared c i why : preserves (inv (cleared c)) (kill_actor E i why).
Proof.
  apply preserves_bind; [apply preserves_get_st|]. intros s. destruct (actors s !! i) as [a|]; [|apply preserves_skip].
  destruct (is_dead (a_state a)); [apply preserves_skip|].
  destruct (live_writer s (a_agent a)); [apply preserves_send_ignore|apply mark_dead_cleared].
Qed.

Definition actors_keyed (s : State) : Prop := ∀ k a, actors s !! k = Some a → a_id a = k.

(** After its first section, the driver's groups are removed. *)
Lemma reap_runs_cleared c g token w :
  alloc_ok D (st w) → ¬ superseded (st w) c token → ¬ reopened (st w) c →
  let w' := (reap_start E c g token w).2 in
  cleared c (st w') ∧ actors (st w') = actors (st w) ∧
  ∀ key x, claims (st w') !! key = Some x → c ∉ cl_holders x.
Proof.
  intros Hok Hs Hr. destruct (reap_runs c g token w Hs Hr) as [_ Hrun]. cbn zeta in *.
  set (w1 := w <| st ::= _ |>) in *. set (w' := (reap_start E c g token w).2) in *.
  split_and!.
  - split; [by apply reap_start_ok|]. intros k p. rewrite Hrun. cbn. rewrite lookup_fmap.
    intros (p0 & _ & ->)%fmap_Some. case_bool_decide as Ho; [done|]. unfold owned_live_pg in Ho.
    intros Hc. by destruct (decide (pg_state p0 = PgRemoved)); [|destruct Ho].
  - rewrite Hrun. cbn. by rewrite (release_all_reads E c w1 actors) by (done || by intros s s' ->).
  - intros key x. rewrite Hrun. cbn. rewrite release_all_lookup. intros (y & _ & Hy)%bind_Some.
    case_bool_decide; [done|]. injection Hy as <-. cbn. set_solver.
Qed.

(** C12: a reap that was overtaken by a later disconnect does nothing, and one
    whose session was reopened only drops its token. Any other reap, run
    without interruption, leaves the driver no live group, no claim and no
    ref, and every actor it had is dead or its agent has been told to kill
    it. *)
Theorem reap_complete (c g : string) (token : option N) (w : World)
    (Hok : alloc_ok D (st w)) (Hkeyed : actors_keyed (st w)) :
  let w' := (reap_client_resources E c g token w).2 in
  (superseded (st w) c token → w' = w) ∧
  (¬ superseded (st w) c token → reopened (st w) c →
     w' = w <| st ::= λ s, s <| reap_pending ::= delete c |> |>) ∧
  (¬ superseded (st w) c token → ¬ reopened (st w) c →
     alloc_ok D (st w') ∧
     (∀ k p, pgs (st w') !! k = Some p → pg_owner p = c → pg_state p = PgRemoved) ∧
     (∀ key x, claims (st w') !! key = Some x → c ∉ cl_holders x) ∧
     (∀ r x, refs (st w') !! r = Some x → rf_owner x ≠ c) ∧
     (∀ i a, actors (st w) !! i = Some a → a_owner a = c → ended w' i)).
Proof.
  cbn zeta. unfold reap_client_resources. rewrite bind_run.
  destruct (reap_stops c g token w) as [Hstop1 Hstop2]. split_and!.
  { intros Hs. by rewrite Hstop1. }
  { intros Hs Hr. by rewrite Hstop2. }
  intros Hs Hr. destruct (reap_runs c g token w Hs Hr) as [Hids _].
  destruct (reap_runs_cleared c g token w Hok Hs Hr) as (Hcl & Hacs & Hclaims). cbn zeta in *.
  rewrite Hids. rewrite bind_run. set (w1 := (reap_start E c g token w).2) in *.
  destruct (kill_list_run (owned_live_actors (st w) c) "driver session closed" w1) as (Hf & Hkept & Ho & Hended).
  assert (cleared c (st (for_each (owned_live_actors (st w) c)
    (λ i, kill_actor E i "driver session closed") w1).2)) as Hcl2
    by (apply preserves_for_each; [intros; apply kill_actor_cleared|exact Hcl]).
  cbn zeta in *. set (w2 := (for_each _ _ w1).2) in *. clearbody w2.
  unfold reap_finish. rewrite !bind_run. set (w3 := (modify_st _ w2).2).
  assert (cleared c (st (try_place E w3).2)) as [Hal Hpgs].
  { apply try_place_cleared. apply (cleared_modify c (λ s, s <| refs ::= _ |>)); [done| |exact Hcl2].
    by apply alloc_modify_frame. }
  pose proof (try_place_frame E w3) as Hf3. pose proof (grows_try_place E (out w3) w3 (reflexivity _)) as Hg3.
  change ((notify_all _).2) with ((try_place E w3).2 <| out ::= λ o, o ++ [Notify] |>).
  set (w4 := (try_place E w3).2) in *. clearbody w4. split_and!; [exact Hal|exact Hpgs| | |].
  - intros key x Hx. cbn in Hx. rewrite Hf3 in Hx. cbn in Hx. rewrite Hf in Hx. by apply (Hclaims key).
  - intros r x Hx. cbn in Hx. rewrite Hf3 in Hx. cbn in Hx.
    by apply map_lookup_filter_Some in Hx as [_ Hx].
  - intros i a Hi Hown x Hx Hl. cbn in Hx. rewrite Hf3 in Hx. cbn in Hx.
    destruct (Hkept i x Hx) as (y & Hy & [->|Hd]); [|congruence]. rewrite Hacs in Hy.
    assert (y = a) as -> by congruence.
    destruct (Hended i) with a as (sk & Hsk & Hin); [|done..|].
    { unfold owned_live_actors. apply list_elem_of_fmap. exists a. rewrite (Hkeyed i a Hi). split; [done|].
      apply list_elem_of_filter. split; [done|]. apply elem_of_hash_values. eauto. }
    exists sk. split.
    + unfold live_writer. cbn. rewrite Hf3. exact Hsk.
    + cbn. destruct Hg3 as [o Hg3]. rewrite Hg3. cbn. set_solver.
Qed.
End reaping.

(** ** On concrete sessions *)

Lemma client_requests_wake_witness :
  wake demo_env demo_session
    (@handle_client_msg in_key_order demo_env (λ _, "") "c:1" (Msg.RefGet "r:1" None) "" [] demo_session).2.
Proof. apply (@client_requests_wake in_key_order demo_env). discriminate. Defined.

Lemma hello_session_witness :
  (@client_hello in_key_order demo_env 9 1 Version.PROTO "c:2" "g" true "driver" "" "10.0.0.9"
     demo_session).1 = None.
Proof.
  destruct (@hello_session in_key_order demo_env demo_session 9 1 Version.PROTO "c:2" "g" true "driver"
    "" "10.0.0.9") as [Hiff _].
  - by intros k c [-> ->]%demo_driver_client.
  - by intros k1 k2 c1 c2 [-> ->]%demo_driver_client [-> ->]%demo_driver_client.
  - apply eq_None_not_Some. intros [_ Hone]%Hiff.
    by specialize (Hone eq_refl "c:1" (mkClient "c:1" "g" "driver" "n2" true) eq_refl eq_refl eq_refl).
Defined.

Lemma claim_repeats_witness :
  ∃ e, (@claim in_key_order demo_env "c:2" "g" "tp" (Str "pp") demo_session).1 =
    Err (Msg.refused "shape_conflict" e).
Proof.
  pose proof (@claim_repeats in_key_order demo_env demo_session "c:2" "g" "tp" (Str "pp")
    (mkClaim Null demo_view 1 {[ "c:1" ]})) as H.
  destruct H as [He _]; [done|reflexivity|vm_compute; reflexivity|exact He].
Defined.

Lemma reap_complete_witness :
  ended (@reap_client_resources in_key_order demo_env "c:1" "g" None
    (demo_session <| st ::= λ s, s <| clients := ∅ |> |>)).2 "x:1".
Proof.
  set (w := demo_session <| st ::= _ |>).
  destruct (@reap_complete in_key_order demo_env ∅ "c:1" "g" None w) as (_ & _ & H).
  - by apply (alloc_ok_frame demo_driver (st w)); [..|apply demo_driver_ok].
  - by intros k a [-> ->]%demo_driver_actor.
  - destruct H as (_ & _ & _ & _ & H); [by intros []| |by apply (H "x:1" demo_actor)].
    intros (x & Hx & _). change ((∅ : gmap string ClientInfo) !! "c:1" = Some x) in Hx.
    by rewrite lookup_empty in Hx.
Defined.

(** *** Interleavings *)

(** A group's next session sees the gone driver's actors as orphans when it
    opens between the two sections of a deferred reap, and not once the second
    has run. *)
Example reap_grace_gap :
  let gone := (@reap_begin in_key_order demo_env "c:1" demo_session).2 in
  let waiting := (@reap_defer "c:1" gone).2 in
  let hello := @client_hello in_key_order demo_env 9 1 Version.PROTO "c:2" "g" true "driver" "" "10.0.0.9" in
  (hello gone).1 = Some ["x:1"] ∧ (hello waiting).1 = Some [].
Proof. split; vm_compute; reflexivity. Qed.

(** A client may open a second session of its own: the close of the first
    connection then reaps the second one's actors. *)
Example second_session_is_reaped :
  let again := @client_hello in_key_order demo_env 9 1 Version.PROTO "c:1" "g" true "driver" "" "10.0.0.9"
    demo_session in
  let closed := (@reap_begin in_key_order demo_env "c:1" again.2).2 in
  again.1 = Some [] ∧ clients (st closed) !! "c:1" = None ∧
  (@reap_start in_key_order demo_env "c:1" "g" None closed).1 = Some ["x:1"].
Proof. split_and!; vm_compute; reflexivity. Qed.

(** A worker connection's hello moves its driver's row to the group it names,
    and the driver's own group is free for another session. *)
Example worker_moves_the_session :
  let moved := (@client_hello in_key_order demo_env 9 1 Version.PROTO "c:1" "h" false "thread" "" "10.0.0.9"
    demo_session).2 in
  (@client_hello in_key_order demo_env 8 1 Version.PROTO "c:2" "g" true "driver" "" "10.0.0.9" demo_session).1
    = None ∧
  (@client_hello in_key_order demo_env 8 1 Version.PROTO "c:2" "g" true "driver" "" "10.0.0.9" moved).1
    = Some [].
Proof. split; vm_compute; reflexivity. Qed.

(** A release logs a [claim_released] for every claim there is, also one the
    client does not hold. *)
Example release_names_every_claim :
  length (out (@release_all in_key_order demo_env "c:9"
    (demo_session <| st ::= λ s, s <| event_subs := [1%N] |> |>)).2) = 1.
Proof. vm_compute. reflexivity. Qed.
