(* ===== verification/Secret.v ===== *)
(** * Announcement signing (rust/common/src/secret.rs)

    Key loading, hexadecimal, the canonical form a signature covers, signing
    and verifying. SHA-256 and the JSON text of a value are parameters: the
    hmac and serde_json crates hold them. *)

From S2P Require Import Prelude Json.

(** Slicing a string off a character boundary panics. *)
Inductive Outcome (A : Type) := Done (x : A) | Panic.
Global Arguments Done {A} _.
Global Arguments Panic {A}.

Definition byte_N (b : byte) : N := Byte.to_N b.

(** [u8::is_ascii_whitespace], which leaves out the vertical tab. *)
Definition is_ascii_whitespace (b : byte) : bool :=
  bool_decide (byte_N b ∈ [9; 10; 12; 13; 32]%N).

Fixpoint position {A} (p : A → bool) (l : list A) : option nat :=
  match l with
  | [] => None
  | x :: l' => if p x then Some 0 else S <$> position p l'
  end.
Fixpoint rposition {A} (p : A → bool) (l : list A) : option nat :=
  match l with
  | [] => None
  | x :: l' =>
      match rposition p l' with
      | Some i => Some (S i)
      | None => if p x then Some 0 else None
      end
  end.

Definition trim_ascii (v : bytes) : bytes :=
  let start := default 0 (position (λ b, negb (is_ascii_whitespace b)) v) in
  let end_ := default 0 ((λ i, i + 1) <$> rposition (λ b, negb (is_ascii_whitespace b)) v) in
  if bool_decide (end_ ≤ start) then [] else take (end_ - start) (drop start v).

(** [read] is what reading the named file gave. *)
Definition from_file (path : string) (read : Result bytes string) : Result (option bytes) string :=
  let? b := map_err (λ e, "MENTAT_SECRET_FILE " +:+ path +:+ ": " +:+ e) read in
  let key := trim_ascii b in
  if nonempty key then Ok (Some key)
  else Err ("MENTAT_SECRET_FILE " +:+ path +:+ ": file is empty").

Definition from_env (v : option string) : Result (option bytes) string :=
  match v with
  | None => Ok None
  | Some v =>
      let key := trim_ascii (String.list_byte_of_string v) in
      Ok (if nonempty key then Some key else None)
  end.

(** [load], with MENTAT_SECRET_FILE, MENTAT_SECRET and the file system. *)
Definition load (file_var env_var : option string) (fs : string → Result bytes string)
    : Result (option bytes) string :=
  match file_var with
  | Some path =>
      let path := trim path in
      if negb (str_empty path) then from_file path (fs path) else from_env env_var
  | None => from_env env_var
  end.

(** ** Hexadecimal *)

Definition hex_byte (b : byte) : string :=
  String (hex_digit (byte_N b / 16)) (String (hex_digit (byte_N b `mod` 16)) EmptyString).
Fixpoint hex (b : bytes) : string :=
  match b with [] => EmptyString | x :: b' => hex_byte x +:+ hex b' end.

Definition hex_val (a : ascii) : option N :=
  let n := N_of_ascii a in
  if bool_decide (48 ≤ n ≤ 57)%N then Some (n - 48)%N
  else if bool_decide (97 ≤ n ≤ 102)%N then Some (n - 87)%N
  else if bool_decide (65 ≤ n ≤ 70)%N then Some (n - 55)%N
  else None.

(** [u8::from_str_radix] of two characters: a leading plus sign is accepted
    in front of one digit. *)
Definition u8_of_pair (a b : ascii) : option N :=
  if bool_decide (a = "+"%char) then hex_val b
  else h ← hex_val a; l ← hex_val b; Some (16 * h + l)%N.

(** A UTF-8 continuation byte does not start a character. *)
Definition is_continuation (a : ascii) : bool :=
  bool_decide (128 ≤ N_of_ascii a < 192)%N.
Definition at_boundary (s : string) : bool :=
  match s with EmptyString => true | String a _ => negb (is_continuation a) end.

Fixpoint unhex_pairs (s : string) : Outcome (option bytes) :=
  match s with
  | String a (String b s') =>
      if at_boundary s && at_boundary s' then
        match u8_of_pair a b ≫= Byte.of_N with
        | None => Done None
        | Some x =>
            match unhex_pairs s' with
            | Done (Some r) => Done (Some (x :: r))
            | o => o
            end
        end
      else Panic
  | _ => Done (Some [])
  end.
Definition unhex (s : string) : Outcome (option bytes) :=
  if Nat.even (String.length s) then unhex_pairs s else Done None.

(** ** The canonical form *)

Fixpoint sorted (v : Value) : Value :=
  match v with
  | Obj m =>
      obj_of (merge_sort key_le
        ((fix go l := match l with
          | [] => []
          | (k, x) :: l' => (k, sorted x) :: go l'
          end) m))
  | Arr a => Arr ((fix go l := match l with [] => [] | x :: l' => sorted x :: go l' end) a)
  | _ => v
  end.

Section signing.
Context (hmac : bytes → bytes → bytes).
Context (to_string : Value → string) (from_slice : bytes → option Value).

Definition canonical_text (payload : Value) : string := to_string (sorted payload).

Definition mac (payload : Value) (key : bytes) : bytes :=
  hmac key (String.list_byte_of_string (canonical_text payload)).

Definition envelope (payload : Value) (key : bytes) : Value :=
  obj_of [("p", payload); ("sig", Str (hex (mac payload key)))].
Definition sign (payload : Value) (key : bytes) : string := to_string (envelope payload key).

Definition verify (raw key : bytes) : Outcome (option Value) :=
  match (env ← from_slice raw; payload ← get "p" env;
         sig ← get "sig" env ≫= as_str; Some (payload, sig)) with
  | None => Done None
  | Some (payload, sig) =>
      match unhex sig with
      | Panic => Panic
      | Done None => Done None
      | Done (Some want) =>
          Done (if bool_decide (want = mac payload key) then Some payload else None)
      end
  end.

Definition peek_universe (raw : bytes) : option string :=
  v ← from_slice raw; let payload := default v (get "p" v) in
  get "universe" payload ≫= as_str.
Definition claimed_universe (raw : bytes) : string := default "default" (peek_universe raw).
End signing.

(** MENTAT_UNIVERSE, blank meaning unset. *)
Definition universe (var : option string) : string :=
  match var with
  | Some v => let v := trim v in if str_empty v then "default" else v
  | None => "default"
  end.

(** [(now - t).abs() <= CLOCK_SKEW_S] on binary64. *)
Definition CLOCK_SKEW_S : f64 := f64_of_N 30.
Definition fresh (t now : f64) : bool :=
  f64_leb (SpecFloat.SFabs (SpecFloat.SFsub 53 1024 now t)) CLOCK_SKEW_S.

(** The process identifier: eight random bytes, or the pid and the time. *)
Fixpoint hex_N_go (fuel : nat) (n : N) (acc : string) : string :=
  match fuel with
  | 0 => acc
  | S fuel =>
      let acc := String (hex_digit (n `mod` 16)) acc in
      if decide (n < 16)%N then acc else hex_N_go fuel (n / 16) acc
  end.
Definition hex_N (n : N) : string := hex_N_go (S (N.to_nat (N.log2 n))) n EmptyString.
Definition boot_id_of (urandom : option bytes) (pid secs : N) : string :=
  match urandom with
  | Some buf => hex buf
  | None => hex_N pid +:+ hex_N secs
  end.

(** ** Facts *)

Lemma position_split {A} (p : A → bool) l i :
  position p l = Some i →
  Forall (λ x, p x = false) (take i l) ∧ ∃ x, l !! i = Some x ∧ p x = true.
Proof.
  revert i. induction l as [|x l IH]; intros i; cbn; [done|]. destruct (p x) eqn:Hx.
  - intros [= <-]. split; [constructor|eauto].
  - destruct (position p l) as [j|]; [|done]. intros [= <-].
    destruct (IH j eq_refl) as [Hf Hl]. split; [by constructor|done].
Qed.

Lemma rposition_split {A} (p : A → bool) l i :
  rposition p l = Some i →
  Forall (λ x, p x = false) (drop (S i) l) ∧ ∃ x, l !! i = Some x ∧ p x = true.
Proof.
  revert i. induction l as [|x l IH]; intros i; cbn; [done|].
  destruct (rposition p l) as [j|] eqn:Hj.
  - intros [= <-]. apply (IH j eq_refl).
  - destruct (p x) eqn:Hx; [|done]. intros [= <-]. split; [|eauto].
    clear IH Hx. rewrite skipn_O. induction l as [|y l IH]; [constructor|].
    cbn in Hj. destruct (rposition p l); [done|]. destruct (p y) eqn:Hy; [done|].
    constructor; auto.
Qed.

Lemma position_is_Some {A} (p : A → bool) l x :
  x ∈ l → p x = true → is_Some (position p l).
Proof.
  induction l as [|y l IH]; [set_solver|]. cbn. intros [->|Hin]%elem_of_cons Hp.
  - rewrite Hp. eauto.
  - destruct (p y); [eauto|]. apply fmap_is_Some. by apply IH.
Qed.

Lemma position_None {A} (p : A → bool) l :
  position p l = None → Forall (λ x, p x = false) l.
Proof.
  intros Hn. apply list.Forall_forall. intros x Hx. destruct (p x) eqn:Hp; [|done].
  destruct (position_is_Some p l x Hx Hp). congruence.
Qed.

Lemma rposition_None {A} (p : A → bool) l :
  rposition p l = None → Forall (λ x, p x = false) l.
Proof.
  induction l as [|x l IH]; [constructor|]. cbn. destruct (rposition p l); [done|].
  destruct (p x) eqn:Hx; [done|]. auto.
Qed.

Lemma position_le_rposition {A} (p : A → bool) l i j :
  position p l = Some i → rposition p l = Some j → i ≤ j.
Proof.
  intros Hi Hj. destruct (position_split p l i Hi) as [Hf _].
  destruct (rposition_split p l j Hj) as [_ (x & Hx & Hp)].
  destruct (decide (i ≤ j)); [done|]. exfalso.
  assert (take i l !! j = Some x) as Ht by (rewrite lookup_take_lt by lia; done).
  pose proof (proj1 (list.Forall_forall _ _) Hf x) as Hc. cbn in Hc.
  rewrite Hc in Hp; [done|]. by eapply list_elem_of_lookup_2.
Qed.

Definition not_space (b : byte) : bool := negb (is_ascii_whitespace b).

(** Trimming a key removes whitespace from both ends and nothing else:
    the input is the key between two runs of whitespace, and the key is empty
    or starts and ends with a byte that is no whitespace. *)
Theorem trim_ascii_spec v :
  ∃ pre post, v = pre ++ trim_ascii v ++ post ∧
    Forall (λ b, is_ascii_whitespace b = true) (pre ++ post) ∧
    (∀ b, head (trim_ascii v) = Some b → is_ascii_whitespace b = false) ∧
    (∀ b, list.last (trim_ascii v) = Some b → is_ascii_whitespace b = false).
Proof.
  unfold trim_ascii. fold not_space.
  assert (∀ l, Forall (λ b, not_space b = false) l →
    Forall (λ b, is_ascii_whitespace b = true) l) as Hws.
  { intros l Hl. apply (list.Forall_impl _ _ _ Hl). intros b. unfold not_space.
    by destruct (is_ascii_whitespace b). }
  destruct (position not_space v) as [i|] eqn:Hi.
  2: { pose proof (position_None _ _ Hi) as Hall.
       destruct (rposition not_space v) as [j|] eqn:Hj.
       { destruct (rposition_split _ _ _ Hj) as [_ (x & Hx & Hp)].
         pose proof (proj1 (list.Forall_forall _ _) Hall x (list_elem_of_lookup_2 _ _ _ Hx)).
         congruence. }
       cbn. exists v, []. rewrite !app_nil_r. split_and!; [done|by apply Hws|done|done]. }
  destruct (position_split _ _ _ Hi) as [Hpre (x & Hx & Hpx)].
  destruct (rposition not_space v) as [j|] eqn:Hj.
  2: { pose proof (rposition_None _ _ Hj) as Hall.
       pose proof (proj1 (list.Forall_forall _ _) Hall x (list_elem_of_lookup_2 _ _ _ Hx)).
       congruence. }
  destruct (rposition_split _ _ _ Hj) as [Hpost (y & Hy & Hpy)].
  pose proof (position_le_rposition _ _ _ _ Hi Hj) as Hij.
  cbn. rewrite bool_decide_eq_false_2 by lia. replace (j + 1 - i) with (S (j - i)) by lia.
  exists (take i v), (drop (S j) v). split_and!.
  - replace (drop (S j) v) with (drop (S (j - i)) (drop i v)) by
      (rewrite skipn_skipn; f_equal; lia).
    by rewrite !take_drop.
  - apply Forall_app. split; by apply Hws.
  - intros b. assert (head (take (S (j - i)) (drop i v)) = Some x) as ->.
    { rewrite head_lookup, lookup_take_lt by lia. by rewrite lookup_drop, Nat.add_0_r. }
    intros [= <-]. by apply negb_true_iff.
  - intros b. assert (list.last (take (S (j - i)) (drop i v)) = Some y) as ->.
    { pose proof (lookup_lt_Some _ _ _ Hy) as Hlt.
      rewrite last_lookup, length_take_le by (rewrite length_drop; lia). cbn.
      rewrite lookup_take_lt by lia. rewrite lookup_drop. by replace (i + (j - i)) with j by lia. }
    intros [= <-]. by apply negb_true_iff.
Qed.

Lemma unhex_pairs_hex_byte b s :
  at_boundary s = true →
  unhex_pairs (hex_byte b +:+ s) =
    match unhex_pairs s with Done (Some r) => Done (Some (b :: r)) | o => o end.
Proof.
  intros Hs. unfold hex_byte. set (h := hex_digit (byte_N b / 16)).
  set (l := hex_digit (byte_N b `mod` 16)).
  assert (u8_of_pair h l ≫= Byte.of_N = Some b) as Hp by (unfold h, l; by destruct b).
  assert (is_continuation h = false) as Hc by (unfold h; by destruct b).
  change (unhex_pairs (String h (String l EmptyString) +:+ s)) with
    (if at_boundary (String h (String l s)) && at_boundary s then
       match u8_of_pair h l ≫= Byte.of_N with
       | None => Done None
       | Some x => match unhex_pairs s with Done (Some r) => Done (Some (x :: r)) | o => o end
       end else Panic).
  rewrite Hp, Hs. cbn [at_boundary]. by rewrite Hc.
Qed.

Lemma at_boundary_hex b s : at_boundary s = true → at_boundary (hex b +:+ s) = true.
Proof. destruct b as [|x b]; [done|]. intros _. by destruct x. Qed.

Lemma unhex_pairs_hex b : unhex_pairs (hex b) = Done (Some b).
Proof.
  induction b as [|x b IH]; [done|]. cbn [hex].
  rewrite unhex_pairs_hex_byte, IH; [done|].
  destruct b as [|y b]; [done|]. by destruct y.
Qed.

Lemma hex_length b : String.length (hex b) = 2 * length b.
Proof.
  induction b as [|x b IH]; [done|]. 
  change (String.length (hex (x :: b))) with (S (S (String.length (hex b)))).
  rewrite IH. cbn [length]. lia.
Qed.

(** Decoding the hexadecimal of a signature gives the signature back. *)
Theorem unhex_hex b : unhex (hex b) = Done (Some b).
Proof.
  unfold unhex. rewrite hex_length, Nat.even_mul. apply unhex_pairs_hex.
Qed.

(** A signature whose characters straddle the two-byte steps panics the
    decoder, and a plus sign passes as part of a digit pair. *)
Example unhex_panics :
  unhex (String "a" (String (ascii_of_N 195) (String (ascii_of_N 169) "b"))) = Panic.
Proof. vm_compute. reflexivity. Qed.
Example unhex_plus : unhex "+f" = Done (Some [x0f]).
Proof. vm_compute. reflexivity. Qed.

Section signing_facts.
Context (hmac : bytes → bytes → bytes).
Context (to_string : Value → string) (from_slice : bytes → option Value).

(** A datagram is accepted with a payload exactly when it parses, holds
    that payload, and its [sig] decodes to the keyed digest of the payload's
    canonical form. *)
Theorem verify_accepts raw key payload :
  verify hmac to_string from_slice raw key = Done (Some payload) ↔
  ∃ env sig, from_slice raw = Some env ∧ get "p" env = Some payload ∧
    get "sig" env = Some (Str sig) ∧
    unhex sig = Done (Some (hmac key (String.list_byte_of_string
      (to_string (sorted payload))))).
Proof.
  unfold verify, mac, canonical_text. split.
  - destruct (from_slice raw) as [env|]; cbn -[unhex sorted]; [|done].
    destruct (get "p" env) as [p|] eqn:Hp; cbn -[unhex sorted]; [|done].
    destruct (get "sig" env) as [[| | |sig| |]|] eqn:Hs; cbn -[unhex sorted]; try done.
    destruct (unhex sig) as [[want|]|] eqn:Hu; try done.
    case_bool_decide as Hw; [|done]. intros [= <-]. exists env, sig. by rewrite Hu, Hw.
  - intros (env & sig & -> & Hp & Hs & Hu). cbn -[unhex sorted].
    rewrite Hp. cbn -[unhex sorted]. rewrite Hs. cbn -[unhex sorted]. rewrite Hu.
    by rewrite bool_decide_eq_true_2.
Qed.

Lemma verify_of_envelope payload key
    (Hjson : from_slice (String.list_byte_of_string
               (to_string (envelope hmac to_string payload key))) =
             Some (envelope hmac to_string payload key)) :
  verify hmac to_string from_slice
    (String.list_byte_of_string (sign hmac to_string payload key)) key = Done (Some payload).
Proof.
  unfold verify, sign. rewrite Hjson. cbn [mbind option_bind].
  change (get "p" (envelope hmac to_string payload key)) with (Some payload). cbn [mbind option_bind].
  change (get "sig" (envelope hmac to_string payload key)) with (Some (Str (hex (mac hmac to_string payload key)))).
  cbn [mbind option_bind as_str]. rewrite unhex_hex. by rewrite bool_decide_eq_true_2.
Qed.

(** A daemon accepts the payload a holder of the same key signed, given
    that the envelope survives its own trip through JSON text. *)
Theorem verify_sign payload key
    (Hjson : from_slice (String.list_byte_of_string
               (to_string (envelope hmac to_string payload key))) =
             Some (envelope hmac to_string payload key)) :
  verify hmac to_string from_slice
    (String.list_byte_of_string (sign hmac to_string payload key)) key = Done (Some payload).
Proof.
  by apply verify_of_envelope.
Qed.
End signing_facts.

(** A toy digest and a one-value JSON text discharge the hypothesis. *)
Definition toy_hmac (key msg : bytes) : bytes := reverse key ++ msg.
Definition toy_to_string (v : Value) : string := "{}".
Definition toy_payload : Value := obj_of [("node", Str "n1"); ("seq", JN 4)].
Definition toy_from_slice (b : bytes) : option Value :=
  Some (envelope toy_hmac toy_to_string toy_payload [x01; x02]).

Lemma verify_sign_witness :
  verify toy_hmac toy_to_string toy_from_slice
    (String.list_byte_of_string (sign toy_hmac toy_to_string toy_payload [x01; x02])) [x01; x02]
  = Done (Some toy_payload).
Proof. apply verify_sign. reflexivity. Defined.
