(* ===== verification/Meta.v ===== *)
(** * Agent metadata (rust/mentatd/src/meta.rs)

    The limits on what an agent registers, and the probes that collect it.
    The file system is a reader of files and of directories, and the JSON text
    of a value is serde_json's. *)

From S2P Require Import Prelude Text Json.

Abbreviation Meta := (gmap string string) (only parsing).

Definition MAX_KEYS : nat := 64.
Definition MAX_KEY_LEN : nat := 64.
Definition MAX_VALUE_LEN : nat := 1024.
Definition DRIVER_MODULES : list string := ["nvidia"; "amdgpu"; "mlx5_core"].

Definition is_lower (a : ascii) : bool :=
  let n := N_of_ascii a in bool_decide (97 ≤ n ≤ 122)%N.
Definition key_char (a : ascii) : bool :=
  is_lower a || is_digit a || bool_decide (a ∈ ["."; "_"; "-"]%char).
Definition valid_key (k : string) : bool :=
  negb (str_empty k) && bool_decide (String.length k ≤ MAX_KEY_LEN) && all_chars key_char k.

Definition fits (k v : string) : bool :=
  valid_key k && bool_decide (String.length v ≤ MAX_VALUE_LEN).

Definition bounded_step (acc : Meta * list string) (kv : string * string) : Meta * list string :=
  let '(kept, dropped) := acc in let '(k, v) := kv in
  if fits k v && bool_decide (size kept < MAX_KEYS)
  then (<[k := v]> kept, dropped) else (kept, dropped ++ [k]).
Definition bounded (meta : Meta) : Meta * list string :=
  foldl bounded_step (∅, []) (bt_iter meta).

Definition extend (m : Meta) (l : list (string * string)) : Meta :=
  foldl (λ m '(k, v), <[k := v]> m) m l.

(** [str::strip_prefix] *)
Fixpoint strip_prefix (p s : string) : option string :=
  match p, s with
  | EmptyString, _ => Some s
  | String a p', String b s' => if decide (a = b) then strip_prefix p' s' else None
  | _, _ => None
  end.

Definition from_env (vars : list (string * string)) : Meta :=
  extend ∅ (omap (λ '(k, v),
    match strip_prefix "MENTAT_META_" k with
    | Some name => if decide (name = "FILE") then None else Some (to_ascii_lowercase name, v)
    | None => None
    end) vars).

(** [str::split] on one character: always at least one piece. *)
Fixpoint split_all (c : ascii) (s : string) : list string :=
  match s with
  | EmptyString => [EmptyString]
  | String a s' =>
      if decide (a = c) then EmptyString :: split_all c s'
      else match split_all c s' with
           | p :: ps => String a p :: ps
           | [] => [String a EmptyString]
           end
  end.

(** [u16::from_str_radix(_, 16)] *)
Definition hex_digit_val (a : ascii) : option N :=
  let n := N_of_ascii a in
  if bool_decide (48 ≤ n ≤ 57)%N then Some (n - 48)%N
  else if bool_decide (97 ≤ n ≤ 102)%N then Some (n - 87)%N
  else if bool_decide (65 ≤ n ≤ 70)%N then Some (n - 55)%N
  else None.
Fixpoint u16_hex_digits (acc : N) (s : string) : option N :=
  match s with
  | EmptyString => Some acc
  | String a s' =>
      d ← hex_digit_val a;
      let n := (16 * acc + d)%N in
      if bool_decide (n < 65536)%N then u16_hex_digits n s' else None
  end.
Definition u16_of_hex (s : string) : option N :=
  match s with
  | EmptyString => None
  | String "+" EmptyString => None
  | String "+" s' => u16_hex_digits 0 s'
  | _ => u16_hex_digits 0 s
  end.

Definition ipv4_of_gid (gid : string) : option string :=
  let groups := split_all ":" gid in
  match groups with
  | [g0; g1; g2; g3; g4; g5; g6; g7] =>
      if existsb (λ g, bool_decide (g ≠ "0000")) [g0; g1; g2; g3; g4] || bool_decide (g5 ≠ "ffff")
      then None
      else
        hi ← u16_of_hex g6; lo ← u16_of_hex g7;
        Some (pretty (N.shiftr hi 8) +:+ "." +:+ pretty (N.land hi 255) +:+ "." +:+
              pretty (N.shiftr lo 8) +:+ "." +:+ pretty (N.land lo 255))
  | _ => None
  end.

Definition parse_u32 (s : string) : option N :=
  n ← parse_u64 s; if bool_decide (n < 4294967296)%N then Some n else None.

(** [s.split_once(": ").map(|(_, s)| s).unwrap_or(&s)] *)
Fixpoint after_colon_space (s : string) : option string :=
  match s with
  | String ":" (String " " s') => Some s'
  | String _ s' => after_colon_space s'
  | EmptyString => None
  end.

Definition trim_end (s : string) : string := String.rev (trim_start (String.rev s)).

Section probing.
Context (read_to_string : string → option string) (read_dir : string → list string).

Definition read_trim (p : string) : option string :=
  s ← read_to_string p; let s := trim s in if str_empty s then None else Some s.
Definition sorted_names (dir : string) : list string := sort_strs (read_dir dir).

(** One GID slot of a port: its index and the rendered entry. *)
Definition gid_entry (p idx : string) : option (N * string) :=
  i ← parse_u32 idx;
  ty ← read_trim (p +:+ "/gid_attrs/types/" +:+ idx);
  if bool_decide (ty ≠ "RoCE v2") then None
  else
    v4 ← read_trim (p +:+ "/gids/" +:+ idx) ≫= ipv4_of_gid;
    let ndev := default "" (read_trim (p +:+ "/gid_attrs/ndevs/" +:+ idx)) in
    Some (i, trim_end (pretty i +:+ " " +:+ v4 +:+ " " +:+ ndev)).

Definition gid_cmp (x y : N * string) : comparison :=
  lex (N.compare x.1 y.1) (String.compare x.2 y.2).

Definition rdma_port (class dev port : string) : list (string * string) :=
  let p := class +:+ "/" +:+ dev +:+ "/ports/" +:+ port in
  let key := "rdma." +:+ dev +:+ "." +:+ port in
  let state := match read_trim (p +:+ "/state") with
    | Some s => [(key +:+ ".state", default s (after_colon_space s))]
    | None => []
    end in
  let gids := sort_by gid_cmp (omap (gid_entry p) (sorted_names (p +:+ "/gids"))) in
  state ++ if nonempty gids then [(key +:+ ".gid", join ", " gids.*2)] else [].

Definition rdma_ports (class : string) : Meta :=
  extend ∅ (sorted_names class ≫= λ dev,
    sorted_names (class +:+ "/" +:+ dev +:+ "/ports") ≫= rdma_port class dev).

(** [probed] with the root directory as a prefix. *)
Definition probed (root : string) : Meta :=
  let kernel := match read_trim (root +:+ "proc/sys/kernel/osrelease") with
    | Some v => [("kernel", v)] | None => [] end in
  let drivers := DRIVER_MODULES ≫= λ m,
    match read_trim (root +:+ "sys/module/" +:+ m +:+ "/version") with
    | Some v => [("driver." +:+ m, v)] | None => [] end in
  extend (extend ∅ (kernel ++ drivers)) (bt_iter (rdma_ports (root +:+ "sys/class/infiniband"))).
End probing.

Section collecting.
Context (read_to_string : string → option string) (read_dir : string → list string).
Context (parse_json : string → option Value) (to_string : Value → string).

Definition from_file (path : string) : option Meta :=
  text ← read_to_string path; v ← parse_json text; obj ← as_object v;
  Some (extend ∅ ((λ '(k, v), (k, match v with Str s => s | other => to_string other end)) <$> obj)).

(** The box, then the file, then the variables; a later source overrides. *)
Definition collect_meta (meta_file : option string) (vars : list (string * string)) : Meta :=
  let meta := probed read_to_string read_dir "/" in
  let meta := match meta_file with
    | Some path =>
        if str_empty path then meta
        else match from_file path with Some m => extend meta (bt_iter m) | None => meta end
    | None => meta
    end in
  (bounded (extend meta (bt_iter (from_env vars)))).1.
End collecting.

(** ** Facts *)

Lemma bounded_fold l kept0 dropped0 :
  NoDup l.*1 → (∀ k, k ∈ l.*1 → kept0 !! k = None) →
  let '(kept, dropped) := foldl bounded_step (kept0, dropped0) l in
  (∀ k v, kept !! k = Some v ↔
     kept0 !! k = Some v ∨ (k, v) ∈ l ∧ kept !! k = Some v ∧ fits k v = true) ∧
  (∀ k, k ∈ dropped ↔ k ∈ dropped0 ∨ k ∈ l.*1 ∧ kept !! k = None) ∧
  (size kept0 ≤ MAX_KEYS → size kept ≤ MAX_KEYS) ∧
  (size kept0 ≤ size kept) ∧
  (∀ k v, (k, v) ∈ l → fits k v = true → kept !! k = None → MAX_KEYS ≤ size kept).
Proof.
  revert kept0 dropped0. induction l as [|[k v] l IH]; intros kept0 dropped0; cbn [fmap list_fmap foldl].
  { intros _ _. split_and!; try set_solver; auto. }
  intros [Hk Hnd]%list.NoDup_cons Hfresh. cbn [bounded_step].
  destruct (fits k v) eqn:Hf; cbn [andb]; [case_bool_decide as Hs|].
  - assert (kept0 !! k = None) as Hk0 by (apply Hfresh; set_solver).
    assert (∀ k', k' ∈ l.*1 → <[k:=v]> kept0 !! k' = None) as Hfresh'.
    { intros k' Hk'. rewrite lookup_insert_ne by (intros ->; by apply Hk). apply Hfresh. set_solver. }
    specialize (IH (<[k:=v]> kept0) dropped0 Hnd Hfresh').
    destruct (foldl _ _ l) as [kept dropped]. destruct IH as (H1 & H2 & H3 & H4 & H5).
    rewrite map_size_insert_None in * by done.
    assert (kept !! k = Some v) as Hkk by (apply H1; left; by rewrite lookup_insert_eq).
    split_and!; [|set_solver|lia|lia|set_solver].
    intros k' v'. rewrite H1, elem_of_cons. destruct (decide (k = k')) as [->|Hne].
    + rewrite lookup_insert_eq. naive_solver.
    + rewrite lookup_insert_ne by done. naive_solver.
  - assert (kept0 !! k = None) as Hk0 by (apply Hfresh; set_solver).
    specialize (IH kept0 (dropped0 ++ [k]) Hnd ltac:(set_solver)).
    destruct (foldl _ _ l) as [kept dropped]. destruct IH as (H1 & H2 & H3 & H4 & H5).
    assert (kept !! k = None) as Hkk.
    { destruct (kept !! k) as [w|] eqn:E; [|done]. apply H1 in E as [E|[E _]]; [congruence|].
      destruct Hk. apply list_elem_of_fmap. by exists (k, w). }
    split_and!; [intros k' v'; rewrite H1, elem_of_cons; naive_solver|set_solver|auto|auto|].
    intros k' v' _ _ _. lia.
  - assert (kept0 !! k = None) as Hk0 by (apply Hfresh; set_solver).
    specialize (IH kept0 (dropped0 ++ [k]) Hnd ltac:(set_solver)).
    destruct (foldl _ _ l) as [kept dropped]. destruct IH as (H1 & H2 & H3 & H4 & H5).
    assert (kept !! k = None) as Hkk.
    { destruct (kept !! k) as [w|] eqn:E; [|done]. apply H1 in E as [E|[E _]]; [congruence|].
      destruct Hk. apply list_elem_of_fmap. by exists (k, w). }
    split_and!; [intros k' v'; rewrite H1, elem_of_cons; naive_solver|set_solver|auto|auto|].
    intros k' v' [[= -> ->]|Hin]%elem_of_cons Hf'; [congruence|by eapply H5].
Qed.

(** [bounded] splits what an agent sends into the entries it keeps and the
    keys it drops. It keeps only entries within the limits and at most
    [MAX_KEYS] of them, drops every other key, and drops an entry within the
    limits only when [MAX_KEYS] are kept. *)
Theorem bounded_spec meta :
  let '(kept, dropped) := bounded meta in
  (∀ k v, kept !! k = Some v → meta !! k = Some v ∧ fits k v = true) ∧
  size kept ≤ MAX_KEYS ∧
  (∀ k, k ∈ dropped ↔ is_Some (meta !! k) ∧ kept !! k = None) ∧
  (∀ k v, meta !! k = Some v → fits k v = true → kept !! k = None → size kept = MAX_KEYS).
Proof.
  pose proof (bounded_fold (bt_iter meta) ∅ [] (bt_keys_NoDup meta)
    ltac:(intros; apply lookup_empty)) as H.
  unfold bounded. destruct (foldl _ _ _) as [kept dropped]. destruct H as (H1 & H2 & H3 & H4 & H5).
  rewrite map_size_empty in *. split_and!.
  - intros k v [Hk|(Hk & _ & Hf)]%H1; [by rewrite lookup_empty in Hk|].
    by rewrite <-elem_of_bt_iter.
  - apply H3. unfold MAX_KEYS. lia.
  - intros k. rewrite H2. fold (bt_keys meta). rewrite elem_of_bt_keys. set_solver.
  - intros k v Hk Hf Hn. rewrite <-elem_of_bt_iter in Hk. specialize (H5 k v Hk Hf Hn).
    specialize (H3 ltac:(unfold MAX_KEYS; lia)). lia.
Qed.
