(* ===== verification/Glob.v ===== *)
(** * Interface patterns (rust/mentatd/src/announce.rs)

    The entries of [MENTAT_ANNOUNCE_IFACES]: the parser, the backtracking
    matcher behind a pattern, and the ranking of interfaces it produces. The
    matcher is proved to decide the usual reading of [*] and [?], and to stop.
    Both are read character by character, a character being its UTF-8 bytes. *)

From S2P Require Import Prelude Text Stable.

(** A character is kept as its UTF-8 bytes, so a text is a list of strings. *)
Abbreviation text := (list string) (only parsing).
Definition star_char : string := "*".
Definition any_char : string := "?".

(** [s.chars().collect()]: a character begins at each byte that does not
    continue one. *)
Definition begins_char (s : string) : bool :=
  match s with String c _ => negb (bool_decide (128 ≤ N_of_ascii c < 192)%N) | EmptyString => true end.
Fixpoint chars (s : string) : text :=
  match s with
  | EmptyString => []
  | String c s =>
      match chars s with
      | ch :: rest => if begins_char s then String c EmptyString :: ch :: rest else String c ch :: rest
      | [] => [String c EmptyString]
      end
  end.

Lemma chars_joined s : foldr String.append EmptyString (chars s) = s.
Proof.
  induction s as [|c s IH]; [done|]. cbn [chars]. rewrite <-IH at 2.
  destruct (chars s); [done|]. by destruct (begins_char s).
Qed.

(** ** The loop

    [pi] and [ni] are the positions in the pattern and in the name, [star] and
    [resume] where to go on when the last star has taken too little. One unit
    of fuel is one turn of the loop. *)
Fixpoint glob_loop (fuel : nat) (p n : text) (pi ni : nat) (star : option nat) (resume : nat)
    : option bool :=
  match fuel with
  | 0 => None
  | S fuel =>
      if decide (ni < length n) then
        if decide (p !! pi = Some any_char ∨ (is_Some (p !! pi) ∧ p !! pi = n !! ni))
        then glob_loop fuel p n (S pi) (S ni) star resume
        else if decide (p !! pi = Some star_char)
        then glob_loop fuel p n (S pi) ni (Some pi) ni
        else match star with
             | Some s => glob_loop fuel p n (S s) (S resume) star (S resume)
             | None => Some false
             end
      else Some (forallb (λ c, bool_decide (c = star_char)) (drop pi p))
  end.

(** Each turn moves the name forward, or moves [resume] forward, or moves to a
    later star: this many turns are enough. *)
Definition glob_fuel (p n : text) : nat :=
  let w := length n + 2 in S (length p * (w * w) + (length n + 1) * w + length n).

Definition glob_match (pat name : string) : bool :=
  let p := chars pat in let n := chars name in
  default false (glob_loop (glob_fuel p n) p n 0 0 None 0).

(** ** What a pattern means *)

Inductive matches : text → text → Prop :=
  | m_nil : matches [] []
  | m_star p skipped n : matches p n → matches (star_char :: p) (skipped ++ n)
  | m_any p c n : matches p n → matches (any_char :: p) (c :: n)
  | m_char p c n : c ≠ star_char → matches p n → matches (c :: p) (c :: n).

Section meaning.
Implicit Types p q n seg : text.

(** One literal position of a pattern against one character. *)
Definition fits_char (c d : string) : Prop := c ≠ star_char ∧ (c = any_char ∨ c = d).

Lemma matches_cons_inv c p n : c ≠ star_char →
  matches (c :: p) n ↔ ∃ d n', n = d :: n' ∧ fits_char c d ∧ matches p n'.
Proof.
  intros Hc. split.
  - inversion 1; subst; [done| |]; (eexists _, _; split; [done|]); by split; [split; auto|].
  - intros (d & n' & -> & [_ [->| ->]] & Hm); [by apply m_any|by apply m_char].
Qed.

Lemma matches_star_inv p n : matches (star_char :: p) n ↔ ∃ k, k ≤ length n ∧ matches p (drop k n).
Proof.
  split.
  - inversion 1 as [|? skipped n' Hm| |]; subst; [|done].
    exists (length skipped). rewrite length_app, drop_app_length. split; [lia|done].
  - intros (k & Hk & Hm). rewrite <-(take_drop k n). by apply m_star.
Qed.

Lemma matches_nil_inv n : matches [] n ↔ n = [].
Proof. split; [by inversion 1|intros ->; constructor]. Qed.

(** A run of literals takes exactly as many characters as it has. *)
Lemma matches_segment seg q n : Forall (λ c, c ≠ star_char) seg →
  matches (seg ++ q) n ↔ ∃ n1 n2, n = n1 ++ n2 ∧ Forall2 fits_char seg n1 ∧ matches q n2.
Proof.
  revert n. induction seg as [|c seg IH]; intros n Hs; cbn.
  - split; [|by intros (n1 & n2 & -> & ->%Forall2_nil_inv_l & ?)].
    intros ?. exists [], n. split_and!; [done|constructor|done].
  - apply list.Forall_cons in Hs as [Hc Hs]. rewrite matches_cons_inv by done. split.
    + intros (d & n' & -> & Hf & (n1 & n2 & -> & H1 & H2)%IH); [|done].
      exists (d :: n1), n2. split_and!; [done|by constructor|done].
    + intros (n1 & n2 & -> & (d & n1' & Hf & H1 & ->)%Forall2_cons_inv_l & H2).
      exists d, (n1' ++ n2). split_and!; [done|done|]. apply IH; [done|]. by exists n1', n2.
Qed.

Lemma matches_empty p : matches p [] ↔ Forall (λ c, c = star_char) p.
Proof.
  induction p as [|c p IH]; [split; constructor|]. rewrite list.Forall_cons, <-IH.
  destruct (decide (c = star_char)) as [->|Hc].
  - rewrite matches_star_inv. split.
    + intros (k & _ & Hm). rewrite drop_nil in Hm. done.
    + intros [_ Hm]. exists 0. split; [cbn; lia|done].
  - rewrite matches_cons_inv by done. split; [by intros (? & ? & ? & _)|by intros [? _]].
Qed.
End meaning.

(** ** The loop decides it *)

Section loop.
Context (p n : text).

(** What is left to decide in a state of the loop. *)
Definition pending (pi ni : nat) (star : option nat) (resume : nat) : Prop :=
  match star with
  | None => matches (drop pi p) (drop ni n)
  | Some s => ∃ k, resume ≤ k ≤ length n ∧ matches (drop (S s) p) (drop k n)
  end.

(** The positions past the last star have matched one by one. *)
Definition aligned (pi ni : nat) (star : option nat) (resume : nat) : Prop :=
  ni ≤ length n ∧ pi ≤ length p ∧
  match star with
  | None => resume = 0
  | Some s => p !! s = Some star_char ∧ resume ≤ ni ∧
      ∃ seg, drop (S s) p = seg ++ drop pi p ∧ Forall (λ c, c ≠ star_char) seg ∧
             Forall2 fits_char seg (take (ni - resume) (drop resume n))
  end.

(** The measure that falls on every turn. *)
Definition effort (ni : nat) (star : option nat) (resume : nat) : nat :=
  let w := length n + 2 in
  (length p - from_option S 0 star) * (w * w) + (length n + 1 - resume) * w + (length n - ni).

Hypothesis plain : star_char ∉ n.

Lemma name_no_star ni c : n !! ni = Some c → c ≠ star_char.
Proof. intros Hc ->. by apply plain, (list_elem_of_lookup_2 _ ni). Qed.

(** The positions past a star, taken with the rest of the pattern, against the
    rest of the name from where the star stopped. *)
Lemma aligned_pending pi ni s resume : aligned pi ni (Some s) resume →
  matches (drop (S s) p) (drop resume n) ↔ matches (drop pi p) (drop ni n).
Proof.
  intros (Hni & _ & _ & Hr & seg & -> & Hseg & Hfit).
  assert (drop resume n = take (ni - resume) (drop resume n) ++ drop ni n) as Hsplit.
  { rewrite <-(take_drop (ni - resume) (drop resume n)) at 1. f_equal.
    rewrite drop_drop. f_equal. lia. }
  rewrite matches_segment by done. split; [|intros Hm; by eexists _, _].
  intros (n1 & n2 & Heq & H1 & H2). rewrite Hsplit in Heq.
  apply app_inj_1 in Heq as [_ ->]; [done|].
  by rewrite <-(Forall2_length H1), (Forall2_length Hfit).
Qed.

(** From a later position the literals leave less of the name. *)
Lemma aligned_later pi ni s resume k m : aligned pi ni (Some s) resume →
  resume ≤ k ≤ length n → matches (drop (S s) p) (drop k n) → m = k + (ni - resume) →
  m ≤ length n ∧ matches (drop pi p) (drop m n).
Proof.
  intros (Hni & _ & _ & Hr & seg & -> & Hseg & Hfit) Hk Hm ->.
  apply matches_segment in Hm as (n1 & n2 & Heq & H1 & H2); [|done].
  assert (length n1 = ni - resume) as Hl.
  { rewrite <-(Forall2_length H1), (Forall2_length Hfit), length_take, length_drop. lia. }
  assert (length (drop k n) = length n1 + length n2) as Hlen by by rewrite Heq, length_app.
  rewrite length_drop in Hlen. split; [lia|].
  replace (drop (k + (ni - resume)) n) with n2; [done|].
  by rewrite <-drop_drop, Heq, <-Hl, drop_app_length.
Qed.

Lemma drop_cons {A} (l : list A) i x : l !! i = Some x → drop i l = x :: drop (S i) l.
Proof. intros Hl. by apply drop_S. Qed.

Lemma literal_fits pi ni c d : p !! pi = Some c → n !! ni = Some d →
  p !! pi = Some any_char ∨ (is_Some (p !! pi) ∧ p !! pi = n !! ni) ↔ fits_char c d.
Proof.
  intros Hc Hd. rewrite Hc, Hd. unfold fits_char. split.
  - intros [[= ->]|[_ [= ->]]]; [by split; [|left]|]. split; [by eapply name_no_star|by right].
  - intros [_ [->| ->]]; [by left|by right].
Qed.

Lemma advance pi ni star resume : ni < length n →
  p !! pi = Some any_char ∨ (is_Some (p !! pi) ∧ p !! pi = n !! ni) → aligned pi ni star resume →
  aligned (S pi) (S ni) star resume ∧
  (pending (S pi) (S ni) star resume ↔ pending pi ni star resume).
Proof.
  intros Hlt Hhit Hal. destruct (lookup_lt_is_Some_2 n ni Hlt) as [d Hd].
  destruct (p !! pi) as [c|] eqn:Hc; [|by destruct Hhit as [|[[? ?] ?]]].
  rewrite <-Hc in Hhit. pose proof (proj1 (literal_fits _ _ _ _ Hc Hd) Hhit) as Hfit.
  pose proof (lookup_lt_Some _ _ _ Hc). split.
  - destruct Hal as (_ & _ & Hal). split; [lia|]. split; [lia|]. destruct star as [s|]; [|done].
    destruct Hal as (Hs & Hr & seg & Hseg & Hall & Hf). split_and!; [done|lia|].
    exists (seg ++ [c]). split_and!.
    + by rewrite Hseg, (drop_cons _ _ _ Hc), <-app_assoc.
    + apply Forall_app. split; [done|]. constructor; [apply Hfit|constructor].
    + replace (S ni - resume) with (S (ni - resume)) by lia. rewrite (take_S_r _ _ d).
      * apply Forall2_app; [done|]. constructor; [done|constructor].
      * rewrite lookup_drop. by replace (resume + (ni - resume)) with ni by lia.
  - destruct star as [s|]; [done|]. cbn.
    rewrite (drop_cons _ _ _ Hc), (drop_cons _ _ _ Hd), matches_cons_inv by apply Hfit.
    split; [intros Hm; by eexists _, _|]. by intros (d' & n' & [= -> ->] & _ & Hm).
Qed.

Lemma take_star pi ni star resume : p !! pi = Some star_char → aligned pi ni star resume →
  aligned (S pi) ni (Some pi) ni ∧ (pending (S pi) ni (Some pi) ni ↔ pending pi ni star resume).
Proof.
  intros Hc Hal. pose proof (lookup_lt_Some _ _ _ Hc) as Hlt. pose proof Hal as (Hni & _ & Hst).
  assert (matches (drop pi p) (drop ni n) ↔ pending (S pi) ni (Some pi) ni) as Hhere.
  { cbn. rewrite (drop_cons _ _ _ Hc), matches_star_inv. rewrite length_drop. split.
    - intros (k & Hk & Hm). exists (ni + k). rewrite drop_drop in Hm. split; [lia|done].
    - intros (k & Hk & Hm). exists (k - ni). rewrite drop_drop.
      replace (ni + (k - ni)) with k by lia. split; [lia|done]. }
  split.
  - split; [done|]. split; [lia|]. split_and!; [done|lia|]. exists []. cbn. split; [done|].
    rewrite Nat.sub_diag, take_0. split; constructor.
  - rewrite <-Hhere. destruct star as [s|]; [|done]. cbn. split.
    + intros Hm. exists resume. split; [lia|]. by eapply aligned_pending.
    + intros (k & Hk & Hm). rewrite Hhere. cbn.
      destruct (aligned_later _ _ _ _ k _ Hal Hk Hm eq_refl) as [Hle Hm'].
      rewrite (drop_cons _ _ _ Hc), matches_star_inv in Hm'. destruct Hm' as (j & Hj & Hm').
      rewrite length_drop in Hj. rewrite drop_drop in Hm'.
      exists (k + (ni - resume) + j). split; [lia|done].
Qed.

(** Against a character it does not fit, the pattern position is stuck. *)
Lemma stuck pi ni : ni < length n →
  ¬ (p !! pi = Some any_char ∨ (is_Some (p !! pi) ∧ p !! pi = n !! ni)) →
  p !! pi ≠ Some star_char → ¬ matches (drop pi p) (drop ni n).
Proof.
  intros Hlt Hno Hst Hm. destruct (lookup_lt_is_Some_2 n ni Hlt) as [d Hd].
  rewrite (drop_cons _ _ _ Hd) in Hm. destruct (p !! pi) as [c|] eqn:Hc.
  - rewrite (drop_cons _ _ _ Hc), matches_cons_inv in Hm by congruence.
    destruct Hm as (d' & n' & [= <- <-] & Hf & _). rewrite <-Hc in Hno.
    by apply Hno, (literal_fits _ _ _ _ Hc Hd).
  - rewrite drop_ge in Hm by by apply lookup_ge_None. by apply matches_nil_inv in Hm.
Qed.

Lemma fall_back pi ni s resume : ni < length n →
  ¬ matches (drop pi p) (drop ni n) → aligned pi ni (Some s) resume →
  aligned (S s) (S resume) (Some s) (S resume) ∧
  (pending (S s) (S resume) (Some s) (S resume) ↔ pending pi ni (Some s) resume).
Proof.
  intros Hlt Hno Hal. pose proof Hal as (Hni & Hpi & Hs & Hr & _).
  pose proof (lookup_lt_Some _ _ _ Hs). split.
  - split_and!; [lia|lia|done|lia|]. exists []. cbn. split; [done|].
    rewrite Nat.sub_diag, take_0. split; constructor.
  - cbn. split; intros (k & Hk & Hm); [exists k; split; [lia|done]|].
    destruct (decide (k = resume)) as [->|]; [|exists k; split; [lia|done]].
    by rewrite (aligned_pending _ _ _ _ Hal) in Hm.
Qed.

Lemma finish pi ni star resume : length n ≤ ni → aligned pi ni star resume →
  forallb (λ c, bool_decide (c = star_char)) (drop pi p) = true ↔ pending pi ni star resume.
Proof.
  intros Hge Hal. pose proof Hal as (Hni & _ & Hst). assert (ni = length n) as -> by lia.
  transitivity (matches (drop pi p) (drop (length n) n)).
  { rewrite drop_all, matches_empty, <-Is_true_true, forallb_True.
    apply Forall_iff. intros c. by rewrite bool_decide_spec. }
  destruct star as [s|]; [|done]. cbn. split.
  - intros Hm. exists resume. split; [lia|]. by apply (aligned_pending _ _ _ _ Hal).
  - intros (k & Hk & Hm). destruct (aligned_later _ _ _ _ k _ Hal Hk Hm eq_refl) as [Hle Hm'].
    by replace (k + (length n - resume)) with (length n) in Hm' by lia.
Qed.

(** Moving to a later star, or moving [resume] up, takes less effort. *)
Lemma effort_star ni pi star resume : ni ≤ length n → resume ≤ ni →
  from_option S 0 star ≤ pi < length p → effort ni (Some pi) ni < effort ni star resume.
Proof.
  intros Hni Hr Hpi. unfold effort. cbn [from_option].
  set (w := length n + 2). set (k := from_option S 0 star) in *.
  pose proof (Nat.mul_le_mono_r (S (length p - S pi)) (length p - k) (w * w) ltac:(lia)).
  pose proof (Nat.mul_le_mono_r (length n + 1 - ni) (length n + 1 - resume) w ltac:(lia)).
  assert (1 ≤ w * w) by (subst w; lia). lia.
Qed.

Lemma effort_resume ni s resume : resume ≤ ni → ni < length n →
  effort (S resume) (Some s) (S resume) < effort ni (Some s) resume.
Proof.
  intros Hr Hni. unfold effort. set (w := length n + 2).
  replace (length n + 1 - resume) with (S (length n + 1 - S resume)) by lia.
  rewrite Nat.mul_succ_l. subst w. lia.
Qed.

(** With the effort as fuel the loop returns, and returns the truth. *)
Lemma glob_loop_spec fuel pi ni star resume :
  effort ni star resume < fuel → aligned pi ni star resume →
  ∃ b, glob_loop fuel p n pi ni star resume = Some b ∧ (b = true ↔ pending pi ni star resume).
Proof.
  revert pi ni star resume. induction fuel as [|fuel IH]; intros pi ni star resume Hf Hal; [lia|].
  cbn [glob_loop]. case_decide as Hlt; [|eexists; split; [done|]; apply finish; [lia|done]].
  case_decide as Hhit; [|case_decide as Hst].
  - destruct (advance _ _ _ _ Hlt Hhit Hal) as [Hal' Hiff]. setoid_rewrite <-Hiff. apply IH; [|done].
    unfold effort in *. lia.
  - destruct (take_star _ _ _ _ Hst Hal) as [Hal' Hiff]. setoid_rewrite <-Hiff. apply IH; [|done].
    apply lookup_lt_Some in Hst. destruct Hal as (? & ? & Hal).
    enough (effort ni (Some pi) ni < effort ni star resume) by lia. apply effort_star; [done| |].
    + destruct star as [s|]; [apply Hal|lia].
    + destruct star as [s|]; cbn; [|lia]. destruct Hal as (_ & _ & seg & Hseg & _).
      apply (f_equal length) in Hseg. rewrite length_app, !length_drop in Hseg. lia.
  - pose proof (stuck _ _ Hlt Hhit Hst) as Hno. destruct star as [s|].
    + destruct (fall_back _ _ _ _ Hlt Hno Hal) as [Hal' Hiff]. setoid_rewrite <-Hiff.
      apply IH; [|done]. destruct Hal as (? & ? & ? & ? & _).
      pose proof (effort_resume ni s resume ltac:(done) Hlt). lia.
    + eexists. split; [done|]. by split.
Qed.
End loop.

(** ** Entries, and what they select *)

(** [split_once('=')] with a default, [split('+')], each piece trimmed. *)
Record Spec := mkSpec { pat : string; sp_tags : list string }.

Definition trimmed_pieces (c : ascii) (s : string) : list string :=
  filter (λ t, str_empty t = false) (trim <$> split_char c s).

Definition parse_spec (s : string) : list Spec :=
  (λ e, let '(name, tags) := default (e, EmptyString) (split_once "=" e) in
        mkSpec (trim name) (trimmed_pieces "+" tags)) <$> trimmed_pieces "," s.

Fixpoint match_spec_from (i : nat) (spec : list Spec) (name : string) : option (nat * list string) :=
  match spec with
  | [] => None
  | s :: spec => if glob_match (pat s) name then Some (i, sp_tags s) else match_spec_from (S i) spec name
  end.
Definition match_spec (spec : list Spec) (name : string) : option (nat * list string) :=
  match_spec_from 0 spec name.

(** What the kernel lists, one row per interface and address. *)
Record Interface := mkInterface {
  if_name : string; if_up : bool; if_loopback : bool; if_broadcast : bool;
  if_ip : option string; if_associated : option string }.

Record Iface := mkIface { iface : Interface; if_tags : list string }.

Definition BRIDGES : list string := ["docker"; "veth"; "br-"; "virbr"].

Definition usable_iface (i : Interface) : bool := if_up i && negb (if_loopback i).

Definition ranked_iface (spec : list Spec) (i : Interface) : option (nat * Iface) :=
  match spec with
  | [] => if existsb (λ p, starts_with p (if_name i)) BRIDGES then None else Some (0, mkIface i [])
  | _ => match match_spec spec (if_name i) with
         | Some (rank, tags) => Some (rank, mkIface i tags)
         | None => None
         end
  end.

Definition selected_ifaces (spec : list Spec) (kernel : list Interface) : list Iface :=
  snd <$> sort_by_key fst (omap (ranked_iface spec) (filter (λ i, usable_iface i = true) kernel)).

(** [MENTAT_ANNOUNCE_ADDRS]: the entries that are IPv4 addresses, when any is. *)
Definition announced_override (is_ipv4 : string → bool) (raw : string)
    : option (list (string * list string)) :=
  match parse_spec raw with
  | [] => None
  | spec =>
      match filter (λ s, is_ipv4 (pat s) = true) spec with
      | [] => None
      | ok => Some ((λ s, (pat s, sp_tags s)) <$> ok)
      end
  end.

Definition broadcast_targets (port : N) (selected : list Iface) : list string :=
  omap (λ i, if if_broadcast (iface i)
             then (λ b, b +:+ ":" +:+ pretty port) <$> if_associated (iface i) else None) selected.

Definition all_local_addrs (kernel : list Interface) : list string :=
  omap if_ip (filter (λ i, if_up i = true) kernel).

Definition local_addrs (override : option (list (string * list string))) (selected : list Iface)
    : list string :=
  match override with
  | Some o => o.*1
  | None => omap (λ i, if_ip (iface i)) selected
  end.

Definition local_addr_ifaces (override : option (list (string * list string))) (selected : list Iface)
    : gmap string string :=
  match override with
  | Some _ => ∅
  | None => foldl (λ m i, match if_ip (iface i) with Some a => <[a := if_name (iface i)]> m | None => m end)
                  ∅ selected
  end.

Definition local_addr_macs (sysfs : string → option string) (ifaces : gmap string string) : gmap string string :=
  omap (λ i, match sysfs ("/sys/class/net/" +:+ i +:+ "/address") with
             | Some mac => let mac := to_ascii_lowercase (trim mac) in
                           if str_empty mac then None else Some mac
             | None => None
             end) ifaces.

Definition local_addr_tags (override : option (list (string * list string))) (selected : list Iface)
    : gmap string (list string) :=
  let keep (m : gmap string (list string)) (a : string) (t : list string) :=
    match t with [] => m | _ => <[a := t]> m end in
  match override with
  | Some o => foldl (λ m '(a, t), keep m a t) ∅ o
  | None => foldl (λ m i, match if_ip (iface i) with Some a => keep m a (if_tags i) | None => m end) ∅ selected
  end.

(** ** The unit tests of the source *)

Definition fleet : list string := ["enp1s0f0np0"; "enp1s0f1np1"; "eno1"; "enP2p1s0"; "docker0"].
Definition up_iface (name : string) : Interface := mkInterface name true false true (Some name) None.
Definition ranked (spec : string) : list (string * list string) :=
  (λ i, (if_name (iface i), if_tags i)) <$> selected_ifaces (parse_spec spec) (up_iface <$> fleet).

Example a_plain_name_is_not_a_prefix :
  glob_match "eno1" "eno1" = true ∧ glob_match "en" "eno1" = false ∧ ranked "eno1" = [("eno1", [])].
Proof. vm_compute. done. Qed.

Example wildcards_match_fnmatch_style :
  glob_match "en*f*np*" "enp1s0f0np0" = true ∧ glob_match "en*f*np*" "eno1" = false ∧
  glob_match "eno?" "eno1" = true ∧ glob_match "eno?" "eno10" = false ∧ glob_match "**" "anything" = true ∧
  glob_match "eno1*" "eno1" = true ∧ glob_match "*np0" "enp1s0f0np0" = true ∧
  glob_match "*np2" "enp1s0f0np0" = false.
Proof. vm_compute. done. Qed.

Example one_spec_ranks_and_tags_a_mixed_fleet :
  ranked "en*f*np*=connectx+rdma,en*=lan" =
    [("enp1s0f0np0", ["connectx"; "rdma"]); ("enp1s0f1np1", ["connectx"; "rdma"]);
     ("eno1", ["lan"]); ("enP2p1s0", ["lan"])].
Proof. vm_compute. done. Qed.

(** ** Theorems *)

(** C40: For every pattern and every name that holds no star of its own, the
    backtracking matcher stops within the fuel and answers whether the name
    has the form the pattern describes: [*] stands for any run of characters,
    [?] for one, and everything else for itself. *)
Theorem glob_match_iff pat name : star_char ∉ chars name →
  glob_loop (glob_fuel (chars pat) (chars name)) (chars pat) (chars name) 0 0 None 0 = Some (glob_match pat name) ∧
  (glob_match pat name = true ↔ matches (chars pat) (chars name)).
Proof.
  intros Hplain. unfold glob_match.
  set (p := chars pat). set (n := chars name) in *.
  destruct (glob_loop_spec p n Hplain (glob_fuel p n) 0 0 None 0) as (b & Hb & Hiff).
  - unfold glob_fuel, effort. cbn. lia.
  - split_and!; [lia|lia|done].
  - rewrite Hb. by split; [|rewrite Hiff].
Qed.

(** A star in the name itself is read as a literal before the pattern's star
    is seen, so there the matcher and the meaning part. *)
Example star_in_a_name : glob_match "*" "*a" = false ∧ matches ["*"] ["*"; "a"].
Proof. split; [done|]. apply (m_star [] ["*"; "a"] []), m_nil. Qed.

(** [?] stands for a character, however many bytes it has. *)
Example one_character : glob_match "en?0" "ené0" = true ∧ glob_match "en?0" "enéé0" = false.
Proof. by vm_compute. Qed.

Lemma match_spec_from_Some i spec name k tags :
  match_spec_from i spec name = Some (k, tags) ↔
  i ≤ k ∧ (∃ s, spec !! (k - i) = Some s ∧ tags = sp_tags s ∧ glob_match (pat s) name = true) ∧
  ∀ j s, j < k - i → spec !! j = Some s → glob_match (pat s) name = false.
Proof.
  revert i. induction spec as [|s spec IH]; intros i; cbn [match_spec_from].
  { split; [done|]. by intros (_ & (s & ? & _) & _). }
  destruct (glob_match (pat s) name) eqn:Hm.
  - split.
    + intros [= <- <-]. rewrite Nat.sub_diag. split_and!; [lia|by exists s|lia].
    + intros (Hle & (s' & Hs & -> & _) & Hno). destruct (k - i) as [|d] eqn:Hd.
      * cbn in Hs. injection Hs as <-. do 2 f_equal. lia.
      * specialize (Hno 0 s ltac:(lia) eq_refl). congruence.
  - rewrite IH. split.
    + intros (Hle & (s' & Hs & -> & Hs') & Hno). split; [lia|].
      replace (k - i) with (S (k - S i)) by lia. split; [by exists s'|].
      intros [|j] s'' Hj Hl; [by simplify_eq/=|]. apply (Hno j); [lia|done].
    + intros (Hle & (s' & Hs & -> & Hs') & Hno). destruct (k - i) as [|d] eqn:Hd.
      { cbn in Hs. congruence. }
      replace (k - S i) with d by lia. split; [lia|]. split; [by exists s'|].
      intros j s'' Hj Hl. apply (Hno (S j)); [lia|done].
Qed.

(** The interfaces an entry wins, in the kernel's order. *)
Definition won_by (spec : list Spec) (kernel : list Interface) (k : nat) : list Interface :=
  filter (λ i, usable_iface i = true ∧ fst <$> match_spec spec (if_name i) = Some k) kernel.

Lemma bucket_won spec kernel k s : spec !! k = Some s →
  snd <$> bucket fst k (omap (ranked_iface spec) (filter (λ i, usable_iface i = true) kernel))
  = (λ i, mkIface i (sp_tags s)) <$> won_by spec kernel k.
Proof.
  intros Hs. unfold bucket, won_by. induction kernel as [|i kernel IH]; [done|].
  assert (ranked_iface spec i = (λ '(r, t), (r, mkIface i t)) <$> match_spec spec (if_name i)) as Hr.
  { unfold ranked_iface. destruct spec as [|s0 spec]; [done|]. by destruct (match_spec _ _) as [[? ?]|]. }
  rewrite (filter_cons _ i kernel). destruct (decide (usable_iface i = true)) as [Hu|Hu].
  - rewrite (filter_cons (λ i, usable_iface i = true ∧ _)). cbn [omap list_omap]. rewrite Hr.
    destruct (match_spec spec (if_name i)) as [[r t]|] eqn:Hm; cbn [fmap option_fmap option_map].
    + rewrite filter_cons. cbn [fst]. destruct (decide (r = k)) as [->|Hne].
      * rewrite decide_True by done. rewrite !fmap_cons, IH. cbn [snd]. do 2 f_equal.
        apply match_spec_from_Some in Hm as (_ & (s' & Hs' & -> & _) & _).
        rewrite Nat.sub_0_r in Hs'. by simplify_eq.
      * rewrite decide_False by (intros [_ [= ?]]; done). apply IH.
    + rewrite decide_False by (by intros [_ ?]). apply IH.
  - rewrite filter_cons_False by (by intros [? _]). apply IH.
Qed.

(** With entries configured, what is announced is exactly, for each entry
    in the operator's order, the usable interfaces whose first matching entry
    it is, in the kernel's order and with that entry's tags: a later entry
    neither re-ranks nor re-tags a name an earlier one claimed, and an
    interface no entry names is not announced. *)
Theorem selected_by_entry spec kernel : spec ≠ [] →
  selected_ifaces spec kernel
  = concat (imap (λ k s, (λ i, mkIface i (sp_tags s)) <$> won_by spec kernel k) spec) ∧
  ∀ k i, i ∈ won_by spec kernel k ↔
    i ∈ kernel ∧ usable_iface i = true ∧
    (∃ s, spec !! k = Some s ∧ glob_match (pat s) (if_name i) = true) ∧
    ∀ j s, j < k → spec !! j = Some s → glob_match (pat s) (if_name i) = false.
Proof.
  intros Hne. split.
  - unfold selected_ifaces. rewrite (sort_by_key_buckets _ (length spec)).
    + rewrite concat_map, map_map. f_equal. apply list_eq. intros k.
      rewrite list_lookup_fmap, list_lookup_imap. destruct (spec !! k) as [s|] eqn:Hs; cbn.
      * rewrite lookup_seq_lt by by apply lookup_lt_Some in Hs. cbn. f_equal. by apply bucket_won.
      * rewrite lookup_seq_ge by by apply lookup_ge_None. done.
    + intros [r i] (i' & _ & Hi)%list_elem_of_omap. unfold ranked_iface in Hi.
      destruct spec as [|s0 spec]; [done|].
      destruct (match_spec _ _) as [[r' t]|] eqn:Hm; simplify_eq. cbn.
      apply match_spec_from_Some in Hm as (_ & (s & Hs & _) & _).
      rewrite Nat.sub_0_r in Hs. by apply lookup_lt_Some in Hs.
  - intros k i. unfold won_by. rewrite list_elem_of_filter. split.
    + intros [[Hu Hk] Hi]. destruct (match_spec _ _) as [[r t]|] eqn:Hm; simplify_eq/=.
      apply match_spec_from_Some in Hm as (_ & (s & Hs & _ & Hg) & Hno).
      rewrite Nat.sub_0_r in *. split_and!; eauto.
    + intros (Hi & Hu & (s & Hs & Hg) & Hno). split; [split; [done|]|done].
      replace (match_spec spec (if_name i)) with (Some (k, sp_tags s)); [done|].
      symmetry. apply match_spec_from_Some. rewrite Nat.sub_0_r. split_and!; [lia|by exists s|done].
Qed.

(** ** Witnesses *)

Lemma glob_match_iff_witness :
  (star_char ∉ chars "enp1s0f0np0") ∧ glob_match "en*f*np?" "enp1s0f0np0" = true ∧
  matches (chars "en*f*np?") (chars "enp1s0f0np0").
Proof.
  assert (star_char ∉ chars "enp1s0f0np0") as Hp by (by apply (bool_decide_unpack _)).
  split; [done|]. split; [by vm_compute|].
  apply (proj2 (glob_match_iff "en*f*np?" "enp1s0f0np0" Hp)). by vm_compute.
Defined.

Definition demo_spec : list Spec := parse_spec "en*f*np*=connectx+rdma,en*=lan".
Lemma selected_by_entry_witness :
  demo_spec ≠ [] ∧ up_iface "eno1" ∈ won_by demo_spec (up_iface <$> fleet) 1 ∧
  glob_match "en*f*np*" "eno1" = false.
Proof.
  split; [done|]. assert (up_iface "eno1" ∈ won_by demo_spec (up_iface <$> fleet) 1) as Hin.
  { vm_compute. by repeat constructor. }
  split; [done|].
  apply (proj1 (proj2 (selected_by_entry demo_spec (up_iface <$> fleet) ltac:(done)) 1 (up_iface "eno1")) Hin)
    with (j := 0) (s := mkSpec "en*f*np*" ["connectx"; "rdma"]); [lia|done].
Defined.
