(* ===== verification/Agents.v ===== *)
(** * Agent connections (rust/mentatd/src/daemon.rs)

    The critical sections of [agent_conn]: where an agent lives, whether its
    address is another box's, its registration, its messages, and the loss of
    its link. *)

From S2P Require Import Prelude Json Proto Addr Island State Status Claim Placement Actors Clients Meta.

(** What a registration carries, once its metadata is bounded and its node is
    known. *)
Record Registration := mkReg {
  rg_agent : string; rg_group : string; rg_node_ip : string; rg_node_id : string;
  rg_machine : Machine; rg_container : string; rg_pid : N; rg_services : gmap string Service;
  rg_meta : Meta; rg_resume : list ResumeActor; rg_unacked : list string }.

Section agents.
Context `{HI : HashIter} (E : Env).

(** ** Where an agent lives *)

Definition agent_node (s : State) (claimed peer_ip : string) : string * string :=
  if str_empty claimed then
    if is_loopback peer_ip || bool_decide (peer_ip ∈ all_local_addrs (host E)) then (node_ip s, node_id s)
    else match find_first (λ p, bool_decide (pe_node_ip p = peer_ip ∨ peer_ip ∈ pe_addrs p))
                 (hash_values (peers s)) with
    | Some p => (pe_node_ip p, pe_node_id p)
    | None => (peer_ip, node_id_for peer_ip)
    end
  else if bool_decide (claimed = node_ip s) then (claimed, node_id s)
  else (claimed, node_id_for claimed).

(** A box: its node id, its name and its addresses. *)
Definition Box := (string * string * list string)%type.

Definition misfiled (node_ip_ node_id_ : string) (boxes : list Box) : option string :=
  if str_empty node_ip_ || is_loopback node_ip_ then None
  else match find_first (λ b : Box, bool_decide (node_ip_ ∈ b.2)) boxes with
  | None => None
  | Some (owner_id, owner_name, _) =>
      if bool_decide (owner_id = node_id_) then None
      else Some ("claimed " +:+ node_ip_ +:+ ", an address of " +:+ owner_name +:+
        ", which this daemon knows as a different node. Its GPUs would join no island and its group would take no fabric")
  end.

Definition boxes_of (s : State) : list Box :=
  (node_id s, hostname s, local_addrs (host E)) ::
  ((λ p, (pe_node_id p, pe_node_ip p, pe_addrs p)) <$> filter (λ p, pe_alive p = true) (hash_values (peers s))).
Definition misfiled_node (s : State) (node_ip_ node_id_ : string) : option string :=
  misfiled node_ip_ node_id_ (boxes_of s).

(** The section that refuses a misfiled agent. *)
Definition agent_check (w : Sock) (req : N) (agent_id node_ip_ node_id_ : string) : SM bool :=
  s ← get_st id;
  match misfiled_node s node_ip_ node_id_ with
  | None => mret true
  | Some why =>
      modify_st (λ s, s <| misfiled_warned ::= λ m, {[agent_id]} ∪ m |>) ;;
      send_ignore E w (Msg.refused "agent_refused" ("agent " +:+ agent_id +:+ " " +:+ why)) req [] ;;
      mret false
  end.

(** The opening of a connection: versions, then, under the lock, the agent's node
    and address. *)
Definition agent_hello (w : Sock) (req : N) (proto claimed peer_ip : string) : SM (option (string * string)) :=
  if negb (Version.major_matches proto) then
    send_ignore E w (proto_mismatch proto) req [] ;; mret None
  else x ← get_st (λ s, agent_node s claimed peer_ip); mret (Some x).

(** What the two sections leave to register: the hello, at the address and node
    of the first, with the meta the daemon's own limits allow. *)
Definition registration_of (agent_id group ip node container : string) (pid : N) (machine : Machine)
    (services : gmap string Service) (resume : list ResumeActor) (unacked : list string) (meta : Meta) : Registration :=
  mkReg agent_id group ip node machine container pid services (bounded meta).1 resume unacked.

(** ** Registration *)

Definition agent_row_patch (s : State) (group agent_id : string) : list Patch :=
  match agents s !! agent_id with
  | Some a => [patch_set ["groups"; group; "agents"; agent_id] (agent_row s a)]
  | None => []
  end.

(** The new row; it replaces an earlier connection outright. *)
Definition register_row (w : Sock) (r : Registration) : SM unit :=
  s ← get_st id;
  match agents s !! rg_agent r with Some old => shutdown (ag_writer old) | None => skip end ;;
  q ← seq;
  modify_st (λ s, s <| agents ::= <[rg_agent r := mkAgent (rg_agent r) (rg_group r) (rg_node_id r)
    (rg_node_ip r) (rg_machine r) (rg_container r) (rg_pid r) (rg_services r) (rg_meta r) w true
    None false None q]> |>) ;;
  bump (λ f c, c <| agents_registered ::= f |>) ;;
  s ← get_st id;
  emit_patch E "agent_register" (agent_row_patch s (rg_group r) (rg_agent r)) "".

(** The resumed actors to kill: known ones that are dead or have no owner
    left. *)
Definition resume_kills (s : State) (resume : list ResumeActor) : list string :=
  r_actor_id <$> filter (λ r, is_some_and (actors s !! r_actor_id r) (λ a,
    negb (is_some_and (clients s !! a_owner a) (λ _, true)) || is_dead (a_state a)) = true) resume.

Definition adopted_actor (r : Registration) (x : ResumeActor) : ActorInfo :=
  mkActor (r_actor_id x) (r_name x) (rg_group r) (rg_agent r) (rg_node_id r) (r_gpu_ids x) (r_owner x)
    Running (if bool_decide (r_pid x = 0%N) then None else Some (r_pid x)) [].
Definition to_adopt (s : State) (r : Registration) : list ActorInfo :=
  adopted_actor r <$> filter (λ x, actors s !! r_actor_id x = None) (rg_resume r).

Definition adopt_actors (r : Registration) : SM unit :=
  s ← get_st id;
  let new := to_adopt s r in
  modify_st (λ s, s <| actors ::= λ m, foldl (λ m a, <[a_id a := a]> m) m new |>) ;;
  s ← get_st id;
  let patches := (λ a, patch_set ["groups"; rg_group r; "actors"; a_id a] (actor_row a)) <$> new in
  if nonempty new then
    emit_patch E "actor_adopted" (patches ++ option_list (agent_patch s (rg_agent r))) ""
  else skip.

(** The calls the agent reports, the pending ones first. *)
Definition reported_refs (r : Registration) : list string :=
  (rg_resume r ≫= r_pending_refs) ++ rg_unacked r.

(** A ref id names its actor and, where it parses, its number. *)
Definition ref_parts (rid : string) : option string * option N :=
  match rsplit_once ":" rid with
  | Some (a, n) => (Some a, parse_u64 n)
  | None => (None, None)
  end.

Definition adopt_ref (agent_id rid : string) : SM unit :=
  s ← get_st id;
  match refs s !! rid with
  | Some _ => skip
  | None =>
      let '(actor, n) := ref_parts rid in
      match (a ← actor; actors s !! a) with
      | Some a =>
          if bool_decide (a_agent a = agent_id) then
            modify_st (λ s, s <| next_ref ::= λ x, from_option (λ n, N.max x (u64_succ n)) x n |>
              <| refs ::= <[rid := mkRef RefPending actor (a_owner a) "" (now_ms E) false]> |>)
          else skip
      | None => skip
      end
  end.
Definition adopt_refs (r : Registration) : SM unit :=
  for_each (reported_refs r) (adopt_ref (rg_agent r)).

(** The live actors of the agent that its resume list omits. *)
Definition missing_actors (s : State) (r : Registration) : list string :=
  a_id <$> filter (λ a, a_agent a = rg_agent r ∧ a_live a = true ∧
      a_id a ∉ r_actor_id <$> rg_resume r) (hash_values (actors s)).
Definition bury_missing (r : Registration) : SM unit :=
  ids ← get_st (λ s, missing_actors s r);
  for_each ids (λ i, mark_actor_dead E i "agent reconnected without this actor").

(** The calls held for the agent's actors. *)
Definition held_refs (s : State) (agent_id : string) : list string :=
  (filter (λ a, a_agent a = agent_id) (hash_values (actors s))) ≫=
    (λ a, (λ c : QueuedCall, c.1.1) <$> a_queued_calls a).
Definition on_agent (s : State) (agent_id : string) (x : RefInfo) : bool :=
  is_some_and (a ← rf_actor x; actors s !! a) (λ a, bool_decide (a_agent a = agent_id)).

(** A pending call that neither side holds is lost. *)
Definition lost_ref (s : State) (r : Registration) (rid : string) (x : RefInfo) : bool :=
  bool_decide (rf_state x = RefPending) && on_agent s (rg_agent r) x &&
  bool_decide ((rid ∉ reported_refs r) ∧ rid ∉ held_refs s (rg_agent r)).
Definition lose_ref (s : State) (r : Registration) (rid : string) (x : RefInfo) : RefInfo :=
  if lost_ref s r rid x
  then x <| rf_state := RefActorDied "call lost while the agent link was down" |> else x.
Definition fail_lost (r : Registration) : SM unit :=
  s ← get_st id;
  modify_st (λ s', s' <| refs ::= map_imap (λ rid x, Some (lose_ref s r rid x)) |>).

(** Calls held during the outage go out in arrival order. *)
Definition drains (s : State) (agent_id : string) : list ActorInfo :=
  filter (λ a, a_agent a = agent_id ∧ a_live a = true ∧ a_queued_calls a ≠ []) (hash_values (actors s)).
Definition send_held (w : Sock) (a : ActorInfo) : SM unit :=
  for_each (a_queued_calls a) (λ c, send_ignore E w (Msg.ActorDispatch (a_id a) c.1.1 c.1.2) 0 c.2).
Definition drain_held (w : Sock) (agent_id : string) : SM unit :=
  l ← get_st (λ s, drains s agent_id);
  modify_st (λ s, s <| actors ::= fmap (λ a,
    if bool_decide (a_agent a = agent_id) && a_live a then a <| a_queued_calls := [] |> else a) |>) ;;
  for_each l (send_held w).

(** The registration section, the notification after it included. *)
Definition agent_register (w : Sock) (req : N) (r : Registration) : SM unit :=
  register_row w r ;;
  kills ← get_st (λ s, resume_kills s (rg_resume r));
  adopt_actors r ;;
  adopt_refs r ;;
  bury_missing r ;;
  fail_lost r ;;
  send_ignore E w (Msg.AgentRegisterOk Version.PROTO (rg_node_id r)) req [] ;;
  for_each kills (λ i, send_ignore E w (Msg.ActorKill i) 0 []) ;;
  drain_held w (rg_agent r) ;;
  try_place E ;;
  notify_all.

(** ** Messages *)

Definition spawn_result (actor_id : string) (ok : bool) (error : string) (pid : N) : SM unit :=
  modify_st (λ s, s <| actors ::= alter (λ a,
    if bool_decide (pid = 0%N) then a else a <| a_pid := Some pid |>) actor_id |>) ;;
  (if ok then
     modify_st (λ s, s <| actors ::= alter (λ a,
       if bool_decide (a_state a = Spawning) then a <| a_state := Running |> else a) actor_id |>) ;;
     s ← get_st id;
     match actors s !! actor_id with
     | Some a => emit_patch E "actor_running" (actor_patch s (a_group a) actor_id) ""
     | None => skip
     end
   else mark_actor_dead E actor_id ("spawn failed: " +:+ error)) ;;
  notify_all.

(** What a result makes of a ref; the first resolution wins. *)
Definition resolve (ok : bool) (error : string) (payload : bytes) (x : RefInfo) : RefInfo :=
  if bool_decide (rf_state x = RefPending) then
    x <| rf_state := if negb ok && negb (nonempty payload) && negb (str_empty error)
                     then RefActorDied error else RefReady ok payload |>
  else x.
Definition actor_result (ref_id : string) (ok : bool) (error : string) (payload : bytes) : SM unit :=
  modify_st (λ s, s <| refs ::= alter (resolve ok error payload) ref_id |>) ;;
  notify_all.

Definition exit_reason (exit_code signal : option Z) : string :=
  "actor process exited (exit_code=" +:+ from_option pretty "none" exit_code +:+ " signal=" +:+
  from_option pretty "none" signal +:+ ")".
Definition count_exit (exit_code signal : option Z) (f : N → N) (c : Counters) : Counters :=
  match exit_code, signal with
  | Some 0%Z, _ => c <| actor_exits_clean ::= f |>
  | _, Some _ => c <| actor_exits_signal ::= f |>
  | _, _ => c <| actor_exits_error ::= f |>
  end.
Definition actor_exit (actor_id : string) (exit_code signal : option Z) : SM unit :=
  bump (count_exit exit_code signal) ;;
  mark_actor_dead E actor_id (exit_reason exit_code signal).

Definition service_note (agent_id service note : string) : SM unit :=
  s ← get_st id;
  match agents s !! agent_id with
  | Some a =>
      match ag_services a !! service with
      | Some _ =>
          modify_st (λ s, s <| agents ::= alter (λ a,
            a <| ag_services ::= alter (λ x, x <| s_note := note |>) service |>) agent_id |>) ;;
          s ← get_st id;
          emit_patch E "service_note" (agent_row_patch s (ag_group a) agent_id) service
      | None => skip
      end
  | None => skip
  end.

Definition agent_msg (w : Sock) (agent_id : string) (req : N) (msg : Msg.t) (payload : bytes) : SM unit :=
  match msg with
  | Msg.ActorSpawnResult actor_id ok error pid => spawn_result actor_id ok error pid
  | Msg.ActorResult ref_id ok error => actor_result ref_id ok error payload
  | Msg.ActorExit actor_id exit_code signal => actor_exit actor_id exit_code signal
  | Msg.ServiceNote service note => service_note agent_id service note
  | Msg.Ping => send_ignore E w Msg.Pong req []
  | _ => skip
  end.

(** ** The loss of a link *)

Definition lose_agent (a : AgentInfo) : AgentInfo :=
  a <| ag_alive := false |> <| ag_lost_at_ms := Some (now_ms E) |>
    <| ag_gone_since_ms := Some (now_ms E) |> <| ag_degraded := false |>.
Definition agent_lost (w : Sock) (agent_id : string) : SM unit :=
  s ← get_st id;
  match agents s !! agent_id with
  | Some a =>
      if bool_decide (ag_writer a = w) then
        modify_st (λ s, s <| agents ::= alter lose_agent agent_id |>) ;;
        s ← get_st id;
        emit_patch E "agent_lost" (agent_row_patch s (ag_group a) agent_id)
          ("degrade window " +:+ pretty (agent_dead_after_ms (cfg E)) +:+ " ms")
      else skip
  | None => skip
  end ;;
  notify_all.
End agents.

(** ** What each step leaves alone *)

(** A reading of the state that no event moves. *)
Class Quiet {B} (f : State → B) := quiet s s' : same_tables s s' → f s' = f s.
#[export] Instance quiet_stable {B} (f : State → B) v : Quiet f → Stable (λ s, f s = v).
Proof. intros Hq s s' Hs <-. by apply quiet. Qed.
#[export] Hint Extern 1 (Quiet _) => (by intros ? ? ->) : typeclass_instances.

Definition keeps {A B} (f : State → B) (m : SM A) : Prop := ∀ w, f (st (m w).2) = f (st w).

Section keeps.
Context `{HI : HashIter} (E : Env) {B} (f : State → B).

Lemma keeps_bind {A C} (m : SM A) (k : A → SM C) : keeps f m → (∀ x, keeps f (k x)) → keeps f (m ≫= k).
Proof. intros Hm Hk w. rewrite bind_run. rewrite Hk. apply Hm. Qed.
Lemma keeps_ret {A} (x : A) : keeps f (mret x).
Proof. by intros w. Qed.
Lemma keeps_skip : keeps f skip.
Proof. by intros w. Qed.
Lemma keeps_get_st {A} (g : State → A) : keeps f (get_st g).
Proof. by intros w. Qed.
Lemma keeps_modify g : (∀ s, f (g s) = f s) → keeps f (modify_st g).
Proof. intros Hg w. apply Hg. Qed.
Lemma keeps_send w m r p : keeps f (send_ignore E w m r p).
Proof. by intros x. Qed.
Lemma keeps_shutdown w : keeps f (shutdown w).
Proof. by intros x. Qed.
Lemma keeps_notify : keeps f notify_all.
Proof. by intros x. Qed.
Lemma keeps_emit kind patch why : Quiet f → keeps f (emit_patch E kind patch why).
Proof. intros Hq w. apply quiet, emit_patch_same_tables. Qed.
Lemma keeps_for_each {A} (l : list A) g : (∀ x, x ∈ l → keeps f (g x)) → keeps f (for_each l g).
Proof.
  induction l as [|x l IH]; intros Hg; [apply keeps_skip|]. cbn [for_each].
  apply keeps_bind; [apply Hg; set_solver|]. intros _. apply IH. set_solver.
Qed.
Lemma keeps_try_place : (∀ s s', same_but_pgs s s' → f s' = f s) → keeps f (try_place E).
Proof. intros Hf w. apply Hf, try_place_frame. Qed.
Lemma keeps_mark_dead i why :
  Quiet f →
  (∀ s s', same_but_pgs s s' → f s' = f s) →
  (∀ s g, f (s <| actors ::= g |>) = f s) → (∀ s g, f (s <| refs ::= g |>) = f s) →
  keeps f (mark_actor_dead E i why).
Proof.
  intros Hq Hp Ha Hr.
  assert (keeps f (fan_out E i why)) as Hfan.
  { apply keeps_bind; [by apply keeps_modify|]. intros _.
    apply keeps_bind; [by apply keeps_try_place|]. intros _. apply keeps_notify. }
  apply keeps_bind; [apply keeps_get_st|]. intros acs. destruct (acs !! i) as [a|]; [|done].
  destruct (is_dead (a_state a)); [apply keeps_skip|].
  apply keeps_bind; [by apply keeps_modify|]. intros _.
  apply keeps_bind; [apply keeps_get_st|]. intros s.
  apply keeps_bind; [by apply keeps_emit|]. by intros _.
Qed.
End keeps.

(** Walks a do-block for a [keeps] goal. *)
Ltac keep := repeat first
  [ apply keeps_get_st | apply keeps_ret | apply keeps_skip | apply keeps_send | apply keeps_shutdown
  | apply keeps_notify | (apply keeps_emit; by intros ? ? ->) | (apply keeps_modify; intros ?; reflexivity)
  | (apply keeps_try_place; by intros ? ? ->) | (apply keeps_mark_dead; [by intros ? ? ->|by intros ? ? ->|done|done])
  | (apply keeps_for_each; intros ? _) | (apply keeps_bind; [|intros ?])
  | progress cbv zeta | match goal with |- keeps _ (match ?x with _ => _ end) => destruct x end ].

(** ** The steps of a registration *)

Section register.
Context `{HI : HashIter} (E : Env).

Lemma register_row_keeps {B} (f : State → B) w r :
  Quiet f → (∀ s g, f (s <| agents ::= g |>) = f s) → (∀ s g, f (s <| next_seq ::= g |>) = f s) →
  (∀ s g, f (s <| counters ::= g |>) = f s) → keeps f (register_row E w r).
Proof.
  intros Hq Ha Hn Hc. apply keeps_bind; [apply keeps_get_st|]. intros s.
  apply keeps_bind; [by destruct (agents s !! rg_agent r)|]. intros _.
  apply keeps_bind.
  { apply keeps_bind; [apply keeps_get_st|]. intros q. apply keeps_bind; [by apply keeps_modify|]. by intros _. }
  intros q. apply keeps_bind; [by apply keeps_modify|]. intros _.
  apply keeps_bind; [by apply keeps_modify|]. intros _.
  apply keeps_bind; [apply keeps_get_st|]. intros s'. by apply keeps_emit.
Qed.

Definition adopted_into (s : State) (r : Registration) : gmap string ActorInfo :=
  foldl (λ m a, <[a_id a := a]> m) (actors s) (to_adopt s r).

Lemma adopt_actors_actors r w :
  actors (st (adopt_actors E r w).2) = adopted_into (st w) r.
Proof.
  unfold adopt_actors. rewrite bind_run. cbn [get_st gets fst snd id]. cbv zeta. rewrite !bind_run.
  destruct (nonempty _); [|done]. by rewrite emit_patch_same_tables.
Qed.

Lemma adopt_actors_keeps {B} (f : State → B) r :
  Quiet f → (∀ s g, f (s <| actors ::= g |>) = f s) → keeps f (adopt_actors E r).
Proof.
  intros Hq Ha. apply keeps_bind; [apply keeps_get_st|]. intros s. cbv zeta.
  apply keeps_bind; [by apply keeps_modify|]. intros _. apply keeps_bind; [apply keeps_get_st|].
  intros s'. destruct (nonempty _); [by apply keeps_emit|apply keeps_skip].
Qed.

(** The rows after the adoption: the earlier ones, and new running ones. *)
Lemma adopted_into_old s r j a : actors s !! j = Some a → adopted_into s r !! j = Some a.
Proof.
  intros Hj. unfold adopted_into. assert (∀ x, x ∈ to_adopt s r → a_id x ≠ j) as Hne.
  { intros x (y & -> & [Hy _]%list_elem_of_filter)%list_elem_of_fmap. cbn. congruence. }
  revert Hj Hne. generalize (to_adopt s r) as l. intros l. generalize (actors s) as m.
  induction l as [|x l IH]; intros m Hm Hne; [done|]. cbn. apply IH.
  - rewrite lookup_insert_ne; [done|]. apply Hne. set_solver.
  - intros y Hy. apply Hne. set_solver.
Qed.

Lemma adopted_into_new s r j a :
  adopted_into s r !! j = Some a → actors s !! j = Some a ∨ a ∈ to_adopt s r ∧ a_id a = j.
Proof.
  unfold adopted_into. generalize (to_adopt s r) as l. intros l. generalize (actors s) as m.
  induction l as [|x l IH]; intros m; cbn; [by left|]. intros [H|[H1 H2]]%IH.
  - apply lookup_insert_Some in H as [[<- <-]|[_ H]]; [right; set_solver|by left].
  - right. set_solver.
Qed.

Lemma adopt_refs_keeps {B} (f : State → B) r :
  Quiet f → (∀ s g h, f (s <| next_ref ::= g |> <| refs ::= h |>) = f s) → keeps f (adopt_refs E r).
Proof.
  intros Hq Hr. unfold adopt_refs. apply keeps_for_each. intros rid Hrid. unfold adopt_ref.
  apply keeps_bind; [apply keeps_get_st|]. intros s. destruct (refs s !! rid); [apply keeps_skip|].
  destruct (ref_parts rid) as [j n]. destruct (j ≫= _) as [a|]; [|apply keeps_skip].
  destruct (bool_decide _); [by apply keeps_modify|apply keeps_skip].
Qed.

(** A ref after the adoption was there, or was reported. *)
Lemma adopt_ref_new agent rid w k x :
  refs (st (adopt_ref E agent rid w).2) !! k = Some x → refs (st w) !! k = Some x ∨ k = rid.
Proof.
  unfold adopt_ref. rewrite bind_run. cbn [get_st gets fst snd id].
  destruct (refs (st w) !! rid); [by left|]. destruct (ref_parts rid) as [j n].
  destruct (j ≫= _) as [a|]; [|by left]. case_bool_decide; [|by left].
  intros Hk. cbn in Hk. revert Hk. intros [[<- _]|[_ H']]%lookup_insert_Some; [by right|by left].
Qed.
Lemma adopt_refs_new r w k x :
  refs (st (adopt_refs E r w).2) !! k = Some x → refs (st w) !! k = Some x ∨ k ∈ reported_refs r.
Proof.
  unfold adopt_refs. generalize (reported_refs r) as l. intros l. revert w.
  induction l as [|rid l IH]; intros w; cbn [for_each]; [by left|]. rewrite bind_run.
  intros [H|H]%IH; [|right; set_solver]. apply adopt_ref_new in H as [H| ->]; [by left|right; set_solver].
Qed.

Lemma bury_missing_run r w :
  let s := st w in let s' := st (bury_missing E r w).2 in
  (∀ j, actors s' !! j = if decide (j ∈ missing_actors s r)
     then bury E "agent reconnected without this actor" <$> actors s !! j else actors s !! j) ∧
  (∃ f, refs s' = f <$> refs s ∧ ∀ x, f x = x ∨ rf_state (f x) ≠ RefPending).
Proof.
  cbn zeta. unfold bury_missing. rewrite bind_run. cbn [get_st gets fst snd].
  split; [intros j; apply mark_list_actors|apply mark_list_refs].
Qed.

Lemma drain_held_run w agent_id w0 :
  let w' := (drain_held E w agent_id w0).2 in
  st w' = (st w0) <| actors ::= fmap (λ a, if bool_decide (a_agent a = agent_id) && a_live a
            then a <| a_queued_calls := [] |> else a) |> ∧
  out w' = out w0 ++ (drains (st w0) agent_id ≫= λ a,
    (λ c : QueuedCall, Send w (Msg.ActorDispatch (a_id a) c.1.1 c.1.2) 0 c.2) <$> a_queued_calls a).
Proof.
  cbn zeta. unfold drain_held. rewrite bind_run. cbn [get_st gets fst snd]. rewrite bind_run.
  rewrite (for_each_effects _ (λ a, (λ c : QueuedCall,
    Send w (Msg.ActorDispatch (a_id a) c.1.1 c.1.2) 0 c.2) <$> a_queued_calls a)); [done|].
  intros a w1. unfold send_held.
  rewrite (for_each_effects _ (λ c : QueuedCall, [Send w (Msg.ActorDispatch (a_id a) c.1.1 c.1.2) 0 c.2]))
    by done. do 3 f_equal.
Qed.

Lemma list_bind_ret {A B} (l : list A) (f : A → B) : (l ≫= λ x, [f x]) = f <$> l.
Proof. induction l as [|x l IH]; [done|]. cbn. by rewrite IH. Qed.

(** The frames a registration sends on its own link, in order. *)
Definition held_frames (w : Sock) (a : ActorInfo) : list Effect :=
  (λ c : QueuedCall, Send w (Msg.ActorDispatch (a_id a) c.1.1 c.1.2) 0 c.2) <$> a_queued_calls a.
Definition link_frames (s4 : State) (kills : list string) (w : Sock) (req : N) (r : Registration) : list Effect :=
  Send w (Msg.AgentRegisterOk Version.PROTO (rg_node_id r)) req [] ::
  ((λ i, Send w (Msg.ActorKill i) 0 []) <$> kills) ++ (drains s4 (rg_agent r) ≫= held_frames w).

Definition emptied (agent_id : string) (a : ActorInfo) : ActorInfo :=
  if bool_decide (a_agent a = agent_id) && a_live a then a <| a_queued_calls := [] |> else a.

(** The books up to the reply: everything but the sends. *)
Definition reconcile (w : Sock) (r : Registration) : SM (list string) :=
  register_row E w r ;;
  kills ← get_st (λ s, resume_kills s (rg_resume r));
  adopt_actors E r ;; adopt_refs E r ;; bury_missing E r ;; mret kills.

Lemma agent_register_run w req r w0 :
  let s4 := st (reconcile w r w0).2 in
  let w' := (agent_register E w req r w0).2 in
  actors (st w') = emptied (rg_agent r) <$> actors s4 ∧
  refs (st w') = map_imap (λ rid x, Some (lose_ref s4 r rid x)) (refs s4) ∧
  ∃ o, out w' = out (reconcile w r w0).2 ++ link_frames s4 (reconcile w r w0).1 w req r ++ o.
Proof.
  cbn zeta. unfold agent_register, reconcile. rewrite !bind_run. cbn [get_st gets fst snd mret M_ret].
  set (w1 := (register_row E w r w0).2). set (kills := resume_kills (st w1) (rg_resume r)).
  set (w4 := (bury_missing E r _).2). unfold fail_lost. rewrite !bind_run.
  rewrite (for_each_effects _ (λ i, [Send w (Msg.ActorKill i) 0 []])) by done.
  match goal with |- context [drain_held E w (rg_agent r) ?x] =>
    destruct (drain_held_run w (rg_agent r) x) as [Hst Hout]; set (w7 := (drain_held E w (rg_agent r) x).2) in * end.
  pose proof (try_place_frame E w7) as Hf. destruct (grows_try_place E (out w7) w7 (reflexivity _)) as [o Ho].
  set (w8 := (try_place E w7).2) in *. split_and!.
  - change (actors (st w8) = emptied (rg_agent r) <$> actors (st w4)). rewrite Hf. cbn. by rewrite Hst.
  - change (refs (st w8) = map_imap (λ rid x, Some (lose_ref (st w4) r rid x)) (refs (st w4))).
    rewrite Hf. cbn. by rewrite Hst.
  - exists (o ++ [Notify]). change (out w8 ++ [Notify] =
      out w4 ++ link_frames (st w4) kills w req r ++ o ++ [Notify]). rewrite Ho, Hout. unfold link_frames.
    unfold held_frames. change (drains (st _) _) with (drains (st w4) (rg_agent r)).
    change (out (((), _ : World)).2) with (((out w4 ++ [Send w (Msg.AgentRegisterOk Version.PROTO (rg_node_id r)) req []])
      ++ (kills ≫= λ i, [Send w (Msg.ActorKill i) 0 []]))).
    rewrite (list_bind_ret kills). rewrite <-!app_assoc. cbn [app]. by rewrite <-!app_assoc.
Qed.

Lemma adopted_into_actors s s' r : actors s = actors s' → adopted_into s r = adopted_into s' r.
Proof. intros Ha. unfold adopted_into, to_adopt. by rewrite Ha. Qed.

Lemma reconcile_actors w r w0 j :
  let m := adopted_into (st w0) r in
  actors (st (reconcile w r w0).2) !! j =
    if decide (j ∈ missing_actors ((st w0) <| actors := m |>) r)
    then bury E "agent reconnected without this actor" <$> m !! j else m !! j.
Proof.
  cbn zeta. unfold reconcile. rewrite !bind_run. cbn [get_st gets fst snd mret M_ret].
  set (w1 := (register_row E w r w0).2). set (w2 := (adopt_actors E r w1).2).
  set (w3 := (adopt_refs E r w2).2).
  assert (actors (st w3) = adopted_into (st w0) r) as Hm.
  { unfold w3. rewrite (adopt_refs_keeps actors r) by (done || by intros ? ? ->).
    unfold w2. rewrite adopt_actors_actors. apply adopted_into_actors.
    apply (register_row_keeps actors); (done || by intros ? ? ->). }
  destruct (bury_missing_run r w3) as [Hb _]. cbn zeta in Hb. rewrite Hb, Hm.
  by assert (missing_actors (st w3) r = missing_actors ((st w0) <| actors := adopted_into (st w0) r |>) r)
    as -> by (unfold missing_actors; cbn; by rewrite Hm).
Qed.

Lemma reconcile_refs w r w0 k x :
  refs (st (reconcile w r w0).2) !! k = Some x → rf_state x = RefPending →
  refs (st w0) !! k = Some x ∨ k ∈ reported_refs r.
Proof.
  unfold reconcile. rewrite !bind_run. cbn [get_st gets fst snd mret M_ret].
  set (w1 := (register_row E w r w0).2). set (w2 := (adopt_actors E r w1).2).
  set (w3 := (adopt_refs E r w2).2). destruct (bury_missing_run r w3) as [_ (f & Hf & Hff)].
  rewrite Hf, lookup_fmap. intros (y & Hy & ->)%fmap_Some Hp. destruct (Hff y) as [Heq|Hn]; [|done].
  rewrite Heq in *. apply adopt_refs_new in Hy as [Hy|]; [left|by right].
  unfold w2 in Hy. rewrite (adopt_actors_keeps refs r) in Hy by (done || by intros ? ? ->).
  unfold w1 in Hy. by rewrite (register_row_keeps refs) in Hy by (done || by intros ? ? ->).
Qed.

(** A dead actor holds no call. *)
Definition dead_hold_nothing (s : State) : Prop :=
  ∀ j a, actors s !! j = Some a → a_live a = false → a_queued_calls a = [].

Lemma reconcile_dead w r w0 : dead_hold_nothing (st w0) → dead_hold_nothing (st (reconcile w r w0).2).
Proof.
  intros Hd j a. rewrite reconcile_actors. set (m := adopted_into (st w0) r).
  assert (∀ a, m !! j = Some a → a_live a = false → a_queued_calls a = []) as Hm.
  { intros x [Hx|[Hx _]]%adopted_into_new; [by apply (Hd j)|].
    apply list_elem_of_fmap in Hx as (y & -> & _). done. }
  destruct (decide _); [|apply Hm]. intros (x & Hx & ->)%fmap_Some. unfold bury.
  destruct (is_dead (a_state x)) eqn:Hdead; [by apply Hm|done].
Qed.

Lemma reconcile_resumed w r w0 j a :
  actors_keyed (st w0) → actors (st (reconcile w r w0).2) !! j = Some a →
  a_agent a = rg_agent r → a_live a = true → j ∈ r_actor_id <$> rg_resume r.
Proof.
  intros Hk. rewrite reconcile_actors. set (m := adopted_into (st w0) r).
  set (s := (st w0) <| actors := m |>).
  assert (∀ a, m !! j = Some a → a_id a = j) as Hid.
  { intros x [Hx|[_ Hx]]%adopted_into_new; [by apply Hk|done]. }
  destruct (decide (j ∈ missing_actors s r)) as [Hin|Hin].
  - intros (x & Hx & ->)%fmap_Some _. unfold bury. destruct (is_dead (a_state x)) eqn:Hdead; [|done].
    unfold a_live. by rewrite Hdead.
  - intros Ha Hag Hl. destruct (decide (j ∈ r_actor_id <$> rg_resume r)); [done|]. destruct Hin.
    apply list_elem_of_fmap. exists a. split; [by rewrite (Hid a Ha)|]. apply list_elem_of_filter.
    rewrite (Hid a Ha). split; [done|]. apply elem_of_hash_values. by exists j.
Qed.

Lemma emptied_agent g a : a_agent (emptied g a) = a_agent a.
Proof. unfold emptied. by destruct (_ && _). Qed.
Lemma emptied_live g a : a_live (emptied g a) = a_live a.
Proof. unfold emptied. by destruct (_ && _). Qed.

(** C25: a registration settles what the outage left open. Every live actor of
    the agent is one its resume list names, and every call still pending on an
    actor of the agent is one the agent reports or one sent on the new link:
    none is left that nobody holds. *)
Theorem register_reconciles (w : Sock) (req : N) (r : Registration) (w0 : World)
    (Hkeyed : actors_keyed (st w0)) (Hdead : dead_hold_nothing (st w0)) :
  let w' := (agent_register E w req r w0).2 in
  (∀ j a, actors (st w') !! j = Some a → a_agent a = rg_agent r → a_live a = true →
     j ∈ r_actor_id <$> rg_resume r) ∧
  (∀ rid x j a, refs (st w') !! rid = Some x → rf_state x = RefPending → rf_actor x = Some j →
     actors (st w') !! j = Some a → a_agent a = rg_agent r →
     rid ∈ reported_refs r ∨
     ∃ i method payload, Send w (Msg.ActorDispatch i rid method) 0 payload ∈ out w').
Proof.
  destruct (agent_register_run w req r w0) as (Hacs & Hrefs & o & Hout). cbn zeta in *.
  pose proof (reconcile_resumed w r w0) as Hres. pose proof (reconcile_dead w r w0 Hdead) as Hdead4.
  set (s4 := st (reconcile w r w0).2) in *. rewrite Hacs, Hrefs, Hout. split.
  - intros j a. rewrite lookup_fmap. intros (x & Hx & ->)%fmap_Some.
    rewrite emptied_agent, emptied_live. by apply Hres.
  - intros rid x j a. rewrite map_lookup_imap, lookup_fmap. intros (y & Hy & [= <-])%bind_Some Hp Hj.
    intros (b & Hb & ->)%fmap_Some. rewrite emptied_agent. intros Hag.
    unfold lose_ref in *. destruct (lost_ref s4 r rid y) eqn:Hlost; [done|].
    unfold lost_ref, on_agent in Hlost. rewrite Hp, Hj in Hlost. cbn [mbind option_bind] in Hlost.
    rewrite Hb in Hlost. cbn in Hlost. rewrite Hag in Hlost.
    rewrite !bool_decide_eq_true_2 in Hlost by done. cbn in Hlost. apply bool_decide_eq_false in Hlost.
    destruct (decide (rid ∈ reported_refs r)) as [|Hnr]; [by left|right].
    destruct (decide (rid ∈ held_refs s4 (rg_agent r))) as [Hheld|]; [|by destruct Hlost].
    apply list_elem_of_bind in Hheld as (z & (c & -> & Hc)%list_elem_of_fmap & [Hz Hzv]%list_elem_of_filter).
    exists (a_id z), c.1.2, c.2. unfold link_frames. rewrite !elem_of_app, elem_of_cons, elem_of_app.
    right. left. right. right. apply list_elem_of_bind. exists z. split; [apply list_elem_of_fmap; eauto|].
    apply list_elem_of_filter. split; [|done]. split_and!; [done| |by intros Hn; rewrite Hn in Hc; set_solver].
    destruct (a_live z) eqn:Hl; [done|]. apply elem_of_hash_values in Hzv as [k Hk].
    rewrite (Hdead4 k z Hk Hl) in Hc. set_solver.
Qed.
End register.

(** ** A fresh link *)

(** Nothing has been sent on a link, and no peer is behind it. *)
Definition silent (sk : Sock) (w : World) : Prop :=
  (∀ k p, peers (st w) !! k = Some p → pe_writer p ≠ sk) ∧ ∀ m q p, Send sk m q p ∉ out w.

Section silent.
Context `{HI : HashIter} (E : Env) (sk : Sock).

Lemma silent_effect e : (∀ m q p, e ≠ Send sk m q p) → preserves (silent sk) (effect e).
Proof.
  intros He w [H1 H2]. split; [exact H1|]. intros m q p. cbn. rewrite elem_of_app, list_elem_of_singleton.
  intros [H|H]; [by apply (H2 m q p)|by apply (He m q p)].
Qed.
Lemma silent_modify f : (∀ s, peers (f s) = peers s) → preserves (silent sk) (modify_st f).
Proof. intros Hf w [H1 H2]. split; [|exact H2]. intros k p. cbn. rewrite Hf. apply H1. Qed.
Lemma silent_get_st {A} (f : State → A) : preserves (silent sk) (get_st f).
Proof. by intros w. Qed.

Lemma silent_emit kind patch why : preserves (silent sk) (emit_patch E kind patch why).
Proof.
  unfold emit_patch, emit. apply preserves_bind; [apply silent_get_st|]. intros q.
  apply preserves_bind; [apply silent_get_st|]. intros node.
  apply preserves_bind; [by apply silent_modify|]. intros _.
  apply preserves_bind.
  { apply preserves_bind; [apply silent_get_st|]. intros subs. apply preserves_bind; [|by intros; apply silent_modify].
    apply preserves_for_each. intros x _. by apply silent_effect. }
  intros _ w [H1 H2]. rewrite bind_run. cbn [get_st gets fst snd].
  apply (preserves_for_each (silent sk)); [|by split]. intros p Hp. apply preserves_when.
  apply preserves_bind; [|intros; apply preserves_ret]. apply preserves_bind; [|intros; apply preserves_ret].
  apply silent_effect. apply elem_of_hash_values in Hp as [k Hk]. intros m' q' p' [=]. by apply (H1 k p).
Qed.

Lemma silent_place_one k : preserves (silent sk) (place_one E k).
Proof.
  apply preserves_bind; [apply silent_get_st|]. intros s. destruct (pgs s !! k) as [pg|]; [|apply preserves_skip].
  destruct (decide_place E s pg) as [[island asg]|why].
  - apply preserves_bind; [by apply silent_modify|]. intros _.
    apply preserves_bind; [apply silent_get_st|]. intros s'.
    apply preserves_bind; [apply silent_emit|]. intros _. by apply silent_effect.
  - apply preserves_bind; [apply silent_get_st|]. intros ps. destruct (ps !! k); [|apply preserves_skip].
    case_bool_decide; [apply preserves_skip|]. apply preserves_bind; [by apply silent_modify|]. intros _.
    apply preserves_bind; [apply silent_get_st|]. intros s'. apply silent_emit.
Qed.

Lemma silent_mark_dead i why : preserves (silent sk) (mark_actor_dead E i why).
Proof.
  apply preserves_mark_dead; [by apply silent_modify|by apply silent_modify|intros; apply silent_emit| |
    by apply silent_effect].
  apply preserves_bind; [apply silent_get_st|]. intros ps. apply preserves_for_each. intros; apply silent_place_one.
Qed.

Lemma silent_reconcile r : preserves (silent sk) (reconcile E sk r).
Proof.
  unfold reconcile. apply preserves_bind.
  { apply preserves_bind; [apply silent_get_st|]. intros s. apply preserves_bind.
    { destruct (agents s !! rg_agent r); [by apply silent_effect|apply preserves_skip]. }
    intros _. apply preserves_bind.
    { apply preserves_bind; [apply silent_get_st|]. intros q. apply preserves_bind; [by apply silent_modify|].
      intros; apply preserves_ret. }
    intros q. apply preserves_bind; [by apply silent_modify|]. intros _.
    apply preserves_bind; [by apply silent_modify|]. intros _.
    apply preserves_bind; [apply silent_get_st|]. intros s'. apply silent_emit. }
  intros _. apply preserves_bind; [apply silent_get_st|]. intros kills. apply preserves_bind.
  { apply preserves_bind; [apply silent_get_st|]. intros s. cbv zeta.
    apply preserves_bind; [by apply silent_modify|]. intros _. apply preserves_bind; [apply silent_get_st|].
    intros s'. destruct (nonempty _); [apply silent_emit|apply preserves_skip]. }
  intros _. apply preserves_bind.
  { apply preserves_for_each. intros rid _. apply preserves_bind; [apply silent_get_st|]. intros s.
    destruct (refs s !! rid); [apply preserves_skip|]. destruct (ref_parts rid) as [j n].
    destruct (j ≫= _) as [a|]; [|apply preserves_skip].
    destruct (bool_decide _); [by apply silent_modify|apply preserves_skip]. }
  intros _. apply preserves_bind; [|intros; apply preserves_ret].
  apply preserves_bind; [apply silent_get_st|]. intros ids. apply preserves_for_each.
  intros; apply silent_mark_dead.
Qed.

(** C26: on a link nothing was sent on, the reply to the registration is the
    first frame. The kills follow, for exactly the resumed actors that are
    dead here or have no owner left, and then each resumed live actor's held
    calls, in the order they arrived. The queue of each is empty. *)
Theorem register_link_order (req : N) (r : Registration) (w0 : World)
    (Hkeyed : actors_keyed (st w0)) (Hsilent : silent sk w0) :
  let w' := (agent_register E sk req r w0).2 in
  (∃ o1 o2, out w' = o1 ++ Send sk (Msg.AgentRegisterOk Version.PROTO (rg_node_id r)) req [] ::
     ((λ i, Send sk (Msg.ActorKill i) 0 []) <$> resume_kills (st w0) (rg_resume r)) ++ o2 ∧
     ∀ m q p, Send sk m q p ∉ o1) ∧
  ∀ j a, actors (st w0) !! j = Some a → a_agent a = rg_agent r → a_live a = true →
    j ∈ r_actor_id <$> rg_resume r →
    (∃ o1 o2, out w' = o1 ++ held_frames sk a ++ o2) ∧
    actors (st w') !! j = Some (a <| a_queued_calls := [] |>).
Proof.
  destruct (agent_register_run E sk req r w0) as (Hacs & _ & o & Hout). cbn zeta in *.
  pose proof (silent_reconcile r w0 Hsilent) as [_ Hs4]. pose proof (reconcile_actors E sk r w0) as Hact.
  assert ((reconcile E sk r w0).1 = resume_kills (st w0) (rg_resume r)) as Hkills.
  { unfold reconcile. rewrite !bind_run. cbn [get_st gets fst snd mret M_ret]. unfold resume_kills.
    rewrite (register_row_keeps E actors), (register_row_keeps E clients); done || by intros ? ? ->. }
  rewrite Hkills in Hout. set (s4 := st (reconcile E sk r w0).2) in *. split.
  - exists (out (reconcile E sk r w0).2), ((drains s4 (rg_agent r) ≫= held_frames sk) ++ o).
    split; [|exact Hs4]. rewrite Hout. unfold link_frames. cbn [app]. by rewrite <-app_assoc.
  - intros j a Hj Hag Hl Hin. assert (actors s4 !! j = Some a) as H4.
    { rewrite Hact, (adopted_into_old _ _ _ _ Hj). rewrite decide_False; [done|].
      intros (x & -> & [(_ & _ & Hn) _]%list_elem_of_filter)%list_elem_of_fmap. done. }
    split.
    2: { rewrite Hacs, lookup_fmap, H4. cbn [fmap option_fmap option_map]. unfold emptied.
         by rewrite (bool_decide_eq_true_2 _ Hag), Hl. }
    destruct (decide (a_queued_calls a = [])) as [Hq|Hq].
    { exists (out (agent_register E sk req r w0).2), []. unfold held_frames. rewrite Hq. by rewrite app_nil_r. }
    assert (a ∈ drains s4 (rg_agent r)) as (l1 & l2 & Hd)%list_elem_of_split.
    { apply list_elem_of_filter. split; [done|]. apply elem_of_hash_values. eauto. }
    rewrite Hout. unfold link_frames. rewrite Hd, bind_app, bind_cons.
    generalize (out (reconcile E sk r w0).2) as o0, (held_frames sk a) as h,
      (l1 ≫= held_frames sk) as h1, (l2 ≫= held_frames sk) as h2,
      ((λ i, Send sk (Msg.ActorKill i) 0 []) <$> resume_kills (st w0) (rg_resume r)) as ks,
      (Send sk (Msg.AgentRegisterOk Version.PROTO (rg_node_id r)) req []) as e.
    intros o0 h h1 h2 ks e. exists (o0 ++ e :: ks ++ h1), (h2 ++ o).
    cbn [app]. rewrite <-!app_assoc. cbn [app]. by rewrite <-!app_assoc.
Qed.
End silent.

(** ** The allocation invariant *)

(** Devices of two actors are the same or apart. *)
Definition same_or_apart (a1 a2 : ActorInfo) : Prop :=
  a_gpu_ids a1 = a_gpu_ids a2 ∨ ∀ g, g ∈ a_gpu_ids a1 → g ∉ a_gpu_ids a2.
Definition group_or_apart (a : ActorInfo) (p : PgInfo) : Prop :=
  shares a p ∨ ∀ g, g ∈ a_gpu_ids a → g ∉ pg_holds (a_agent a) p.

Lemma same_or_apart_sym a1 a2 : same_or_apart a1 a2 → same_or_apart a2 a1.
Proof. intros [H|H]; [by left|]. right. intros g Hg1 Hg2. by apply (H g). Qed.

Section alloc.
Context {D : gset string}.

Lemma alloc_ok_insert_actor s j a :
  alloc_ok D s → (j ∉ D → ∀ k p, pgs s !! k = Some p → group_or_apart a p) →
  (j ∉ D → ∀ i b, actors s !! i = Some b → a_live b = true → i ∉ D → a_agent b = a_agent a → same_or_apart a b) →
  alloc_ok D (s <| actors ::= <[j := a]> |>).
Proof.
  intros Hok Hp Ha. split; cbn; try apply Hok.
  - intros i k b p [[<- <-]|[_ Hb]]%lookup_insert_Some Hk Hl Hj; [by apply (Hp Hj k)|].
    by apply (al_actor_group s Hok i k).
  - intros j1 j2 a1 a2 [[<- <-]|[_ H1]]%lookup_insert_Some [[<- <-]|[_ H2]]%lookup_insert_Some L1 L2 Hag N1 N2.
    + by left.
    + by apply (Ha N1 j2).
    + apply same_or_apart_sym. by apply (Ha N2 j1).
    + by apply (al_actors s Hok j1 j2).
Qed.

Lemma alloc_ok_insert_agent s a :
  alloc_ok D s → NoDup (devices a) → alloc_ok D (s <| agents ::= <[ag_id a := a]> |>).
Proof.
  intros Hok Ha. split; cbn; try apply Hok.
  - intros k b Hb. cbn in Hb. apply lookup_insert_Some in Hb as [[<- <-]|[_ Hb]]; [done|].
    by apply (al_agents s Hok).
  - intros k b [[<- <-]|[_ Hb]]%lookup_insert_Some; [done|by apply (al_devices s Hok k)].
Qed.

Lemma alloc_ok_alter_agent s f k :
  (∀ a, ag_id (f a) = ag_id a ∧ devices (f a) = devices a) →
  alloc_ok D s → alloc_ok D (s <| agents ::= alter f k |>).
Proof.
  intros Hf Hok. destruct (agents s !! k) as [a|] eqn:Hk.
  - assert ((s <| agents ::= alter f k |>) = s <| agents ::= <[ag_id (f a) := f a]> |>) as ->.
    { destruct (Hf a) as [-> _]. rewrite (al_agents s Hok k a Hk). unfold update_with. cbn.
      by rewrite (alter_Some _ _ _ _ Hk). }
    apply alloc_ok_insert_agent; [done|]. destruct (Hf a) as [_ ->]. by apply (al_devices s Hok k).
  - assert ((s <| agents ::= alter f k |>) = s) as ->; [|done]. destruct s. unfold update_with. cbn.
    f_equal. apply alter_id. intros a Ha. cbn in Hk. congruence.
Qed.

End alloc.

(** The agent's report is borne out but for the actors of [D]: its devices are
    listed once, and any other actor it revives holds one bundle's devices or
    nobody's. With every revived actor in [D] only the first clause is left. *)
Record honest (D : gset string) (s : State) (r : Registration) : Prop := {
  ho_devices : NoDup (g_index <$> m_gpus (rg_machine r));
  ho_group : ∀ a k p, a ∈ to_adopt s r → a_id a ∉ D → pgs s !! k = Some p → group_or_apart a p;
  ho_actor : ∀ a j b, a ∈ to_adopt s r → a_id a ∉ D → actors s !! j = Some b → a_live b = true → j ∉ D →
    a_agent b = a_agent a → same_or_apart a b;
  ho_pair : ∀ a b, a ∈ to_adopt s r → b ∈ to_adopt s r → a_id a ∉ D → a_id b ∉ D → same_or_apart a b }.

Lemma honest_of_doubted D s r :
  NoDup (g_index <$> m_gpus (rg_machine r)) → (∀ x, x ∈ rg_resume r → r_actor_id x ∈ D) → honest D s r.
Proof.
  intros Hnd Hd. assert (∀ a, a ∈ to_adopt s r → a_id a ∈ D) as Ha; [|by split; naive_solver].
  intros a (x & -> & [_ Hx]%list_elem_of_filter)%list_elem_of_fmap. by apply Hd.
Qed.

Section agent_alloc.
Context `{HI : HashIter} (E : Env) {D : gset string}.

Lemma register_row_ok w r :
  NoDup (g_index <$> m_gpus (rg_machine r)) → preserves (inv (alloc_ok D)) (register_row E w r).
Proof.
  intros Hnd. apply preserves_bind; [apply preserves_get_st|]. intros s.
  apply preserves_bind; [destruct (agents s !! rg_agent r); [apply preserves_shutdown|apply preserves_skip]|].
  intros _. apply preserves_bind.
  { apply preserves_bind; [apply preserves_get_st|]. intros q.
    apply preserves_bind; [by apply alloc_modify_frame|]. intros; apply preserves_ret. }
  intros q. apply preserves_bind.
  { apply preserves_modify_st. intros s0 Hs. by apply (alloc_ok_insert_agent s0 (mkAgent _ _ _ _ _ _ _ _ _ _ _ _ _ _ _)). }
  intros _. apply preserves_bind; [by apply alloc_modify_frame|]. intros _.
  apply preserves_bind; [apply preserves_get_st|]. intros s'. apply alloc_emit.
Qed.

Lemma adopt_list_ok l s :
  alloc_ok D s → (∀ a k p, a ∈ l → a_id a ∉ D → pgs s !! k = Some p → group_or_apart a p) →
  (∀ a j b, a ∈ l → a_id a ∉ D → actors s !! j = Some b → a_live b = true → j ∉ D → a_agent b = a_agent a →
     same_or_apart a b) →
  (∀ a b, a ∈ l → b ∈ l → a_id a ∉ D → a_id b ∉ D → same_or_apart a b) →
  alloc_ok D (s <| actors ::= λ m, foldl (λ m a, <[a_id a := a]> m) m l |>).
Proof.
  revert s. induction l as [|x l IH]; intros s Hok Hp Ha Hb; [by apply (alloc_ok_frame s)|].
  apply (alloc_ok_frame (s <| actors ::= <[a_id x := x]> |>
    <| actors ::= λ m, foldl (λ m a, <[a_id a := a]> m) m l |>)); [done..|].
  apply IH.
  - apply alloc_ok_insert_actor; [done| |]; intros; [eapply Hp|eapply Ha]; (done || set_solver).
  - intros; eapply Hp; (done || set_solver).
  - intros a j b Hin Hn Hj Hl Hd Hag. cbn in Hj.
    apply lookup_insert_Some in Hj as [[<- <-]|[_ Hj]]; [by apply Hb; set_solver|].
    eapply Ha; (done || set_solver).
  - intros; apply Hb; (done || set_solver).
Qed.

Lemma adopt_refs_ok r : preserves (inv (alloc_ok D)) (adopt_refs E r).
Proof.
  apply preserves_for_each. intros rid _. apply preserves_bind; [apply preserves_get_st|]. intros s.
  destruct (refs s !! rid); [apply preserves_skip|]. destruct (ref_parts rid) as [j n].
  destruct (j ≫= _) as [a|]; [|apply preserves_skip].
  destruct (bool_decide _); [by apply alloc_modify_frame|apply preserves_skip].
Qed.

Lemma bury_missing_ok r : preserves (inv (alloc_ok D)) (bury_missing E r).
Proof.
  apply preserves_bind; [apply preserves_get_st|]. intros ids. apply preserves_for_each.
  intros; apply mark_actor_dead_ok.
Qed.

Lemma emptied_ok s g : alloc_ok D s → alloc_ok D (s <| actors ::= fmap (emptied g) |>).
Proof.
  intros Hok.
  assert (∀ a, a_live (emptied g a) = a_live a ∧ a_agent (emptied g a) = a_agent a ∧
    a_gpu_ids (emptied g a) = a_gpu_ids a) as He.
  { intros a. unfold emptied. by destruct (_ && _). }
  split; cbn; try apply Hok.
  - intros j k a p. rewrite lookup_fmap. intros (x & Hx & ->)%fmap_Some Hk.
    destruct (He x) as (-> & Hag & Hg). intros Hl. unfold shares. rewrite Hag, Hg.
    by apply (al_actor_group s Hok j k).
  - intros j1 j2 a1 a2. rewrite !lookup_fmap. intros (x1 & H1 & ->)%fmap_Some (x2 & H2 & ->)%fmap_Some.
    destruct (He x1) as (-> & -> & ->), (He x2) as (-> & -> & ->). by apply (al_actors s Hok j1 j2).
Qed.

Lemma agent_register_ok w req r w0 :
  alloc_ok D (st w0) → honest D (st w0) r → alloc_ok D (st (agent_register E w req r w0).2).
Proof.
  intros Hok Hh. unfold agent_register. rewrite bind_run.
  set (w1 := (register_row E w r w0).2).
  assert (alloc_ok D (st w1)) as H1 by (by apply register_row_ok; [apply (ho_devices _ _ _ Hh)|]).
  assert (honest D (st w1) r) as Hh1.
  { assert (actors (st w1) = actors (st w0)) as Ha by (apply (register_row_keeps E actors); done || by intros ? ? ->).
    assert (pgs (st w1) = pgs (st w0)) as Hp by (apply (register_row_keeps E pgs); done || by intros ? ? ->).
    split; unfold to_adopt; rewrite ?Ha, ?Hp; apply Hh. }
  rewrite bind_run. cbn [get_st gets fst snd]. rewrite bind_run.
  set (w2 := (adopt_actors E r w1).2).
  assert (alloc_ok D (st w2)) as H2.
  { unfold w2, adopt_actors. rewrite bind_run. cbn [get_st gets fst snd id]. cbv zeta. rewrite !bind_run.
    cbn [get_st gets fst snd id].
    match goal with |- context [if _ then emit_patch E ?kd ?pa ?wy else skip] =>
      assert (preserves (inv (alloc_ok D)) (if nonempty (to_adopt (st w1) r) then emit_patch E kd pa wy else skip))
        as Hpr by (destruct (nonempty _); [apply alloc_emit|apply preserves_skip]) end.
    apply Hpr. apply adopt_list_ok; [exact H1|apply Hh1..]. }
  clearbody w2. revert w2 H2.
  change (preserves (inv (alloc_ok D)) (adopt_refs E r ;; bury_missing E r ;; fail_lost r ;;
    send_ignore E w (Msg.AgentRegisterOk Version.PROTO (rg_node_id r)) req [] ;;
    for_each (resume_kills (st w1) (rg_resume r)) (λ i, send_ignore E w (Msg.ActorKill i) 0 []) ;;
    drain_held E w (rg_agent r) ;; try_place E ;; notify_all)).
  apply preserves_bind; [apply adopt_refs_ok|]. intros _.
  apply preserves_bind; [apply bury_missing_ok|]. intros _.
  apply preserves_bind.
  { apply preserves_bind; [apply preserves_get_st|]. intros s. by apply alloc_modify_frame. }
  intros _. apply preserves_bind; [apply preserves_send_ignore|]. intros _.
  apply preserves_bind; [apply preserves_for_each; intros; apply preserves_send_ignore|]. intros _.
  apply preserves_bind.
  { apply preserves_bind; [apply preserves_get_st|]. intros l. apply preserves_bind.
    - apply preserves_modify_st. intros s. apply emptied_ok.
    - intros _. apply preserves_for_each. intros a _. apply preserves_for_each. intros; apply preserves_send_ignore. }
  intros _. apply preserves_bind; [apply try_place_ok|]. intros _. apply preserves_notify.
Qed.
End agent_alloc.

Section agent_messages.
Context `{HI : HashIter} (E : Env) {D : gset string}.

Lemma spawn_result_ok j ok error pid : preserves (inv (alloc_ok D)) (spawn_result E j ok error pid).
Proof.
  apply preserves_bind.
  { apply preserves_modify_st. intros s Hs. apply alloc_ok_alter_actor; [done|].
    intros a. by case_bool_decide. }
  intros _. apply preserves_bind; [|intros; apply preserves_notify].
  destruct ok; [|apply mark_actor_dead_ok]. apply preserves_bind.
  { apply preserves_modify_st. intros s Hs. apply alloc_ok_alter_actor; [done|].
    intros a. case_bool_decide as Hb; [|done]. unfold a_live. cbn. by rewrite Hb. }
  intros _. apply preserves_bind; [apply preserves_get_st|]. intros s.
  destruct (actors s !! j); [apply alloc_emit|apply preserves_skip].
Qed.

Lemma service_note_ok g service note : preserves (inv (alloc_ok D)) (service_note E g service note).
Proof.
  apply preserves_bind; [apply preserves_get_st|]. intros s. destruct (agents s !! g) as [a|]; [|apply preserves_skip].
  destruct (ag_services a !! service); [|apply preserves_skip]. apply preserves_bind.
  { apply preserves_modify_st. intros sx Hs. by apply alloc_ok_alter_agent. }
  intros _. apply preserves_bind; [apply preserves_get_st|]. intros s'. apply alloc_emit.
Qed.

Lemma agent_msg_ok w g req msg p : preserves (inv (alloc_ok D)) (agent_msg E w g req msg p).
Proof.
  destruct msg; try apply preserves_skip.
  - apply spawn_result_ok.
  - apply preserves_bind; [by apply alloc_modify_frame|]. intros _. apply preserves_notify.
  - apply preserves_bind; [by apply alloc_modify_frame|]. intros _. apply mark_actor_dead_ok.
  - apply service_note_ok.
Qed.

Lemma agent_lost_ok w g : preserves (inv (alloc_ok D)) (agent_lost E w g).
Proof.
  apply preserves_bind; [apply preserves_get_st|]. intros s.
  apply preserves_bind; [|intros; apply preserves_notify].
  destruct (agents s !! g) as [a|]; [|apply preserves_skip].
  case_bool_decide; [|apply preserves_skip]. apply preserves_bind.
  { apply preserves_modify_st. intros s0 Hs. by apply alloc_ok_alter_agent. }
  intros _. apply preserves_bind; [apply preserves_get_st|]. intros s'. apply alloc_emit.
Qed.

Lemma agent_check_ok w req g ip node : preserves (inv (alloc_ok D)) (agent_check E w req g ip node).
Proof.
  apply preserves_bind; [apply preserves_get_st|]. intros s. destruct (misfiled_node E s ip node); [|apply preserves_ret].
  apply preserves_bind; [by apply alloc_modify_frame|]. intros _.
  apply preserves_bind; [apply preserves_send_ignore|]. intros _. apply preserves_ret.
Qed.

(** What an agent reports late changes nothing. A result for a call that
    is already settled leaves every ref as it is, and the end of a connection
    that a newer registration replaced leaves the agent as it is. *)
Theorem late_reports_change_nothing (w : Sock) (g ref_id error : string) (ok : bool) (p : bytes) (w0 : World) :
  (∀ x, refs (st w0) !! ref_id = Some x → rf_state x ≠ RefPending →
     st (actor_result ref_id ok error p w0).2 = st w0) ∧
  (∀ a, agents (st w0) !! g = Some a → ag_writer a ≠ w → st (agent_lost E w g w0).2 = st w0).
Proof.
  split.
  - intros x Hx Hs. unfold actor_result. rewrite bind_run. cbn. rewrite alter_id; [by destruct (st w0)|].
    intros y Hy. assert (y = x) as -> by congruence. unfold resolve. by rewrite bool_decide_eq_false_2.
  - intros a Ha Hw. unfold agent_lost. rewrite bind_run. cbn [get_st gets fst snd id]. rewrite bind_run, Ha.
    by rewrite bool_decide_eq_false_2.
Qed.
End agent_messages.

(** ** Wake-ups *)

Section agent_wakes.
Context `{HI : HashIter} (E : Env).

Lemma grows_mark_dead o i why : preserves (sent_before o) (mark_actor_dead E i why).
Proof.
  apply preserves_mark_dead; [apply grows_modify_st..| |apply grows_try_place|apply grows_notify].
  intros; apply grows_emit_patch.
Qed.

Lemma notifies_agent_register w req r : notifies (agent_register E w req r).
Proof.
  apply notifies_bind_r.
  { intros o. apply preserves_bind; [apply grows_get_st|]. intros s. apply preserves_bind.
    { destruct (agents s !! rg_agent r); [apply grows_effect|apply preserves_skip]. }
    intros _. apply preserves_bind.
    { apply preserves_bind; [apply grows_get_st|]. intros q. apply preserves_bind; [apply grows_modify_st|].
      intros; apply preserves_ret. }
    intros q. apply preserves_bind; [apply grows_modify_st|]. intros _.
    apply preserves_bind; [apply grows_modify_st|]. intros _.
    apply preserves_bind; [apply grows_get_st|]. intros s'. apply grows_emit_patch. }
  intros _. apply notifies_bind_r; [intros o; apply grows_get_st|]. intros kills.
  apply notifies_bind_r.
  { intros o. apply preserves_bind; [apply grows_get_st|]. intros s. cbv zeta.
    apply preserves_bind; [apply grows_modify_st|]. intros _. apply preserves_bind; [apply grows_get_st|].
    intros s'. destruct (nonempty _); [apply grows_emit_patch|apply preserves_skip]. }
  intros _. apply notifies_bind_r.
  { intros o. apply preserves_for_each. intros rid _. apply preserves_bind; [apply grows_get_st|]. intros s.
    destruct (refs s !! rid); [apply preserves_skip|]. destruct (ref_parts rid) as [j n].
    destruct (j ≫= _) as [a|]; [|apply preserves_skip].
    destruct (bool_decide _); [apply grows_modify_st|apply preserves_skip]. }
  intros _. apply notifies_bind_r.
  { intros o. apply preserves_bind; [apply grows_get_st|]. intros ids. apply preserves_for_each.
    intros; apply grows_mark_dead. }
  intros _. apply notifies_bind_r.
  { intros o. apply preserves_bind; [apply grows_get_st|]. intros s. apply grows_modify_st. }
  intros _. apply notifies_bind_r; [intros o; apply grows_send_ignore|].
  intros _. apply notifies_bind_r; [intros o; apply preserves_for_each; intros; apply grows_send_ignore|].
  intros _. apply notifies_bind_r.
  { intros o. apply preserves_bind; [apply grows_get_st|]. intros l. apply preserves_bind; [apply grows_modify_st|].
    intros _. apply preserves_for_each. intros a _. apply preserves_for_each. intros; apply grows_send_ignore. }
  intros _. apply notifies_bind_r; [intros o; apply grows_try_place|]. intros _. apply notifies_notify.
Qed.

Lemma wakes_agent_msg w g req msg p : wakes E (agent_msg E w g req msg p).
Proof.
  destruct msg; try apply wakes_skip.
  - apply notifies_wakes. apply notifies_bind_r; [intros o; apply grows_modify_st|]. intros _.
    apply notifies_bind_r; [|intros _; apply notifies_notify]. intros o.
    destruct ok; [|apply grows_mark_dead]. apply preserves_bind; [apply grows_modify_st|]. intros _.
    apply preserves_bind; [apply grows_get_st|]. intros s.
    destruct (actors s !! actor_id); [apply grows_emit_patch|apply preserves_skip].
  - apply notifies_wakes. apply notifies_bind_r; [intros o; apply grows_modify_st|]. intros _. apply notifies_notify.
  - apply wakes_bind; [by apply wakes_modify|]. intros _. apply wakes_mark_actor_dead.
  - apply wakes_bind; [apply wakes_get_st|]. intros s. destruct (agents s !! g) as [a|]; [|apply wakes_skip].
    destruct (ag_services a !! service); [|apply wakes_skip]. apply wakes_bind; [by apply wakes_modify|].
    intros _. apply wakes_bind; [apply wakes_get_st|]. intros s'. apply wakes_emit_patch.
  - apply wakes_send_ignore.
Qed.

Lemma notifies_agent_lost w g : notifies (agent_lost E w g).
Proof.
  apply notifies_bind_r; [intros o; apply grows_get_st|]. intros s.
  apply notifies_bind_r; [|intros _; apply notifies_notify]. intros o.
  destruct (agents s !! g) as [a|]; [|apply preserves_skip]. case_bool_decide; [|apply preserves_skip].
  apply preserves_bind; [apply grows_modify_st|]. intros _. apply preserves_bind; [apply grows_get_st|].
  intros s'. apply grows_emit_patch.
Qed.
End agent_wakes.

(** ** An outage *)

(** One call is with the agent, one is held here, and one was lost. *)
Definition demo_call (n : string) : RefInfo := mkRef RefPending (Some "x:1") "c:1" n 0 false.
Definition demo_outage : State :=
  demo_driver <| actors := {[ "x:1" := demo_actor <| a_queued_calls := [("x:1:5", "step", [])] |> ]} |>
    <| refs := {[ "x:1:4" := demo_call "load"; "x:1:5" := demo_call "step"; "x:1:6" := demo_call "stop" ]} |>.
Definition demo_down : World := mkWorld demo_outage [].
Definition demo_resume : ResumeActor := mkResume "x:1" "rank0" [0]%N 5 "c:1" ["x:1:4"].
Definition demo_registration : Registration :=
  mkReg "a2" "g" "10.0.0.1" "n2" (mkMachine 256 20 [demo_gpu 0]) "c" 7 ∅ ∅ [demo_resume] [].
Definition demo_back : World := (@agent_register in_key_order demo_env 9 1 demo_registration demo_down).2.

Example demo_back_refs :
  (rf_state <$> refs (st demo_back) !! "x:1:4") = Some RefPending ∧
  (rf_state <$> refs (st demo_back) !! "x:1:5") = Some RefPending ∧
  (rf_state <$> refs (st demo_back) !! "x:1:6") =
    Some (RefActorDied "call lost while the agent link was down").
Proof. split_and!; vm_compute; reflexivity. Qed.

Lemma demo_outage_actor k a :
  actors demo_outage !! k = Some a → k = "x:1" ∧ a = demo_actor <| a_queued_calls := [("x:1:5", "step", [])] |>.
Proof.
  intros Hk. change (({[ "x:1" := demo_actor <| a_queued_calls := [("x:1:5", "step", [])] |> ]}
    : gmap string ActorInfo) !! k = Some a) in Hk. by apply lookup_singleton_Some in Hk as [<- <-].
Qed.
Lemma demo_outage_keyed : actors_keyed (st demo_down).
Proof. by intros k a [-> ->]%demo_outage_actor. Qed.

Lemma register_reconciles_witness :
  ∃ i method payload, Send 9 (Msg.ActorDispatch i "x:1:5" method) 0 payload ∈ out demo_back.
Proof.
  destruct (@register_reconciles in_key_order demo_env 9 1 demo_registration demo_down demo_outage_keyed)
    as [_ H]; [by intros k a [-> ->]%demo_outage_actor|].
  destruct (H "x:1:5" (demo_call "step") "x:1" demo_actor) as [Hr|Hs];
    [vm_compute; reflexivity|reflexivity|reflexivity|vm_compute; reflexivity|reflexivity| |exact Hs].
  exfalso. revert Hr. change (¬ "x:1:5" ∈ ["x:1:4"]). set_solver.
Defined.

Lemma register_link_order_witness :
  ∃ o1 o2, out demo_back = o1 ++ [Send 9 (Msg.ActorDispatch "x:1" "x:1:5" "step") 0 []] ++ o2.
Proof.
  destruct (@register_link_order in_key_order demo_env 9 1 demo_registration demo_down demo_outage_keyed)
    as [_ H].
  - split; [|by intros m q p ?%elem_of_nil].
    intros k p Hp. change ((∅ : gmap string PeerInfo) !! k = Some p) in Hp. by rewrite lookup_empty in Hp.
  - destruct (H "x:1" (demo_actor <| a_queued_calls := [("x:1:5", "step", [])] |>)) as [Hd _];
      [vm_compute; reflexivity|reflexivity|reflexivity|vm_compute; by left|exact Hd].
Defined.

(** A kill that finds the agent's link down frees the actor's devices at once.
    The agent comes back with the actor still running: in one section the
    daemon tells it to kill the actor and gives the devices to the next
    group. *)
Definition demo_down_kill : State :=
  demo_driver <| agents ::= alter (lose_agent demo_env) "a2" |>
    <| pgs := {[ "p:2" := demo_waiting <| pg_bundles := [1; 1; 1]%N |> ]} |>.
Example devices_move_before_the_exit :
  let killed := (@kill_actor in_key_order demo_env "x:1" "ray.kill" (mkWorld demo_down_kill [])).2 in
  let back := (@agent_register in_key_order demo_env 9 1 demo_registration killed).2 in
  existsb (λ e, match e with Send 9 (Msg.ActorKill "x:1") _ _ => true | _ => false end) (out back) = true ∧
  (pg_holds "a2" <$> pgs (st back) !! "p:2") = Some [0]%N.
Proof. split; vm_compute; reflexivity. Qed.

(** The report is not checked against the books: an adopted actor may claim
    a placed group's device, or one the agent does not have. *)
Example adoption_trusts_the_report :
  let w := (@try_place in_key_order demo_env demo_world).2 in
  let r := mkReg "a2" "g" "10.0.0.1" "n2" (mkMachine 256 20 [demo_gpu 0]) "c" 7 ∅ ∅
    [mkResume "x:9" "rank9" [0; 1]%N 5 "c:9" []] [] in
  let back := (@agent_register in_key_order demo_env 9 1 r w).2 in
  (a_gpu_ids <$> actors (st back) !! "x:9") = Some [0; 1]%N ∧
  (pg_holds "a2" <$> pgs (st back) !! "p:2") = Some [0]%N.
Proof. split; vm_compute; reflexivity. Qed.

Lemma late_reports_change_nothing_witness :
  st (actor_result "x:1:6" true "" [] demo_back).2 = st demo_back.
Proof.
  destruct (@late_reports_change_nothing in_key_order demo_env 9 "a2" "x:1:6" "" true [] demo_back) as [H _].
  assert (∃ x, refs (st demo_back) !! "x:1:6" = Some x ∧ rf_state x ≠ RefPending) as (x & Hx & Hs).
  { eexists. split; [vm_compute; reflexivity|done]. }
  by apply (H x).
Defined.
