(* ===== verification/AgentProc.v ===== *)
(** * The agent process (rust/mentatd/src/agent.rs)

    The agent's threads share four locked tables: the daemon link, the hosted
    actors, the notes on services and the messages no link took. Each critical
    section is a function on them; the threads are a transition system in
    which the sections of the register loop, the relays, the spawn threads and
    the reapers follow each other in any order. What the operating system
    decides, whether a send succeeds, whether a fork succeeds and when a
    process ends, is an argument of the step. *)

From S2P Require Import Prelude Json Proto State.

(** ** The tables *)

Record HostActor := mkHostActor {
  h_name : string; h_owner : string; h_pid : N; h_gpu_ids : list N; h_host : option Sock;
  h_pending : gset string; h_queued : list QueuedCall; h_kill : bool }.
#[export] Instance eta_HostActor : Eta HostActor := λ a,
  mkHostActor (h_name a) (h_owner a) (h_pid a) (h_gpu_ids a) (h_host a) (h_pending a) (h_queued a) (h_kill a).

(** A message for the daemon, with its payload. *)
Definition Mail := (Msg.t * bytes)%type.

Record AgentShared := mkShared {
  link : option Sock; hosted : gmap string HostActor; service_notes : gmap string string;
  unsent : list Mail }.
#[export] Instance eta_AgentShared : Eta AgentShared := λ s,
  mkShared (link s) (hosted s) (service_notes s) (unsent s).

(** What leaves the agent: a frame that a link took, a frame that an actor's
    host took, a signal. *)
Inductive Out :=
| ToDaemon (w : Sock) (m : Msg.t) (req : N) (payload : bytes)
| ToHost (w : Sock) (m : Msg.t) (payload : bytes)
| Signal (target : Z).

(** ** Critical sections *)

(** [send_daemon], its two sections: the link is read, and a message no link
    took is kept. *)
Definition read_link (s : AgentShared) : option Sock := link s.
Definition keep_unsent (m : Mail) (s : AgentShared) : AgentShared := s <| unsent ::= λ l, l ++ [m] |>.

(** The resume list and the refs of kept results, each under its own lock. *)
Definition resume_list `{HashIter} (s : AgentShared) : list ResumeActor :=
  (λ '(id, a), mkResume id (h_name a) (h_gpu_ids a) (h_pid a) (h_owner a) (elements (h_pending a)))
    <$> hash_iter (hosted s).
Definition result_ref (m : Mail) : option string :=
  match m.1 with Msg.ActorResult ref_id _ _ => Some ref_id | _ => None end.
Definition unacked_refs (s : AgentShared) : list string := omap result_ref (unsent s).

(** An actor to start: its row goes in before the slow work. *)
Definition spawn_entry (name owner : string) (gpu_ids : list N) : HostActor :=
  mkHostActor name owner 0 gpu_ids None ∅ [] false.
Definition on_spawn (actor_id name owner : string) (gpu_ids : list N) (s : AgentShared) : AgentShared :=
  s <| hosted ::= <[actor_id := spawn_entry name owner gpu_ids]> |>.

(** [kill_actor_process]: a kill that comes before the fork is noted. *)
Definition kill_signals (pid : N) : list Out := [Signal (- Z.of_N pid); Signal (Z.of_N pid)].
Definition kill_actor_process (actor_id : string) (s : AgentShared) : AgentShared * list Out :=
  match hosted s !! actor_id with
  | Some a =>
      if bool_decide (h_pid a = 0%N)
      then (s <| hosted ::= <[actor_id := a <| h_kill := true |>]> |>, [])
      else (s, kill_signals (h_pid a))
  | None => (s, [])
  end.

(** A call for a hosted actor: to its host, or held until the host connects.
    [host_ok] and [link_ok] tell whether the two sends succeed. *)
Definition no_such_actor (actor_id ref_id : string) : Msg.t :=
  Msg.ActorResult ref_id false ("no such actor " +:+ actor_id +:+ " on this agent").
Definition on_dispatch (host_ok link_ok : bool) (w : Sock) (actor_id ref_id method : string) (payload : bytes)
    (s : AgentShared) : AgentShared * list Out :=
  let refuse := if link_ok then [ToDaemon w (no_such_actor actor_id ref_id) 0 []] else [] in
  match hosted s !! actor_id with
  | Some a =>
      let a := a <| h_pending ::= λ r, {[ref_id]} ∪ r |> in
      match h_host a with
      | Some h =>
          (s <| hosted ::= <[actor_id := a]> |>,
           if host_ok then [ToHost h (Msg.HostCall ref_id method) payload] else refuse)
      | None =>
          (s <| hosted ::= <[actor_id := a <| h_queued ::= λ q, q ++ [(ref_id, method, payload)] |>]> |>, [])
      end
  | None => (s, refuse)
  end.

(** The process exists: its pid goes into the row. True when a kill waits for
    it, or when the row is gone and the child must not be left. *)
Inductive Forked := FkFine | FkKill | FkOrphan.
Definition on_fork (actor_id : string) (pid : N) (s : AgentShared) : AgentShared * Forked :=
  match hosted s !! actor_id with
  | Some a => (s <| hosted ::= <[actor_id := a <| h_pid := pid |>]> |>, if h_kill a then FkKill else FkFine)
  | None => (s, FkOrphan)
  end.

Definition drop_actor (actor_id : string) (s : AgentShared) : AgentShared := s <| hosted ::= delete actor_id |>.

(** The host has said hello: its writer is published and the held calls go to
    it in arrival order. [oks] tells which of the writes succeed; the others
    give results to send. *)
Definition write_failed : string := "could not write the call to the actor's host socket".
Fixpoint drain_calls (h : Sock) (oks : list bool) (q : list QueuedCall) : list Out * list Mail :=
  match q with
  | [] => ([], [])
  | (ref_id, method, payload) :: q =>
      let '(sent, failed) := drain_calls h (tail oks) q in
      if default true (head oks)
      then (ToHost h (Msg.HostCall ref_id method) payload :: sent, failed)
      else (sent, (Msg.ActorResult ref_id false write_failed, []) :: failed)
  end.
Definition on_host (h : Sock) (oks : list bool) (actor_id : string) (s : AgentShared)
    : AgentShared * list Out * list Mail :=
  match hosted s !! actor_id with
  | Some a =>
      let '(sent, failed) := drain_calls h oks (h_queued a) in
      (s <| hosted ::= <[actor_id := a <| h_host := Some h |> <| h_queued := [] |>]> |>, sent, failed)
  | None => (s, [], [])
  end.

(** A frame from an actor's host, and the message it makes for the daemon. *)
Definition settle_ref (actor_id ref_id : string) (s : AgentShared) : AgentShared :=
  s <| hosted ::= alter (λ a, a <| h_pending ::= λ r, r ∖ {[ref_id]} |>) actor_id |>.
Definition on_host_frame (actor_id : string) (pid : N) (m : Msg.t) (payload : bytes) (s : AgentShared)
    : AgentShared * option Mail :=
  match m with
  | Msg.CtorOk => (s, Some (Msg.ActorSpawnResult actor_id true "" pid, []))
  | Msg.CtorErr error =>
      (s, Some (Msg.ActorSpawnResult actor_id false ("constructor raised: " +:+ error) pid, []))
  | Msg.HostResult ref_id ok => (settle_ref actor_id ref_id s, Some (Msg.ActorResult ref_id ok "", payload))
  | _ => (s, None)
  end.

(** ** The threads *)

(** A thread on its way through [send_daemon], or about to signal a process
    whose kill came early. *)
Inductive Task :=
| TSend (m : Mail)
| TWrite (w : option Sock) (m : Mail)
| TKeep (m : Mail)
| TKill (actor_id : string).

(** Where the register loop is. The lock on the kept messages is held
    throughout [Draining]. *)
Inductive Phase :=
| Down
| Connected (w : Sock)
| Listed (w : Sock) (resume : list ResumeActor)
| Registering (w : Sock) (resume : list ResumeActor) (unacked : list string)
| Linked (w : Sock)
| Draining (w : Sock) (backlog : list Mail)
| Serving (w : Sock)
| Ended.

(** The agent, with its history: every frame and signal, every message given
    to [send_daemon], those a link took, every call accepted for an actor,
    the actor ids used, the actors whose process never started, the processes
    that did start, and the hosted actors the daemon asked to kill. *)
Record Agent := mkAgent {
  sh : AgentShared; phase : Phase; tasks : list Task;
  spawning : gset string; children : gmap string N;
  outs : list Out; posted : list Mail; carried : list Mail;
  accepted : list (string * string); used : gset string; stillborn : gset string;
  forks : list (string * N); kills : gset string }.
#[export] Instance eta_Agent : Eta Agent := λ x,
  mkAgent (sh x) (phase x) (tasks x) (spawning x) (children x) (outs x) (posted x) (carried x)
    (accepted x) (used x) (stillborn x) (forks x) (kills x).

(** What [run] knows when it starts. *)
Record Identity := mkIdentity {
  i_agent : string; i_group : string; i_node_ip : string; i_container : string; i_pid : N;
  i_machine : Machine; i_services : gmap string Service; i_meta : gmap string string }.

(** Each announced service with the finding about it. *)
Definition with_notes (services : gmap string Service) (notes : gmap string string) : gmap string Service :=
  map_imap (λ k v, Some (v <| s_note := default EmptyString (notes !! k) |>)) services.

Definition agent_new : Agent :=
  mkAgent (mkShared None ∅ ∅ []) Down [] ∅ ∅ [] [] [] [] ∅ ∅ [] ∅.

(** The reply to a registration that lets the agent go on. *)
Definition register_accepted (reply : option Msg.t) : bool :=
  match reply with
  | Some (Msg.AgentRegisterOk proto _) => Version.major_matches proto
  | _ => false
  end.

Definition post (m : Mail) (x : Agent) : Agent := x <| tasks ::= λ t, t ++ [TSend m] |> <| posted ::= λ p, p ++ [m] |>.
Definition emit_outs (o : list Out) (x : Agent) : Agent := x <| outs ::= λ l, l ++ o |>.
Definition carry (w : Sock) (m : Mail) (x : Agent) : Agent :=
  emit_outs [ToDaemon w m.1 0 m.2] (x <| carried ::= λ l, l ++ [m] |>).

(** One step of one thread on its [Task]: what becomes of the task, and of the
    rest. [ok] is the fate of the write. *)
Definition run_task (ok : bool) (t : Task) (x : Agent) : option Task * Agent :=
  match t with
  | TSend m => (Some (TWrite (read_link (sh x)) m), x)
  | TWrite (Some w) m => if ok then (None, carry w m x) else (Some (TKeep m), x)
  | TWrite None m => (Some (TKeep m), x)
  | TKeep m => (None, x <| sh ::= keep_unsent m |>)
  | TKill actor_id => let '(s, o) := kill_actor_process actor_id (sh x) in (None, emit_outs o (x <| sh := s |>))
  end.
Definition lock_free (t : Task) (p : Phase) : bool :=
  match t, p with TKeep _, Draining _ _ => false | _, _ => true end.
Definition task_turn (ok : bool) (before : list Task) (t : Task) (after : list Task) (x : Agent) : Agent :=
  let '(t', x) := run_task ok t x in x <| tasks := before ++ option_list t' ++ after |>.

(** The read loop on one frame. *)
Definition on_frame (host_ok link_ok : bool) (w : Sock) (req : N) (m : Msg.t) (payload : bytes) (x : Agent) : Agent :=
  match m with
  | Msg.ActorSpawn actor_id name env gpu_ids owner =>
      x <| sh ::= on_spawn actor_id name owner gpu_ids |> <| spawning ::= λ g, {[actor_id]} ∪ g |>
        <| used ::= λ g, {[actor_id]} ∪ g |>
  | Msg.ActorKill actor_id =>
      let '(s, o) := kill_actor_process actor_id (sh x) in
      let asked := match hosted (sh x) !! actor_id with Some _ => {[actor_id]} | None => ∅ end in
      emit_outs o (x <| sh := s |> <| kills ::= λ g, asked ∪ g |>)
  | Msg.ActorDispatch actor_id ref_id method =>
      let '(s, o) := on_dispatch host_ok link_ok w actor_id ref_id method payload (sh x) in
      let took := match hosted (sh x) !! actor_id with Some _ => [(actor_id, ref_id)] | None => [] end in
      emit_outs o (x <| sh := s |> <| accepted ::= λ l, l ++ took |>)
  | Msg.Ping => emit_outs (if link_ok then [ToDaemon w Msg.Pong req []] else []) x
  | _ => x
  end.

(** The daemon names a new actor by an id it has not used. *)
Definition fresh_spawn (m : Msg.t) (x : Agent) : Prop :=
  match m with Msg.ActorSpawn actor_id _ _ _ _ => actor_id ∉ used x | _ => True end.

(** The spawn thread, up to the fork. *)
Definition spawn_failed (link_ok : bool) (w : Sock) (actor_id error : string) (x : Agent) : Agent :=
  emit_outs (if link_ok then [ToDaemon w (Msg.ActorSpawnResult actor_id false error 0) 0 []] else [])
    (x <| sh ::= drop_actor actor_id |> <| spawning ::= λ g, g ∖ {[actor_id]} |>
       <| stillborn ::= λ g, {[actor_id]} ∪ g |>).
Definition forked (actor_id : string) (pid : N) (x : Agent) : Agent :=
  let '(s, f) := on_fork actor_id pid (sh x) in
  let x := x <| sh := s |> <| spawning ::= λ g, g ∖ {[actor_id]} |> <| children ::= <[actor_id := pid]> |>
             <| forks ::= λ l, l ++ [(actor_id, pid)] |> in
  match f with
  | FkFine => x
  | FkKill => x <| tasks ::= λ t, t ++ [TKill actor_id] |>
  | FkOrphan => emit_outs [Signal (- Z.of_N pid)] x
  end.

(** The reaper: stragglers are swept, the row goes, the exit is reported. *)
Definition reaped (actor_id : string) (pid : N) (code signal : option Z) (x : Agent) : Agent :=
  post (Msg.ActorExit actor_id code signal, [])
    (emit_outs [Signal (- Z.of_N pid)] x <| sh ::= drop_actor actor_id |> <| children ::= delete actor_id |>).

(** The relay: the host's hello, and then its frames. *)
Definition host_joined (h : Sock) (oks : list bool) (actor_id : string) (x : Agent) : Agent :=
  let '(s, sent, failed) := on_host h oks actor_id (sh x) in
  foldl (λ x m, post m x) (emit_outs sent (x <| sh := s |>)) failed.
Definition host_frame (actor_id : string) (pid : N) (m : Msg.t) (payload : bytes) (x : Agent) : Agent :=
  let '(s, mail) := on_host_frame actor_id pid m payload (sh x) in
  let x := x <| sh := s |> in
  match mail with Some m => post m x | None => x end.

(** A finding about a service, or its withdrawal. *)
Definition note_service (service : string) (note : option string) (x : Agent) : Agent :=
  post (Msg.ServiceNote service (default EmptyString note), [])
    (x <| sh ::= λ s, s <| service_notes ::= λ n,
       match note with Some t => <[service := t]> n | None => delete service n end |> |>).

Section threads.
Context `{HI : HashIter} (I : Identity).

Definition register_msg (s : AgentShared) (resume : list ResumeActor) (unacked : list string) : Msg.t :=
  Msg.AgentRegister Version.PROTO (i_agent I) (i_group I) (i_node_ip I) (i_container I) (i_pid I) (i_machine I)
    (with_notes (i_services I) (service_notes s)) resume unacked (i_meta I).

Inductive step : Agent → Agent → Prop :=
(* the register loop: [run] and [serve_once] *)
| s_connect x w : phase x = Down → step x (x <| phase := Connected w |>)
| s_list x w : phase x = Connected w → step x (x <| phase := Listed w (resume_list (sh x)) |>)
| s_register x w resume : phase x = Listed w resume →
    let unacked := unacked_refs (sh x) in
    step x (emit_outs [ToDaemon w (register_msg (sh x) resume unacked) 1 []]
             (x <| phase := Registering w resume unacked |>))
| s_unsent_register x w resume : phase x = Listed w resume → step x (x <| phase := Ended |>)
| s_refused x w resume unacked reply : phase x = Registering w resume unacked →
    register_accepted reply = false → step x (x <| phase := Ended |>)
| s_linked x w resume unacked reply : phase x = Registering w resume unacked →
    register_accepted reply = true →
    step x (x <| phase := Linked w |> <| sh ::= λ s, s <| link := Some w |> |>)
| s_drain x w : phase x = Linked w →
    step x (x <| phase := Draining w (unsent (sh x)) |> <| sh ::= λ s, s <| unsent := [] |> |>)
| s_drain_sent x w m backlog : phase x = Draining w (m :: backlog) →
    step x (carry w m (x <| phase := Draining w backlog |>))
| s_drain_failed x w m backlog : phase x = Draining w (m :: backlog) →
    step x (x <| phase := Serving w |> <| sh ::= λ s, s <| unsent ::= λ l, l ++ m :: backlog |> |>)
| s_drained x w : phase x = Draining w [] → step x (x <| phase := Serving w |>)
| s_frame x w host_ok link_ok req m payload : phase x = Serving w → fresh_spawn m x →
    step x (on_frame host_ok link_ok w req m payload x)
| s_closed x w : phase x = Serving w → step x (x <| phase := Ended |>)
| s_unlink x : phase x = Ended → step x (x <| phase := Down |> <| sh ::= λ s, s <| link := None |> |>)
(* a thread inside [send_daemon], or with a kill to carry out *)
| s_task x ok before t after : tasks x = before ++ t :: after → lock_free t (phase x) = true →
    step x (task_turn ok before t after x)
(* the spawn threads, the reapers and the relays *)
| s_spawn_failed x link_ok w actor_id error : actor_id ∈ spawning x →
    step x (spawn_failed link_ok w actor_id error x)
| s_forked x actor_id pid : actor_id ∈ spawning x → (0 < pid < 2 ^ 31)%N → step x (forked actor_id pid x)
| s_no_hello x actor_id pid : children x !! actor_id = Some pid →
    step x (emit_outs [Signal (- Z.of_N pid)] x)
| s_reaped x actor_id pid code signal : children x !! actor_id = Some pid →
    step x (reaped actor_id pid code signal x)
| s_host x h oks actor_id : step x (host_joined h oks actor_id x)
| s_host_frame x actor_id pid m payload : step x (host_frame actor_id pid m payload x)
| s_ping x w : step x (emit_outs [ToDaemon w Msg.Ping 0 []] x)
| s_note x service note : step x (note_service service note x).

Definition reachable (x : Agent) : Prop := rtc step agent_new x.
End threads.

Lemma reachable_inv `{HI : HashIter} I (P : Agent → Prop) :
  P agent_new → (∀ x y, reachable I x → step I x y → P x → P y) → ∀ x, reachable I x → P x.
Proof.
  intros H0 HS x Hr. unfold reachable in *.
  revert x Hr. apply (rtc_ind_r (R := step I) P agent_new); [done|]. intros y z Hy Hyz. by apply HS.
Qed.

(** ** What becomes of a message *)

Definition task_mail (t : Task) : option Mail :=
  match t with TSend m | TWrite _ m | TKeep m => Some m | TKill _ => None end.
Definition in_hand (x : Agent) : list Mail := omap task_mail (tasks x).
Definition backlog_of (p : Phase) : list Mail := match p with Draining _ b => b | _ => [] end.

(** Where the messages given to [send_daemon] are: taken by a link, kept,
    waiting in the drain, or in a thread's hands. *)
Definition whereabouts (x : Agent) : list Mail :=
  carried x ++ unsent (sh x) ++ backlog_of (phase x) ++ in_hand x.
Definition accounted (x : Agent) : Prop := posted x ≡ₚ whereabouts x.

Lemma kill_unsent actor_id s : unsent (kill_actor_process actor_id s).1 = unsent s.
Proof. unfold kill_actor_process. destruct (hosted s !! actor_id); [|done]. by case_bool_decide. Qed.

Lemma accounted_post m x : accounted x → accounted (post m x).
Proof.
  unfold accounted, whereabouts, in_hand. intros Hx. cbn. rewrite Hx, omap_app. cbn. solve_Permutation.
Qed.
Lemma accounted_posts l x : accounted x → accounted (foldl (λ x m, post m x) x l).
Proof. revert x. induction l as [|m l IH]; intros x Hx; [done|]. by apply IH, accounted_post. Qed.

Lemma accounted_task ok before t after x : tasks x = before ++ t :: after → accounted x →
  accounted (task_turn ok before t after x).
Proof.
  intros Ht Hx. unfold accounted, whereabouts, in_hand, task_turn in *.
  destruct t as [m|[w|] m|m|a]; cbn [run_task]; try destruct ok.
  all: try (cbn; rewrite Hx, Ht, !omap_app; cbn; solve_Permutation).

  all: pose proof (kill_unsent a (sh x)) as Hu; destruct (kill_actor_process a (sh x)) as [s o];
    cbn in *; rewrite Hu, Hx, Ht, !omap_app; cbn; solve_Permutation.
Qed.

Lemma dispatch_unsent host_ok link_ok w a r me p s : unsent (on_dispatch host_ok link_ok w a r me p s).1 = unsent s.
Proof. unfold on_dispatch. destruct (hosted s !! a) as [row|]; [|done]. by destruct (h_host _). Qed.
Lemma fork_unsent actor_id pid s : unsent (on_fork actor_id pid s).1 = unsent s.
Proof. unfold on_fork. by destruct (hosted s !! actor_id). Qed.
Lemma host_unsent h oks actor_id s : unsent (on_host h oks actor_id s).1.1 = unsent s.
Proof. unfold on_host. destruct (hosted s !! actor_id) as [a|]; [|done]. by destruct (drain_calls _ _ _). Qed.
Lemma host_frame_unsent actor_id pid m p s : unsent (on_host_frame actor_id pid m p s).1 = unsent s.
Proof. by destruct m. Qed.

Lemma accounted_frame host_ok link_ok w req m payload x :
  accounted x → accounted (on_frame host_ok link_ok w req m payload x).
Proof.
  unfold accounted, whereabouts, in_hand. intros Hx. destruct m; cbn [on_frame]; try done.
  - pose proof (dispatch_unsent host_ok link_ok w actor_id ref_id method payload (sh x)) as Hu.
    destruct (on_dispatch _ _ _ _ _ _ _ _) as [s o]. cbn in *. by rewrite Hu.
  - pose proof (kill_unsent actor_id (sh x)) as Hu. destruct (kill_actor_process _ _) as [s o].
    cbn in *. by rewrite Hu.
Qed.

Lemma accounted_step `{HI : HashIter} I x y : step I x y → accounted x → accounted y.
Proof.
  destruct 1; intros Hx; try exact Hx; try (by apply accounted_frame); try (by eapply accounted_task).
  all: try (unfold accounted, whereabouts, in_hand in *; cbn;
    rewrite Hx; repeat match goal with H : phase _ = _ |- _ => rewrite H end; cbn; solve_Permutation).
  - unfold forked. pose proof (fork_unsent actor_id pid (sh x)) as Hu.
    destruct (on_fork actor_id pid (sh x)) as [s f]. unfold accounted, whereabouts, in_hand in *. cbn [fst] in Hu.
    destruct f; cbn; rewrite Hu, Hx, ?omap_app; cbn; solve_Permutation.
  - by apply accounted_post.
  - unfold host_joined. pose proof (host_unsent h oks actor_id (sh x)) as Hu.
    destruct (on_host h oks actor_id (sh x)) as [[s sent] failed]. apply accounted_posts.
    unfold accounted, whereabouts, in_hand in *. cbn in *. by rewrite Hu.
  - unfold host_frame. pose proof (host_frame_unsent actor_id pid m payload (sh x)) as Hu.
    destruct (on_host_frame _ _ _ _ _) as [s [mail|]]; [apply accounted_post|];
      unfold accounted, whereabouts, in_hand in *; cbn in *; by rewrite Hu.
  - by apply accounted_post.
Qed.

(** C16: In every state the agent's threads can reach, each message given to
    [send_daemon] is in exactly one place: taken by a link once, kept for the
    next link, in the drain's hands, or in the hands of a thread that is still
    sending it. None is lost and none is sent twice, whatever the order of the
    threads, the links' failures and the registrations. *)
Theorem messages_exactly_once `{HI : HashIter} (I : Identity) x :
  reachable I x → posted x ≡ₚ carried x ++ unsent (sh x) ++ backlog_of (phase x) ++ in_hand x.
Proof.
  revert x. apply (reachable_inv I accounted); [exact (Permutation_refl [])|]. intros x y _. apply accounted_step.
Qed.

(** ** Kills *)

Definition signal_of (o : Out) : option Z := match o with Signal t => Some t | _ => None end.
Definition signals (x : Agent) : list Z := omap signal_of (outs x).
Definition kill_task (t : Task) : option string := match t with TKill a => Some a | _ => None end.
Definition kill_tasks (x : Agent) : list string := omap kill_task (tasks x).
Definition row_kill (a : HostActor) : N * bool := (h_pid a, h_kill a).
Definition rows (s : AgentShared) : gmap string (N * bool) := row_kill <$> hosted s.

#[local] Arguments rows : simpl never.
#[local] Arguments signals : simpl never.
#[local] Arguments kill_tasks : simpl never.

(** A process of actor [a] was started, and its group was signalled. *)
Definition signalled (x : Agent) (a : string) : Prop := ∃ p, (a, p) ∈ forks x ∧ (- Z.of_N p)%Z ∈ signals x.

(** The rows, the spawn threads and the children fit together: an actor is
    being spawned, or has one child, whose pid its row holds. *)
Record fits (x : Agent) : Prop := {
  f_row a p k : rows (sh x) !! a = Some (p, k) →
    a ∈ used x ∧ ((p = 0%N ∧ a ∈ spawning x) ∨ children x !! a = Some p);
  f_spawning a : a ∈ spawning x → (∃ k, rows (sh x) !! a = Some (0%N, k)) ∧ children x !! a = None;
  f_child a p : children x !! a = Some p →
    (0 < p)%N ∧ (a, p) ∈ forks x ∧ ∃ k, rows (sh x) !! a = Some (p, k);
}.

(** Each kill is carried out, waits for the fork, or found no process. *)
Record kills_kept (x : Agent) : Prop := {
  k_task a : a ∈ kill_tasks x → (∃ p, children x !! a = Some p) ∨ signalled x a;
  k_signal t : t ∈ signals x → ∃ a p, (a, p) ∈ forks x ∧ (0 < p)%N ∧ (t = Z.of_N p ∨ t = - Z.of_N p)%Z;
  k_kill a : a ∈ kills x → (a ∈ spawning x ∧ rows (sh x) !! a = Some (0%N, true)) ∨ a ∈ kill_tasks x ∨
    signalled x a ∨ a ∈ stillborn x;
}.
Definition in_order (x : Agent) : Prop := fits x ∧ kills_kept x.

(** What those invariants read. *)
Definition core (x : Agent) :=
  (rows (sh x), spawning x, children x, used x, stillborn x, (forks x, kills x, signals x, kill_tasks x)).
Lemma core_order x y : core y = core x → in_order x → in_order y.
Proof.
  unfold core. intros [= Hr Hs Hc Hu Hb Hf Hk Hg Ht] [[F1 F2 F3] [K1 K2 K3]].
  split; split; unfold signalled in *; rewrite ?Hr, ?Hs, ?Hc, ?Hu, ?Hb, ?Hf, ?Hk, ?Hg, ?Ht; done.
Qed.

Lemma rows_lookup s a : rows s !! a = row_kill <$> hosted s !! a.
Proof. apply lookup_fmap. Qed.
(** An update of a row that keeps its pid and its kill keeps the rows. *)
Lemma rows_same s a row row' l n u : hosted s !! a = Some row → row_kill row' = row_kill row →
  rows (mkShared l (<[a := row']> (hosted s)) n u) = rows s.
Proof.
  intros Ha Hk. unfold rows. cbn. rewrite fmap_insert, Hk. apply insert_id. rewrite lookup_fmap, Ha. done.
Qed.

Lemma core_emit o x : omap signal_of o = [] → core (emit_outs o x) = core x.
Proof. intros Ho. unfold core, signals. cbn. by rewrite omap_app, Ho, app_nil_r. Qed.
Lemma core_post m x : core (post m x) = core x.
Proof. unfold core, kill_tasks. cbn. by rewrite omap_app, app_nil_r. Qed.
Lemma core_posts l x : core (foldl (λ x m, post m x) x l) = core x.
Proof. revert x. induction l as [|m l IH]; intros x; [done|]. cbn [foldl]. by rewrite IH, core_post. Qed.

Lemma dispatch_core host_ok link_ok w a r me p s :
  rows (on_dispatch host_ok link_ok w a r me p s).1 = rows s ∧
  omap signal_of (on_dispatch host_ok link_ok w a r me p s).2 = [].
Proof.
  unfold on_dispatch. destruct (hosted s !! a) as [row|] eqn:Ha; [|split; [done|by destruct link_ok]].
  cbn. destruct (h_host row) as [h|]; cbn; (split; [by apply (rows_same s a row _ (link s) (service_notes s) (unsent s))|]); [|done].
  by destruct host_ok, link_ok.
Qed.
Lemma drain_signals h oks q : omap signal_of (drain_calls h oks q).1 = [].
Proof.
  revert oks. induction q as [|[[r me] p] q IH]; intros oks; [done|]. cbn [drain_calls]. specialize (IH (tail oks)).
  destruct (drain_calls h (tail oks) q) as [sent failed]. by destruct (default true (head oks)).
Qed.
Lemma host_core h oks a s :
  rows (on_host h oks a s).1.1 = rows s ∧ omap signal_of (on_host h oks a s).1.2 = [].
Proof.
  unfold on_host. destruct (hosted s !! a) as [row|] eqn:Ha; [|done]. pose proof (drain_signals h oks (h_queued row)) as Hd.
  destruct (drain_calls h oks (h_queued row)) as [sent failed]. cbn in *. split; [|done]. by apply (rows_same s a row _ (link s) (service_notes s) (unsent s)).
Qed.
Lemma host_frame_core a pid m p s : rows (on_host_frame a pid m p s).1 = rows s.
Proof.
  destruct m; try done. cbn. unfold rows. cbn. apply map_eq. intros i. rewrite !lookup_fmap.
  destruct (decide (i = a)) as [->|Hne]; [rewrite lookup_alter_eq|by rewrite lookup_alter_ne].
  by destruct (hosted s !! a).
Qed.

Ltac core_done := unfold core, signals, kill_tasks; cbn in *; congruence.

(** The steps that leave the actors' processes alone. *)
Lemma core_frame host_ok link_ok w req m payload x :
  match m with Msg.ActorSpawn _ _ _ _ _ | Msg.ActorKill _ => False | _ => True end →
  core (on_frame host_ok link_ok w req m payload x) = core x.
Proof.
  destruct m; try done; intros _; cbn [on_frame].
  - pose proof (dispatch_core host_ok link_ok w actor_id ref_id method payload (sh x)) as [Hr Ho].
    destruct (on_dispatch _ _ _ _ _ _ _ _) as [s o]. rewrite core_emit by done. core_done.
  - rewrite core_emit; [done|]. by destruct link_ok.
Qed.
Lemma core_host h oks a x : core (host_joined h oks a x) = core x.
Proof.
  unfold host_joined. pose proof (host_core h oks a (sh x)) as [Hr Ho].
  destruct (on_host h oks a (sh x)) as [[s sent] failed]. rewrite core_posts, core_emit by done. core_done.
Qed.
Lemma core_host_frame a pid m p x : core (host_frame a pid m p x) = core x.
Proof.
  unfold host_frame. pose proof (host_frame_core a pid m p (sh x)) as Hr.
  destruct (on_host_frame a pid m p (sh x)) as [s [mail|]]; [rewrite core_post|]; core_done.
Qed.
Lemma core_task ok before t after x : tasks x = before ++ t :: after → kill_task t = None →
  core (task_turn ok before t after x) = core x.
Proof.
  intros Ht Hk. unfold task_turn. destruct t as [m|[w|] m|m|a]; cbn [run_task]; [|destruct ok| | |done].
  all: unfold core, signals, kill_tasks; cbn; by rewrite Ht, ?omap_app, ?app_nil_r.
Qed.

(** The steps that change them. *)
Lemma rows_insert s a row l n u : rows (mkShared l (<[a := row]> (hosted s)) n u) = <[a := row_kill row]> (rows s).
Proof. unfold rows. cbn. apply fmap_insert. Qed.
Lemma rows_delete s a l n u : rows (mkShared l (delete a (hosted s)) n u) = delete a (rows s).
Proof. unfold rows. cbn. apply fmap_delete. Qed.

Lemma signalled_more x y a : forks x ⊆ forks y → signals x ⊆ signals y → signalled x a → signalled y a.
Proof. intros Hf Hs (p & Hp & Hg). exists p. auto. Qed.

Lemma signals_emit o x : signals (emit_outs o x) = signals x ++ omap signal_of o.
Proof. unfold signals. cbn. apply omap_app. Qed.

Lemma order_spawn actor_id name owner gpu_ids x : actor_id ∉ used x → in_order x →
  in_order (x <| sh ::= on_spawn actor_id name owner gpu_ids |> <| spawning ::= λ g, {[actor_id]} ∪ g |>
              <| used ::= λ g, {[actor_id]} ∪ g |>).
Proof.
  intros Hnew [[F1 F2 F3] [K1 K2 K3]].
  assert (rows (sh x) !! actor_id = None) as Hno.
  { destruct (rows (sh x) !! actor_id) as [[p k]|] eqn:Hr; [|done]. by destruct (F1 _ _ _ Hr). }
  split; split; unfold on_spawn; cbn; rewrite ?rows_insert.
  - intros a p k. rewrite lookup_insert. case_decide as Ha.
    + intros [= <- <-]. subst a. split; [set_solver|]. left. split; [done|set_solver].
    + intros Hr. destruct (F1 _ _ _ Hr) as [Hu Hor]. split; [set_solver|]. destruct Hor as [[??]|?]; [left|by right]. set_solver.
  - intros a. destruct (decide (actor_id = a)) as [<-|Hne].
    + intros _. split; [exists false; by rewrite lookup_insert_eq|].
      destruct (children x !! actor_id) eqn:Hc; [|done]. destruct (F3 _ _ Hc) as (_ & _ & k & Hr). congruence.
    + rewrite lookup_insert_ne by done. intros Ha. apply F2. set_solver.
  - intros a p Hc. destruct (F3 _ _ Hc) as (Hp & Hf & k & Hr). split_and!; [done..|]. exists k.
    rewrite lookup_insert_ne; [done|]. by intros <-; rewrite Hno in Hr.
  - intros a Ha. apply K1. exact Ha.
  - exact K2.
  - intros a Ha. destruct (K3 a Ha) as [[Hs Hr]|H]; [left|by right]. split; [set_solver|].
    rewrite lookup_insert_ne; [done|]. by intros <-; rewrite Hno in Hr.
Qed.

Lemma order_no_hello x a pid : children x !! a = Some pid → in_order x → in_order (emit_outs [Signal (- Z.of_N pid)] x).
Proof.
  intros Hc [F [K1 K2 K3]]. pose proof (f_child _ F _ _ Hc) as (Hp & Hf & _). split; [destruct F; by split|].
  assert (∀ b, signalled x b → signalled (emit_outs [Signal (- Z.of_N pid)] x) b) as Hmore.
  { intros b. apply signalled_more; [done|]. rewrite signals_emit. set_solver. }
  split.
  - intros b Hb. destruct (K1 b Hb) as [?|?]; [by left|right; auto].
  - intros t. rewrite signals_emit. intros [Ht|Ht]%elem_of_app; [by apply K2|].
    apply list_elem_of_singleton in Ht as ->. exists a, pid. auto.
  - intros b Hb. destruct (K3 b Hb) as [?|[?|[?|?]]]; [by left|by right; left|right; right; left; auto|by right; right; right].
Qed.

(** Carrying out a kill, from the read loop or from the thread that forked. *)
Lemma order_kill x a s o : in_order x → kill_actor_process a (sh x) = (s, o) →
  in_order (emit_outs o (x <| sh := s |>)) ∧
  (signalled (emit_outs o (x <| sh := s |>)) a ∨ (a ∈ spawning x ∧ rows s !! a = Some (0%N, true)) ∨ hosted (sh x) !! a = None).
Proof.
  intros Ho Hk. unfold kill_actor_process in Hk. destruct (hosted (sh x) !! a) as [row|] eqn:Ha.
  2: { injection Hk as <- <-. split; [|by right; right]. eapply core_order; [|exact Ho]. by rewrite core_emit. }
  assert (rows (sh x) !! a = Some (h_pid row, h_kill row)) as Hr by (by rewrite rows_lookup, Ha).
  destruct Ho as [[F1 F2 F3] [K1 K2 K3]]. destruct (F1 _ _ _ Hr) as [Hu Hor]. case_bool_decide as Hp.
  - injection Hk as <- <-. assert (a ∈ spawning x) as Hs.
    { destruct Hor as [[_ ?]|Hc]; [done|]. destruct (F3 _ _ Hc). lia. }
    split; [|right; left; split; [done|]; cbn; by rewrite rows_insert, lookup_insert_eq, Hp].
    split; split; cbn; rewrite ?rows_insert.
    + intros b p k. rewrite lookup_insert. case_decide as Hb; [|apply F1]. subst b. intros [= <- <-].
      split; [done|]. left. done.
    + intros b Hb. destruct (F2 _ Hb) as [[k Hk] Hc]. split; [|done]. rewrite lookup_insert.
      case_decide as Hab; [subst b|by exists k]. exists true. by rewrite Hp.
    + intros b p Hc. destruct (F3 _ _ Hc) as (Hpos & Hf & k & Hk). split_and!; [done..|]. exists k.
      rewrite lookup_insert_ne; [done|]. intros <-. destruct (F2 _ Hs). congruence.
    + intros b Hb. unfold signalled. cbn. unfold signals, emit_outs. cbn. rewrite app_nil_r. by apply K1.
    + intros t. unfold signals, emit_outs. cbn. rewrite app_nil_r. apply K2.
    + intros b Hb. unfold signalled, signals, emit_outs, kill_tasks. cbn. rewrite app_nil_r.
      destruct (K3 b Hb) as [[Hs' Hr']|Hrest]; [left|by right]. split; [done|]. rewrite lookup_insert.
      case_decide; [|done]. by rewrite Hp.
  - injection Hk as <- <-. destruct Hor as [[? _]|Hc]; [done|]. destruct (F3 _ _ Hc) as (Hpos & Hf & _).
    assert (∀ b, signalled x b → signalled (emit_outs (kill_signals (h_pid row)) (x <| sh := sh x |>)) b) as Hmore.
    { intros b. apply signalled_more; [done|]. rewrite signals_emit. set_solver. }
    split; [|left; exists (h_pid row); split; [done|]; rewrite signals_emit; apply elem_of_app; right; by left].
    split; split; [exact F1|exact F2|exact F3| | |].
    + intros b Hb. destruct (K1 b Hb) as [?|?]; [by left|right; auto].
    + intros t. rewrite signals_emit. intros [Ht|Ht]%elem_of_app; [by apply K2|].
      exists a, (h_pid row). split_and!; [done..|]. cbn in Ht.
      apply elem_of_cons in Ht as [->|Ht%list_elem_of_singleton]; auto.
    + intros b Hb. destruct (K3 b Hb) as [?|[?|[?|?]]]; [by left|by right; left|right; right; left; auto|by right; right; right].
Qed.

Lemma kill_tasks_split x before t after : tasks x = before ++ t :: after →
  kill_tasks x = omap kill_task before ++ option_list (kill_task t) ++ omap kill_task after.
Proof. intros Ht. unfold kill_tasks. rewrite Ht, omap_app. cbn. by destruct (kill_task t). Qed.

Lemma order_kill_task ok before a after x : tasks x = before ++ TKill a :: after → in_order x →
  in_order (task_turn ok before (TKill a) after x).
Proof.
  intros Ht Ho. unfold task_turn. cbn [run_task]. destruct (kill_actor_process a (sh x)) as [s o] eqn:Hk.
  destruct (order_kill x a s o Ho Hk) as [[[F1 F2 F3] [K1 K2 K3]] Hdone].
  set (y := emit_outs o (x <| sh := s |>)) in *. pose proof (kill_tasks_split x _ _ _ Ht) as Hkt. cbn in Hkt.
  change (kill_tasks x) with (kill_tasks y) in Hkt.
  assert (kill_tasks (y <| tasks := before ++ option_list None ++ after |>) = omap kill_task before ++ omap kill_task after) as Hkt'.
  { unfold kill_tasks. cbn. apply omap_app. }
  assert (signalled y a ∨ (a ∈ spawning y ∧ rows (sh y) !! a = Some (0%N, true))) as Hend.
  { destruct Hdone as [?|[?|Hno]]; [by left|by right|]. left.
    destruct (K1 a) as [[p Hc]|?]; [rewrite Hkt; set_solver| |done].
    destruct (F3 _ _ Hc) as (_ & _ & k & Hr). unfold kill_actor_process in Hk. rewrite Hno in Hk. injection Hk as <- <-.
    cbn in Hr. by rewrite rows_lookup, Hno in Hr. }
  split; split; [exact F1|exact F2|exact F3| |exact K2|].
  - intros b Hb. apply K1. rewrite Hkt. rewrite Hkt' in Hb. set_solver.
  - intros b Hb. destruct (K3 b Hb) as [?|[Hin|?]]; [by left| |by right; right]. rewrite Hkt in Hin. rewrite Hkt'.
    destruct (decide (b = a)) as [->|Hne]; [|set_solver]. destruct Hend as [?|?]; [right; right; by left|by left].
Qed.

Lemma order_spawn_failed link_ok w a error x : a ∈ spawning x → in_order x →
  in_order (spawn_failed link_ok w a error x).
Proof.
  intros Hs [[F1 F2 F3] [K1 K2 K3]]. destruct (F2 _ Hs) as [[k0 Hk0] Hno]. unfold spawn_failed.
  eapply core_order; [apply core_emit; by destruct link_ok|].
  split; split; unfold drop_actor; cbn; rewrite ?rows_delete.
  - intros b p k. rewrite lookup_delete. case_decide as Hb; [done|]. intros Hr.
    destruct (F1 _ _ _ Hr) as [Hu [[-> ?]|?]]; (split; [done|]); [left|by right]. set_solver.
  - intros b Hb. rewrite lookup_delete_ne by set_solver. apply F2. set_solver.
  - intros b p Hc. assert (a ≠ b) by congruence. rewrite lookup_delete_ne by done. by apply F3.
  - exact K1.
  - exact K2.
  - intros b Hb. destruct (decide (b = a)) as [->|Hne]; [right; right; right; set_solver|].
    rewrite lookup_delete_ne by done. destruct (K3 b Hb) as [[? ?]|[?|[?|?]]]; [left|by right; left|by right; right; left|].
    + split; [set_solver|done].
    + right; right; right. set_solver.
Qed.

Lemma order_forked a pid x : a ∈ spawning x → (0 < pid)%N → in_order x → in_order (forked a pid x).
Proof.
  intros Hs Hp [[F1 F2 F3] [K1 K2 K3]]. destruct (F2 _ Hs) as [[k Hk] Hno].
  unfold forked, on_fork. rewrite rows_lookup in Hk. destruct (hosted (sh x) !! a) as [row|] eqn:Ha; [|done].
  injection Hk as Hp0 Hk0. cbn [fst snd].
  set (y := x <| sh := _ |> <| spawning ::= _ |> <| children ::= _ |> <| forks ::= _ |>).
  assert (rows (sh y) = <[a := (pid, k)]> (rows (sh x))) as Hrows.
  { cbn. rewrite rows_insert. unfold row_kill. cbn. by rewrite Hk0. }
  assert (∀ b, signalled x b → signalled y b) as Hmore by (intros b; apply signalled_more; [set_solver|done]).
  assert (fits y) as Hfits.
  { split; rewrite Hrows; cbn.
    - intros b p j. rewrite lookup_insert. case_decide as Hb.
      + subst b. intros [= <- <-]. destruct (F1 a 0%N k) as [Hu _]; [by rewrite rows_lookup, Ha; unfold row_kill; cbn; rewrite Hp0, Hk0|].
        split; [done|]. right. by rewrite lookup_insert_eq.
      + intros Hr. destruct (F1 _ _ _ Hr) as [Hu Hor]. split; [done|]. rewrite lookup_insert_ne by done.
        destruct Hor as [[??]|?]; [left; set_solver|by right].
    - intros b Hb. rewrite !lookup_insert_ne by set_solver. apply F2. set_solver.
    - intros b p. rewrite !lookup_insert. case_decide as Hb.
      + subst b. intros [= <-]. split_and!; [done|set_solver|]. by exists k.
      + intros Hc. destruct (F3 _ _ Hc) as (?&?&?). split_and!; [done|set_solver|done]. }
  assert (k = false → kills_kept y) as Hplain.
  { intros ->. split.
    - intros b Hb. destruct (K1 b Hb) as [[p Hc]|?]; [left|right; auto]. exists p. cbn.
      rewrite lookup_insert_ne; [done|congruence].
    - intros t Ht. destruct (K2 t Ht) as (b & p & ? & ?). exists b, p. split; [cbn; set_solver|done].
    - intros b Hb. destruct (K3 b Hb) as [[? Hr]|[?|[?|?]]]; [|by right; left|right; right; left; auto|by right; right; right].
      left. rewrite Hrows. assert (a ≠ b). { intros <-. rewrite rows_lookup, Ha in Hr. unfold row_kill in Hr. cbn in Hr. congruence. }
      rewrite lookup_insert_ne by done. split; [cbn; set_solver|done]. }
  rewrite Hk0. destruct k; [|split; [done|by apply Hplain]].
  split; [destruct Hfits; by split|]. clear Hplain.
  assert (kill_tasks (y <| tasks ::= λ t, t ++ [TKill a] |>) = kill_tasks x ++ [a]) as Hkt.
  { unfold kill_tasks. cbn. by rewrite omap_app. }
  split; rewrite ?Hkt.
  - intros b [Hb|Hb%list_elem_of_singleton]%elem_of_app.
    + destruct (K1 b Hb) as [[p Hc]|?]; [left|right; by apply Hmore]. cbn. rewrite lookup_insert. case_decide; eauto.
    + subst b. left. exists pid. cbn. by rewrite lookup_insert_eq.
  - intros t Ht. destruct (K2 t Ht) as (b & p & ? & ?). exists b, p. split; [cbn; set_solver|done].
  - intros b Hb. destruct (decide (b = a)) as [->|Hne]; [right; left; set_solver|].
    destruct (K3 b Hb) as [[? Hr]|[?|[?|?]]]; [|right; left; set_solver|right; right; left; by apply Hmore|by right; right; right].
    left. cbn -[rows]. rewrite rows_insert, lookup_insert_ne by done. split; [set_solver|done].
Qed.

Lemma order_reaped a pid code signal x : children x !! a = Some pid → in_order x → in_order (reaped a pid code signal x).
Proof.
  intros Hc Ho. apply (order_no_hello _ _ _ Hc) in Ho. destruct Ho as [[F1 F2 F3] [K1 K2 K3]].
  destruct (F3 _ _ Hc) as (Hp & Hf & k & Hk).
  unfold reaped. eapply core_order; [apply core_post|]. set (y := emit_outs _ x) in *.
  assert (signalled y a) as Hsig by (exists pid; split; [done|]; unfold y; rewrite signals_emit; apply elem_of_app; right; by left).
  split; split; unfold drop_actor; cbn -[y]; rewrite ?rows_delete.
  - intros b p j. rewrite lookup_delete. case_decide as Hb; [done|]. intros Hr. destruct (F1 _ _ _ Hr) as [? ?].
    split; [done|]. by rewrite lookup_delete_ne.
  - intros b Hb. assert (a ≠ b). { intros <-. destruct (F2 _ Hb). cbn in *. congruence. }
    rewrite !lookup_delete_ne by done. by apply F2.
  - intros b p. rewrite lookup_delete. case_decide as Hb; [done|]. intros Hc'. rewrite lookup_delete_ne by done. by apply F3.
  - intros b Hb. destruct (decide (b = a)) as [->|Hne]; [by right|]. rewrite lookup_delete_ne by done. by apply K1.
  - exact K2.
  - intros b Hb. destruct (decide (b = a)) as [->|Hne]; [right; right; by left|]. rewrite lookup_delete_ne by done. by apply K3.
Qed.

Lemma order_step `{HI : HashIter} I x y : step I x y → in_order x → in_order y.
Proof.
  destruct 1; intros Hx; try (eapply core_order; [|exact Hx]; first [done|by apply core_emit|by apply core_post]).
  - eapply core_order; [|exact Hx]. by rewrite core_emit.
  - eapply core_order; [|exact Hx]. unfold carry. by rewrite core_emit.
  - destruct m; try (eapply core_order; [by apply core_frame|done]).
    + by apply order_spawn.
    + cbn [on_frame]. destruct (kill_actor_process actor_id (sh x)) as [s o] eqn:Hk.
      destruct (order_kill x actor_id s o Hx Hk) as [[F [K1 K2 K3]] Hd]. split; [destruct F; by split|].
      split; [exact K1|exact K2|]. intros b. cbn. destruct (hosted (sh x) !! actor_id) as [row|] eqn:Ha.
      * intros [->%elem_of_singleton|Hb]%elem_of_union; [|by apply K3].
        destruct Hd as [?|[?|?]]; [right; right; by left|by left|done].
      * intros Hb. apply K3. set_solver.
  - destruct t as [m|w m|m|a]; [| | |by apply order_kill_task];
      (eapply core_order; [by eapply core_task|done]).
  - by apply order_spawn_failed.
  - apply order_forked; [done|lia|done].
  - by eapply order_no_hello.
  - by apply order_reaped.
  - eapply core_order; [apply core_host|done].
  - eapply core_order; [apply core_host_frame|done].
  - unfold note_service. eapply core_order; [apply core_post|]. by eapply core_order; [|exact Hx].
Qed.

(** C21: The agent signals only processes it started, by a positive pid or the
    group of one, so it never signals its own group; and every kill the daemon
    asks for on a hosted actor is carried out: the process group was
    signalled, or a thread is about to, or the process does not exist yet and
    the kill is noted in the row that the fork reads, or it never started. *)
Theorem kills_carried_out `{HI : HashIter} (I : Identity) x : reachable I x →
  (∀ t, Signal t ∈ outs x → ∃ a p, (a, p) ∈ forks x ∧ (0 < p)%N ∧ (t = Z.of_N p ∨ t = (- Z.of_N p)%Z)) ∧
  ∀ a, a ∈ kills x →
    (∃ p, (a, p) ∈ forks x ∧ Signal (- Z.of_N p) ∈ outs x) ∨ TKill a ∈ tasks x ∨
    (a ∈ spawning x ∧ ∃ row, hosted (sh x) !! a = Some row ∧ h_pid row = 0%N ∧ h_kill row = true) ∨
    a ∈ stillborn x.
Proof.
  intros Hr. assert (in_order x) as [F [K1 K2 K3]].
  { revert x Hr. apply (reachable_inv I in_order); [|intros x y _; apply order_step].
    split; split; cbn; set_solver. }
  assert (∀ t, t ∈ signals x ↔ Signal t ∈ outs x) as Hsig.
  { intros t. unfold signals. rewrite list_elem_of_omap. split; [|by exists (Signal t)].
    intros ([]&?&?); simplify_eq/=; done. }
  split; [intros t Ht; by apply K2, Hsig|]. intros a Ha. destruct (K3 a Ha) as [[Hs Hrow]|[Ht|[(p & Hp & Hg)|?]]].
  - right; right; left. split; [done|]. rewrite rows_lookup in Hrow. destruct (hosted (sh x) !! a) as [row|]; [|done].
    exists row. by injection Hrow.
  - right; left. unfold kill_tasks in Ht. apply list_elem_of_omap in Ht as ([]&?&?); simplify_eq/=; done.
  - left. exists p. by rewrite <-Hsig.
  - by right; right; right.
Qed.

(** ** Calls *)

(** What has become of call [r] of actor [a]. *)
Definition call_known (x : Agent) (a r : string) : Prop :=
  (∃ row, hosted (sh x) !! a = Some row ∧ r ∈ h_pending row) ∨
  (∃ m, m ∈ posted x ∧ result_ref m = Some r) ∨
  (∃ c s, (Msg.ActorExit a c s, []) ∈ posted x) ∨ a ∈ stillborn x.
Definition calls_known (x : Agent) : Prop := ∀ a r, (a, r) ∈ accepted x → call_known x a r.

(** Rows are kept and their pending refs only grow. *)
Definition pending_kept (s s' : AgentShared) : Prop :=
  ∀ a row r, hosted s !! a = Some row → r ∈ h_pending row →
    ∃ row', hosted s' !! a = Some row' ∧ r ∈ h_pending row'.
Lemma pending_kept_insert s a row row' l n u : hosted s !! a = Some row → h_pending row ⊆ h_pending row' →
  pending_kept s (mkShared l (<[a := row']> (hosted s)) n u).
Proof.
  intros Ha Hsub b row0 r Hb Hr. cbn. rewrite lookup_insert. case_decide as Hab; [|by exists row0].
  subst b. exists row'. split; [done|]. apply Hsub. congruence.
Qed.
Lemma pending_kept_refl s s' : hosted s' = hosted s → pending_kept s s'.
Proof. intros Hs a row r. rewrite Hs. eauto. Qed.
Lemma pending_kept_spawn a name owner gpu_ids s : hosted s !! a = None → pending_kept s (on_spawn a name owner gpu_ids s).
Proof.
  intros Ha b row r Hb Hr. exists row. split; [|done]. unfold on_spawn. cbn. rewrite lookup_insert_ne; [done|congruence].
Qed.
Lemma pending_kept_kill a s : pending_kept s (kill_actor_process a s).1.
Proof.
  unfold kill_actor_process. destruct (hosted s !! a) as [row|] eqn:Ha; [|by apply pending_kept_refl].
  case_bool_decide; [|by apply pending_kept_refl]. by eapply pending_kept_insert.
Qed.
Lemma pending_kept_dispatch host_ok link_ok w a r me p s : pending_kept s (on_dispatch host_ok link_ok w a r me p s).1.
Proof.
  unfold on_dispatch. destruct (hosted s !! a) as [row|] eqn:Ha; [|by apply pending_kept_refl].
  cbn. destruct (h_host row); (eapply pending_kept_insert; [done|]); cbn; set_solver.
Qed.
Lemma pending_kept_fork a pid s : pending_kept s (on_fork a pid s).1.
Proof.
  unfold on_fork. destruct (hosted s !! a) as [row|] eqn:Ha; [|by apply pending_kept_refl].
  by eapply pending_kept_insert.
Qed.
Lemma pending_kept_host h oks a s : pending_kept s (on_host h oks a s).1.1.
Proof.
  unfold on_host. destruct (hosted s !! a) as [row|] eqn:Ha; [|by apply pending_kept_refl].
  destruct (drain_calls _ _ _) as [sent failed]. by eapply pending_kept_insert.
Qed.

Lemma known_more x y : accepted y = accepted x → posted x ⊆ posted y → stillborn x ⊆ stillborn y →
  pending_kept (sh x) (sh y) → calls_known x → calls_known y.
Proof.
  intros Ha Hp Hb Hk Hx a r. rewrite Ha. intros Har. destruct (Hx a r Har) as [(row & Hr & Hin)|[(m & Hm & ?)|[(c & s & ?)|?]]].
  - left. by eapply Hk.
  - right; left. exists m. auto.
  - right; right; left. exists c, s. auto.
  - right; right; right. auto.
Qed.
Lemma known_post m x : calls_known x → calls_known (post m x).
Proof. intros Hx. eapply known_more; [..|exact Hx]; try done; [cbn; set_solver|by apply pending_kept_refl]. Qed.
Lemma known_posts l x : calls_known x → calls_known (foldl (λ x m, post m x) x l).
Proof. revert x. induction l as [|m l IH]; intros x Hx; [done|]. by apply IH, known_post. Qed.

Lemma known_dispatch host_ok link_ok w req a r me payload x : calls_known x →
  calls_known (on_frame host_ok link_ok w req (Msg.ActorDispatch a r me) payload x).
Proof.
  intros Hx. cbn [on_frame]. pose proof (pending_kept_dispatch host_ok link_ok w a r me payload (sh x)) as Hk.
  destruct (on_dispatch _ _ _ _ _ _ _ _) as [s o] eqn:Hd. intros b q. cbn. intros [Hin|Hin]%elem_of_app.
  - assert (calls_known (x <| sh := s |>)) as Hs by (by eapply (known_more x)). apply (Hs b q Hin).
  - unfold on_dispatch in Hd. destruct (hosted (sh x) !! a) as [row|] eqn:Ha; [|by apply not_elem_of_nil in Hin].
    apply list_elem_of_singleton in Hin as [= -> ->]. left.
    cbn in Hd. destruct (h_host row); injection Hd as <- _; (eexists; split; [apply lookup_insert_eq|]); cbn; set_solver.
Qed.

Lemma known_host_frame a pid m p x : calls_known x → calls_known (host_frame a pid m p x).
Proof.
  intros Hx. assert (calls_known (x <| sh := sh x |>)) as Hx' by exact Hx.
  unfold host_frame. destruct m; cbn [on_host_frame]; try exact Hx'; try by apply known_post.
  intros b r Hin. destruct (Hx b r Hin) as [(row & Hr & Hrow)|[(m & Hm & ?)|[(c & s & ?)|?]]].
  - destruct (decide (r = ref_id)) as [->|Hne].
    + right; left. eexists. split; [cbn; apply elem_of_app; right; by left|done].
    + left. unfold settle_ref. cbn. destruct (decide (b = a)) as [->|Hba].
      * rewrite lookup_alter_eq, Hr. cbn. eexists. split; [done|]. cbn. set_solver.
      * rewrite lookup_alter_ne by done. eauto.
  - right; left. exists m. split; [cbn; set_solver|done].
  - right; right; left. exists c, s. cbn. set_solver.
  - by right; right; right.
Qed.

Lemma known_drop x y a : accepted y = accepted x → posted x ⊆ posted y → stillborn x ⊆ stillborn y →
  hosted (sh y) = delete a (hosted (sh x)) → ((∃ c s, (Msg.ActorExit a c s, []) ∈ posted y) ∨ a ∈ stillborn y) →
  calls_known x → calls_known y.
Proof.
  intros Hacc Hp Hb Hh Hend Hx b r. rewrite Hacc. intros Har.
  destruct (decide (b = a)) as [->|Hne]; [destruct Hend as [?|?]; [by right; right; left|by right; right; right]|].
  destruct (Hx b r Har) as [(row & Hr & Hin)|[(m & Hm & ?)|[(c & s & ?)|?]]].
  - left. exists row. rewrite Hh. by rewrite lookup_delete_ne.
  - right; left. exists m. auto.
  - right; right; left. exists c, s. auto.
  - right; right; right. auto.
Qed.

Lemma known_step `{HI : HashIter} I x y : step I x y → in_order x → calls_known x → calls_known y.
Proof.
  assert (∀ s, hosted s = hosted (sh x) → pending_kept (sh x) s) as Hrefl by (intros; by apply pending_kept_refl).
  destruct 1; intros Ho Hx;
    try (eapply (known_more x); [..|exact Hx]; first [done|by apply Hrefl]).
  - destruct m; try exact Hx; try by apply known_dispatch.
    + eapply (known_more x); [done..| |exact Hx]. apply pending_kept_spawn.
      destruct (hosted (sh x) !! actor_id) as [row|] eqn:Ha; [|done]. destruct Ho as [[F1 _ _] _].
      destruct (F1 actor_id (h_pid row) (h_kill row)) as [Hu _]; [by rewrite rows_lookup, Ha|done].
    + cbn [on_frame]. pose proof (pending_kept_kill actor_id (sh x)) as Hk.
      destruct (kill_actor_process actor_id (sh x)) as [s o]. by eapply (known_more x).
  - unfold task_turn. destruct t as [m|[w|] m|m|a]; cbn [run_task]; [|destruct ok| | |].
    all: try (eapply (known_more x); [..|exact Hx]; first [done|by apply Hrefl]).
    pose proof (pending_kept_kill a (sh x)) as Hk.
    destruct (kill_actor_process a (sh x)) as [s o]. by eapply (known_more x).
  - eapply (known_drop x _ actor_id); [done|done| |done| |exact Hx]; cbn; [set_solver|right; set_solver].
  - unfold forked. pose proof (pending_kept_fork actor_id pid (sh x)) as Hk.
    destruct (on_fork actor_id pid (sh x)) as [s []]; by eapply (known_more x).
  - eapply (known_drop x _ actor_id); [done| |done|done| |exact Hx]; cbn; [set_solver|].
    left. exists code, signal. apply elem_of_app. right. by left.
  - unfold host_joined. pose proof (pending_kept_host h oks actor_id (sh x)) as Hk.
    destruct (on_host h oks actor_id (sh x)) as [[s sent] failed]. apply known_posts. by eapply (known_more x).
  - by apply known_host_frame.
  - unfold note_service. apply known_post. eapply (known_more x); [..|exact Hx]; first [done|by apply Hrefl].
Qed.

(** C22: Every call the agent accepted for an actor is accounted for in every
    reachable state: a registration would name it, among the actor's pending
    refs or among the refs of kept results; or its result is with a link, in
    the drain or in a thread's hands; or its actor's exit is reported, or its
    actor never started. *)
Theorem calls_reported `{HI : HashIter} (I : Identity) x a r : reachable I x → (a, r) ∈ accepted x →
  (∃ ra, ra ∈ resume_list (sh x) ∧ r_actor_id ra = a ∧ r ∈ r_pending_refs ra) ∨
  r ∈ unacked_refs (sh x) ∨
  (∃ m, m ∈ carried x ++ backlog_of (phase x) ++ in_hand x ∧ result_ref m = Some r) ∨
  (∃ c s, (Msg.ActorExit a c s, []) ∈ posted x) ∨ a ∈ stillborn x.
Proof.
  intros Hr Har. assert (in_order x ∧ calls_known x ∧ accounted x) as (_ & Hk & Hacc).
  { clear Har. revert x Hr. apply (reachable_inv I (λ x, in_order x ∧ calls_known x ∧ accounted x)).
    - split_and!; [|intros ? ? ?%not_elem_of_nil; done|exact (Permutation_refl [])].
      split; split; cbn; set_solver.
    - intros x y _ Hs (Ho & Hk & Hacc). split_and!; [by eapply order_step|by eapply known_step|by eapply accounted_step]. }
  destruct (Hk a r Har) as [(row & Hrow & Hin)|[(m & Hm & Hres)|[?|?]]]; [| |by right; right; right; left|by right; right; right; right].
  - left. exists (mkResume a (h_name row) (h_gpu_ids row) (h_pid row) (h_owner row) (elements (h_pending row))).
    split; [|split; [reflexivity|]].
    + apply list_elem_of_fmap. exists (a, row). split; [reflexivity|]. by apply elem_of_hash_iter.
    + cbn. by apply elem_of_elements.
  - unfold accounted, whereabouts in Hacc. rewrite Hacc, !elem_of_app in Hm.
    destruct Hm as [Hm|[Hm|Hm]].
    + right; right; left. exists m. split; [|done]. rewrite !elem_of_app. by left.
    + right; left. apply list_elem_of_omap. by exists m.
    + right; right; left. exists m. split; [|done]. rewrite !elem_of_app. by right.
Qed.

(** ** Runs *)

Definition demo_identity : Identity := mkIdentity "g@c@10.0.0.1" "g" "10.0.0.1" "c" 40 (mkMachine 0 0 []) ∅ ∅.
Definition spawn_msg : Msg.t := Msg.ActorSpawn "a" "worker" ∅ [0%N] "driver".
Definition accepted_reply : option Msg.t := Some (Msg.AgentRegisterOk Version.PROTO "n1").

#[local] Existing Instance in_key_order.
Tactic Notation "take" uconstr(H) := eapply rtc_l; [eapply H|].
Ltac link_agent w :=
  take (s_connect demo_identity _ w); [reflexivity|]; take s_list; [reflexivity|]; take s_register; [reflexivity|];
  take (s_linked demo_identity _ w _ _ accepted_reply); [reflexivity|reflexivity|].
Ltac serve_agent := take s_drain; [reflexivity|]; take s_drained; [reflexivity|].

(** A result that passes the registration: the resume list is read after it
    left the actor's pending refs, the kept results before it is kept. The
    registration names the call in neither list, and a daemon that finds it in
    neither fails it, while its result waits for the drain. *)
Lemma result_between_the_lists : ∃ x resume,
  reachable demo_identity x ∧ phase x = Registering 2 resume [] ∧ ("a", "a:1") ∈ accepted x ∧
  resume ≫= r_pending_refs = [] ∧ unsent (sh x) = [(Msg.ActorResult "a:1" true "", [x2a])].
Proof.
  eexists _, _. split.
  - unfold reachable. link_agent 1%N. serve_agent.
    take (s_frame demo_identity _ 1%N true true 0%N spawn_msg []); [reflexivity|cbn; set_solver|].
    take (s_forked demo_identity _ "a" 7%N); [by vm_compute|done|].
    take (s_host demo_identity _ 9%N [] "a").
    take (s_frame demo_identity _ 1%N true true 0%N (Msg.ActorDispatch "a" "a:1" "step") []); [reflexivity|done|].
    take s_closed; [reflexivity|]. take s_unlink; [reflexivity|].
    take (s_connect demo_identity _ 2%N); [reflexivity|].
    take (s_host_frame demo_identity _ "a" 7%N (Msg.HostResult "a:1" true) [x2a]).
    take s_list; [reflexivity|].
    take (s_task demo_identity _ true [] _ []); [reflexivity|reflexivity|].
    take (s_task demo_identity _ true [] _ []); [reflexivity|reflexivity|].
    take s_register; [reflexivity|].
    take (s_task demo_identity _ true [] _ []); [reflexivity|reflexivity|]. apply rtc_refl.
  - split; [reflexivity|]. split; [by vm_compute; left|]. split; vm_compute; reflexivity.
Qed.

(** A finding kept in an outage, overtaken by its withdrawal: the link is
    published before the kept messages are sent, so the daemon is told of the
    narrow bind last and keeps it. Both come from the one thread that watches
    the service, in this order. *)
Definition narrow : Mail := (Msg.ServiceNote "openai" "bound to 10.100.0.1 only", []).
Definition widened : Mail := (Msg.ServiceNote "openai" "", []).
Lemma new_traffic_before_the_backlog : ∃ x,
  reachable demo_identity x ∧ phase x = Serving 1 ∧ posted x = [narrow; widened] ∧ carried x = [widened; narrow].
Proof.
  eexists. split.
  - unfold reachable.
    take (s_note demo_identity _ "openai" (Some "bound to 10.100.0.1 only")).
    do 3 (take (s_task demo_identity _ true [] _ []); [reflexivity|reflexivity|]).
    link_agent 1%N.
    take (s_note demo_identity _ "openai" None).
    do 2 (take (s_task demo_identity _ true [] _ []); [reflexivity|reflexivity|]).
    take s_drain; [reflexivity|]. take s_drain_sent; [reflexivity|]. take s_drained; [reflexivity|]. apply rtc_refl.
  - vm_compute. done.
Qed.

(** A kill that comes before the fork, and a result that comes in an outage. *)
Lemma early_kill_run : ∃ x, reachable demo_identity x ∧ "a" ∈ kills x ∧ Signal (-7) ∈ outs x ∧ tasks x = [].
Proof.
  eexists. split.
  - unfold reachable. link_agent 1%N. serve_agent.
    take (s_frame demo_identity _ 1%N true true 0%N spawn_msg []); [reflexivity|cbn; set_solver|].
    take (s_frame demo_identity _ 1%N true true 0%N (Msg.ActorKill "a") []); [reflexivity|done|].
    take (s_forked demo_identity _ "a" 7%N); [by vm_compute|done|].
    take (s_task demo_identity _ true [] _ []); [reflexivity|reflexivity|]. apply rtc_refl.
  - split; [by vm_compute|]. split; [|reflexivity]. vm_compute. right. left.
Qed.
Lemma outage_run : ∃ x, reachable demo_identity x ∧ ("a", "a:1") ∈ accepted x ∧
  unsent (sh x) = [(Msg.ActorResult "a:1" true "", [x2a])] ∧ tasks x = [].
Proof.
  eexists. split.
  - unfold reachable. link_agent 1%N. serve_agent.
    take (s_frame demo_identity _ 1%N true true 0%N spawn_msg []); [reflexivity|cbn; set_solver|].
    take (s_forked demo_identity _ "a" 7%N); [by vm_compute|done|].
    take (s_host demo_identity _ 9%N [] "a").
    take (s_frame demo_identity _ 1%N true true 0%N (Msg.ActorDispatch "a" "a:1" "step") []); [reflexivity|done|].
    take s_closed; [reflexivity|]. take s_unlink; [reflexivity|].
    take (s_host_frame demo_identity _ "a" 7%N (Msg.HostResult "a:1" true) [x2a]).
    do 3 (take (s_task demo_identity _ true [] _ []); [reflexivity|reflexivity|]). apply rtc_refl.
  - split; [vm_compute; by left|]. split; reflexivity.
Qed.

Lemma messages_exactly_once_witness : ∃ x, reachable demo_identity x ∧
  unsent (sh x) = [(Msg.ActorResult "a:1" true "", [x2a])] ∧
  posted x ≡ₚ carried x ++ unsent (sh x) ++ backlog_of (phase x) ++ in_hand x.
Proof.
  destruct outage_run as (x & Hr & _ & Hu & _). exists x. split; [exact Hr|]. split; [exact Hu|].
  exact (messages_exactly_once demo_identity x Hr).
Defined.

Lemma kills_carried_out_witness : ∃ x, reachable demo_identity x ∧ "a" ∈ kills x ∧
  ((∃ p, ("a", p) ∈ forks x ∧ Signal (- Z.of_N p) ∈ outs x) ∨ TKill "a" ∈ tasks x ∨
    ("a" ∈ spawning x ∧ ∃ row, hosted (sh x) !! "a" = Some row ∧ h_pid row = 0%N ∧ h_kill row = true) ∨
    "a" ∈ stillborn x).
Proof.
  destruct early_kill_run as (x & Hr & Hk & _). exists x. split; [exact Hr|]. split; [exact Hk|].
  destruct (kills_carried_out demo_identity x Hr) as [_ H]. exact (H "a" Hk).
Defined.

Lemma calls_reported_witness : ∃ x, reachable demo_identity x ∧ ("a", "a:1") ∈ accepted x ∧ tasks x = [] ∧
  ((∃ ra, ra ∈ resume_list (sh x) ∧ r_actor_id ra = "a" ∧ "a:1" ∈ r_pending_refs ra) ∨
   "a:1" ∈ unacked_refs (sh x) ∨
   (∃ m, m ∈ carried x ++ backlog_of (phase x) ++ in_hand x ∧ result_ref m = Some "a:1") ∨
   (∃ c s, (Msg.ActorExit "a" c s, []) ∈ posted x) ∨ "a" ∈ stillborn x).
Proof.
  destruct outage_run as (x & Hr & Ha & _ & Ht). exists x. split; [exact Hr|]. split; [exact Ha|]. split; [exact Ht|].
  exact (calls_reported demo_identity x "a" "a:1" Hr Ha).
Defined.
