(* ===== verification/Sweeper.v ===== *)
(** * The sweepers (rust/mentatd/src/daemon.rs)

    One tick of [sweep_lifecycle], a section of its own: slow calls, the
    pending timeout of placement groups, the degrade and give-up windows of
    agents, and then [sweep_history]. *)

From S2P Require Import Prelude Json Proto Addr Island State Status Placement Actors Clients Agents.

Section sweeper.
Context `{HI : HashIter} (E : Env).

(** ** Slow calls *)

Definition slow (x : RefInfo) : bool :=
  bool_decide (rf_state x = RefPending) && bool_decide (rf_method x ≠ "run") && negb (rf_warned x) &&
  bool_decide (slow_call_warn_ms (cfg E) < saturating_sub (now_ms E) (rf_created_ms x))%N.
Definition warn_slow : SM unit :=
  modify_st (λ s, s <| refs ::= fmap (λ x, if slow x then x <| rf_warned := true |> else x) |>).

(** ** The pending timeout *)

Definition overdue (p : PgInfo) : bool :=
  bool_decide (pg_state p = PgPending) &&
  bool_decide (pg_pending_timeout_ms (cfg E) < saturating_sub (now_ms E) (pg_created_ms p))%N.
Definition overdue_why (p : PgInfo) : string :=
  default ("group '" +:+ pg_group p +:+ "' never had enough registered GPUs") (pg_pending_reason p).
Definition expire (p q : PgInfo) : PgInfo :=
  q <| pg_state := PgRemoved |> <| pg_removed_ms := Some (now_ms E) |>
    <| pg_fail_reason := Some ("placement group still PENDING after " +:+
         pretty (now_ms E - pg_created_ms p)%N +:+ "ms: " +:+ overdue_why p +:+
         " (MENTAT_PG_PENDING_TIMEOUT_MS)") |>.
Definition expire_one (p : PgInfo) : SM unit :=
  modify_st (λ s, s <| pgs ::= alter (expire p) (pg_id p) |>) ;;
  s ← get_st id;
  match pgs s !! pg_id p with
  | Some _ => emit_patch E "pg_timeout" (pg_patch s (pg_group p) (pg_id p))
      ("waited " +:+ pretty (now_ms E - pg_created_ms p)%N +:+ " ms: " +:+ overdue_why p)
  | None => skip
  end ;;
  notify_all.
Definition expire_overdue : SM unit :=
  ps ← get_st (λ s, filter (λ p, overdue p = true) (hash_values (pgs s)));
  for_each ps expire_one.

(** ** Agents whose link is down *)

Definition down_ms (a : AgentInfo) : option N := saturating_sub (now_ms E) <$> ag_lost_at_ms a.
Definition gives_up (a : AgentInfo) : bool :=
  is_some_and (down_ms a) (λ d, bool_decide (agent_dead_after_ms (cfg E) ≤ d)%N).
Definition degrades (a : AgentInfo) : bool :=
  is_some_and (down_ms a) (λ d, negb (bool_decide (agent_dead_after_ms (cfg E) ≤ d)%N) &&
    bool_decide (agent_degraded_after_ms (cfg E) ≤ d)%N) && negb (ag_degraded a).
Definition tick_agent (a : AgentInfo) : AgentInfo :=
  if gives_up a then a <| ag_lost_at_ms := None |>
  else if degrades a then a <| ag_degraded := true |> else a.

Definition emit_agent (kind agent_id group why : string) : SM unit :=
  s ← get_st id;
  match agents s !! agent_id with
  | Some _ => emit_patch E kind (agent_row_patch s group agent_id) why
  | None => skip
  end.

Definition orphaned (s : State) (agent_id : string) : list string :=
  a_id <$> filter (λ a, a_agent a = agent_id ∧ a_live a = true) (hash_values (actors s)).
Definition give_up_one (a : AgentInfo) : SM unit :=
  let down := default 0%N (down_ms a) in
  ids ← get_st (λ s, orphaned s (ag_id a));
  emit_agent "agent_dead" (ag_id a) (ag_group a)
    ("down " +:+ pretty down +:+ " ms, " +:+ pretty (length ids) +:+ " actors orphaned") ;;
  for_each ids (λ i, mark_actor_dead E i
    ("agent link lost for " +:+ pretty down +:+ "ms, past MENTAT_AGENT_DEAD_AFTER_MS")).

Definition tick_agents : SM unit :=
  l ← get_st (λ s, hash_values (agents s));
  modify_st (λ s, s <| agents ::= fmap tick_agent |>) ;;
  for_each (filter (λ a, degrades a = true) l) (λ a,
    emit_agent "agent_degraded" (ag_id a) (ag_group a)
      ("down " +:+ pretty (default 0%N (down_ms a)) +:+ " ms")) ;;
  for_each (filter (λ a, gives_up a = true) l) give_up_one.

(** ** History *)

Definition aged (at_ms : N) : bool :=
  bool_decide (history_keep_ms (cfg E) < saturating_sub (now_ms E) at_ms)%N.

Definition actor_finished (s : State) (a : ActorInfo) : bool :=
  negb (is_some_and (clients s !! a_owner a) (λ _, true)) &&
  match a_state a with Dead _ at_ms => aged at_ms | _ => false end.
Definition pg_finished (s : State) (p : PgInfo) : bool :=
  bool_decide (pg_state p = PgRemoved) && negb (is_some_and (clients s !! pg_owner p) (λ _, true)) &&
  is_some_and (pg_removed_ms p) aged.

Definition gone_actors (s : State) : list string :=
  a_id <$> filter (λ a, actor_finished s a = true) (hash_values (actors s)).
Definition gone_pgs (s : State) : list string :=
  pg_id <$> filter (λ p, pg_finished s p = true) (hash_values (pgs s)).
Definition agent_finished (s : State) (a : AgentInfo) : bool :=
  negb (ag_alive a) && is_some_and (ag_gone_since_ms a) aged &&
  negb (existsb (λ x, bool_decide (a_agent x = ag_id a ∧ a_id x ∉ gone_actors s)) (hash_values (actors s))).
Definition gone_agents (s : State) : list string :=
  ag_id <$> filter (λ a, agent_finished s a = true) (hash_values (agents s)).

Definition delete_all {A} (ids : list string) (m : gmap string A) : gmap string A :=
  foldl (λ m i, delete i m) m ids.

Definition gone_patches (s : State) : list Patch :=
  omap (λ i, a ← actors s !! i; Some (patch_remove ["groups"; a_group a; "actors"; i])) (gone_actors s) ++
  omap (λ i, p ← pgs s !! i; Some (patch_remove ["groups"; pg_group p; "placement_groups"; i])) (gone_pgs s) ++
  omap (λ i, a ← agents s !! i; Some (patch_remove ["groups"; ag_group a; "agents"; i])) (gone_agents s).
Definition touched_groups (s : State) : list string :=
  omap (λ i, a_group <$> actors s !! i) (gone_actors s) ++
  omap (λ i, ag_group <$> agents s !! i) (gone_agents s).

(** The tables after the sweep. *)
Definition swept (s : State) : State :=
  let s' := s <| actors ::= delete_all (gone_actors s) |> <| pgs ::= delete_all (gone_pgs s) |>
              <| agents ::= delete_all (gone_agents s) |>
              <| misfiled_warned ::= λ m, m ∖ list_to_set (gone_agents s) |> in
  s' <| refs ::= filter (λ x, is_none_or (rf_actor x.2) (λ j, is_some_and (actors s' !! j) (λ _, true)) = true) |>.

Definition emptied_groups (s' : State) (touched : list string) : list string :=
  sort_dedup (filter (λ g, existsb (λ a, bool_decide (ag_group a = g)) (hash_values (agents s')) = false ∧
    existsb (λ a, bool_decide (a_group a = g)) (hash_values (actors s')) = false) touched).

Definition sweep_history : SM unit :=
  s ← get_st id;
  if bool_decide (gone_actors s = [] ∧ gone_pgs s = [] ∧ gone_agents s = []) then skip
  else
    modify_st swept ;;
    s' ← get_st id;
    emit_patch E "history_swept" (gone_patches s ++
      ((λ g, patch_remove ["groups"; g]) <$> emptied_groups s' (touched_groups s)))
      ("kept " +:+ pretty (history_keep_ms (cfg E)) +:+ " ms").

Definition sweep_lifecycle : SM unit :=
  warn_slow ;; expire_overdue ;; tick_agents ;; sweep_history.
End sweeper.

(** ** What history keeps *)

Lemma lookup_delete_all {A} ids (m : gmap string A) k :
  delete_all ids m !! k = if decide (k ∈ ids) then None else m !! k.
Proof.
  unfold delete_all. revert m. induction ids as [|i ids IH]; intros m; cbn [foldl]; [done|]. rewrite IH.
  destruct (decide (k ∈ ids)) as [Hin|Hin]; [rewrite decide_True by set_solver; done|].
  destruct (decide (i = k)) as [->|Hne].
  - rewrite lookup_delete_eq. by rewrite decide_True by set_solver.
  - rewrite lookup_delete_ne by done. by rewrite decide_False by set_solver.
Qed.

Lemma delete_all_Some {A} ids (m : gmap string A) k x :
  delete_all ids m !! k = Some x ↔ m !! k = Some x ∧ k ∉ ids.
Proof. rewrite lookup_delete_all. destruct (decide (k ∈ ids)); naive_solver. Qed.

(** Tables filed under their rows' ids. *)
Record filed (s : State) : Prop := {
  fi_actors : actors_keyed s;
  fi_pgs : ∀ k p, pgs s !! k = Some p → pg_id p = k;
  fi_agents : agents_keyed s }.

Section history.
Context `{HI : HashIter} (E : Env).

Lemma elem_of_gone {A} (m : gmap string A) (key : A → string) (P : A → bool) k :
  (∀ k x, m !! k = Some x → key x = k) →
  k ∈ key <$> filter (λ x, P x = true) (hash_values m) ↔ ∃ x, m !! k = Some x ∧ P x = true.
Proof.
  intros Hk. rewrite list_elem_of_fmap. setoid_rewrite list_elem_of_filter. setoid_rewrite elem_of_hash_values.
  split.
  - intros (x & -> & HP & j & Hj). rewrite (Hk j x Hj). eauto.
  - intros (x & Hx & HP). exists x. rewrite (Hk k x Hx). eauto.
Qed.

Lemma elem_of_gone_actors s k : filed s →
  k ∈ gone_actors E s ↔ ∃ a, actors s !! k = Some a ∧ actor_finished E s a = true.
Proof. intros Hf. apply elem_of_gone, Hf. Qed.
Lemma elem_of_gone_pgs s k : filed s →
  k ∈ gone_pgs E s ↔ ∃ p, pgs s !! k = Some p ∧ pg_finished E s p = true.
Proof. intros Hf. apply elem_of_gone, Hf. Qed.
Lemma elem_of_gone_agents s k : filed s →
  k ∈ gone_agents E s ↔ ∃ a, agents s !! k = Some a ∧ agent_finished E s a = true.
Proof. intros Hf. apply elem_of_gone, Hf. Qed.

(** An agent that goes hosts no actor that stays. *)
Lemma agent_finished_empty s g j a :
  filed s → agent_finished E s g = true → actors s !! j = Some a → a_agent a = ag_id g →
  actor_finished E s a = true.
Proof.
  intros Hf Hg Hj Hag. unfold agent_finished in Hg. apply andb_true_iff in Hg as [_ Hg].
  apply negb_true_iff in Hg. destruct (actor_finished E s a) eqn:Hfin; [done|].
  assert (existsb (λ x, bool_decide (a_agent x = ag_id g ∧ a_id x ∉ gone_actors E s)) (hash_values (actors s)) = true)
    as Ht; [|congruence].
  apply existsb_exists. exists a. split; [apply list_elem_of_In, elem_of_hash_values; eauto|].
  apply bool_decide_eq_true. split; [done|]. rewrite (fi_actors s Hf j a Hj), elem_of_gone_actors by done.
  intros (b & Hb & Hbf). congruence.
Qed.

(** The history sweep, run or skipped. *)
Definition history_rows (s s' : State) : Prop :=
  (∀ j a, actors s !! j = Some a →
     actors s' !! j = if actor_finished E s a then None else Some a) ∧
  (∀ k p, pgs s !! k = Some p → pgs s' !! k = if pg_finished E s p then None else Some p) ∧
  (∀ g a, agents s !! g = Some a → agents s' !! g = if agent_finished E s a then None else Some a) ∧
  (∀ r x, refs s' !! r = Some x → refs s !! r = Some x) ∧
  (∀ r x, refs s !! r = Some x →
     (∀ j, rf_actor x = Some j → is_Some (actors s' !! j)) → refs s' !! r = Some x) ∧
  (∀ j, is_Some (actors s' !! j) → is_Some (actors s !! j)).

Lemma swept_rows s : filed s → history_rows s (swept E s).
Proof.
  intros Hf. unfold history_rows, swept. cbn. split_and!.
  - intros j a Hj. rewrite lookup_delete_all. pose proof (elem_of_gone_actors s j Hf) as Hg.
    destruct (decide (j ∈ _)) as [Hin|Hin]; destruct (actor_finished E s a) eqn:Hfin; try done.
    + apply Hg in Hin as (b & Hb & Hbf). congruence.
    + destruct Hin. apply Hg. eauto.
  - intros k p Hk. rewrite lookup_delete_all. pose proof (elem_of_gone_pgs s k Hf) as Hg.
    destruct (decide (k ∈ _)) as [Hin|Hin]; destruct (pg_finished E s p) eqn:Hfin; try done.
    + apply Hg in Hin as (b & Hb & Hbf). congruence.
    + destruct Hin. apply Hg. eauto.
  - intros g a Hg'. rewrite lookup_delete_all. pose proof (elem_of_gone_agents s g Hf) as Hg.
    destruct (decide (g ∈ _)) as [Hin|Hin]; destruct (agent_finished E s a) eqn:Hfin; try done.
    + apply Hg in Hin as (b & Hb & Hbf). congruence.
    + destruct Hin. apply Hg. eauto.
  - intros r x Hr. by apply map_lookup_filter_Some in Hr as [Hr _].
  - intros r x Hr Hj. apply map_lookup_filter_Some. split; [done|]. cbn.
    destruct (rf_actor x) as [j|]; [|done]. cbn. destruct (Hj j eq_refl) as [a Ha]. cbn in Ha. by rewrite Ha.
  - intros j [a Ha]. apply delete_all_Some in Ha as [Ha _]. eauto.
Qed.

Lemma sweep_history_rows w : filed (st w) → history_rows (st w) (st (sweep_history E w).2).
Proof.
  intros Hf. unfold sweep_history. rewrite bind_run. cbn [get_st gets fst snd id].
  pose proof (swept_rows (st w) Hf) as Hs. case_bool_decide as Hnone.
  - destruct Hnone as (Ha & Hp & Hg). destruct Hs as (H1 & H2 & H3 & _). unfold history_rows.
    assert (∀ {A} (m : gmap string A), delete_all [] m = m) as Hid by done.
    cbn in H1, H2, H3. rewrite Ha in H1. rewrite Hp in H2. rewrite Hg in H3.
    by split_and!.
  - rewrite !bind_run. cbn [get_st gets modify_st modify fst snd id].
    set (s' := swept E (st w)) in *.
    match goal with |- context [emit_patch E ?kd ?pa ?wy ?w0] =>
      pose proof (emit_patch_same_tables E kd pa wy w0) as Hsame; set (w1 := (emit_patch E kd pa wy w0).2) in * end.
    change (same_tables s' (st w1)) in Hsame. unfold history_rows in *. by rewrite Hsame.
Qed.

(** The history sweep drops exactly the finished rows: dead actors and
    removed groups whose owner is gone and whose time is up, and agents gone
    as long that host no actor that stays. Every other row is unchanged, a row
    that stays keeps its agent's row, and a ref goes only with its actor. *)
Theorem sweep_history_spec (w : World) (Hfiled : filed (st w)) :
  let s := st w in let s' := st (sweep_history E w).2 in
  history_rows s s' ∧
  (∀ j a g, actors s' !! j = Some a → agents s !! a_agent a = Some g → agents s' !! a_agent a = Some g) ∧
  (∀ j a, actors s !! j = Some a → a_live a = true → actors s' !! j = Some a) ∧
  (∀ g a, agents s !! g = Some a → ag_alive a = true → agents s' !! g = Some a) ∧
  (∀ k p, pgs s !! k = Some p → pg_state p ≠ PgRemoved → pgs s' !! k = Some p).
Proof.
  cbn zeta. pose proof (sweep_history_rows w Hfiled) as Hrows. split; [exact Hrows|].
  destruct Hrows as (Ha & Hp & Hg & _ & _ & Hdom). split_and!.
  - intros j a g Hj Hag. rewrite (Hg _ _ Hag). destruct (agent_finished E (st w) g) eqn:Hfin; [|done].
    destruct (Hdom j ltac:(eauto)) as [b Hb]. pose proof (Ha j b Hb) as Hb'. rewrite Hj in Hb'.
    destruct (actor_finished E (st w) b) eqn:Hbf; [done|]. injection Hb' as ->.
    rewrite (agent_finished_empty (st w) g j b Hfiled Hfin Hb) in Hbf; [done|].
    symmetry. apply (fi_agents (st w) Hfiled _ _ Hag).
  - intros j a Hj Hl. rewrite (Ha j a Hj). unfold actor_finished. unfold a_live in Hl.
    destruct (a_state a); cbn in Hl; by rewrite ?andb_false_r.
  - intros g a Hag Hl. rewrite (Hg g a Hag). unfold agent_finished. by rewrite Hl.
  - intros k p Hk Hst. rewrite (Hp k p Hk). unfold pg_finished. by rewrite bool_decide_eq_false_2.
Qed.
End history.

(** ** The allocation invariant *)

Section sweep_alloc.
Context `{HI : HashIter} (E : Env) {D : gset string}.

Lemma expire_one_ok p : preserves (inv (alloc_ok D)) (expire_one E p).
Proof.
  apply preserves_bind.
  { apply preserves_modify_st. intros s Hs. apply (alloc_ok_pgs s _ Hs). intros j p' Hp'.
    destruct (decide (pg_id p = j)) as [<-|Hne].
    - rewrite lookup_alter_eq in Hp'. apply fmap_Some in Hp' as (q & Hq & ->). exists q. auto.
    - rewrite lookup_alter_ne in Hp' by done. eauto. }
  intros _. apply preserves_bind; [apply preserves_get_st|]. intros s.
  apply preserves_bind; [destruct (pgs s !! pg_id p); [apply alloc_emit|apply preserves_skip]|].
  intros _. apply preserves_notify.
Qed.

Lemma emit_agent_ok kind g group why : preserves (inv (alloc_ok D)) (emit_agent E kind g group why).
Proof.
  apply preserves_bind; [apply preserves_get_st|]. intros s.
  destruct (agents s !! g); [apply alloc_emit|apply preserves_skip].
Qed.

Lemma give_up_one_ok a : preserves (inv (alloc_ok D)) (give_up_one E a).
Proof.
  unfold give_up_one. cbv zeta. apply preserves_bind; [apply preserves_get_st|]. intros ids.
  apply preserves_bind; [apply emit_agent_ok|]. intros _. apply preserves_for_each. intros; apply mark_actor_dead_ok.
Qed.

Lemma tick_agent_same a : ag_id (tick_agent E a) = ag_id a ∧ devices (tick_agent E a) = devices a.
Proof. unfold tick_agent. destruct (gives_up E a), (degrades E a); done. Qed.

Lemma alloc_ok_fmap_agents s f :
  (∀ a, ag_id (f a) = ag_id a ∧ devices (f a) = devices a) → alloc_ok D s → alloc_ok D (s <| agents ::= fmap f |>).
Proof.
  intros Hf Hok. split; cbn; try apply Hok.
  - intros k a Hk. cbn in Hk. rewrite lookup_fmap in Hk. apply fmap_Some in Hk as (b & Hb & ->).
    rewrite (proj1 (Hf b)). by apply (al_agents s Hok).
  - intros k a Hk. rewrite lookup_fmap in Hk. apply fmap_Some in Hk as (b & Hb & ->).
    rewrite (proj2 (Hf b)). by apply (al_devices s Hok k).
Qed.

Lemma tick_agents_ok : preserves (inv (alloc_ok D)) (tick_agents E).
Proof.
  apply preserves_bind; [apply preserves_get_st|]. intros l.
  apply preserves_bind; [apply preserves_modify_st; intros s; apply alloc_ok_fmap_agents, tick_agent_same|].
  intros _. apply preserves_bind; [apply preserves_for_each; intros; apply emit_agent_ok|].
  intros _. apply preserves_for_each. intros; apply give_up_one_ok.
Qed.

Lemma delete_all_ok s ia ip ig :
  alloc_ok D s → alloc_ok D (s <| actors ::= delete_all ia |> <| pgs ::= delete_all ip |> <| agents ::= delete_all ig |>).
Proof.
  intros Hok. split; cbn.
  - intros k a Hk. cbn in Hk. apply delete_all_Some in Hk as [Hk _]. by apply (al_agents s Hok).
  - intros k p [Hk _]%delete_all_Some. by apply (al_pgs s Hok).
  - intros k a [Hk _]%delete_all_Some. by apply (al_devices s Hok k).
  - intros k p [Hk _]%delete_all_Some. by apply (al_pending s Hok k).
  - intros k p id [Hk _]%delete_all_Some. by apply (al_bundles s Hok k).
  - intros k1 k2 p1 p2 id g [H1 _]%delete_all_Some [H2 _]%delete_all_Some. by apply (al_groups s Hok k1 k2).
  - intros j k a p [Ha _]%delete_all_Some [Hp _]%delete_all_Some. by apply (al_actor_group s Hok j k).
  - intros j1 j2 a1 a2 [H1 _]%delete_all_Some [H2 _]%delete_all_Some. by apply (al_actors s Hok j1 j2).
Qed.

Lemma sweep_history_ok : preserves (inv (alloc_ok D)) (sweep_history E).
Proof.
  apply preserves_bind; [apply preserves_get_st|]. intros s. case_bool_decide; [apply preserves_skip|].
  apply preserves_bind.
  { apply preserves_modify_st. intros s0 Hs0.
    apply (alloc_ok_frame (s0 <| actors ::= delete_all (gone_actors E s0) |>
      <| pgs ::= delete_all (gone_pgs E s0) |> <| agents ::= delete_all (gone_agents E s0) |>)); [done..|].
    by apply delete_all_ok. }
  intros _. apply preserves_bind; [apply preserves_get_st|]. intros s'. apply alloc_emit.
Qed.

Lemma expire_overdue_ok : preserves (inv (alloc_ok D)) (expire_overdue E).
Proof.
  apply preserves_bind; [apply preserves_get_st|]. intros ps. apply preserves_for_each. intros; apply expire_one_ok.
Qed.

Lemma sweep_lifecycle_ok : preserves (inv (alloc_ok D)) (sweep_lifecycle E).
Proof.
  apply preserves_bind; [by apply alloc_modify_frame|]. intros _.
  apply preserves_bind; [apply expire_overdue_ok|]. intros _.
  apply preserves_bind; [apply tick_agents_ok|]. intros _. apply sweep_history_ok.
Qed.
End sweep_alloc.

(** ** What a tick settles *)

Section lifecycle.
Context `{HI : HashIter} (E : Env) {D : gset string}.

(** A group that timed out, with the reason on its row. *)
Definition expired (k : string) (s : State) : Prop :=
  alloc_ok D s ∧ ∃ p, pgs s !! k = Some p ∧ pg_state p = PgRemoved ∧ pg_removed_ms p = Some (now_ms E) ∧
    is_Some (pg_fail_reason p).

Lemma expired_frame k s s' : alloc_ok D s' → pgs s' = pgs s → expired k s → expired k s'.
Proof. intros Hok Hp [_ He]. split; [done|]. by rewrite Hp. Qed.
#[local] Instance expired_stable k : Stable (expired k).
Proof. intros s s' Hs [Hok He]. split; [by eapply alloc_ok_stable|]. by rewrite Hs. Qed.

Lemma expired_modify k f :
  (∀ s, pgs (f s) = pgs s) → preserves (inv (alloc_ok D)) (modify_st f) → preserves (inv (expired k)) (modify_st f).
Proof. intros Hf Hok w He. apply (expired_frame k (st w)); [apply Hok, He|apply Hf|exact He]. Qed.

Lemma expired_try_place k : preserves (inv (expired k)) (try_place E).
Proof.
  intros w [Hok (p & Hp & Hst & Hrest)]. split; [by apply try_place_ok|].
  destruct (try_place_rows E w k p Hok Hp) as (p' & Hp' & _ & Hsame).
  exists p'. rewrite Hsame by congruence. rewrite Hsame in Hp' by congruence. done.
Qed.

Lemma expired_give_up k a : preserves (inv (expired k)) (give_up_one E a).
Proof.
  unfold give_up_one. cbv zeta. apply preserves_bind; [apply preserves_get_st|]. intros ids. apply preserves_bind.
  { apply preserves_bind; [apply preserves_get_st|]. intros s.
    destruct (agents s !! ag_id a); [apply (preserves_emit_patch E _)|apply preserves_skip]. }
  intros _. apply preserves_for_each. intros i _.
  apply preserves_mark_dead; [| |intros; apply (preserves_emit_patch E _)|apply expired_try_place|apply preserves_notify].
  - apply expired_modify; [done|]. apply preserves_modify_st. intros s Hs. by apply alloc_ok_alter_actor.
  - apply expired_modify; [done|]. by apply alloc_modify_frame.
Qed.

Lemma expired_tick k : preserves (inv (expired k)) (tick_agents E).
Proof.
  apply preserves_bind; [apply preserves_get_st|]. intros l. apply preserves_bind.
  { apply expired_modify; [done|]. apply preserves_modify_st. intros s. apply alloc_ok_fmap_agents, tick_agent_same. }
  intros _. apply preserves_bind; [|intros _; apply preserves_for_each; intros; apply expired_give_up].
  apply preserves_for_each. intros a _. apply preserves_bind; [apply preserves_get_st|]. intros s.
  destruct (agents s !! ag_id a); [apply (preserves_emit_patch E _)|apply preserves_skip].
Qed.

(** One timeout, which undoes none. *)
Lemma expire_one_run p w :
  same_tables ((st w) <| pgs ::= alter (expire E p) (pg_id p) |>) (st (expire_one E p w).2).
Proof.
  unfold expire_one. rewrite !bind_run. cbn [get_st gets fst snd id].
  destruct (pgs (st _) !! pg_id p); [apply (emit_patch_same_tables E)|]. reflexivity.
Qed.

Lemma expire_list_run l w k :
  alloc_ok D (st w) → is_Some (pgs (st w) !! k) → expired k (st w) ∨ k ∈ pg_id <$> l →
  expired k (st (for_each l (expire_one E) w).2).
Proof.
  revert w. induction l as [|p l IH]; intros w Hok [q Hq] Hor; cbn [for_each].
  { destruct Hor as [H|H]; [exact H|set_solver]. }
  rewrite bind_run. set (w1 := (expire_one E p w).2).
  assert (pgs (st w1) = alter (expire E p) (pg_id p) (pgs (st w))) as Hp by (unfold w1; by rewrite (expire_one_run p w)).
  assert (alloc_ok D (st w1)) as Hok1 by (by apply expire_one_ok).
  destruct (decide (pg_id p = k)) as [<-|Hne].
  - apply IH; [done|rewrite Hp, lookup_alter_eq, Hq; eauto|]. left. split; [done|].
    exists (expire E p q). rewrite Hp, lookup_alter_eq, Hq. split_and!; [done..|by eexists].
  - apply IH; [done|rewrite Hp, lookup_alter_ne, Hq by done; eauto|].
    destruct Hor as [[_ (r & Hr & Hrest)]|Hin]; [left; split; [done|]|right; set_solver].
    exists r. by rewrite Hp, lookup_alter_ne.
Qed.

Lemma expired_kept k w : filed (st w) → expired k (st w) → expired k (st (sweep_history E w).2).
Proof.
  intros Hf [Hok (p & Hp & Hst & Hrm & Hr)]. split; [by apply sweep_history_ok|].
  destruct (sweep_history_rows E w Hf) as (_ & Hpg & _). exists p. rewrite (Hpg k p Hp).
  assert (pg_finished E (st w) p = false) as ->; [|done]. unfold pg_finished, aged. rewrite Hrm. cbn.
  rewrite (bool_decide_eq_false_2 (_ < _)%N); [by rewrite andb_false_r|]. unfold saturating_sub. lia.
Qed.

Lemma bury_fields why a : a_id (bury E why a) = a_id a ∧ a_agent (bury E why a) = a_agent a ∧
  a_live (bury E why a) = false.
Proof. unfold bury, a_live. destruct (is_dead (a_state a)) eqn:Hd; cbn; rewrite ?Hd; done. Qed.

Lemma give_up_actors a w j :
  actors_keyed (st w) →
  ∃ why, actors (st (give_up_one E a w).2) !! j =
    match actors (st w) !! j with
    | Some x => Some (if decide (a_agent x = ag_id a ∧ a_live x = true) then bury E why x else x)
    | None => None
    end.
Proof.
  intros Hk. unfold give_up_one. cbv zeta. rewrite bind_run. cbn [get_st gets fst snd]. rewrite bind_run.
  set (w1 := (emit_agent E _ _ _ _ w).2).
  assert (actors (st w1) = actors (st w)) as Ha.
  { unfold w1, emit_agent. rewrite bind_run. cbn [get_st gets fst snd id].
    destruct (agents (st w) !! ag_id a); [|done]. by rewrite emit_patch_same_tables. }
  eexists. rewrite mark_list_actors, Ha. destruct (actors (st w) !! j) as [x|] eqn:Hx; [|by destruct (decide _)].
  assert (j ∈ orphaned (st w) (ag_id a) ↔ a_agent x = ag_id a ∧ a_live x = true) as Hin.
  { unfold orphaned. rewrite list_elem_of_fmap. setoid_rewrite list_elem_of_filter.
    setoid_rewrite elem_of_hash_values. split.
    - intros (y & -> & Hy & i & Hi). rewrite (Hk i y Hi) in Hx. congruence.
    - intros Hy. exists x. rewrite (Hk j x Hx). eauto. }
  destruct (decide (j ∈ _)) as [H|H]; [rewrite decide_True by tauto|rewrite decide_False by tauto]; done.
Qed.

(** Giving agents up buries their live actors and no others. *)
Definition given_up (gs : list string) (s s' : State) : Prop :=
  (∀ j x', actors s' !! j = Some x' → ∃ x, actors s !! j = Some x ∧ a_id x' = a_id x ∧
     a_agent x' = a_agent x ∧ (x' = x ∨ a_live x' = false) ∧ (a_agent x ∈ gs → a_live x' = false)) ∧
  (∀ j x, actors s !! j = Some x → a_agent x ∉ gs → actors s' !! j = Some x).

Lemma given_up_keyed gs s s' : given_up gs s s' → actors_keyed s → actors_keyed s'.
Proof. intros [H _] Hk j x' Hx. destruct (H j x' Hx) as (x & Hj & -> & _). by apply Hk. Qed.

Lemma give_up_list_run l w :
  actors_keyed (st w) → given_up (ag_id <$> l) (st w) (st (for_each l (give_up_one E) w).2).
Proof.
  revert w. induction l as [|a l IH]; intros w Hk; cbn [for_each].
  { split; [|done]. intros j x Hx. exists x. split_and!; try done; [by left|set_solver]. }
  rewrite bind_run. set (w1 := (give_up_one E a w).2).
  assert (given_up [ag_id a] (st w) (st w1)) as H1.
  { split.
    - intros j x'. destruct (give_up_actors a w j Hk) as [why Hj]. fold w1 in Hj. rewrite Hj.
      destruct (actors (st w) !! j) as [x|]; [|done]. intros [= <-]. exists x.
      destruct (bury_fields why x) as (Hi & Hag & Hl). destruct (decide _) as [Hd|Hd]; split_and!; try done.
      + by right.
      + by left.
      + intros Hg%list_elem_of_singleton. apply not_true_is_false. tauto.
    - intros j x Hx Hn. destruct (give_up_actors a w j Hk) as [why Hj]. fold w1 in Hj. rewrite Hj, Hx.
      rewrite decide_False; [done|]. set_solver. }
  destruct (IH w1 (given_up_keyed _ _ _ H1 Hk)) as [H2 H2']. destruct H1 as [H1 H1']. split.
  - intros j x'' Hx''. destruct (H2 j x'' Hx'') as (x' & Hx' & Hi' & Ha' & Hs' & Hd').
    destruct (H1 j x' Hx') as (x & Hx & Hi & Ha & Hs & Hd). exists x. split; [done|].
    split; [by rewrite Hi'|]. split; [by rewrite Ha'|]. split.
    + destruct Hs' as [->|]; [|by right]. done.
    + rewrite fmap_cons, elem_of_cons. intros [Heq|Hin].
      * destruct Hs' as [->|]; [|done]. apply Hd. set_solver.
      * apply Hd'. by rewrite Ha.
  - intros j x Hx. rewrite fmap_cons, not_elem_of_cons. intros [Hn1 Hn2]. apply H2'; [|done].
    apply H1'; [done|set_solver].
Qed.

Lemma tick_run w :
  actors_keyed (st w) →
  given_up (ag_id <$> filter (λ a, gives_up E a = true) (hash_values (agents (st w)))) (st w)
    (st (tick_agents E w).2).
Proof.
  intros Hk. unfold tick_agents. rewrite bind_run. cbn [get_st gets fst snd]. rewrite !bind_run.
  set (w1 := (modify_st _ w).2). set (w2 := (for_each _ _ w1).2).
  assert (actors (st w2) = actors (st w)) as Ha.
  { unfold w2. rewrite (keeps_for_each actors); [done|]. intros a _.
    apply keeps_bind; [apply keeps_get_st|]. intros s.
    destruct (agents s !! ag_id a); [apply keeps_emit; by intros ? ? ->|apply keeps_skip]. }
  assert (actors_keyed (st w2)) as Hk2 by (unfold actors_keyed; by rewrite Ha).
  destruct (give_up_list_run (filter (λ a, gives_up E a = true) (hash_values (agents (st w)))) w2 Hk2) as [H1 H2].
  unfold given_up. rewrite <-Ha. by split.
Qed.

Lemma filed_ok s : alloc_ok D s → actors_keyed s → filed s.
Proof. intros Hok Hk. split; [done|apply (al_pgs s Hok)|apply (al_agents s Hok)]. Qed.

Lemma expire_overdue_keeps {B} (f : State → B) :
  Quiet f → (∀ s g, f (s <| pgs ::= g |>) = f s) → keeps f (expire_overdue E).
Proof.
  intros Hq Hp. apply keeps_bind; [apply keeps_get_st|]. intros ps. apply keeps_for_each. intros p _.
  apply keeps_bind; [by apply keeps_modify|]. intros _. apply keeps_bind; [apply keeps_get_st|]. intros s.
  apply keeps_bind; [destruct (pgs s !! pg_id p); [by apply keeps_emit|apply keeps_skip]|].
  intros _. apply keeps_notify.
Qed.

(** One tick of the sweeper settles what timed out and nothing else. A
    group pending past the timeout is removed with a reason on its row, an
    agent gone past the give-up window has no live actor, and a live actor of
    any other agent is untouched. *)
Theorem sweep_lifecycle_spec (w : World) (Hok : alloc_ok D (st w)) (Hkeyed : actors_keyed (st w)) :
  let s := st w in let s' := st (sweep_lifecycle E w).2 in
  (∀ k p, pgs s !! k = Some p → overdue E p = true → ∃ p', pgs s' !! k = Some p' ∧
     pg_state p' = PgRemoved ∧ is_Some (pg_fail_reason p')) ∧
  (∀ g a j x, agents s !! g = Some a → gives_up E a = true → actors s' !! j = Some x →
     a_agent x = g → a_live x = false) ∧
  (∀ j x, actors s !! j = Some x → a_live x = true →
     (∀ a, agents s !! a_agent x = Some a → gives_up E a = false) → actors s' !! j = Some x).
Proof.
  cbn zeta. unfold sweep_lifecycle. rewrite !bind_run. set (w1 := (warn_slow E w).2).
  assert (alloc_ok D (st w1)) as Hok1 by (by apply (alloc_ok_frame (st w))).
  set (w2 := (expire_overdue E w1).2). assert (alloc_ok D (st w2)) as Hok2 by (by apply expire_overdue_ok).
  assert (actors (st w2) = actors (st w)) as Ha
    by (unfold w2; rewrite (expire_overdue_keeps actors); done || by intros ? ? ->).
  assert (agents (st w2) = agents (st w)) as Hag
    by (unfold w2; rewrite (expire_overdue_keeps agents); done || by intros ? ? ->).
  assert (actors_keyed (st w2)) as Hk2 by (unfold actors_keyed; by rewrite Ha).
  pose proof (tick_run w2 Hk2) as Ht. set (w3 := (tick_agents E w2).2) in *. rewrite Hag in Ht.
  assert (filed (st w3)) as Hf3 by (apply filed_ok; [by apply tick_agents_ok|by eapply given_up_keyed]).
  destruct (sweep_history_rows E w3 Hf3) as (Hra & _ & _ & _ & _ & Hdom).
  set (w4 := (sweep_history E w3).2) in *. destruct Ht as [Ht1 Ht2]. rewrite Ha in Ht1, Ht2. split_and!.
  - intros k p Hp Ho. assert (expired k (st w4)) as [_ (q & Hq & Hst & _ & Hr)]; [|eauto].
    apply expired_kept; [done|]. apply expired_tick. unfold w2, expire_overdue. rewrite bind_run.
    cbn [get_st gets fst snd]. apply expire_list_run; [done|by exists p|right].
    apply list_elem_of_fmap. exists p. split; [symmetry; by apply (al_pgs _ Hok)|].
    apply list_elem_of_filter. split; [done|]. apply elem_of_hash_values. by exists k.
  - intros g a j x Hg Hgu Hx <-. destruct (Hdom j ltac:(eauto)) as [y Hy].
    pose proof (Hra j y Hy) as Hy'. rewrite Hx in Hy'. destruct (actor_finished _ _ _); [done|].
    injection Hy' as ->. destruct (Ht1 j y Hy) as (z & Hz & _ & Hzy & _ & Hdead). apply Hdead.
    rewrite <-Hzy. apply list_elem_of_fmap. exists a. split; [symmetry; by apply (al_agents _ Hok)|].
    apply list_elem_of_filter. split; [done|]. apply elem_of_hash_values. by exists (a_agent y).
  - intros j x Hx Hl Hno. assert (actors (st w3) !! j = Some x) as H3.
    { apply Ht2; [done|]. intros (a & Heq & [Hgu [g Hg]%elem_of_hash_values]%list_elem_of_filter)%list_elem_of_fmap.
      assert (gives_up E a = false); [|congruence]. apply Hno. rewrite Heq. by rewrite (al_agents _ Hok g a Hg). }
    rewrite (Hra j x H3). unfold actor_finished. unfold a_live in Hl.
    destruct (a_state x); cbn in Hl; by rewrite ?andb_false_r.
Qed.
End lifecycle.

(** ** A tick long after *)

(** The agent of the demo's driver went down, its link lost at 1000. *)
Definition demo_late : Env := mkEnv 1000000 cfg_default demo_host (λ _, None) (λ _, true) "ab".
Definition demo_lost : State :=
  demo_driver <| agents ::= alter (lose_agent demo_env) "a2" |> <| pgs := {[ "p:2" := demo_waiting ]} |>.

Lemma demo_lost_agent k a : agents demo_lost !! k = Some a →
  a = demo_agent "a1" "n1" [demo_gpu 0; demo_gpu 1] true ∧ k = "a1" ∨
  a = lose_agent demo_env (demo_agent "a2" "n2" [demo_gpu 0] true) ∧ k = "a2".
Proof.
  intros Ha. change (alter (lose_agent demo_env) "a2" (agents demo_cluster) !! k = Some a) in Ha.
  destruct (decide ("a2" = k)) as [<-|Hne].
  - rewrite lookup_alter_eq in Ha. apply fmap_Some in Ha as (b & [[-> Hk]|[-> _]]%demo_cluster_agents & ->); [done|].
    by right.
  - rewrite lookup_alter_ne in Ha by done. apply demo_cluster_agents in Ha as [[-> ->]|[-> ->]]; [by left|done].
Qed.

Lemma demo_lost_ok : alloc_ok ∅ demo_lost.
Proof.
  assert (alloc_ok ∅ (demo_driver <| pgs := {[ "p:2" := demo_waiting ]} |>)) as H.
  { replace (demo_driver <| pgs := {[ "p:2" := demo_waiting ]} |>)
      with (demo_driver <| pgs ::= <["p:2" := demo_waiting]> |>) by reflexivity.
    by apply alloc_ok_new_pg; [apply demo_driver_ok|..]. }
  apply (alloc_ok_alter_agent _ (lose_agent demo_env) "a2") in H; [|done]. exact H.
Qed.

Lemma sweep_lifecycle_spec_witness :
  (∃ p', pgs (st (@sweep_lifecycle in_key_order demo_late (mkWorld demo_lost [])).2) !! "p:2" = Some p' ∧
     pg_state p' = PgRemoved) ∧
  ∀ j x, actors (st (@sweep_lifecycle in_key_order demo_late (mkWorld demo_lost [])).2) !! j = Some x →
    a_agent x = "a2" → a_live x = false.
Proof.
  destruct (@sweep_lifecycle_spec in_key_order demo_late ∅ (mkWorld demo_lost []) demo_lost_ok)
    as (H1 & H2 & _); [by intros k a [-> ->]%demo_driver_actor|]. split.
  - destruct (H1 "p:2" demo_waiting) as (p' & Hp & Hs & _); [vm_compute; reflexivity..|]. exists p'. split; [exact Hp|exact Hs].
  - intros j x. apply (H2 "a2" (lose_agent demo_env (demo_agent "a2" "n2" [demo_gpu 0] true)));
      vm_compute; reflexivity.
Defined.

Lemma sweep_history_spec_witness :
  actors (st (@sweep_history in_key_order demo_late demo_session).2) !! "x:1" = Some demo_actor.
Proof.
  destruct (@sweep_history_spec in_key_order demo_late demo_session) as (_ & _ & H & _).
  - apply (filed_ok (D := ∅)); [apply demo_driver_ok|by intros k a [-> ->]%demo_driver_actor].
  - apply H; [vm_compute; reflexivity|reflexivity].
Defined.
