(* ===== verification/Head.v ===== *)
(** * The head, and the way to it (rust/mentatd/src/daemon.rs)

    Where a new connection goes ([conn_entry], [head_for]) and what a daemon
    that stops being head drops ([head_moved]). The relay itself is in
    Links.v. *)

From S2P Require Import Prelude Json Proto Addr Island State Status Placement Actors Clients Agents.

Section head.
Context `{HI : HashIter} (E : Env).

(** ** Where a connection goes *)

Inductive Head := Here | At (addrs : list string) | NoHead.

(** One turn of [head_for]'s loop: [None] waits on. *)
Definition head_for (s : State) (expired : bool) : option Head :=
  if negb (str_empty (head_node_id s)) then
    if bool_decide (head_node_id s = node_id s) then Some Here
    else match peers s !! head_node_id s with
    | Some p =>
        if pe_alive p then
          let at_port := λ a, a +:+ ":" +:+ pretty (pe_control_port p) in
          Some (At (dedup (at_port (pe_link_ip p) :: at_port (pe_node_ip p) :: (at_port <$> pe_addrs p))))
        else Some NoHead
    | None => Some NoHead
    end
  else if expired then Some NoHead else None.

(** What is relayed for a client or an agent of this box. *)
Definition with_node_ip (ip : string) (msg : Msg.t) : Msg.t :=
  match msg with
  | Msg.Hello proto c g session kind claimed =>
      Msg.Hello proto c g session kind (if str_empty claimed then ip else claimed)
  | Msg.AgentRegister proto a g claimed container pid machine services resume unacked meta =>
      Msg.AgentRegister proto a g (if str_empty claimed then ip else claimed) container pid machine
        services resume unacked meta
  | _ => msg
  end.

Inductive Entry :=
| ToClient | ToAgent | ToPeer
| Relay (addrs : list string) (first : Msg.t)
| Refuse (m : Msg.t)
| Wait.

Context (debug_msg : Msg.t → string).

Definition conn_entry (s : State) (peer_ip : string) (expired : bool) (first : Msg.t) : Entry :=
  match first with
  | Msg.Hello _ _ _ _ _ _ | Msg.AgentRegister _ _ _ _ _ _ _ _ _ _ _ =>
      match head_for s expired with
      | None => Wait
      | Some Here => match first with Msg.Hello _ _ _ _ _ _ => ToClient | _ => ToAgent end
      | Some (At addrs) =>
          Relay addrs (if is_loopback peer_ip || bool_decide (peer_ip ∈ all_local_addrs (host E))
                       then with_node_ip (node_ip s) first else first)
      | Some NoHead => Refuse (Msg.refused "no_head" "no head elected yet, retry")
      end
  | Msg.PeerHello _ _ _ _ _ _ _ _ => ToPeer
  | Msg.Probe _ _ => Refuse (Msg.ProbeOk Version.PROTO (node_id s))
  | other => Refuse (Msg.refused "bad_first_frame"
      ("first frame must be hello, agent_register, peer_hello or probe, got " +:+ debug_msg other))
  end.

(** ** A daemon that is no longer head *)

Definition move_actor (reason : string) (a : ActorInfo) : ActorInfo :=
  if is_dead (a_state a) then a else a <| a_state := Dead reason (now_ms E) |>.
Definition move_pg (p : PgInfo) : PgInfo :=
  if bool_decide (pg_state p = PgRemoved) then p else remove_pg E p.

(** Rows, as (group, id). *)
Definition touched_actors (s : State) : list (string * string) :=
  (λ a, (a_group a, a_id a)) <$> filter (λ a, a_live a = true) (hash_values (actors s)).
Definition touched_pgs (s : State) : list (string * string) :=
  (λ p, (pg_group p, pg_id p)) <$> filter (λ p, pg_state p ≠ PgRemoved) (hash_values (pgs s)).

Definition move_patches (s s' : State) : list Patch :=
  ((λ i, patch_remove ["clients"; i]) <$> hash_keys (clients s)) ++
  ((λ k, patch_remove ["groups"; k.1; "claims"; k.2]) <$> claim_keys s) ++
  omap (agent_patch s') (sort_dedup
    (omap (λ x, a_agent <$> actors s' !! x.2) (touched_actors s) ++
     (touched_pgs s ≫= λ x, from_option (λ p, b_agent <$> placed_bundles p) [] (pgs s' !! x.2)))) ++
  (touched_actors s ≫= λ x, actor_patch s' x.1 x.2) ++ (touched_pgs s ≫= λ x, pg_patch s' x.1 x.2).

(** The tables a moved group leaves. *)
Definition moved (reason : string) (s : State) : State :=
  s <| client_links := [] |> <| clients := ∅ |> <| claims := ∅ |> <| refs := ∅ |>
    <| actors ::= fmap (move_actor reason) |> <| pgs ::= fmap move_pg |>.

Definition head_moved : SM unit :=
  s ← get_st id;
  if bool_decide (head_node_id s = node_id s) || bool_decide (agents s = ∅ ∧ clients s = ∅) then skip
  else
    let reason := "group moved to head " +:+ head_node_id s in
    for_each (hash_values (agents s)) (λ a, shutdown (ag_writer a)) ;;
    for_each (client_links s) (λ x, shutdown x.2) ;;
    modify_st (moved reason) ;;
    s' ← get_st id;
    emit_patch E "head_moved" (move_patches s s') reason.
End head.

Section head_facts.
Context `{HI : HashIter} (E : Env) {D : gset string}.

Lemma moved_live reason a : a_live (move_actor E reason a) = false.
Proof. unfold move_actor, a_live. destruct (is_dead (a_state a)) eqn:Hd; [by rewrite Hd|done]. Qed.
Lemma moved_removed p : pg_state (move_pg E p) = PgRemoved ∧ pg_id (move_pg E p) = pg_id p.
Proof. unfold move_pg. case_bool_decide; done. Qed.

Lemma head_moved_run w :
  head_node_id (st w) ≠ node_id (st w) → ¬ (agents (st w) = ∅ ∧ clients (st w) = ∅) →
  same_tables (moved E ("group moved to head " +:+ head_node_id (st w)) (st w)) (st (head_moved E w).2) ∧
  ∃ o, out (head_moved E w).2 = out w ++ ((λ a, Shutdown (ag_writer a)) <$> hash_values (agents (st w))) ++
    ((λ x, Shutdown x.2) <$> client_links (st w)) ++ o.
Proof.
  intros Hh He. unfold head_moved. rewrite bind_run. cbn [get_st gets fst snd id].
  rewrite (bool_decide_eq_false_2 _ Hh), (bool_decide_eq_false_2 _ He). cbn [orb]. cbv zeta.
  rewrite bind_run, (for_each_effects _ (λ a, [Shutdown (ag_writer a)])) by done. cbn [fst snd].
  rewrite bind_run, (for_each_effects _ (λ x : string * Sock, [Shutdown x.2])) by done. cbn [fst snd].
  rewrite !bind_run. cbn [get_st gets fst snd id].
  match goal with |- context [emit_patch E ?kd ?pa ?wy ?w0] =>
    pose proof (emit_patch_same_tables E kd pa wy w0) as Hsame;
    destruct (grows_emit_patch E (out w0) kd pa wy w0 (reflexivity _)) as [o Ho];
    set (w1 := (emit_patch E kd pa wy w0).2) in * end.
  split; [exact Hsame|]. exists o. rewrite Ho. cbn. rewrite <-!app_assoc.
  by rewrite (list_bind_ret (hash_values (agents (st w))) (λ a, Shutdown (ag_writer a))),
    (list_bind_ret (client_links (st w)) (λ x, Shutdown x.2)).
Qed.

Lemma nothing_held s :
  (∀ j a, actors s !! j = Some a → a_live a = false) → (∀ k p, pgs s !! k = Some p → pg_state p = PgRemoved) →
  ∀ id g, ¬ held s id g.
Proof.
  intros Ha Hp id g. unfold held. intros [(k & p & Hk & Hg)|(j & a & Hj & Hg)].
  - unfold pg_holds in Hg. rewrite decide_True in Hg by eauto. set_solver.
  - unfold actor_holds in Hg. pose proof (Ha j a Hj) as Hl. unfold a_live in Hl.
    apply negb_false_iff in Hl. rewrite Hl in Hg. destruct (decide _); set_solver.
Qed.

(** A daemon that stops being head lets go of every group: no client, claim
    or ref is left, every actor row is dead, every group removed, no device is
    held, and the socket of every agent and client is shut down. The agents'
    rows stay. A daemon that is head, or has neither agents nor clients, does
    nothing. *)
Theorem head_moved_spec (w : World) :
  let s := st w in let s' := st (head_moved E w).2 in
  (head_node_id s = node_id s ∨ (agents s = ∅ ∧ clients s = ∅) → (head_moved E w).2 = w) ∧
  (head_node_id s ≠ node_id s → ¬ (agents s = ∅ ∧ clients s = ∅) →
     clients s' = ∅ ∧ claims s' = ∅ ∧ refs s' = ∅ ∧ client_links s' = [] ∧ agents s' = agents s ∧
     (∀ j a, actors s' !! j = Some a → a_live a = false) ∧
     (∀ k p, pgs s' !! k = Some p → pg_state p = PgRemoved) ∧
     (∀ id g, ¬ held s' id g) ∧
     (∀ k a, agents s !! k = Some a → Shutdown (ag_writer a) ∈ out (head_moved E w).2) ∧
     (∀ c sk, (c, sk) ∈ client_links s → Shutdown sk ∈ out (head_moved E w).2)).
Proof.
  cbn zeta. split.
  - intros H. unfold head_moved. rewrite bind_run. cbn [get_st gets fst snd id].
    assert (bool_decide (head_node_id (st w) = node_id (st w)) || bool_decide (agents (st w) = ∅ ∧ clients (st w) = ∅) = true)
      as ->; [|done]. rewrite orb_true_iff, !bool_decide_eq_true. exact H.
  - intros Hh He. destruct (head_moved_run w Hh He) as [Hs (o & Ho)].
    assert (∀ j a, actors (st (head_moved E w).2) !! j = Some a → a_live a = false) as Ha.
    { intros j a. rewrite Hs. cbn. rewrite lookup_fmap. intros (b & _ & ->)%fmap_Some. apply moved_live. }
    assert (∀ k p, pgs (st (head_moved E w).2) !! k = Some p → pg_state p = PgRemoved) as Hp.
    { intros k p. rewrite Hs. cbn. rewrite lookup_fmap. intros (b & _ & ->)%fmap_Some. apply moved_removed. }
    split_and!; [by rewrite Hs..|exact Ha|exact Hp|by apply nothing_held| |].
    + intros k a Hk. rewrite Ho, !elem_of_app. right. left. apply list_elem_of_fmap. exists a.
      split; [done|]. apply elem_of_hash_values. eauto.
    + intros c sk Hin. rewrite Ho, !elem_of_app. right. right. left. apply list_elem_of_fmap. by exists (c, sk).
Qed.

Lemma head_moved_ok : preserves (inv (alloc_ok D)) (head_moved E).
Proof.
  intros w Hok. destruct (decide (head_node_id (st w) = node_id (st w) ∨ agents (st w) = ∅ ∧ clients (st w) = ∅)) as [Hd|Hd].
  - unfold head_moved. rewrite bind_run. cbn [get_st gets fst snd id].
    assert (bool_decide (head_node_id (st w) = node_id (st w)) || bool_decide (agents (st w) = ∅ ∧ clients (st w) = ∅) = true)
      as ->; [|done]. rewrite orb_true_iff, !bool_decide_eq_true. exact Hd.
  - destruct (head_moved_run w) as [Hs _]; [tauto..|]. apply (alloc_ok_stable D _ _ Hs).
    set (reason := "group moved to head " +:+ _).
    apply (alloc_ok_frame (((st w) <| actors := fmap (move_actor E reason) (actors (st w)) |>)
      <| pgs := fmap (move_pg E) (pgs (st w)) |>)); [done..|].
    apply alloc_ok_pgs.
    + apply (alloc_ok_actors (st w) _ Hok). intros k a'. rewrite lookup_fmap.
      intros (a & Ha & ->)%fmap_Some. exists a. split; [done|]. unfold move_actor.
      by destruct (is_dead (a_state a)).
    + intros k p'. cbn. rewrite lookup_fmap. intros (p & Hp & ->)%fmap_Some. exists p.
      destruct (moved_removed p). auto.
Qed.
End head_facts.

(** ** A head that loses its place and gets it back *)

Definition demo_demoted : World :=
  mkWorld (demo_driver <| head_node_id := "n9" |> <| client_links := [("c:1", 3%N)] |>) [].

Lemma head_moved_spec_witness :
  clients (st (@head_moved in_key_order demo_env demo_demoted).2) = ∅ ∧
  Shutdown 3 ∈ out (@head_moved in_key_order demo_env demo_demoted).2.
Proof.
  destruct (@head_moved_spec in_key_order demo_env demo_demoted) as [_ H].
  destruct H as (Hc & _ & _ & _ & _ & _ & _ & _ & _ & Hs); [vm_compute; discriminate| |split; [exact Hc|]].
  - intros [_ Hc]. assert (clients (st demo_demoted) !! "c:1" = None) as Hn by (rewrite Hc; apply lookup_empty).
    vm_compute in Hn. discriminate.
  - apply (Hs "c:1" 3%N). change ((("c:1" : string), 3%N) ∈ [(("c:1" : string), 3%N)]). set_solver.
Defined.

(** The old head keeps the actors' rows, dead, so when it is head again and
    their agent comes back with them running, it tells the agent to kill them.
    The calls the agent reports on them are adopted, and the actor's exit does
    not settle them: the driver waits for ever. *)
Definition demo_restored : World :=
  let back := (@head_moved in_key_order demo_env demo_demoted).2 in
  let back := back <| st ::= λ s, s <| head_node_id := node_id s |> |> in
  let back := (@client_hello in_key_order demo_env 3 1 Version.PROTO "c:1" "g" true "driver" "" "10.0.0.9" back).2 in
  (@agent_register in_key_order demo_env 9 1 demo_registration (back <| out := [] |>)).2.
Example head_returns_and_kills :
  existsb (λ e, match e with Send 9 (Msg.ActorKill "x:1") _ _ => true | _ => false end) (out demo_restored) = true.
Proof. vm_compute. reflexivity. Qed.
Example head_returns_and_hangs :
  let exited := (@actor_exit in_key_order demo_env "x:1" None (Some 9%Z) demo_restored).2 in
  resolve_ref (st demo_restored) "x:1:4" = ResPending ∧ resolve_ref (st exited) "x:1:4" = ResPending.
Proof. split; vm_compute; reflexivity. Qed.

(** A connection sent here by [head_for] opens its session whatever the head is
    by then: one that comes just after the head moved stays on a daemon that is
    not the head. *)
Example session_behind_the_head :
  let old := (@head_moved in_key_order demo_env demo_demoted).2 in
  is_Some (@client_hello in_key_order demo_env 4 1 Version.PROTO "c:5" "g" true "driver" "" "10.0.0.9" old).1 ∧
  conn_entry demo_env (λ _, "") (st old) "10.0.0.9" false
    (Msg.Hello Version.PROTO "c:5" "g" true "driver" "") = Refuse (Msg.refused "no_head" "no head elected yet, retry").
Proof. split; [eexists|]; vm_compute; reflexivity. Qed.
