(* ===== verification/Mesh.v ===== *)
(** * The mesh (rust/mentatd/src/mesh.rs)

    Links between daemons: who is registered under a node id, what a peer's
    messages do, when a silent peer is gone, which head a daemon follows, where
    it dials, and the probe tables. Sockets, threads and the ARP table are
    outside; a probe's outcome is an argument. *)

From S2P Require Import Prelude Text Json Proto Addr Island State Status Placement Actors Clients Agents Head.

(** What a peer reports about itself, and what the link observed. *)
Record PeerIdent := mkIdent {
  pi_node_id : string; pi_outbound : bool; pi_node_ip : string; pi_link_ip : string;
  pi_addrs : list string; pi_addr_tags : gmap string (list string);
  pi_addr_ifaces : gmap string string; pi_control_port : N; pi_http_port : N }.

Definition min_str (l : list string) : option string := min_by String.compare l.

(** The strings of a JSON array, and a JSON object as a map. *)
Definition str_list (v : Value) : list string := omap as_str (items v).
Definition str_map (t : list (string * Value)) : gmap string string :=
  collect_map (omap (λ '(k, v), s ← as_str v; Some (k, s)) t).

Section mesh.
Context `{HI : HashIter} (E : Env).

(** ** Links *)

Definition same_box (arriving existing : list string) : bool :=
  existsb (λ a, bool_decide (a ∈ existing)) (filter (λ a, is_loopback a = false) arriving).

Definition dialer (me peer : string) (outbound : bool) : string := if outbound then me else peer.

Definition superseded_peers (s : State) (p : PeerIdent) : list string :=
  pe_node_id <$> filter (λ q, pe_alive q = false ∧ pe_node_id q ≠ pi_node_id p ∧
    same_box (pi_addrs p) (pe_addrs q) = true) (hash_values (peers s)).

Definition peer_of (p : PeerIdent) (w : Sock) (old : option PeerInfo) : PeerInfo :=
  mkPeer (pi_node_id p) (pi_outbound p) (pi_node_ip p) (pi_link_ip p) (pi_addrs p) (pi_addr_tags p)
    (pi_addr_ifaces p) (from_option pe_addr_macs ∅ old) (from_option pe_probe_pairs ∅ old) ∅
    (pi_control_port p) (pi_http_port p) w true (now_ms E) None false (from_option pe_last_status Null old).

Definition peer_patch (s : State) (id_ : string) : list Patch :=
  match peers s !! id_ with Some p => [patch_set ["peers"; id_] (peer_row p)] | None => [] end.
Definition emit_peer (kind id_ why : string) : SM unit :=
  s ← get_st id;
  match peers s !! id_ with
  | Some _ => emit_patch E kind (peer_patch s id_) why
  | None => skip
  end.

(** An arriving link that the link already held beats. *)
Definition link_loses (s : State) (p : PeerIdent) : bool :=
  is_some_and (peers s !! pi_node_id p) (λ old, pe_alive old &&
    bool_decide (String.le (dialer (node_id s) (pi_node_id p) (pe_outbound old))
                           (dialer (node_id s) (pi_node_id p) (pi_outbound p)))).
Definition drop_superseded (p : PeerIdent) : SM unit :=
  s ← get_st id;
  for_each (superseded_peers s p) (λ old,
    modify_st (λ s, s <| peers ::= delete old |>) ;;
    emit_patch E "peer_forgotten" [patch_remove ["peers"; old]] "superseded").
Definition register_peer (w : Sock) (p : PeerIdent) : SM bool :=
  s ← get_st id;
  if link_loses s p then mret false
  else
    for_each (option_list (peers s !! pi_node_id p)) (λ old, when (pe_alive old) (shutdown (pe_writer old))) ;;
    drop_superseded p ;;
    ps ← get_st peers;
    let old := ps !! pi_node_id p in
    modify_st (λ s, s <| peers ::= <[pi_node_id p := peer_of p w old]> |>) ;;
    (if from_option pe_alive false old then skip else emit_peer "node_join" (pi_node_id p) "") ;;
    notify_all ;;
    mret true.

(** [accept_peer] up to the peer's loop: whose link this is, if it is kept. *)
Definition accept_peer (w : Sock) (req : N) (link_ip proto node_id_ node_ip_ : string)
    (control http : N) (addrs : list string) (tags : gmap string (list string))
    (ifaces : gmap string string) : SM (option string) :=
  s ← get_st id;
  if negb (Version.major_matches proto) then
    send_ignore E w (proto_mismatch proto) req [] ;; mret None
  else
    send_ignore E w (Msg.PeerHelloOk Version.PROTO (node_id s) (node_ip s) (control_port s) (http_port s)
      (local_addrs (host E)) (local_addr_tags (host E)) (local_addr_ifaces (host E))) req [] ;;
    if bool_decide (node_id_ = node_id s) then mret None
    else
      kept ← register_peer w (mkIdent node_id_ false node_ip_ link_ip addrs tags ifaces control http);
      mret (if (kept : bool) then Some node_id_ else None).

(** ** What a peer sends *)

(** A status push: the peer's current addresses, and a heartbeat. *)
Definition peer_status (data : Value) (p : PeerInfo) : PeerInfo :=
  let addrs := str_list (index "addrs" data) in
  let p := if nonempty addrs then p <| pe_addrs := addrs |> else p in
  let p := match as_object (index "addr_tags" data) with
    | Some t => p <| pe_addr_tags := collect_map ((λ '(k, v), (k, str_list v)) <$> t) |> | None => p end in
  let p := match as_object (index "addr_ifaces" data) with
    | Some t => p <| pe_addr_ifaces := str_map t |> | None => p end in
  let p := match as_object (index "addr_macs" data) with
    | Some t => p <| pe_addr_macs := str_map t |> | None => p end in
  p <| pe_last_status := data |> <| pe_last_seen_ms := now_ms E |> <| pe_stale := false |>.

Definition peer_msg (peer : string) (msg : Msg.t) : SM unit :=
  match msg with
  | Msg.PeerStatus data => modify_st (λ s, s <| peers ::= alter (peer_status data) peer |>)
  | Msg.PeerEvent event => deliver_peer_event E event
  | Msg.Pong => modify_st (λ s, s <| peers ::= alter (λ p, p <| pe_last_seen_ms := now_ms E |>) peer |>)
  | _ => skip
  end.

Definition lose_peer (p : PeerInfo) : PeerInfo :=
  p <| pe_alive := false |> <| pe_dead_since_ms := Some (now_ms E) |>.

(** The end of a peer's loop. *)
Definition peer_lost (w : Sock) (peer : string) : SM unit :=
  s ← get_st id;
  (if is_some_and (peers s !! peer) (λ p, pe_alive p && bool_decide (pe_writer p = w)) then
     modify_st (λ s, s <| peers ::= alter lose_peer peer |>) ;;
     emit_peer "node_leave" peer "link closed"
   else skip) ;;
  notify_all.

(** ** Silent peers *)

Definition silent_ms (p : PeerInfo) : N := saturating_sub (now_ms E) (pe_last_seen_ms p).
Definition peer_gone (p : PeerInfo) : bool :=
  pe_alive p && bool_decide (peer_dead_after_ms (cfg E) ≤ silent_ms p)%N.
Definition tick_peer (p : PeerInfo) : PeerInfo :=
  if peer_gone p then lose_peer p
  else if pe_alive p && bool_decide (peer_stale_after_ms (cfg E) ≤ silent_ms p)%N then p <| pe_stale := true |>
  else p.
Definition forgotten (s : State) : list string :=
  pe_node_id <$> filter (λ p, pe_alive p = false ∧
    (history_keep_ms (cfg E) < saturating_sub (now_ms E) (default 0 (pe_dead_since_ms p)))%N) (hash_values (peers s)).

(** One turn of the staleness sweeper; [cut] are the links its test network
    has cut. *)
Definition sweep_peers (cut : list string) : SM unit :=
  s ← get_st id;
  for_each cut (λ i, match peers s !! i with Some p => shutdown (pe_writer p) | None => skip end) ;;
  let gone := filter (λ p, peer_gone p = true) (hash_values (peers s)) in
  modify_st (λ s, s <| peers ::= fmap tick_peer |>) ;;
  for_each gone (λ p, shutdown (pe_writer p)) ;;
  for_each gone (λ p, emit_peer "node_leave" (pe_node_id p) "stale") ;;
  ids ← get_st forgotten;
  for_each ids (λ i,
    modify_st (λ s, s <| peers ::= delete i |>) ;;
    emit_patch E "peer_forgotten" [patch_remove ["peers"; i]]
      ("kept " +:+ pretty (history_keep_ms (cfg E)) +:+ " ms")) ;;
  (if nonempty gone then notify_all else skip).

(** The heartbeat: the snapshot, to every live peer. *)
Definition push_status : SM unit :=
  s ← get_st id;
  for_each (filter (λ p, pe_alive p = true) (hash_values (peers s)))
    (λ p, send_ignore E (pe_writer p) (Msg.PeerStatus (snapshot (host E) s None)) 0 []).

(** ** Election *)

Definition is_alive (s : State) (id_ : string) : bool :=
  bool_decide (id_ = node_id s) || is_some_and (peers s !! id_) pe_alive.
Definition live_peers (s : State) : list PeerInfo := filter (λ p, pe_alive p = true) (hash_values (peers s)).
Definition published_head (p : PeerInfo) : option string := as_str (index "head_node_id" (pe_last_status p)).
(** The live heads that this daemon's live peers and it itself follow. *)
Definition claimed_heads (s : State) : list string :=
  filter (λ h, h ≠ "" ∧ is_alive s h = true) (omap published_head (live_peers s)) ++
  (if negb (str_empty (head_node_id s)) && is_alive s (head_node_id s) then [head_node_id s] else []).
Definition head_candidate (s : State) : string :=
  match min_str (claimed_heads s) with
  | Some h => h
  | None => default "" (min_str ((pe_node_id <$> live_peers s) ++ [node_id s]))
  end.

(** What [elector] keeps between turns. *)
Record Elector := mkElector { el_heard : bool; el_candidate : option (string * N) }.

Definition commit_head (candidate : string) : SM unit :=
  old ← get_st head_node_id;
  modify_st (λ s, s <| head_node_id := candidate |> <| head_generation ::= u64_succ |>
    <| head_since_ms := if bool_decide (candidate = node_id s) then Some (now_ms E) else None |>) ;;
  s ← get_st id;
  emit_patch E "head_change" [patch_set ["head_node_id"] (Str candidate);
    patch_set ["head_generation"] (JN (head_generation s))] ("was " +:+ old) ;;
  head_moved E ;;
  notify_all.

Definition has_heard (s : State) : bool :=
  existsb (λ p, pe_alive p && negb (is_null (pe_last_status p))) (hash_values (peers s)).

(** One turn, [up] ms after boot on the monotonic clock. *)
Definition elector_tick (up : N) (l : Elector) : SM Elector :=
  s ← get_st id;
  let heard := el_heard l || has_heard s || negb (bool_decide (up < election_boot_wait_ms (cfg E))%N) in
  if negb heard then mret l
  else
    let candidate := head_candidate s in
    if bool_decide (candidate = head_node_id s) then mret (mkElector true None)
    else match el_candidate l with
    | Some (c, since) =>
        if bool_decide (c = candidate) then
          if bool_decide (election_hold_down_ms (cfg E) ≤ saturating_sub up since)%N then
            commit_head candidate ;; mret (mkElector true None)
          else mret (mkElector true (Some (c, since)))
        else mret (mkElector true (Some (candidate, up)))
    | None => mret (mkElector true (Some (candidate, up)))
    end.
End mesh.

(** ** Where a daemon dials *)

Section dialing.
Context `{HI : HashIter} (E : Env).

(** The listen address a peer's published row names. *)
Definition row_addr (q : Value) : option (string * N) :=
  ip ← as_str (index "node_ip" q); port ← as_u64 (index "control_port" q); Some (ip, port).
Definition published_rows (p : PeerInfo) : list (string * Value) := entries (index "peers" (pe_last_status p)).

Definition discover_targets (s : State) : list string :=
  live_peers s ≫= λ p, omap (λ '(i, q),
    if bool_decide (i = node_id s) || is_some_and (peers s !! i) pe_alive then None
    else if negb (default false (as_bool (index "alive" q))) then None
    else match row_addr q with
    | Some (ip, port) =>
        if str_empty ip || bool_decide (port = 0%N) then None else Some (ip +:+ ":" +:+ pretty port)
    | None => None
    end) (published_rows p).

(** [dial]: whether a connector starts for the target. *)
Definition dial (target : string) : SM bool :=
  ds ← get_st dialing;
  modify_st (λ s, s <| dialing ::= λ d, {[target]} ∪ d |>) ;;
  mret (bool_decide (target ∉ ds)).

Definition peer_addr (p : PeerInfo) : string := pe_node_ip p +:+ ":" +:+ pretty (pe_control_port p).
Definition covered (s : State) (seed : string) (known : option string) : bool :=
  match known with
  | Some i => from_option pe_alive false (peers s !! i)
  | None => existsb (λ p, pe_alive p && bool_decide (peer_addr p = seed)) (hash_values (peers s))
  end.
Definition published (s : State) (seed : string) : bool :=
  existsb (λ p, existsb (λ x, is_some_and (row_addr x.2)
    (λ '(ip, port), bool_decide (ip +:+ ":" +:+ pretty port = seed))) (published_rows p)) (live_peers s).

Definition push_new (out : list string) (t : string) : list string :=
  if bool_decide (t ∈ out) then out else out ++ [t].
Definition dial_targets (s : State) (seed : string) (known : option string) : list string :=
  match rsplit_once ":" seed with
  | None => [seed]
  | Some (h, port) =>
      let peer := match known with
        | Some i => peers s !! i
        | None => find_first (λ p, bool_decide (peer_addr p = seed ∨ h ∈ pe_addrs p)) (hash_values (peers s))
        end in
      match peer with
      | Some p => foldl push_new [seed]
          ((λ a, a +:+ ":" +:+ port) <$> filter (λ a, is_loopback a = false) (pe_addrs p))
      | None => [seed]
      end
  end.

(** [try_connect] once the dialed node has answered the hello: the node that
    answered, whether or not its link was kept, or [None] for this daemon. *)
Context (debug_msg : Msg.t → string).
Definition target_host (target : string) : string :=
  match rsplit_once ":" target with Some (h, _) => h | None => target end.
Definition hello_reply (s : State) (target : string) (reply : Msg.t) : Result (option PeerIdent) string :=
  match reply with
  | Msg.PeerHelloOk proto node ip control http addrs tags ifaces =>
      if negb (Version.major_matches proto) then
        Err ("peer proto " +:+ proto +:+ ", this daemon " +:+ Version.PROTO)
      else if bool_decide (node = node_id s) then Ok None
      else Ok (Some (mkIdent node true ip (target_host target) addrs tags ifaces control http))
  | other => Err ("unexpected peer hello reply: " +:+ debug_msg other)
  end.
Definition try_connect (w : Sock) (target : string) (reply : Msg.t) : SM (Result (option string) string) :=
  s ← get_st id;
  match hello_reply s target reply with
  | Err e => mret (Err e)
  | Ok None => mret (Ok None)
  | Ok (Some p) => register_peer E w p ;; mret (Ok (Some (pi_node_id p)))
  end.

(** What a connector does in one turn, [uncovered] ms after its node was last
    covered: wait, give its target up, or dial. *)
Inductive Turn := Idle | Stop | Dial (targets : list string).
Definition connector_turn (seed : string) (discovered : bool) (known : option string) (uncovered : N)
    : SM Turn :=
  s ← get_st id;
  if covered s seed known then mret Idle
  else if discovered && bool_decide (history_keep_ms (cfg E) < uncovered)%N && negb (published s seed) then
    modify_st (λ s, s <| dialing ::= λ d, d ∖ {[seed]} |>) ;; mret Stop
  else mret (Dial (dial_targets s seed known)).
End dialing.

(** ** Probes *)

Section probes.
Context `{HI : HashIter} (E : Env).

Definition fabric_ifaces (ifaces : gmap string string) (tags : gmap string (list string)) : gmap string string :=
  filter (λ x, is_some_and (tags !! x.1) (λ t, existsb (λ t, bool_decide (t = "rdma")) t) = true) ifaces.

Definition probe_targets (s : State) : list (string * N * list string) :=
  (λ p, (pe_node_id p, pe_control_port p, pe_addrs p)) <$>
    filter (λ p, nonempty (pe_addrs p) = true) (live_peers s).

Definition unprobed : PairProbe := mkProbe false 0 None "" None None.
(** What one probe of [local] to [remote] records: a round trip or an error,
    and the address that answered ARP on the probe's interface. *)
Definition record_probe (macs : gmap string string) (remote : string) (mac : option string)
    (r : Result N string) (cell : PairProbe) : PairProbe :=
  let cell := cell <| pp_neighbour_mac := mac |>
    <| pp_direct := (seen ← mac; own ← macs !! remote; Some (bool_decide (seen = own))) |> in
  match r with
  | Ok rtt => cell <| pp_ok := true |> <| pp_rtt_ms := rtt |> <| pp_last_ok_ms := Some (now_ms E) |> <| pp_error := "" |>
  | Err e => cell <| pp_ok := false |> <| pp_error := e |>
  end.
Definition set_cell (f : PairProbe → PairProbe) (local remote : string) (t : ProbeTable) : ProbeTable :=
  let row := default ∅ (t !! local) in
  <[local := <[remote := f (default unprobed (row !! remote))]> row]> t.
Definition probe_result (peer local remote : string) (mac : option string) (r : Result N string) : SM unit :=
  modify_st (λ s, s <| peers ::= alter (λ p,
    p <| pe_probe_pairs ::= set_cell (record_probe (pe_addr_macs p) remote mac r) local remote |>) peer |>).

Definition prune_pairs (locals remotes : list string) (t : ProbeTable) : ProbeTable :=
  (λ row, filter (λ x, x.1 ∈ remotes) row) <$> filter (λ x, x.1 ∈ locals) t.

Definition ambiguous_row (peer_ifaces : gmap string string) (row : gmap string PairProbe) : option (list string) :=
  let ok_ := filter (λ x : string * PairProbe, pp_ok x.2 = true) (bt_iter row) in
  if forallb (λ x : string * PairProbe, bool_decide (pp_direct x.2 = Some true)) ok_ then None
  else
    let reached := ok_.*1 in
    if bool_decide (1 < size (list_to_set ((λ r, default r (peer_ifaces !! r)) <$> reached) : gset string))
    then Some reached else None.
Definition ambiguous_ports (t : ProbeTable) (bind_ifaces peer_ifaces : gmap string string)
    : gmap string (list string) :=
  map_imap (λ local row, match bind_ifaces !! local with
    | Some _ => ambiguous_row peer_ifaces row
    | None => None
    end) t.

(** The end of a round against one peer. *)
Definition finish_round (peer : string) (locals remotes : list string) (bind_ifaces : gmap string string) : SM unit :=
  modify_st (λ s, s <| peers ::= alter (λ p,
    let t := prune_pairs locals remotes (pe_probe_pairs p) in
    p <| pe_probe_pairs := t |> <| pe_ambiguous_ports := dom (ambiguous_ports t bind_ifaces (pe_addr_ifaces p)) |>) peer |>).

(** One round against one peer, when nothing runs between its sections:
    [probe] is what a connection gives and [arp] the neighbour table. *)
Definition probe_peer (peer : string) (locals remotes : list string) (bind_ifaces : gmap string string)
    (probe : string → option string → string → Result N string) (arp : string → string → option string) : SM unit :=
  for_each locals (λ local, for_each remotes (λ remote,
    let iface := bind_ifaces !! local in
    let r := probe local iface remote in
    let mac := match r, iface with Ok _, Some dev => arp remote dev | _, _ => None end in
    probe_result peer local remote mac r)) ;;
  finish_round peer locals remotes bind_ifaces.

(** The answer to a probe: the node must be the one that was meant. *)
Definition probe_reply (debug_msg : Msg.t → string) (peer_id : string) (rtt : N) (reply : option Msg.t) : Result N string :=
  match reply with
  | Some (Msg.ProbeOk proto node) =>
      if bool_decide (node = peer_id) then Ok rtt
      else Err ("node " +:+ node +:+ " answered, expected " +:+ peer_id)
  | Some other => Err ("unexpected probe reply: " +:+ debug_msg other)
  | None => Err "peer closed the connection before answering the probe"
  end.

(** One row of the neighbour table: address, type, flags, MAC, mask, device. *)
Definition arp_row (ip dev line : string) : option string :=
  match split_whitespace line with
  | a :: _ :: flags :: mac :: _ :: d :: _ =>
      if bool_decide (a = ip ∧ d = dev ∧ flags ≠ "0x0") then Some (to_ascii_lowercase mac) else None
  | _ => None
  end.
Definition arp_entry (table ip dev : string) : option string := find_map (arp_row ip dev) (drop 1 (lines table)).
End probes.

(** ** Ambiguous ports *)

Lemma size_two (X : gset string) : 1 < size X ↔ ∃ x y, x ∈ X ∧ y ∈ X ∧ x ≠ y.
Proof.
  split.
  - intros Hs. destruct (set_choose_L X) as [x Hx]; [intros ->; rewrite size_empty in Hs; lia|].
    destruct (set_choose_L (X ∖ {[x]})) as [y Hy].
    { intros He. assert (X ⊆ {[x]}) as Hsub.
      { intros z Hz. destruct (decide (z = x)) as [->|Hne]; [set_solver|]. exfalso.
        apply (not_elem_of_empty (C := gset string) z). rewrite <-He. set_solver. }
      apply subseteq_size in Hsub. rewrite size_singleton in Hsub. lia. }
    exists x, y. set_solver.
  - intros (x & y & Hx & Hy & Hne). assert ({[x; y]} ⊆ X) as Hsub by set_solver.
    apply subseteq_size in Hsub. rewrite size_union, !size_singleton in Hsub by set_solver. lia.
Qed.

(** The interface an address of the peer sits on, its own when unknown. *)
Definition iface_of (peer_ifaces : gmap string string) (remote : string) : string :=
  default remote (peer_ifaces !! remote).
(** A local port is ambiguous exactly when probes leave it on a bound
    interface, some answer did not come from the address's own MAC as far as
    is known, and answers came from addresses on two interfaces of the peer;
    the addresses it reached are then all those that answered. So a wire that
    really reaches two interfaces, each answering for itself, is not. *)
Theorem ambiguous_ports_spec (t : gmap string (gmap string PairProbe)) (bind_ifaces peer_ifaces : gmap string string) (local : string) :
  (is_Some (ambiguous_ports t bind_ifaces peer_ifaces !! local) ↔
     is_Some (bind_ifaces !! local) ∧ ∃ row, t !! local = Some row ∧
       (∃ r c, row !! r = Some c ∧ pp_ok c = true ∧ pp_direct c ≠ Some true) ∧
       (∃ r1 r2 c1 c2, row !! r1 = Some c1 ∧ row !! r2 = Some c2 ∧ pp_ok c1 = true ∧ pp_ok c2 = true ∧
          iface_of peer_ifaces r1 ≠ iface_of peer_ifaces r2)) ∧
  (∀ reached, ambiguous_ports t bind_ifaces peer_ifaces !! local = Some reached →
     ∃ row, t !! local = Some row ∧ ∀ r, r ∈ reached ↔ ∃ c, row !! r = Some c ∧ pp_ok c = true).
Proof.
  unfold ambiguous_ports. rewrite map_lookup_imap. destruct (t !! local) as [row|]; cbn.
  2: { split; [|by intros reached [=]]. split; [by intros [? [=]]|by intros (_ & row & [=] & _)]. }
  destruct (bind_ifaces !! local) as [dev|]; cbn.
  2: { split; [|by intros reached [=]]. split; [by intros [? [=]]|by intros [[] _]]. }
  unfold ambiguous_row. set (oks := filter _ (bt_iter row)).
  assert (∀ r c, (r, c) ∈ oks ↔ row !! r = Some c ∧ pp_ok c = true) as Hoks.
  { intros r c. unfold oks. rewrite list_elem_of_filter, elem_of_bt_iter. cbn. tauto. }
  assert (∀ r, r ∈ oks.*1 ↔ ∃ c, row !! r = Some c ∧ pp_ok c = true) as Hreach.
  { intros r. rewrite list_elem_of_fmap. split.
    - intros ([r' c] & -> & Hin). exists c. by apply Hoks.
    - intros (c & Hc). exists (r, c). split; [done|]. by apply Hoks. }
  destruct (forallb _ oks) eqn:Hall.
  - rewrite forallb_forall in Hall. split; [|by intros reached [=]]. split; [by intros [? [=]]|].
    intros (_ & row' & [= <-] & (r & c & Hr & Hok & Hd) & _). destruct Hd.
    assert ((r, c) ∈ oks) as Hin by by apply Hoks.
    specialize (Hall (r, c) (proj1 (list_elem_of_In _ _) Hin)). by apply bool_decide_eq_true in Hall.
  - assert (∃ r c, row !! r = Some c ∧ pp_ok c = true ∧ pp_direct c ≠ Some true) as Hsome.
    { apply not_true_iff_false in Hall. rewrite forallb_forall in Hall.
      destruct (decide (Forall (λ x : string * PairProbe, pp_direct x.2 = Some true) oks)) as [HF|HF].
      - destruct Hall. intros x Hx. apply bool_decide_eq_true. rewrite list.Forall_forall in HF.
        by apply HF, list_elem_of_In.
      - apply not_Forall_Exists in HF; [|apply _]. apply list.Exists_exists in HF as ([r c] & Hin & Hd).
        apply Hoks in Hin as [Hr Hok]. eauto. }
    assert (1 < size (list_to_set ((λ r, default r (peer_ifaces !! r)) <$> oks.*1) : gset string) ↔
      ∃ r1 r2 c1 c2, row !! r1 = Some c1 ∧ row !! r2 = Some c2 ∧ pp_ok c1 = true ∧ pp_ok c2 = true ∧
          iface_of peer_ifaces r1 ≠ iface_of peer_ifaces r2) as Hsize.
    { rewrite size_two. setoid_rewrite elem_of_list_to_set. setoid_rewrite list_elem_of_fmap. setoid_rewrite Hreach.
      split.
      - intros (x & y & (r1 & -> & c1 & H1 & K1) & (r2 & -> & c2 & H2 & K2) & Hne). by exists r1, r2, c1, c2.
      - intros (r1 & r2 & c1 & c2 & H1 & H2 & K1 & K2 & Hne).
        exists (iface_of peer_ifaces r1), (iface_of peer_ifaces r2). split_and!; [by exists r1; eauto|by exists r2; eauto|done]. }
    case_bool_decide as Hs.
    + split; [|intros reached [= <-]; by exists row]. split; [|eauto]. intros _. split; [eauto|].
      exists row. split_and!; [done|done|by apply Hsize].
    + split; [|by intros reached [=]]. split; [by intros [? [=]]|].
      intros (_ & row' & [= <-] & _ & Hs'). by apply Hsize in Hs'.
Qed.

(** ** What the mesh leaves alone *)

Section mesh_frame.
Context `{HI : HashIter} (E : Env) {B} (f : State → B) (Hquiet : Quiet f).
Context (Hpeers : ∀ s g, f (s <| peers ::= g |>) = f s).

(** Walks a do-block that edits the peers only. *)
Ltac keep_peers := repeat (cbv zeta; lazymatch goal with
  | |- keeps _ (mbind _ _) => apply keeps_bind; [|intros ?]
  | |- keeps _ (match ?x with _ => _ end) => destruct x
  | |- keeps _ (for_each _ _) => apply keeps_for_each; intros ? _
  | |- keeps _ (modify_st _) => apply keeps_modify; intros ?; refine (Hpeers _ (λ _, _))
  | |- keeps _ (emit_patch _ _ _ _) => apply keeps_emit, Hquiet
  | |- keeps _ (get_st _) => apply keeps_get_st
  | |- keeps _ (mret _) => apply keeps_ret
  | |- keeps _ skip => apply keeps_skip
  | |- keeps _ (send_ignore _ _ _ _ _) => apply keeps_send
  | |- keeps _ (shutdown _) => apply keeps_shutdown
  | |- keeps _ notify_all => apply keeps_notify
  end).

Lemma emit_peer_keeps kind i why : keeps f (emit_peer E kind i why).
Proof. unfold emit_peer. keep_peers. Qed.
Lemma register_peer_keeps w p : keeps f (register_peer E w p).
Proof. unfold register_peer, drop_superseded, when. keep_peers; apply emit_peer_keeps. Qed.
Lemma accept_peer_keeps w req lip proto i nip c h addrs tags ifs :
  keeps f (accept_peer E w req lip proto i nip c h addrs tags ifs).
Proof. unfold accept_peer. keep_peers; apply register_peer_keeps. Qed.
Lemma push_subs_keeps ev : keeps f (push_subs E ev).
Proof. intros w. by apply (preserves_push_subs E (λ s, f s = f (st w))). Qed.
Lemma peer_msg_keeps i m : keeps f (peer_msg E i m).
Proof. unfold peer_msg. destruct m; keep_peers; apply push_subs_keeps. Qed.
Lemma peer_lost_keeps w i : keeps f (peer_lost E w i).
Proof. unfold peer_lost. keep_peers; apply emit_peer_keeps. Qed.
Lemma sweep_peers_keeps cut : keeps f (sweep_peers E cut).
Proof. unfold sweep_peers. keep_peers; apply emit_peer_keeps. Qed.
Lemma push_status_keeps : keeps f (push_status E).
Proof. unfold push_status. keep_peers. Qed.
Lemma probe_result_keeps i l r mac x : keeps f (probe_result E i l r mac x).
Proof. unfold probe_result. keep_peers. Qed.
Lemma finish_round_keeps i ls rs b : keeps f (finish_round i ls rs b).
Proof. unfold finish_round. keep_peers. Qed.
End mesh_frame.

Lemma elem_of_live_peers `{HI : HashIter} s p :
  p ∈ live_peers s ↔ ∃ k, peers s !! k = Some p ∧ pe_alive p = true.
Proof. unfold live_peers. rewrite list_elem_of_filter, elem_of_hash_values. naive_solver. Qed.

(** ** Two links to one node *)

Lemma str_le_compare a b : String.compare a b ≠ Gt ↔ String.le a b.
Proof. unfold String.le, String.leb. destruct (String.compare a b); naive_solver. Qed.

Lemma min_str_spec l m : min_str l = Some m ↔ m ∈ l ∧ ∀ x, x ∈ l → String.le m x.
Proof.
  split.
  - intros Hm. split; [by eapply min_by_elem|]. intros x Hx. apply str_le_compare.
    by apply (min_by_least String.compare l).
  - intros [Hin Hle]. destruct (min_str l) as [m'|] eqn:Hm.
    + f_equal. apply (anti_symm String.le).
      * apply str_le_compare. by apply (min_by_least String.compare l).
      * apply Hle. by eapply min_by_elem.
    + apply min_by_None in Hm as ->. set_solver.
Qed.

(** The least id of a list depends on its members only. *)
Lemma min_str_ext l l' : (∀ x, x ∈ l ↔ x ∈ l') → min_str l = min_str l'.
Proof.
  intros Hl. destruct (min_str l) as [m|] eqn:Hm.
  - apply min_str_spec in Hm as [Hin Hle]. symmetry. apply min_str_spec. split; [by apply Hl|].
    intros x Hx. by apply Hle, Hl.
  - apply min_by_None in Hm as ->. symmetry. apply min_by_None. apply elem_of_nil_inv.
    intros x Hx%Hl. set_solver.
Qed.

Section links.
Context `{HI : HashIter} (E : Env).

(** The links to [peer] in the order they arrive, and the dialer of the one
    that is held. *)
Definition arrivals (l : list (Sock * PeerIdent)) : SM unit :=
  for_each l (λ x, register_peer E x.1 x.2 ;; skip).
Definition held_link (s : State) (peer : string) : option (string * Sock) :=
  p ← peers s !! peer;
  if pe_alive p then Some (dialer (node_id s) peer (pe_outbound p), pe_writer p) else None.
Definition link_of (me : string) (x : Sock * PeerIdent) : string * Sock :=
  (dialer me (pi_node_id x.2) (pi_outbound x.2), x.1).

(** The earlier link stays unless the new one's dialer is lower. *)
Definition better (cur : option (string * Sock)) (new : string * Sock) : option (string * Sock) :=
  match cur with
  | Some (d, w) => if decide (String.le d new.1) then Some (d, w) else Some new
  | None => Some new
  end.

Lemma superseded_others s p i : i ∈ superseded_peers s p → i ≠ pi_node_id p.
Proof.
  unfold superseded_peers. intros (q & -> & Hq)%list_elem_of_fmap. apply list_elem_of_filter in Hq. naive_solver.
Qed.

Lemma drop_superseded_keeps p : keeps (λ s, (peers s !! pi_node_id p, node_id s)) (drop_superseded E p).
Proof.
  unfold drop_superseded. apply keeps_bind; [apply keeps_get_st|]. intros s.
  apply keeps_for_each. intros j Hj%superseded_others. apply keeps_bind.
  - apply keeps_modify. intros s'. cbn. by rewrite lookup_delete_ne.
  - intros _. apply keeps_emit. by intros ? ? ->.
Qed.

Lemma emit_peer_quiet {B} (f : State → B) kind i why : Quiet f → keeps f (emit_peer E kind i why).
Proof.
  intros Hq. unfold emit_peer. apply keeps_bind; [apply keeps_get_st|].
  intros s. destruct (peers s !! i); [by apply keeps_emit|apply keeps_skip].
Qed.

(** A link that loses changes nothing, one that wins is the node's entry. *)
Lemma register_peer_entry sk p w :
  (link_loses (st w) p = true → register_peer E sk p w = (false, w)) ∧
  (link_loses (st w) p = false → (register_peer E sk p w).1 = true ∧
     peers (st (register_peer E sk p w).2) !! pi_node_id p =
       Some (peer_of E p sk (peers (st w) !! pi_node_id p))).
Proof.
  unfold register_peer. rewrite bind_run. cbn [get_st gets fst snd id].
  destruct (link_loses (st w) p); (split; [try done|try done]); intros _.
  rewrite bind_run. rewrite (for_each_effects _ (λ old, if pe_alive old then [Shutdown (pe_writer old)] else [])).
  2: { intros x [s o]. unfold when. destruct (pe_alive x); [done|]. unfold skip, mret, M_ret. cbn. by rewrite app_nil_r. }
  cbn [fst snd]. set (w1 := w <| out ::= _ |>). assert (st w1 = st w) as Hw1 by done. clearbody w1.
  rewrite bind_run. pose proof (drop_superseded_keeps p w1) as Hw2. set (w2 := (drop_superseded E p w1).2) in *.
  rewrite Hw1 in Hw2. cbn in Hw2. injection Hw2 as Hw2 _. clearbody w2.
  split; [by rewrite !bind_run|]. rewrite (bind_run (get_st peers)). cbn [get_st gets fst snd]. rewrite Hw2.
  rewrite (bind_run (modify_st _)). cbn [modify_st modify fst snd].
  match goal with |- context [(?k1 ≫= _) ?x] =>
    assert (keeps (λ s, peers s !! pi_node_id p) k1) as Hk; [|rewrite (bind_run k1); specialize (Hk x)] end.
  { destruct (from_option _ _ _); [apply keeps_skip|]. apply emit_peer_quiet. by intros ? ? ->. }
  etrans; [exact Hk|]. cbn. by rewrite lookup_insert_eq.
Qed.

Lemma register_peer_link sk p w :
  held_link (st (register_peer E sk p w).2) (pi_node_id p) =
    better (held_link (st w) (pi_node_id p)) (link_of (node_id (st w)) (sk, p)) ∧
  node_id (st (register_peer E sk p w).2) = node_id (st w).
Proof.
  assert (node_id (st (register_peer E sk p w).2) = node_id (st w)) as Hid.
  { apply register_peer_keeps; [by intros ? ? ->|done]. }
  split; [|done]. destruct (register_peer_entry sk p w) as [Hlose Hwin].
  unfold held_link. destruct (link_loses (st w) p) eqn:Hl.
  - rewrite (Hlose eq_refl). cbn [snd]. unfold link_loses in Hl. unfold link_of. cbn.
    destruct (peers (st w) !! pi_node_id p) as [old|]; [|done]. cbn in *.
    destruct (pe_alive old); [|done]. apply bool_decide_eq_true in Hl. cbn. by rewrite decide_True.
  - destruct (Hwin eq_refl) as [_ ->]. rewrite Hid. cbn. unfold link_of, link_loses in *. cbn.
    destruct (peers (st w) !! pi_node_id p) as [old|]; [|done]. cbn in *.
    destruct (pe_alive old); [|done]. apply bool_decide_eq_false in Hl. cbn. by rewrite decide_False.
Qed.

Lemma arrivals_link peer l w :
  (∀ x, x ∈ l → pi_node_id x.2 = peer) →
  held_link (st (arrivals l w).2) peer = foldl better (held_link (st w) peer) (link_of (node_id (st w)) <$> l) ∧
  node_id (st (arrivals l w).2) = node_id (st w).
Proof.
  revert w. induction l as [|[sk p] l IH]; intros w Hl; [done|].
  unfold arrivals. cbn [for_each fmap list_fmap foldl]. rewrite !bind_run. cbn [fst snd skip mret M_ret].
  destruct (register_peer_link sk p w) as [Hlink Hid].
  set (w1 := (register_peer E sk p w).2) in *. destruct (IH w1) as [IHl IHid]; [set_solver|].
  assert (pi_node_id p = peer) as <- by (apply (Hl (sk, p)); set_solver).
  rewrite Hid in IHl, IHid. by rewrite <-Hlink.
Qed.

Lemma better_min l x :
  foldl better (Some x) l = Some (foldl (λ m y, match String.compare y.1 m.1 with Lt => y | _ => m end) x l).
Proof.
  revert x. induction l as [|y l IH]; intros [d sk]; [done|]. cbn [foldl better fst].
  destruct (decide (String.le d y.1)) as [Hle|Hgt].
  - rewrite IH. apply str_le_compare in Hle. rewrite (cmp_opp d y.1).
    destruct (String.compare d y.1) eqn:Hc; cbn; congruence.
  - rewrite IH. rewrite <-str_le_compare in Hgt. rewrite (cmp_opp d y.1).
    destruct (String.compare d y.1) eqn:Hc; cbn; [destruct Hgt; congruence..|done].
Qed.
End links.

Lemma arrivals_held `{HI : HashIter} (E : Env) peer l w :
  (∀ x, x ∈ l → pi_node_id x.2 = peer) → held_link (st w) peer = None → l ≠ [] →
  ∃ p d, peers (st (arrivals E l w).2) !! peer = Some p ∧ pe_alive p = true ∧
    d = dialer (node_id (st w)) peer (pe_outbound p) ∧
    (d, pe_writer p) ∈ link_of (node_id (st w)) <$> l ∧
    min_str (fst ∘ link_of (node_id (st w)) <$> l) = Some d.
Proof.
  intros Hl Hnone Hne. destruct (arrivals_link E peer l w Hl) as [Hlink Hid]. rewrite Hnone in Hlink.
  set (links := link_of (node_id (st w)) <$> l) in *.
  assert (foldl better None links = min_by (λ x y, String.compare x.1 y.1) links) as Hmin.
  { unfold links. destruct l as [|x l']; [done|]. cbn [fmap list_fmap foldl better]. apply better_min. }
  rewrite Hmin in Hlink. unfold held_link in Hlink. rewrite Hid in Hlink.
  destruct (peers _ !! peer) as [p|] eqn:Hp; cbn in Hlink.
  2: { symmetry in Hlink. apply min_by_None in Hlink. unfold links in Hlink. by destruct l. }
  destruct (pe_alive p) eqn:Hal.
  2: { symmetry in Hlink. apply min_by_None in Hlink. unfold links in Hlink. by destruct l. }
  symmetry in Hlink. exists p, (dialer (node_id (st w)) peer (pe_outbound p)). split_and!; [done..| |].
  - by apply (min_by_elem _ _ _ Hlink).
  - apply min_str_spec. rewrite list_fmap_compose. fold links. split.
    + apply list_elem_of_fmap. eexists. split; [|by apply (min_by_elem _ _ _ Hlink)]. done.
    + intros x (y & -> & Hy)%list_elem_of_fmap. apply str_le_compare.
      pose proof (key_cmp_ok (fst : string * Sock → string) String.compare).
      by apply (min_by_least (λ x y : string * Sock, String.compare x.1 y.1) links _ y) in Hlink.
Qed.

(** C29: two daemons that dial each other settle on one link without talking
    about it. Each registers the links between them in whatever order it sees
    them; if every end that dialed shows up on both sides, both keep a link
    dialed by the same end, the one with the lower node id of those that
    dialed, and each knows it by the socket it arrived on. *)
Theorem tie_break_agrees (HA HB : HashIter) (EA EB : Env) (wA wB : World) (la lb : list (Sock * PeerIdent))
    (a := node_id (st wA)) (b := node_id (st wB)) (Hne : a ≠ b)
    (Hla : ∀ x, x ∈ la → pi_node_id x.2 = b) (Hlb : ∀ x, x ∈ lb → pi_node_id x.2 = a)
    (HnA : held_link (st wA) b = None) (HnB : held_link (st wB) a = None) (Hsome : la ≠ [])
    (Hsame : ∀ d, d ∈ fst ∘ link_of a <$> la ↔ d ∈ fst ∘ link_of b <$> lb) :
  ∃ pa pb d, peers (st (arrivals EA la wA).2) !! b = Some pa ∧ peers (st (arrivals EB lb wB).2) !! a = Some pb ∧
    pe_alive pa = true ∧ pe_alive pb = true ∧ pe_outbound pb = negb (pe_outbound pa) ∧
    min_str (fst ∘ link_of a <$> la) = Some d ∧ d = (if pe_outbound pa then a else b) ∧
    (d, pe_writer pa) ∈ link_of a <$> la ∧ (d, pe_writer pb) ∈ link_of b <$> lb.
Proof.
  destruct (arrivals_held EA b la wA Hla HnA Hsome) as (pa & d & Hpa & Haa & Hd & Hwa & Hma). fold a in Hma, Hwa, Hd.
  assert (lb ≠ []) as HsomeB.
  { intros ->. destruct la as [|x la']; [done|]. apply (not_elem_of_nil (link_of a x).1), Hsame. cbn. left. }
  destruct (arrivals_held EB a lb wB Hlb HnB HsomeB) as (pb & d' & Hpb & Hab & Hd' & Hwb & Hmb). fold b in Hmb, Hwb, Hd'.
  assert (d' = d) as -> by (rewrite (min_str_ext _ _ Hsame), Hmb in Hma; by injection Hma).
  exists pa, pb, d. split_and!; try done. unfold dialer in *.
  destruct (pe_outbound pa), (pe_outbound pb); cbn; congruence.
Qed.

(** ** Instances

    Two daemons, [n1] and [n2], that dial each other. *)

Definition demo_node (me : string) : World := mkWorld ((state_new "10.0.0.1" "h" "10.0.0.1:6379" "b") <| node_id := me |>) [].
Definition demo_ident (peer : string) (out : bool) : PeerIdent :=
  mkIdent peer out "10.0.0.2" "10.0.0.2" ["10.0.0.2"] ∅ ∅ 6379 80.

Lemma tie_break_agrees_witness :
  ∃ pa pb d, peers (st (@arrivals in_key_order demo_env [(1%N, demo_ident "n2" false); (2%N, demo_ident "n2" true)] (demo_node "n1")).2) !! "n2" = Some pa ∧
    peers (st (@arrivals in_key_order demo_env [(3%N, demo_ident "n1" false); (4%N, demo_ident "n1" true)] (demo_node "n2")).2) !! "n1" = Some pb ∧
    pe_alive pa = true ∧ pe_alive pb = true ∧ pe_outbound pb = negb (pe_outbound pa) ∧
    min_str ["n2"; "n1"] = Some d ∧ d = (if pe_outbound pa then "n1" else "n2") ∧
    (d, pe_writer pa) ∈ [("n2", 1%N); ("n1", 2%N)] ∧ (d, pe_writer pb) ∈ [("n1", 3%N); ("n2", 4%N)].
Proof.
  refine (tie_break_agrees in_key_order in_key_order demo_env demo_env (demo_node "n1") (demo_node "n2")
    [(1%N, demo_ident "n2" false); (2%N, demo_ident "n2" true)]
    [(3%N, demo_ident "n1" false); (4%N, demo_ident "n1" true)] _ _ _ _ _ _ _).
  - discriminate.
  - intros x [->|[->|[]%not_elem_of_nil]%elem_of_cons]%elem_of_cons; reflexivity.
  - intros x [->|[->|[]%not_elem_of_nil]%elem_of_cons]%elem_of_cons; reflexivity.
  - vm_compute. reflexivity.
  - vm_compute. reflexivity.
  - discriminate.
  - intros d. change (d ∈ ["n2"; "n1"] ↔ d ∈ ["n1"; "n2"]). rewrite !elem_of_cons. tauto.
Defined.

(** Two links dialed by one end are told apart by neither id: each side keeps
    the first it registers and refuses the other, and if they register them in
    opposite orders the two sides hold different links. *)
Example double_dial :
  let a := (@arrivals in_key_order demo_env [(1%N, demo_ident "n2" true); (2%N, demo_ident "n2" true)] (demo_node "n1")).2 in
  let b := (@arrivals in_key_order demo_env [(12%N, demo_ident "n1" false); (11%N, demo_ident "n1" false)] (demo_node "n2")).2 in
  held_link (st a) "n2" = Some ("n1", 1%N) ∧ held_link (st b) "n1" = Some ("n1", 12%N).
Proof. split; vm_compute; reflexivity. Qed.

Definition demo_status (h : string) : Value := Obj [("head_node_id", Str h)].
Definition demo_peer (i h : string) : PeerInfo :=
  mkPeer i true "10.0.0.2" "10.0.0.2" [] ∅ ∅ ∅ ∅ ∅ 6379 80 1 true 0 None false (demo_status h).
