(* ===== verification/Links.v ===== *)
(** * Connections on their way (rust/mentatd/src/daemon.rs)

    What happens to a connection outside any lock: the relay that hands a
    client or an agent on to the head, and the keepalive a wedged peer is found
    by. *)

From S2P Require Import Prelude Text Json Proto Addr State Placement Head Mesh.
Import Framing.

(** ** The relay *)

(** [io::copy]: to the end of the stream, or its failure. *)
Fixpoint copied (evs : list ReadEvent) : bytes :=
  match evs with
  | Data [] :: _ | Failed _ :: _ | [] => []
  | Data bs :: evs => bs ++ copied evs
  | Interrupted :: evs => copied evs
  end.

(** One direction of the pipe. It ends with its own stream, or before that when a
    write fails or when the other direction has ended, which shuts down both
    halves of the socket it wrote to, this direction's source: then after some
    number of bytes. *)
Definition piped (cut : option nat) (evs : list ReadEvent) : bytes :=
  match cut with None => copied evs | Some n => take n (copied evs) end.

Inductive RelayOut :=
| RelayFailed
| RelayCut
| Relayed (up : string) (to_head to_client : bytes).

Section relay.
Context (to_vec : Frame → bytes).

(** [connects]: which address of the head takes the connection; [writes]: the
    first frame's and the buffer's; [cloned]: the sockets' second handles.
    [buffered] is what the reader had read ahead, [down] and [up] what the two
    sockets give from then on, [cuts] where the two directions were cut
    short. *)
Definition relay (connects : string → bool) (writes : bool * bool) (cloned : bool) (cuts : option nat * option nat)
    (head : list string) (first : Frame * bytes) (buffered : bytes) (down up : list ReadEvent) : SM RelayOut :=
  match find_first connects head with
  | None => mret RelayFailed
  | Some h =>
      if negb (writes.1 && writes.2) then mret RelayCut
      else
        bump (λ f c, c <| relayed ::= f |>) ;;
        mret (if cloned then Relayed h (write_frame to_vec first.1 first.2 ++ buffered ++ piped cuts.1 down) (piped cuts.2 up)
              else RelayCut)
  end.
End relay.

(** ** Keepalive *)

(** [as libc::c_int] *)
Definition as_c_int (n : Z) : Z := ((n + 2 ^ 31) `mod` 2 ^ 32 - 2 ^ 31)%Z.
(** Idle time, interval and count of [set_keepalive]. *)
Definition keepalive (tcp_dead_after_ms : N) : Z * Z * Z :=
  let total_s := as_c_int (Z.of_N (N.max (tcp_dead_after_ms / 1000) 5)) in
  let cnt := 3%Z in
  let intvl := Z.max (Z.quot total_s 5) 1 in
  let idle := Z.max (total_s - cnt * intvl) 1 in
  (idle, intvl, cnt).

(** ** Theorems *)

Lemma copied_healthy evs : Forall healthy evs → copied evs = delivered evs.
Proof.
  induction 1 as [|ev evs Hev Hevs IH]; [done|]. destruct ev as [[|b bs]| |]; try done. cbn [copied delivered]. by rewrite IH.
Qed.

Lemma piped_prefix cut evs : Forall healthy evs →
  piped cut evs `prefix_of` delivered evs ∧ (cut = None → piped cut evs = delivered evs).
Proof.
  intros Hevs. destruct cut as [n|]; cbn [piped]; rewrite copied_healthy by done; [|done].
  split; [|done]. exists (drop n (delivered evs)). by rewrite take_drop.
Qed.

(** Idle time and the three intervals are the whole of what was asked, from five
    seconds up, and each is at least a second. *)
Lemma keepalive_sum ms : (ms < 1000 * 2 ^ 31)%N →
  let '(idle, intvl, cnt) := keepalive ms in
  (idle + cnt * intvl = Z.max (Z.of_N ms / 1000) 5 ∧ 1 ≤ intvl ∧ 1 ≤ idle)%Z.
Proof.
  intros Hms. unfold keepalive, as_c_int.
  assert (ms / 1000 < 2 ^ 31)%N as Hs by (apply N.Div0.div_lt_upper_bound; lia).
  assert (Z.of_N (N.max (ms / 1000) 5) = Z.max (Z.of_N ms / 1000) 5) as Hmax
    by (rewrite N2Z.inj_max, N2Z.inj_div; done).
  rewrite Hmax. assert (Z.max (Z.of_N ms / 1000) 5 < 2 ^ 31)%Z as Hlt.
  { rewrite <-Hmax. change (2 ^ 31)%Z with (Z.of_N (2 ^ 31)%N). apply N2Z.inj_lt. lia. }
  set (t := Z.max (Z.of_N ms / 1000) 5) in *. assert (5 ≤ t)%Z as H5 by lia.
  rewrite Z.mod_small by lia. replace (t + 2 ^ 31 - 2 ^ 31)%Z with t by lia.
  rewrite Z.quot_div_nonneg by lia. pose proof (Z.div_mod t 5 ltac:(lia)). pose proof (Z.mod_pos_bound t 5 ltac:(lia)). lia.
Qed.

Section handover.
Context `{HI : HashIter} (E : Env) (to_vec : Frame → bytes) (from_slice : bytes → option Frame)
  (value_from_slice : bytes → option Value) (debug_msg : Msg.t → string).

(** C15: A connection that is relayed is the head's own: what the head reads is
    the client's first frame, with this box's address where a client of this box
    gave none, and then what the client sent after it, from the first byte on
    and nothing else, wherever the reader stopped reading ahead and however
    either side cuts the bytes up; what the head answers comes back as it is,
    and the books of the daemon between them change by one relay counted. Every
    byte arrives unless a direction was cut short, by a failed write or by the
    end of the other; then a start of them does. *)
Theorem relay_hands_over w peer_ip expired addrs (f : Frame) first p rest reads (buffered : bytes)
    (down up at_head : list ReadEvent) connects cuts h (f' := f <| fr_msg := first |>) :
  fits to_vec f p → Msg.is_unknown (fr_msg f) = false → from_slice (to_vec f) = Some f →
  Forall healthy reads → delivered reads = write_frame to_vec f p ++ rest →
  conn_entry E debug_msg (st w) peer_ip expired (fr_msg f) = Relay addrs first → find_first connects addrs = Some h →
  rest = buffered ++ delivered down → Forall healthy down → Forall healthy up →
  fits to_vec f' p → from_slice (to_vec f') = Some f' → Forall healthy at_head →
  (∃ r0, read_frame from_slice value_from_slice reads = Ok (Some (f, p, r0)) ∧ delivered r0 = rest) ∧
  ∃ to_head to_client passed,
    relay to_vec connects (true, true) true cuts addrs (f', p) buffered down up w =
      (Relayed h to_head to_client, w <| st ::= (λ s, s <| counters ::= (λ c, c <| relayed ::= u64_succ |>) |>) |>) ∧
    to_client `prefix_of` delivered up ∧ (cuts.2 = None → to_client = delivered up) ∧
    passed `prefix_of` rest ∧ (cuts.1 = None → passed = rest) ∧
    (delivered at_head = to_head →
     ∃ r, read_frame from_slice value_from_slice at_head = Ok (Some (f', p, r)) ∧ Forall healthy r ∧ delivered r = passed).
Proof.
  intros Hfits Hu Henc Hreads Hd Hentry Hh Hrest Hdown Hup Hfits' Henc' Hat. split.
  { destruct (read_write_frame to_vec from_slice value_from_slice f p rest reads Hfits Hu Henc Hreads Hd) as (r0 & ? & _ & ?).
    by exists r0. }
  unfold relay. rewrite Hh. cbn [fst snd andb negb]. eexists _, _, (buffered ++ piped cuts.1 down).
  split; [reflexivity|]. cbn [fst snd]. destruct (piped_prefix cuts.1 down Hdown) as [Hp1 Hf1], (piped_prefix cuts.2 up Hup) as [Hp2 Hf2].
  split_and!; [done|done|rewrite Hrest; by apply list.prefix_app|intros Hc; by rewrite (Hf1 Hc)|]. intros Hto.
  apply (read_write_frame to_vec from_slice value_from_slice f' p (buffered ++ piped cuts.1 down) at_head); try done.
  subst f'. cbn. unfold conn_entry in Hentry.
  destruct (fr_msg f); try done; destruct (head_for (st w) expired) as [[| |]|]; try done; injection Hentry as _ <-; by case_match.
Qed.
End handover.

(** ** Instances *)

Definition demo_follower : World :=
  mkWorld ((state_new "10.0.0.1" "h" "10.0.0.1:6379" "b") <| head_node_id := "n2" |>
             <| peers := {[ "n2" := demo_peer "n2" "n2" ]} |>) [].
Definition demo_local_hello (ip : string) : Frame := frame_new 1 (Msg.Hello "0.99" "c1" "g" false "cli" ip).
Definition demo_link_vec (f : Frame) : bytes :=
  match fr_msg f with Msg.Hello _ _ _ _ _ "" => [x01] | _ => [x02] end.
Definition demo_link_slice (b : bytes) : option Frame :=
  if decide (b = [x01]) then Some (demo_local_hello "")
  else if decide (b = [x02]) then Some (demo_local_hello "10.0.0.1") else None.

Lemma relay_hands_over_witness :
  (∃ r0, read_frame demo_link_slice (λ _, None)
      [Data (write_frame demo_link_vec (demo_local_hello "") []); Interrupted; Data [x61; x62; x63]] =
      Ok (Some (demo_local_hello "", [], r0)) ∧ delivered r0 = [x61; x62; x63]) ∧
  ∃ to_head to_client passed,
    relay demo_link_vec (λ _, true) (true, true) true (None, Some 1) ["10.0.0.2:6379"] (demo_local_hello "10.0.0.1", []) [x61]
      [Data [x62]; Interrupted; Data [x63]] [Data [x7a; x7b]] demo_follower =
      (Relayed "10.0.0.2:6379" to_head to_client,
       demo_follower <| st ::= (λ s, s <| counters ::= (λ c, c <| relayed ::= u64_succ |>) |>) |>) ∧
    to_client `prefix_of` [x7a; x7b] ∧ (Some 1 = None → to_client = [x7a; x7b]) ∧
    passed `prefix_of` [x61; x62; x63] ∧ (@None nat = None → passed = [x61; x62; x63]) ∧
    (delivered [Data (write_frame demo_link_vec (demo_local_hello "10.0.0.1") [] ++ [x61; x62; x63])] = to_head →
     ∃ r, read_frame demo_link_slice (λ _, None)
            [Data (write_frame demo_link_vec (demo_local_hello "10.0.0.1") [] ++ [x61; x62; x63])] =
          Ok (Some (demo_local_hello "10.0.0.1", [], r)) ∧ Forall healthy r ∧ delivered r = passed).
Proof.
  apply (relay_hands_over demo_env demo_link_vec demo_link_slice (λ _, None) (λ _, "") demo_follower "127.0.0.1" false
    ["10.0.0.2:6379"] (demo_local_hello "") (fr_msg (demo_local_hello "10.0.0.1")) [] [x61; x62; x63]).
  - split; by vm_compute.
  - reflexivity.
  - reflexivity.
  - repeat constructor.
  - by vm_compute.
  - by vm_compute.
  - reflexivity.
  - reflexivity.
  - repeat constructor.
  - repeat constructor.
  - split; by vm_compute.
  - by vm_compute.
  - repeat constructor.
Defined.
