(* ===== verification/TestNet.v ===== *)
(** * The pretend network of the tests (testnet.rs of both crates)

    MENTAT_TEST_NET names a JSON file that gives every pretend address a real
    one, cuts cables and takes addresses down. It is re-read at each use, so a
    load is an argument of what uses it: the daemon's dials, probes, relays,
    sweeps and announcements, and the router's dials. *)

From S2P Require Import Prelude Text Json State Mesh.

Record TestNet := mkNet {
  addrs : gmap string string; cut : gset (string * string); down : gset string;
  announces : gmap string string }.

(** ** The daemon's half *)

(** A string at each key whose value is one. *)
Definition parse (v : Value) : TestNet :=
  mkNet (str_map (entries (index "addrs" v)))
    (list_to_set (omap (λ p, match str_list p with [a; b] => Some (a, b) | _ => None end) (items (index "cut" v))))
    (list_to_set (str_list (index "down" v)))
    (str_map (entries (index "announce" v))).

(** The JSON of the named file: [var] is MENTAT_TEST_NET, [read] the file
    system, [from_str] the parser. *)
Definition load_file (var : option string) (read : string → option string) (from_str : string → option Value) : option Value :=
  path ← var; if str_empty (trim path) then None else text ← read path; from_str text.
Definition load (var : option string) (read : string → option string) (from_str : string → option Value) : option TestNet :=
  parse <$> load_file var read from_str.

Section net.
Context (net : TestNet).

Definition real (host : string) : option string := addrs net !! host.

Definition reachable (local remote : string) : bool :=
  negb (bool_decide (remote ∈ down net)) && negb (bool_decide (local ∈ down net)) &&
  negb (bool_decide ((local, remote) ∈ cut net)) && negb (bool_decide ((remote, local) ∈ cut net)).

(** The local on the remote's /24, else the first. *)
Definition net_of (a : string) : option string := fst <$> rsplit_once "." a.
Definition link_local (locals : list string) (remote : string) : option string :=
  match find_first (λ l, bool_decide (net_of l = net_of remote)) locals with Some l => Some l | None => head locals end.

Definition link_up (locals : list string) (remote : string) : bool :=
  match link_local locals remote with Some l => reachable l remote | None => negb (bool_decide (remote ∈ down net)) end.

(** The override of the node this process is, when its ip is set. *)
Definition announce (node_ip : option string) : option string := ip ← node_ip; announces net !! ip.
End net.

(** *** Where it is asked *)

Definition host_of (addr : string) : string := match rsplit_once ":" addr with Some (h, _) => h | None => addr end.

(** [try_connect]: what is dialed for an address, or why nothing is. *)
Definition dial_target (net : option TestNet) (locals : list string) (seed : string) : Result string string :=
  match net with
  | None => Ok seed
  | Some n =>
      let host := host_of seed in
      if link_up n locals host then Ok (default seed (real n host))
      else Err (host +:+ " is cut (MENTAT_TEST_NET)")
  end.

(** [probe_pair] under a pretend network: no source address is bound. *)
Definition probe_target (n : TestNet) (local remote : string) (port : N) : Result string string :=
  if reachable n local remote then Ok (default (remote +:+ ":" +:+ pretty port) (real n remote))
  else Err (local +:+ " -> " +:+ remote +:+ " is cut (MENTAT_TEST_NET)").

(** [relay_to_head]: what is dialed for an address of the head. *)
Definition relay_target (net : option TestNet) (h : string) : string :=
  default h (n ← net; real n (host_of h)).

(** The links the sweeper closes: those this daemon dialed over a cable that
    is cut. *)
Definition cut_links `{HashIter} (net : option TestNet) (locals : list string) (s : State) : list string :=
  match net with
  | None => []
  | Some n => pe_node_id <$> filter (λ p, pe_alive p && pe_outbound p && negb (link_up n locals (pe_link_ip p)) = true)
                               (hash_values (peers s))
  end.

(** The spec [announced_override] reads. *)
Definition announce_raw (net : option TestNet) (node_ip var : option string) : string :=
  default (default "" var) (n ← net; announce n node_ip).

(** ** The router's half *)

Definition router_load (var : option string) (read : string → option string) (from_str : string → option Value)
    : option (gmap string string * list string) :=
  v ← load_file var read from_str; m ← as_object (index "addrs" v); Some (str_map m, str_list (index "down" v)).

(** The address dialed for [addr]: the host swapped, the port kept, and a port
    nothing listens on for a host that is down. *)
Definition mapped (net : option (gmap string string * list string)) (addr : string) : string :=
  match net with
  | None => addr
  | Some (map, down) =>
      match rsplit_once ":" addr with
      | None => addr
      | Some (host, port) =>
          if bool_decide (host ∈ down) then "127.0.0.1:1"
          else match map !! host with Some r => host_of r +:+ ":" +:+ port | None => addr end
      end
  end.

(** ** Theorems *)

Definition is_ok {A E} (r : Result A E) : bool := match r with Ok _ => true | Err _ => false end.

Lemma reachable_comm n a b : reachable n a b = reachable n b a.
Proof. unfold reachable. by destruct (bool_decide (a ∈ _)), (bool_decide (b ∈ _)), (bool_decide ((a, b) ∈ _)), (bool_decide ((b, a) ∈ _)). Qed.

Lemma reachable_iff n a b : reachable n a b = true ↔
  (a ∉ down n) ∧ (b ∉ down n) ∧ ((a, b) ∉ cut n) ∧ ((b, a) ∉ cut n).
Proof. unfold reachable. rewrite !andb_true_iff, !negb_true_iff, !bool_decide_eq_false. tauto. Qed.

(** What a node answers, either way: two probes over one pair of addresses agree. *)
Lemma probes_agree n a b p q : is_ok (probe_target n a b p) = is_ok (probe_target n b a q).
Proof. unfold probe_target. rewrite (reachable_comm n a b). by destruct (reachable n b a). Qed.

Lemma host_of_pretty h (p : N) : host_of (h +:+ ":" +:+ pretty p) = h.
Proof. unfold host_of. by rewrite rsplit_once_pretty. Qed.

(** Without the file every hook is a no-op. *)
Theorem testnet_unset `{HashIter} read from_str locals seed h s node_ip var addr : let net := load None read from_str in
  dial_target net locals seed = Ok seed ∧ relay_target net h = h ∧ cut_links net locals s = [] ∧
  announce_raw net node_ip var = default "" var ∧ mapped (router_load None read from_str) addr = addr.
Proof. done. Qed.

(** Under a pretend network a daemon has just the links its cables allow:
    the sweeper closes exactly the live links this daemon dialed that it would
    not be let dial now, whatever the port, and what one end of a pair of
    addresses cannot probe the other cannot either. *)
Theorem swept_iff_undialable `{HashIter} n locals s i :
  (i ∈ cut_links (Some n) locals s ↔
   ∃ k p, peers s !! k = Some p ∧ pe_node_id p = i ∧ pe_alive p = true ∧ pe_outbound p = true ∧
     ∀ port : N, is_ok (dial_target (Some n) locals (pe_link_ip p +:+ ":" +:+ pretty port)) = false) ∧
  (∀ a b pa pb, is_ok (probe_target n a b pa) = is_ok (probe_target n b a pb)).
Proof.
  split; [|apply probes_agree]. unfold cut_links. rewrite list_elem_of_fmap.
  assert (∀ p (port : N), is_ok (dial_target (Some n) locals (pe_link_ip p +:+ ":" +:+ pretty port)) = link_up n locals (pe_link_ip p)) as Hd.
  { intros p port. unfold dial_target. rewrite host_of_pretty. by destruct (link_up _ _ _). }
  split.
  - intros (p & -> & [Hp (k & Hk)%elem_of_hash_values]%list_elem_of_filter).
    rewrite !andb_true_iff, negb_true_iff in Hp. destruct Hp as [[Ha Ho] Hl].
    exists k, p. split_and!; [done..|]. intros port. by rewrite Hd.
  - intros (k & p & Hk & <- & Ha & Ho & Hp). exists p. split; [done|]. apply list_elem_of_filter. split.
    + by rewrite Ha, Ho, <-(Hd p 0%N), Hp.
    + apply elem_of_hash_values. by exists k.
Qed.

(** The router dials the port it was given, at the host's real address if it
    has one; only a host that is down is sent elsewhere. *)
Theorem mapped_spec map down h (port : N) :
  mapped (Some (map, down)) (h +:+ ":" +:+ pretty port) =
    if bool_decide (h ∈ down) then "127.0.0.1:1"
    else from_option host_of h (map !! h) +:+ ":" +:+ pretty port.
Proof.
  unfold mapped. rewrite rsplit_once_pretty. case_bool_decide; [done|]. by destruct (map !! h).
Qed.

(** ** Examples *)

Definition demo_net : TestNet := parse (obj_of
  [("cut", Arr [Jstrs ["10.0.0.1"; "10.0.0.2"]; Jstrs ["10.0.0.5"]]); ("down", Jstrs ["10.0.0.9"])]).

Example a_cut_is_symmetric_and_down_covers_every_pair :
  reachable demo_net "10.0.0.1" "10.0.0.2" = false ∧ reachable demo_net "10.0.0.2" "10.0.0.1" = false ∧
  reachable demo_net "10.0.0.1" "10.0.0.3" = true ∧
  reachable demo_net "10.0.0.1" "10.0.0.9" = false ∧ reachable demo_net "10.0.0.9" "10.0.0.1" = false.
Proof. by vm_compute. Qed.

Example a_link_rides_the_local_on_the_remotes_subnet :
  let n := parse (obj_of [("cut", Arr [Jstrs ["10.100.0.1"; "10.100.0.2"]])]) in
  let locals := ["192.168.1.70"; "10.100.0.1"] in
  link_local locals "10.100.0.2" = Some "10.100.0.1" ∧
  link_up n locals "10.100.0.2" = false ∧ link_up n locals "192.168.1.77" = true.
Proof. by vm_compute. Qed.

(** A file without [addrs]: the daemon honours its [down], the router nothing
    of it. *)
Example router_needs_addrs :
  let v := obj_of [("down", Jstrs ["10.0.0.9"])] in
  let read := λ _ : string, Some "" in
  dial_target (load (Some "f") read (λ _, Some v)) [] "10.0.0.9:1" = Err "10.0.0.9 is cut (MENTAT_TEST_NET)" ∧
  mapped (router_load (Some "f") read (λ _, Some v)) "10.0.0.9:1" = "10.0.0.9:1".
Proof. by vm_compute. Qed.
