(* ===== verification/Dial.v ===== *)
(** * Connections being opened (mesh.rs, agent.rs)

    A probe's connection is made by hand: its source address and interface are
    pinned, and a connect under way is polled. An actor's host is waited for
    until a deadline and must speak this major. What each system call gives is
    an argument; the polling and accepting loops run over a list of answers and
    have no result when it is too short. *)

From S2P Require Import Prelude Text Json Proto Addr State Placement Head Mesh TestNet.
Import Framing.

(** ** The probe's connection *)

Definition is_ipv4 (s : string) : bool := bool_decide (is_Some (all_read (read_ipv4 s))).

(** One [poll] of the connecting socket. *)
Inductive Polled := PollSilent | PollInterrupted | PollFailed (e : string) | PollReady.

(** What the calls give: an error where one is named, [None] when the call did
    its work. [sy_connect] is [Ok] for a connection made at once and [Err None]
    for one under way; [sy_error] is SO_ERROR's reading. *)
Record Sys := mkSys {
  sy_socket : option string; sy_bind_iface : option string; sy_bind : option string; sy_nonblocking : option string;
  sy_connect : Result unit (option string); sy_polls : list Polled;
  sy_error : Result (option string) string; sy_blocking : option string }.

Definition or_fail (e : option string) (k : option (Result unit string)) : option (Result unit string) :=
  match e with Some e => Some (Err e) | None => k end.

(** An interrupted poll is repeated, with the whole timeout again. *)
Fixpoint poll_connect (timeout : N) (polls : list Polled) : option (Result unit string) :=
  match polls with
  | [] => None
  | PollSilent :: _ => Some (Err ("connect timed out after " +:+ pretty timeout +:+ " ms"))
  | PollInterrupted :: polls => poll_connect timeout polls
  | PollFailed e :: _ => Some (Err e)
  | PollReady :: _ => Some (Ok tt)
  end.

(** [connect_from]; a refused interface is logged once for each and changes
    nothing else. *)
Definition connect_from (y : Sys) (local remote : string) (timeout : N) : option (Result unit string) :=
  let bad := λ what, Some (Err (what +:+ " is not an IPv4 address")) in
  if negb (is_ipv4 local) then bad local
  else if negb (is_ipv4 remote) then bad remote
  else
    or_fail (sy_socket y) (or_fail (sy_bind y) (or_fail (sy_nonblocking y)
      (let finish := or_fail (sy_blocking y) (Some (Ok tt)) in
       match sy_connect y with
       | Ok _ => finish
       | Err (Some e) => Some (Err e)
       | Err None =>
           match poll_connect timeout (sy_polls y) with
           | None => None
           | Some (Err e) => Some (Err e)
           | Some (Ok _) =>
               match sy_error y with Err e => Some (Err e) | Ok e => or_fail e finish end
           end
       end))).

(** [bind_iface]: the interfaces already reported as refused, with the report. *)
Definition bind_iface (name : string) (refused : option string) (reported : gset string)
    : gset string * option (string * string) :=
  match refused with
  | Some e => if bool_decide (name ∈ reported) then (reported, None) else ({[name]} ∪ reported, Some (name, e))
  | None => (reported, None)
  end.

(** ** One probe *)

Section probe.
(** [{other:?}] of a message and [{e}] of a read's error, and serde_json. *)
Context (debug_msg : Msg.t → string) (io_text : IoError → string) (from_slice : bytes → option Frame) (value_from_slice : bytes → option Value).

(** [probe_pair]: under a pretend network [dial] is what the target's name and
    connection give, otherwise the socket is made by hand. [setup] is the first
    of the timeouts, the second handle and the write that failed; [reads] is what
    the socket gives and [elapsed] the time from the start to the answer. *)
Definition probe_pair (net : option TestNet) (dial : string → Result unit string) (y : Sys) (setup : option string)
    (reads : list ReadEvent) (peer_id local remote : string) (port timeout elapsed : N) : option (Result N string) :=
  let stream :=
    match net with
    | Some n => Some (match probe_target n local remote port with Err e => Err e | Ok target => dial target end)
    | None => connect_from y local remote timeout
    end in
  match stream with
  | None => None
  | Some (Err e) => Some (Err e)
  | Some (Ok _) =>
      match setup with
      | Some e => Some (Err e)
      | None =>
          Some match read_frame from_slice value_from_slice reads with
          | Err e => Err (io_text e)
          | Ok None => probe_reply debug_msg peer_id elapsed None
          | Ok (Some (f, _, _)) => probe_reply debug_msg peer_id elapsed (Some (fr_msg f))
          end
      end
  end.
End probe.

(** ** The actor's host *)

(** What one [accept] gives, and the time at which a pending one is looked at. *)
Inductive Accepted := Came (blocking : bool) | WouldBlock (now : N) | AcceptFailed.

(** [accept_with_timeout]: whether a host came. *)
Fixpoint accept_until (deadline : N) (as_ : list Accepted) : option bool :=
  match as_ with
  | [] => None
  | Came ok :: _ => Some ok
  | WouldBlock now :: as_ => if bool_decide (deadline < now)%N then Some false else accept_until deadline as_
  | AcceptFailed :: _ => Some false
  end.
Definition accept_with_timeout (nonblocking : bool) (now timeout : N) (as_ : list Accepted) : option bool :=
  if nonblocking then accept_until (now + timeout) as_ else Some false.

(** The socket of an actor's host. *)
Definition sock_path (sock_dir actor_id : string) : string :=
  sock_dir +:+ "/a-" +:+ String.substring 0 12 actor_id +:+ ".sock".

Inductive HostStart :=
| NoConnect        (** its process group is killed *)
| NoHandle
| OtherMajor (proto : string)
| BadHello
| NoCtor
| Started (ctor : Msg.t) (payload : bytes) (rest : list ReadEvent).

(** [spawn_actor] from the wait for the host to the constructor it is sent. *)
Definition host_start (from_slice : bytes → option Frame) (value_from_slice : bytes → option Value)
    (came cloned sent : bool) (reads : list ReadEvent) (payload : bytes) : HostStart :=
  if negb came then NoConnect
  else if negb cloned then NoHandle
  else match read_frame from_slice value_from_slice reads with
  | Ok (Some (f, _, rest)) =>
      match fr_msg f with
      | Msg.HostHello proto =>
          if Version.major_matches proto
          then if sent then Started (Msg.Ctor Version.PROTO) payload rest else NoCtor
          else OtherMajor proto
      | _ => BadHello
      end
  | _ => BadHello
  end.

(** ** Theorems *)

Lemma poll_connect_ready timeout polls : poll_connect timeout polls = Some (Ok tt) ↔
  ∃ n rest, polls = replicate n PollInterrupted ++ PollReady :: rest.
Proof.
  split.
  - induction polls as [|p polls IH]; [done|]. destruct p; cbn [poll_connect]; try done.
    + intros (n & rest & ->)%IH. by exists (S n), rest.
    + intros _. by exists 0, polls.
  - intros (n & rest & ->). by induction n.
Qed.

Lemma connect_from_ok y local remote timeout : connect_from y local remote timeout = Some (Ok tt) ↔
  is_ipv4 local = true ∧ is_ipv4 remote = true ∧ sy_socket y = None ∧ sy_bind y = None ∧ sy_nonblocking y = None ∧
  sy_blocking y = None ∧
  (sy_connect y = Ok tt ∨
   sy_connect y = Err None ∧ sy_error y = Ok None ∧
   ∃ n rest, sy_polls y = replicate n PollInterrupted ++ PollReady :: rest).
Proof.
  rewrite <-(poll_connect_ready timeout). unfold connect_from, or_fail.
  destruct (is_ipv4 local), (is_ipv4 remote); cbn [negb]; try (by naive_solver).
  destruct (sy_socket y), (sy_bind y), (sy_nonblocking y); try (by naive_solver).
  destruct (sy_blocking y), (sy_connect y) as [[]|[e|]]; try (by naive_solver);
    destruct (poll_connect _ _) as [[[]|?]|]; try (intuition congruence);
    destruct (sy_error y) as [[?|]|?]; cbn; intuition congruence.
Qed.

(** A host that never comes is given up: the waits between two looks add up to
    the timeout. *)
Lemma accept_until_ends deadline (answers : nat → Accepted) (clock : nat → N) (n : nat) :
  (∀ i t, answers i = WouldBlock t → t = clock i) → (∀ i, clock i + 50 ≤ clock (S i))%N →
  (deadline < clock 0%nat + 50 * N.of_nat n)%N →
  ∃ came, accept_until deadline (answers <$> List.seq 0 (S n)) = Some came.
Proof.
  revert answers clock. induction n as [|n IH]; intros answers clock Hc Hstep Hn.
  - cbn. destruct (answers 0) as [ok|t|] eqn:Ha; [by eauto| |by eauto].
    rewrite (Hc _ _ Ha), bool_decide_eq_true_2 by lia. eauto.
  - rewrite <-cons_seq, fmap_cons. cbn [accept_until]. destruct (answers 0) as [ok|t|] eqn:Ha; [by eauto| |by eauto].
    rewrite (Hc _ _ Ha). case_bool_decide; [by eauto|]. rewrite <-fmap_S_seq, <-list_fmap_compose.
    apply (IH (answers ∘ S) (clock ∘ S)); [intros i t' Hi; by apply Hc|intros i; apply Hstep|].
    cbn. specialize (Hstep 0). lia.
Qed.

Theorem accept_ends now timeout (answers : nat → Accepted) (clock : nat → N) (n := S (N.to_nat (timeout / 50))) :
  (now ≤ clock 0%nat)%N → (∀ i t, answers i = WouldBlock t → t = clock i) → (∀ i, clock i + 50 ≤ clock (S i))%N →
  ∃ came, accept_with_timeout true now timeout (answers <$> List.seq 0 (S n)) = Some came.
Proof.
  intros H0 Hc Hs. apply (accept_until_ends _ _ clock); [done..|]. subst n.
  rewrite Nat2N.inj_succ, N2Nat.id. pose proof (N.div_mod timeout 50 ltac:(done)).
  pose proof (N.mod_lt timeout 50 ltac:(done)). lia.
Qed.

(** A host is sent its constructor exactly when it came, said hello first and
    is of this major. *)
Lemma host_start_started from_slice value_from_slice came cloned sent reads payload ctor p rest :
  host_start from_slice value_from_slice came cloned sent reads payload = Started ctor p rest ↔
  came = true ∧ cloned = true ∧ sent = true ∧ ctor = Msg.Ctor Version.PROTO ∧ p = payload ∧
  ∃ f fp proto, read_frame from_slice value_from_slice reads = Ok (Some (f, fp, rest)) ∧
    fr_msg f = Msg.HostHello proto ∧ Version.major_matches proto = true.
Proof.
  unfold host_start. split.
  - destruct came, cloned; cbn [negb]; try done.
    destruct (read_frame _ _ _) as [[[[f fp] r]|]|e]; try done. destruct (fr_msg f) eqn:Hm; try done.
    destruct (Version.major_matches proto) eqn:Hv, sent; try done. intros [= <- <- <-]. split_and!; eauto 6.
  - intros (-> & -> & -> & -> & -> & f & fp & proto & -> & -> & ->). done.
Qed.

Section probing.
Context `{HI : HashIter} (E : Env) (to_vec : Frame → bytes) (from_slice : bytes → option Frame)
  (value_from_slice : bytes → option Value) (debug_msg : Msg.t → string) (io_text : IoError → string).

(** C30: A probe succeeds exactly when it shows what it is for: both addresses
    are IPv4, the socket took the source address, the connection was made (at
    once, or after any number of interrupted waits), and the daemon behind the
    remote address is the node that was meant. The interface's refusal never
    fails a probe, and another node's answer is an error that names it, so
    two fabrics numbered alike are told apart. *)
Theorem probe_proves_the_pair (s : State) peer_ip expired me (answer : Msg.t) (f := frame_new 1 answer)
    (y : Sys) dial reads peer_id local remote (port timeout elapsed : N) :
  conn_entry E debug_msg s peer_ip expired (Msg.Probe Version.PROTO me) = Refuse answer →
  fits to_vec f [] → from_slice (to_vec f) = Some f →
  Forall healthy reads → delivered reads = write_frame to_vec f [] →
  let probe := probe_pair debug_msg io_text from_slice value_from_slice None dial y None reads peer_id local remote port timeout elapsed in
  (probe = Some (Ok elapsed) ↔
     node_id s = peer_id ∧ is_ipv4 local = true ∧ is_ipv4 remote = true ∧
     sy_socket y = None ∧ sy_bind y = None ∧ sy_nonblocking y = None ∧ sy_blocking y = None ∧
     (sy_connect y = Ok tt ∨ sy_connect y = Err None ∧ sy_error y = Ok None ∧
      ∃ n rest, sy_polls y = replicate n PollInterrupted ++ PollReady :: rest)) ∧
  (node_id s ≠ peer_id → connect_from y local remote timeout = Some (Ok tt) →
     probe = Some (Err ("node " +:+ node_id s +:+ " answered, expected " +:+ peer_id))).
Proof.
  intros Hentry Hf Henc Hh Hd. cbn [conn_entry] in Hentry. injection Hentry as <-.
  destruct (read_write_frame to_vec from_slice value_from_slice f [] [] reads Hf eq_refl Henc Hh) as (r & Hr & _);
    [by rewrite app_nil_r|].
  intros probe. rewrite <-(connect_from_ok y local remote timeout).
  assert (probe = match connect_from y local remote timeout with
    | None => None | Some (Err e) => Some (Err e)
    | Some (Ok _) => Some (if bool_decide (node_id s = peer_id) then Ok elapsed
                           else Err ("node " +:+ node_id s +:+ " answered, expected " +:+ peer_id)) end) as ->.
  { unfold probe, probe_pair. destruct (connect_from _ _ _ _) as [[?|?]|]; [|done..]. by rewrite Hr. }
  split.
  - destruct (connect_from _ _ _ _) as [[[]|e]|]; [|by naive_solver..]. case_bool_decide; naive_solver.
  - intros Hne ->. by rewrite bool_decide_eq_false_2.
Qed.
End probing.

(** ** Instances *)

Definition demo_sys : Sys := mkSys None (Some "EPERM") None None (Err None) [PollInterrupted; PollReady] (Ok None) None.
Definition demo_far : State := state_new "10.0.0.2" "h" "10.0.0.2:6379" "b".
Definition demo_ok_vec (_ : Frame) : bytes := [x61].
Definition demo_ok_slice (b : bytes) : option Frame :=
  if decide (b = [x61]) then Some (frame_new 1 (Msg.ProbeOk Version.PROTO (node_id demo_far))) else None.

Lemma probe_proves_the_pair_witness :
  let reads := [Data [x01; x00]; Interrupted; Data [x00; x00; x00; x00; x00; x00; x61]] in
  let probe p := probe_pair (λ _, "") (λ _, "") demo_ok_slice (λ _, None) None (λ _, Ok tt) demo_sys None reads p
                   "10.0.0.1" "10.0.0.2" 6379 1000 40 in
  probe (node_id demo_far) = Some (Ok 40%N) ∧
  probe "n9" = Some (Err ("node " +:+ node_id demo_far +:+ " answered, expected n9")).
Proof.
  intros reads probe. split.
  - apply (probe_proves_the_pair demo_env demo_ok_vec demo_ok_slice (λ _, None) (λ _, "") (λ _, "") demo_far "10.0.0.1" false "n1"
             (Msg.ProbeOk Version.PROTO (node_id demo_far)) demo_sys (λ _, Ok tt) reads (node_id demo_far) "10.0.0.1" "10.0.0.2" 6379 1000 40).
    + reflexivity.
    + split; vm_compute; discriminate.
    + by vm_compute.
    + repeat constructor.
    + by vm_compute.
    + split_and!; try by vm_compute. right. split_and!; [done..|]. by exists 1, [].
  - apply (probe_proves_the_pair demo_env demo_ok_vec demo_ok_slice (λ _, None) (λ _, "") (λ _, "") demo_far "10.0.0.1" false "n1"
             (Msg.ProbeOk Version.PROTO (node_id demo_far)) demo_sys (λ _, Ok tt) reads "n9" "10.0.0.1" "10.0.0.2" 6379 1000 40).
    + reflexivity.
    + split; vm_compute; discriminate.
    + by vm_compute.
    + repeat constructor.
    + by vm_compute.
    + by vm_compute.
    + by vm_compute.
Defined.

(** A name that is not an IPv4 address is refused before any socket. *)
Example probes_need_ipv4 :
  connect_from demo_sys "::1" "10.0.0.2" 1000 = Some (Err "::1 is not an IPv4 address").
Proof. by vm_compute. Qed.
Example an_actor_gets_a_short_socket :
  sock_path "/tmp/m" "0123456789abcdef0123" = "/tmp/m/a-0123456789ab.sock".
Proof. by vm_compute. Qed.
