(* ===== verification/Election.v ===== *)
(** * Election (rust/mentatd/src/mesh.rs, spec/Election.tla)

    What [head_candidate] and [elector] of Mesh.v promise: whom a daemon
    follows, the hold-down before it changes its head, and the protocol they
    run together, as spec/Election.tla states it, for any finite set of
    daemons. *)

From stdpp Require Import functions.
From S2P Require Import Prelude HoldDown Json Proto Addr Island State Status Placement Actors Clients Agents Head Mesh.

(** ** Whom a daemon follows *)

Definition live_id (s : State) (i : string) : Prop :=
  i = node_id s ∨ ∃ p, peers s !! i = Some p ∧ pe_alive p = true.
(** A live head this daemon hears of: its own, or one a live peer reports. *)
Definition followed (s : State) (h : string) : Prop :=
  h ≠ "" ∧ live_id s h ∧
  (h = head_node_id s ∨ ∃ k p, peers s !! k = Some p ∧ pe_alive p = true ∧ published_head p = Some h).
Definition peers_keyed (s : State) : Prop := ∀ k p, peers s !! k = Some p → pe_node_id p = k.
Definition least (P : string → Prop) (m : string) : Prop := P m ∧ ∀ x, P x → String.le m x.

Section candidate.
Context `{HI : HashIter} (s : State).

Lemma is_alive_spec i : is_alive s i = true ↔ live_id s i.
Proof.
  unfold is_alive, live_id. rewrite orb_true_iff, bool_decide_eq_true.
  destruct (peers s !! i) as [p|]; cbn; naive_solver.
Qed.

Lemma elem_of_claimed_heads h : h ∈ claimed_heads s ↔ followed s h.
Proof.
  unfold claimed_heads, followed. rewrite elem_of_app, list_elem_of_filter, list_elem_of_omap.
  setoid_rewrite elem_of_live_peers. rewrite is_alive_spec.
  assert (h ∈ (if negb (str_empty (head_node_id s)) && is_alive s (head_node_id s) then [head_node_id s] else [])
    ↔ h = head_node_id s ∧ h ≠ "" ∧ live_id s h) as ->; [|naive_solver].
  destruct (negb (str_empty (head_node_id s)) && is_alive s (head_node_id s)) eqn:Hb.
  - apply andb_true_iff in Hb as [Hn Ha]. rewrite is_alive_spec in Ha. apply negb_true_iff in Hn.
    apply bool_decide_eq_false in Hn. rewrite list_elem_of_singleton. naive_solver.
  - split; [set_solver|]. intros (-> & Hn & Ha). exfalso. apply andb_false_iff in Hb as [Hb|Hb].
    + apply negb_false_iff in Hb. by apply bool_decide_eq_true in Hb.
    + apply is_alive_spec in Ha. congruence.
Qed.

Lemma elem_of_live_ids i : peers_keyed s → i ∈ (pe_node_id <$> live_peers s) ++ [node_id s] ↔ live_id s i.
Proof.
  intros Hk. rewrite elem_of_app, list_elem_of_singleton, list_elem_of_fmap.
  setoid_rewrite elem_of_live_peers. unfold live_id. split.
  - intros [(p & -> & k & Hp & Ha)| -> ]; [|by left]. rewrite (Hk k p Hp). eauto.
  - intros [->|(p & Hp & Ha)]; [by right|]. left. exists p. rewrite (Hk i p Hp). eauto.
Qed.

Lemma head_candidate_least : peers_keyed s →
  least (followed s) (head_candidate s) ∨ (∀ h, ¬ followed s h) ∧ least (live_id s) (head_candidate s).
Proof.
  intros Hk. unfold head_candidate. destruct (min_str (claimed_heads s)) as [h|] eqn:Hm.
  - left. apply min_str_spec in Hm as [Hin Hle]. split; [by apply elem_of_claimed_heads|].
    intros x Hx. by apply Hle, elem_of_claimed_heads.
  - right. apply min_by_None in Hm. split.
    { intros h Hh%elem_of_claimed_heads. rewrite Hm in Hh. set_solver. }
    destruct (min_str ((pe_node_id <$> live_peers s) ++ [node_id s])) as [i|] eqn:Hi.
    + apply min_str_spec in Hi as [Hin Hle]. split; [by apply elem_of_live_ids|].
      intros x Hx. by apply Hle, elem_of_live_ids.
    + apply min_by_None in Hi. by apply app_eq_nil in Hi as [_ ?].
Qed.

Lemma least_ext (P Q : string → Prop) m : (∀ x, P x ↔ Q x) → least P m → least Q m.
Proof. intros H [Hm Hle]. split; [by apply H|]. intros x Hx. by apply Hle, H. Qed.
Lemma least_unique (P : string → Prop) x y : least P x → least P y → x = y.
Proof. intros [Hx Hlx] [Hy Hly]. apply (anti_symm String.le); auto. Qed.
End candidate.

(** A daemon follows the lowest live head that it or a live peer of it
    follows. Only when none of them follows a live head does it fall to the
    lowest live id it knows, its own among them. It never picks a daemon it
    thinks dead, and the order its peers are walked in does not matter. *)
Theorem head_candidate_spec (HI : HashIter) (s : State) (Hk : peers_keyed s) :
  let c := head_candidate s in
  ((∃ h, followed s h) → least (followed s) c) ∧
  ((∀ h, ¬ followed s h) → least (live_id s) c) ∧
  live_id s c ∧ (∀ HI' : HashIter, @head_candidate HI' s = c).
Proof.
  cbn zeta. pose proof (head_candidate_least s Hk) as Hc. split_and!.
  - intros [h Hh]. destruct Hc as [Hc|[Hno _]]; [done|]. by destruct (Hno h).
  - intros Hno. destruct Hc as [[Hf _]|[_ Hc]]; [|done]. by destruct (Hno (head_candidate s)).
  - destruct Hc as [[(_ & Hl & _) _]|[_ [Hl _]]]; done.
  - intros HI'. pose proof (@head_candidate_least HI' s Hk) as Hc'.
    destruct Hc as [Hc|[Hno Hc]], Hc' as [Hc'|[Hno' Hc']].
    + by eapply least_unique.
    + destruct Hc as [Hf _]. by destruct (Hno' _ Hf).
    + destruct Hc' as [Hf _]. by destruct (Hno _ Hf).
    + by eapply least_unique.
Qed.

(** ** The hold-down *)

Section elector.
Context `{HI : HashIter}.

Lemma head_moved_keeps E {B} (f : State → B) :
  Quiet f → (∀ r s, f (moved E r s) = f s) → keeps f (head_moved E).
Proof.
  intros Hq Hm. unfold head_moved. apply keeps_bind; [apply keeps_get_st|]. intros s.
  destruct (_ || _); [apply keeps_skip|]. cbv zeta.
  apply keeps_bind; [apply keeps_for_each; intros; apply keeps_shutdown|]. intros _.
  apply keeps_bind; [apply keeps_for_each; intros; apply keeps_shutdown|]. intros _.
  apply keeps_bind; [by apply keeps_modify|]. intros _.
  apply keeps_bind; [apply keeps_get_st|]. intros s'. by apply keeps_emit.
Qed.

(** What a commit sets and what it leaves to [head_moved]. *)
Lemma commit_head_reads E {B} (f : State → B) c w :
  Quiet f → (∀ r s, f (moved E r s) = f s) →
  f (st (commit_head E c w).2) = f ((st w) <| head_node_id := c |> <| head_generation ::= u64_succ |>
    <| head_since_ms := if bool_decide (c = node_id (st w)) then Some (now_ms E) else None |>).
Proof.
  intros Hq Hm. unfold commit_head. rewrite bind_run. cbn [get_st gets fst snd].
  rewrite bind_run. cbn [modify_st modify fst snd].
  match goal with |- context [(?k ?x).2] => assert (keeps f k) as Hk; [|etrans; [exact (Hk x)|done]] end.
  apply keeps_bind; [apply keeps_get_st|]. intros s. apply keeps_bind; [by apply keeps_emit|]. intros _.
  apply keeps_bind; [by apply head_moved_keeps|]. intros _. apply keeps_notify.
Qed.

(** ** Turns in a row *)

Record ElectorTurn := mkTurn { tk_env : Env; tk_up : N; tk_world : World }.
Definition turn (t : ElectorTurn) (l : Elector) : Elector * World := elector_tick (tk_env t) (tk_up t) l (tk_world t).
Definition elector_run (l : Elector) (ts : list ElectorTurn) : Elector := foldl (λ l t, (turn t l).1) l ts.

(** What a turn reads. *)
Definition tk_hold (t : ElectorTurn) : N := election_hold_down_ms (cfg (tk_env t)).
Definition tk_head (t : ElectorTurn) : string := head_node_id (st (tk_world t)).
Definition tk_candidate (t : ElectorTurn) : string := head_candidate (st (tk_world t)).
Definition heard_now (t : ElectorTurn) (l : Elector) : Prop :=
  el_heard l = true ∨ has_heard (st (tk_world t)) = true ∨
  (election_boot_wait_ms (cfg (tk_env t)) ≤ tk_up t)%N.

Abbreviation is_due := (due tk_up tk_hold tk_head tk_candidate).
Abbreviation is_steady := (steady tk_head tk_candidate).
Abbreviation is_counted := (counted tk_up tk_head tk_candidate).

(** A turn does nothing before the daemon has heard anyone; then it commits
    what is due, or counts on. *)
Lemma turn_cases t l :
  (heard_now t l ∧ is_due (el_candidate l) t ∧
     turn t l = (mkElector true None, (commit_head (tk_env t) (tk_candidate t) (tk_world t)).2)) ∨
  (heard_now t l ∧ ¬ is_due (el_candidate l) t ∧
     turn t l = (mkElector true (next_candidate tk_up tk_head tk_candidate (el_candidate l) t), tk_world t)) ∨
  (¬ heard_now t l ∧ turn t l = (l, tk_world t)).
Proof.
  destruct t as [E up w]. unfold turn, elector_tick, due, next_candidate, heard_now, tk_head, tk_candidate, tk_hold.
  cbn [tk_env tk_up tk_world]. rewrite bind_run. cbn [get_st gets fst snd id]. cbv zeta.
  assert ((el_heard l = true ∨ has_heard (st w) = true ∨ (election_boot_wait_ms (cfg E) ≤ up)%N) ↔
    el_heard l || has_heard (st w) || negb (bool_decide (up < election_boot_wait_ms (cfg E))%N) = true) as ->.
  { rewrite !orb_true_iff, negb_true_iff, bool_decide_eq_false. rewrite N.nlt_ge. tauto. }
  destruct (el_heard l || _ || _); cbn [negb]; [|by right; right].
  destruct (decide (head_candidate (st w) = head_node_id (st w))) as [Heq|Hne].
  { right; left. rewrite bool_decide_eq_true_2 by done. naive_solver. }
  rewrite bool_decide_eq_false_2 by done.
  destruct (el_candidate l) as [[c since]|]; [|right; left; naive_solver].
  destruct (decide (c = head_candidate (st w))) as [->|Hc].
  2: { rewrite bool_decide_eq_false_2 by done. right; left. naive_solver. }
  rewrite bool_decide_eq_true_2 by done. case_bool_decide as Hup; [left|right; left].
  - split_and!; [done|done|eauto|]. by rewrite bind_run.
  - split_and!; [done| |done]. naive_solver.
Qed.

Definition run_ok (ts : list ElectorTurn) (l : Elector) : Prop :=
  (el_heard l = false → el_candidate l = None) ∧ is_counted ts (el_candidate l).
Lemma run_ok_turn ts t l : run_ok ts l → run_ok (ts ++ [t]) (turn t l).1.
Proof.
  intros [Hh Hc]. destruct (turn_cases t l) as [(_ & _ & ->)|[(_ & _ & ->)|[Hno ->]]]; (split; [done|]).
  - apply counted_None.
  - by apply counted_next.
  - cbn [fst]. rewrite Hh; [apply counted_None|]. destruct (el_heard l) eqn:Hl; [destruct Hno; by left|done].
Qed.
Lemma run_ok_run ts h : run_ok ts (elector_run (mkElector h None) ts).
Proof.
  induction ts as [|t ts IH] using rev_ind; [split; [done|apply counted_None]|].
  unfold elector_run. rewrite foldl_app. cbn [foldl]. by apply run_ok_turn.
Qed.

Lemma commit_head_head E c w : head_node_id (st (commit_head E c w).2) = c.
Proof. rewrite (commit_head_reads E head_node_id); [done|by intros ? ? ->|done]. Qed.

(** A daemon changes its head only to a candidate it has had all through
    the hold-down: whenever a turn moves the head, an earlier turn at least
    the hold-down before saw the same candidate, and so did every turn between
    the two, each with another head. It has heard a peer's status by then, or
    waited out the boot wait. *)
Theorem hold_down_respected (h : bool) (ts : list ElectorTurn) (t : ElectorTurn)
    (s := st (tk_world t)) (s' := st (turn t (elector_run (mkElector h None) ts)).2)
    (Hmoved : head_node_id s' ≠ head_node_id s) :
  head_node_id s' = head_candidate s ∧ heard_now t (elector_run (mkElector h None) ts) ∧
  ∃ pre t0 win, ts = pre ++ t0 :: win ∧ (tk_hold t ≤ tk_up t - tk_up t0)%N ∧
    ∀ t', t' ∈ t0 :: win ++ [t] → is_steady (head_node_id s') t'.
Proof.
  set (l := elector_run _ ts) in *. pose proof (run_ok_run ts h) as [_ Hc]. fold l in Hc. subst s'.
  destruct (turn_cases t l) as [(Hh & Hdue & Heq)|[(_ & _ & Heq)|[_ Heq]]]; rewrite Heq in *; cbn [snd] in *; [|done..].
  rewrite commit_head_head in *. split_and!; [done|done|]. by apply (due_held tk_up tk_hold _ _ _ _ _ Hc).
Qed.

(** A window of turns with one candidate, none of which commits, keeps the
    count running from its first turn or before. *)
Lemma count_runs c l t0 win :
  (∀ t, t ∈ t0 :: win → is_steady c t) → heard_now t0 l →
  (∀ c' since, el_candidate l = Some (c', since) → since ≤ tk_up t0)%N →
  (∀ pre t post, t0 :: win = pre ++ t :: post → ¬ is_due (el_candidate (elector_run l pre)) t) →
  ∃ since, elector_run l (t0 :: win) = mkElector true (Some (c, since)) ∧ (since ≤ tk_up t0)%N.
Proof.
  intros Hst Hh Hl. revert Hst. induction win as [|t win IH] using rev_ind; intros Hst Hno.
  - cbn. destruct (turn_cases t0 l) as [(_ & Hdue & _)|[(_ & _ & ->)|[Hn _]]]; [by destruct (Hno [] t0 [])| |done].
    destruct (next_counts tk_up tk_head tk_candidate c (el_candidate l) t0) as (since & -> & Hle);
      [apply Hst; left|done|eauto].
  - destruct IH as (since & Hrun & Hle).
    { intros t' Hin. apply Hst. rewrite elem_of_cons, elem_of_app in *. tauto. }
    { intros pre t' post Heq. apply (Hno pre t' (post ++ [t])). rewrite app_comm_cons, Heq. by rewrite <-app_assoc. }
    rewrite app_comm_cons. unfold elector_run in *. rewrite foldl_app, Hrun. cbn [foldl].
    specialize (Hno (t0 :: win) t []). rewrite Hrun in Hno.
    destruct (turn_cases t (mkElector true (Some (c, since)))) as [(_ & Hdue & _)|[(_ & _ & ->)|[Hn _]]];
      [by destruct Hno| |by destruct Hn; left].
    exists since. split; [|done]. cbn. f_equal. apply next_keeps, Hst. set_solver.
Qed.

Lemma one_due l ts :
  let com := λ pre t, is_due (el_candidate (elector_run l pre)) t in
  (∃ pre t post, ts = pre ++ t :: post ∧ com pre t) ∨ (∀ pre t post, ts = pre ++ t :: post → ¬ com pre t).
Proof.
  cbn zeta. induction ts as [|t ts IH] using rev_ind.
  { right. intros pre t post Heq. by destruct pre. }
  destruct IH as [(pre & t' & post & -> & Hcom)|Hno].
  { left. exists pre, t', (post ++ [t]). split; [by rewrite <-app_assoc|done]. }
  destruct (decide (is_due (el_candidate (elector_run l ts)) t)) as [Hcom|Hcom].
  - left. by exists ts, t, [].
  - right. intros pre t' post Heq. destruct post as [|t2 post _] using rev_ind.
    + apply app_inj_tail in Heq as [-> ->]. done.
    + rewrite app_comm_cons, app_assoc in Heq. apply app_inj_tail in Heq as [-> ->]. by apply (Hno pre t' post).
Qed.

Lemma heard_stays pre l t : el_heard l = true → el_heard (elector_run l (pre ++ [t])) = true.
Proof.
  intros Hl. induction (pre ++ [t]) as [|t' ts IH] using rev_ind; [done|].
  unfold elector_run in *. rewrite foldl_app. cbn [foldl].
  destruct (turn_cases t' (foldl (λ l t, (turn t l).1) l ts)) as [(_ & _ & ->)|[(_ & _ & ->)|[_ ->]]]; done.
Qed.
Lemma heard_from l t0 win pre t post :
  heard_now t0 l → t0 :: win = pre ++ t :: post → heard_now t (elector_run l pre).
Proof.
  intros Hh Heq. destruct pre as [|t1 pre]; [by injection Heq as -> _|]. injection Heq as <- _. left.
  unfold elector_run. cbn [foldl]. assert (el_heard (turn t0 l).1 = true) as Hl.
  { destruct (turn_cases t0 l) as [(_ & _ & ->)|[(_ & _ & ->)|[Hn _]]]; done. }
  destruct pre as [|t1 pre _] using rev_ind; [done|]. by apply (heard_stays pre).
Qed.

(** And it does change it: over turns that all find the same candidate,
    other than the head, and span the hold-down, one of them commits it. *)
Theorem hold_down_ends (c : string) (l : Elector) (t0 t : ElectorTurn) (win : list ElectorTurn)
    (Hst : ∀ t', t' ∈ t0 :: win ++ [t] → is_steady c t') (Hheard : heard_now t0 l)
    (Hclock : ∀ c' since, el_candidate l = Some (c', since) → (since ≤ tk_up t0)%N)
    (Hspan : (tk_hold t ≤ tk_up t - tk_up t0)%N) :
  ∃ pre t' post, t0 :: win ++ [t] = pre ++ t' :: post ∧
    head_node_id (st (turn t' (elector_run l pre)).2) = c.
Proof.
  assert (∀ pre t' post, t0 :: win ++ [t] = pre ++ t' :: post → is_due (el_candidate (elector_run l pre)) t' →
    head_node_id (st (turn t' (elector_run l pre)).2) = c) as Hdone.
  { intros pre t' post Heq Hcom. destruct (Hst t') as [Hc _]; [rewrite Heq; set_solver|].
    pose proof (heard_from l t0 (win ++ [t]) pre t' post Hheard Heq) as Hh.
    destruct (turn_cases t' (elector_run l pre)) as [(_ & _ & ->)|[(_ & Hn & _)|[Hn _]]]; [|done..].
    cbn. by rewrite commit_head_head. }
  destruct (one_due l (t0 :: win)) as [(pre & t' & post & Heq & Hcom)|Hno].
  { exists pre, t', (post ++ [t]). rewrite app_comm_cons, Heq, <-app_assoc. split; [done|].
    apply (Hdone pre t' (post ++ [t])); [|done]. by rewrite app_comm_cons, Heq, <-app_assoc. }
  destruct (count_runs c l t0 win) as (since & Hrun & Hle); [|done..|].
  { intros t' Hin. apply Hst. rewrite app_comm_cons, elem_of_app. by left. }
  exists (t0 :: win), t, []. split; [done|]. apply (Hdone (t0 :: win) t []); [done|].
  unfold due. rewrite Hrun. destruct (Hst t) as [Hc Hne]; [set_solver|].
  split; [congruence|]. exists since. rewrite Hc. split; [done|]. unfold saturating_sub. lia.
Qed.
End elector.

(** ** The protocol (spec/Election.tla)

    Daemons are node ids, finitely many of them up at a time. A daemon in
    [waited] has run out its boot wait, one in [heard] has had a peer's
    status. [settled] is the head every live daemon came to follow, kept while
    that head is up. The spec's bound on restarts is dropped. *)

Record Sys := mkSys {
  up : gset string; head : string → option string; link : string → gset string;
  heard : gset string; waited : gset string; settled : option string }.
#[export] Instance eta_Sys : Eta Sys := λ y,
  mkSys (up y) (head y) (link y) (heard y) (waited y) (settled y).

Definition Alive (y : Sys) (d x : string) : Prop := x = d ∨ x ∈ link y d.
#[export] Instance Alive_dec y d x : Decision (Alive y d x).
Proof. unfold Alive. apply _. Defined.
Definition reaches (y : Sys) (d : string) : list string := d :: elements (link y d).
Definition Candidate (y : Sys) (d : string) : string :=
  match min_str (filter (Alive y d) (omap (head y) (reaches y d))) with
  | Some h => h
  | None => default "" (min_str (reaches y d))
  end.

Definition Agreed (y : Sys) (h : string) : Prop := h ∈ up y ∧ ∀ d, d ∈ up y → head y d = Some h.
#[export] Instance Agreed_dec y h : Decision (Agreed y h).
Proof.
  refine (cast_if (decide (h ∈ up y ∧ set_Forall (λ d, head y d = Some h) (up y)))); abstract done.
Defined.
(** [NextSettled], of a state that still carries the old settled head. *)
Definition NextSettled (y : Sys) : option string :=
  match find_first (λ h, bool_decide (Agreed y h)) (elements (up y)) with
  | Some h => Some h
  | None => h ← settled y; if bool_decide (h ∈ up y) then Some h else None
  end.
Definition settle (y : Sys) : Sys := y <| settled := NextSettled y |>.

Definition Init (d0 : gset string) : Sys := mkSys d0 (λ _, None) (λ _, ∅) ∅ ∅ None.

Definition link_up (d e : string) (y : Sys) : Sys :=
  y <| link ::= λ l, <[d := l d ∪ {[e]}]> (<[e := l e ∪ {[d]}]> l) |> <| heard ::= λ s, {[d; e]} ∪ s |>.
Definition crash (d : string) (y : Sys) : Sys :=
  y <| up ::= λ s, s ∖ {[d]} |> <| head ::= <[d := None]> |> <| link ::= <[d := ∅]> |>
    <| heard ::= λ s, s ∖ {[d]} |> <| waited ::= λ s, s ∖ {[d]} |>.

Inductive step (y : Sys) : Sys → Prop :=
| Link d e : d ≠ e → d ∈ up y → e ∈ up y → e ∉ link y d ∨ d ∉ link y e → step y (settle (link_up d e y))
| Drop d e : e ∈ link y d → e ∉ up y →
    step y (settle (y <| link ::= λ l, <[d := l d ∖ {[e]}]> l |>))
| Crash d : d ∈ up y → step y (settle (crash d y))
| Boot d : d ≠ "" → d ∉ up y → step y (settle (y <| up ::= λ s, {[d]} ∪ s |>))
| BootWaitEnds d : d ∈ up y → d ∉ heard y → d ∉ waited y → (∀ e, e ∈ up y → e = d) →
    step y (settle (y <| waited ::= λ s, {[d]} ∪ s |>))
| Elect d : d ∈ up y → head y d ≠ Some (Candidate y d) →
    (if decide (d ∈ heard y) then ∀ e, e ∈ up y → e ≠ d → e ∈ link y d else d ∈ waited y) →
    step y (settle (y <| head ::= <[d := Some (Candidate y d)]> |>)).

Inductive reachable (d0 : gset string) : Sys → Prop :=
| reach_init : reachable d0 (Init d0)
| reach_step y y' : reachable d0 y → step y y' → reachable d0 y'.

(** ** Well-formed systems *)

(** A daemon that is down has forgotten everything, one that has heard no one
    holds no link and follows itself or no one, and nobody holds a link to
    itself. *)
Record well_formed (y : Sys) : Prop := {
  wf_down d : d ∉ up y → head y d = None ∧ link y d = ∅ ∧ (d ∉ heard y) ∧ d ∉ waited y;
  wf_silent d : d ∉ heard y → link y d = ∅ ∧ (head y d = None ∨ head y d = Some d);
  wf_no_self d : d ∉ link y d;
  wf_ids d : d ∈ up y ∨ (∃ e, d ∈ link y e) ∨ (∃ e, head y e = Some d) → d ≠ "";
  wf_settled h : settled y = Some h → h ∈ up y }.

Lemma next_settled y h :
  NextSettled y = Some h → Agreed y h ∨ settled y = Some h ∧ h ∈ up y.
Proof.
  unfold NextSettled. destruct (find_first _ _) as [h'|] eqn:Hf.
  - intros [= ->]. apply find_first_Some in Hf as [_ Hf]. left. by apply bool_decide_eq_true in Hf.
  - destruct (settled y) as [h'|]; [|done]. cbn. case_bool_decide; [|done]. intros [= ->]. auto.
Qed.

Lemma wf_settle y y' :
  well_formed y → up y' = up y' → (∀ d, d ∉ up y' → head y' d = None ∧ link y' d = ∅ ∧ (d ∉ heard y') ∧ d ∉ waited y') →
  (∀ d, d ∉ heard y' → link y' d = ∅ ∧ (head y' d = None ∨ head y' d = Some d)) → (∀ d, d ∉ link y' d) →
  (∀ d, d ∈ up y' ∨ (∃ e, d ∈ link y' e) ∨ (∃ e, head y' e = Some d) → d ≠ "") → well_formed (settle y').
Proof.
  intros Hwf _ H1 H2 H3 H4. split; [exact H1|exact H2|exact H3|exact H4|]. cbn.
  intros h [[Hup _]|[_ Hup]]%next_settled; done.
Qed.

Lemma elem_of_reaches y d x : x ∈ reaches y d ↔ Alive y d x.
Proof. unfold reaches, Alive. rewrite elem_of_cons, elem_of_elements. done. Qed.

(** The live heads a daemon hears of, and the candidate among them. *)
Definition hears (y : Sys) (d h : string) : Prop := Alive y d h ∧ ∃ e, Alive y d e ∧ head y e = Some h.
Lemma elem_of_heads y d h : h ∈ filter (Alive y d) (omap (head y) (reaches y d)) ↔ hears y d h.
Proof.
  unfold hears. rewrite list_elem_of_filter, list_elem_of_omap. setoid_rewrite elem_of_reaches. done.
Qed.
Lemma Candidate_least y d :
  least (hears y d) (Candidate y d) ∨ (∀ h, ¬ hears y d h) ∧ least (Alive y d) (Candidate y d).
Proof.
  unfold Candidate. destruct (min_str (filter _ _)) as [h|] eqn:Hm.
  - left. apply min_str_spec in Hm as [Hin Hle]. split; [by apply elem_of_heads|].
    intros x Hx. by apply Hle, elem_of_heads.
  - right. apply min_by_None in Hm. split.
    { intros h Hh%elem_of_heads. rewrite Hm in Hh. set_solver. }
    destruct (min_str (reaches y d)) as [i|] eqn:Hi; [|by apply min_by_None in Hi].
    apply min_str_spec in Hi as [Hin Hle]. split; [by apply elem_of_reaches|].
    intros x Hx. by apply Hle, elem_of_reaches.
Qed.

Lemma Candidate_alive y d : Alive y d (Candidate y d).
Proof. destruct (Candidate_least y d) as [[[Ha _] _]|[_ [Ha _]]]; done. Qed.

Ltac fn_cases := unfold insert, fn_insert in *; repeat case_decide; subst.

Lemma wf_init d0 : "" ∉ d0 → well_formed (Init d0).
Proof.
  intros Hd. split; cbn; [set_solver|auto|set_solver| |done]. intros d [H|[[e He]|[e He]]]; set_solver.
Qed.

Lemma wf_step y y' : well_formed y → step y y' → well_formed y'.
Proof.
  intros Hwf Hs. destruct Hs as [d e Hne Hd He Hl|d e Hl He|d Hd|d Hd Hdn|d Hd Hh Hw Hall|d Hd Hc Hg];
    (apply (wf_settle y); [done|done|..]); cbn; destruct Hwf as [Wd Ws Wn Wi Wst]; clear Wst.
  - intros x Hx. specialize (Wd x). clear -Wd Hx Hd He. fn_cases; [done..|]. set_solver.
  - intros x Hx. specialize (Ws x). clear -Ws Hx. fn_cases; set_solver.
  - intros x. specialize (Wn x). clear -Wn Hne. fn_cases; set_solver.
  - intros x Hx. apply Wi. destruct Hx as [Hx|[[z Hz]|Hx]]; [by left| |by right; right].
    fn_cases; try (apply elem_of_union in Hz as [Hz| ->%elem_of_singleton]); eauto.
  - intros x Hx. specialize (Wd x Hx). clear -Wd. fn_cases; set_solver.
  - intros x Hx. specialize (Ws x Hx). clear -Ws. fn_cases; set_solver.
  - intros x. specialize (Wn x). clear -Wn. fn_cases; set_solver.
  - intros x Hx. apply Wi. destruct Hx as [Hx|[[z Hz]|Hx]]; [by left| |by right; right].
    right; left. exists z. fn_cases; set_solver.
  - intros x Hx. specialize (Wd x). clear -Wd Hx Hd. fn_cases; [|set_solver].
    split_and!; try done; set_solver.
  - intros x Hx. specialize (Ws x). clear -Ws Hx. fn_cases; [by auto|set_solver].
  - intros x. specialize (Wn x). clear -Wn. fn_cases; set_solver.
  - intros x Hx. apply Wi. destruct Hx as [Hx|[[z Hz]|[z Hz]]]; [left; set_solver|..]; right; [left|right];
      exists z; fn_cases; set_solver.
  - intros x Hx. apply Wd. set_solver.
  - exact Ws.
  - exact Wn.
  - intros x [Hx|Hx]; [|by apply Wi; right]. apply elem_of_union in Hx as [->%elem_of_singleton|Hx]; [done|].
    apply Wi. by left.
  - intros x Hx. destruct (Wd x Hx) as (? & ? & ? & ?). split_and!; try done; set_solver.
  - exact Ws.
  - exact Wn.
  - exact Wi.
  - intros x Hx. destruct (Wd x Hx) as (? & ? & ? & ?). split_and!; [|done..]. by rewrite fn_lookup_insert_ne by set_solver.
  - intros x Hx. destruct (Ws x Hx) as [Hl Hhead]. split; [done|].
    clear Hg. fn_cases; [|done]. right. f_equal. destruct (Candidate_alive y x); [done|set_solver].
  - exact Wn.
  - intros x Hx. apply Wi. destruct Hx as [Hx|[Hx|[z Hz]]]; [by left|by right; left|].
    clear Hg. fn_cases; [|eauto]. injection Hz as <-. destruct (Candidate_alive y z) as [->|Ha]; [by left|].
    right; left. eauto.
Qed.

(** ** A settled head keeps its place *)

(** Once a head is settled, every live daemon follows it or no one, it follows
    itself, and no daemon past its boot wait follows no one. *)
Definition holds_place (y : Sys) (h : string) : Prop :=
  head y h = Some h ∧ (∀ d, d ∈ up y → head y d = None ∨ head y d = Some h) ∧
  (∀ d, d ∈ waited y → head y d ≠ None).
Definition head_stable (y : Sys) : Prop := ∀ h, settled y = Some h → holds_place y h.

Lemma waited_up y d : well_formed y → d ∈ waited y → d ∈ up y.
Proof. intros Hwf Hd. destruct (decide (d ∈ up y)) as [|Hn]; [done|]. by destruct (wf_down y Hwf d Hn) as (_ & _ & _ & []). Qed.
Lemma head_up y d h : well_formed y → head y d = Some h → d ∈ up y.
Proof. intros Hwf Hd. destruct (decide (d ∈ up y)) as [|Hn]; [done|]. destruct (wf_down y Hwf d Hn). congruence. Qed.

(** A daemon that may elect while a head is settled elects that head. *)
Lemma elects_settled y h d :
  well_formed y → h ∈ up y → holds_place y h → d ∈ up y →
  (if decide (d ∈ heard y) then ∀ e, e ∈ up y → e ≠ d → e ∈ link y d else d ∈ waited y) →
  Candidate y d = h.
Proof.
  intros Hwf Hup (Hself & Hheads & Hwaited) Hd Hguard.
  assert (Alive y d h) as Hal.
  { destruct (decide (h = d)) as [->|Hne]; [by left|]. case_decide as Hh; [right; by apply Hguard|].
    destruct (wf_silent y Hwf d Hh) as [_ [Hn|Hn]]; [by apply Hwaited in Hguard|].
    destruct (Hheads d Hd); congruence. }
  assert (∀ x, hears y d x → x = h) as Honly.
  { intros x (_ & e & _ & He). destruct (Hheads e (head_up y e x Hwf He)); congruence. }
  destruct (Candidate_least y d) as [[Hc _]|[Hno _]]; [by apply Honly|].
  destruct (Hno h). split; [done|]. by exists h.
Qed.

(** What a step does before the settled head is looked at again. *)
Lemma step_keeps_place y y' h :
  well_formed y → holds_place y h → step y y' → h ∈ up y → h ∈ up y' → holds_place y' h.
Proof.
  intros Hwf Hp Hs Hup. pose proof Hp as (Hself & Hheads & Hwaited).
  destruct Hs as [d e Hne Hd He Hl|d e Hl He|d Hd|d Hd Hdn|d Hd Hh Hw Hall|d Hd Hc Hg]; intros Hup'.
  - done.
  - done.
  - cbn in Hup'. split_and!; cbn.
    + rewrite fn_lookup_insert_ne; [done|set_solver].
    + intros x Hx. rewrite fn_lookup_insert_ne; set_solver.
    + intros x Hx. rewrite fn_lookup_insert_ne; set_solver.
  - split_and!; [done| |done]. cbn. intros x [->%elem_of_singleton|Hx]%elem_of_union; [|auto].
    left. by apply (wf_down y Hwf d).
  - split_and!; [done|done|]. cbn. intros x [->%elem_of_singleton|Hx]%elem_of_union; [|auto].
    rewrite <-(Hall h Hup). congruence.
  - assert (Candidate y d = h) as Hcand by by apply elects_settled. rewrite Hcand. clear Hg Hc.
    split_and!; cbn; [fn_cases; congruence| |]; intros x Hx; destruct (decide (d = x)) as [<-|Hne];
      rewrite ?fn_lookup_insert, ?fn_lookup_insert_ne by done; auto.
Qed.

Lemma step_settled y y' :
  step y y' → settled y' = NextSettled (y' <| settled := settled y |>).
Proof. by intros []. Qed.

Lemma step_keeps_settled y y' h :
  well_formed y → holds_place y h → step y y' → settled y = Some h → h ∈ up y → h ∈ up y' →
  settled y' = Some h.
Proof.
  intros Hwf Hp Hs Hset Hup Hup'. destruct (step_keeps_place y y' h) as (Hself & _ & _); [done..|].
  rewrite (step_settled y y' Hs). unfold NextSettled. cbn.
  destruct (find_first _ _) as [h'|] eqn:Hf.
  - apply find_first_Some in Hf as [_ Hf]. apply bool_decide_eq_true in Hf as [_ Hall]. cbn in Hall.
    specialize (Hall h Hup'). congruence.
  - rewrite Hset. cbn. by rewrite bool_decide_eq_true_2.
Qed.

Lemma step_keeps_following y y' e :
  step y y' → e ∈ up y' → head y e ≠ None → head y' e ≠ None.
Proof.
  intros []; cbn; intros Hup He; try done.
  - rewrite fn_lookup_insert_ne; [done|set_solver].
  - destruct (decide (d = e)) as [<-|]; by rewrite ?fn_lookup_insert, ?fn_lookup_insert_ne.
Qed.

Lemma stable_step y y' : well_formed y → head_stable y → step y y' → head_stable y'.
Proof.
  intros Hwf Hst Hs h Hset. pose proof (wf_step y y' Hwf Hs) as Hwf'.
  rewrite (step_settled y y' Hs) in Hset. apply next_settled in Hset as [[Hup Hall]|[Hset Hup]]; cbn in *.
  - split_and!; [by apply Hall|auto|]. intros d Hd. rewrite (Hall d); [done|]. by apply waited_up.
  - apply (step_keeps_place y); [done|by apply Hst|done|by apply (wf_settled y Hwf)|done].
Qed.

Lemma reachable_ok d0 y : "" ∉ d0 → reachable d0 y → well_formed y ∧ head_stable y.
Proof.
  intros Hd Hr. induction Hr as [|y y' _ [Hwf Hst] Hs]; [split; [by apply wf_init|done]|].
  split; [by eapply wf_step|by eapply stable_step].
Qed.

(** Every reachable system of daemons is well formed: a daemon that is
    down has no head, no link and no memory, one that has heard no one holds
    no link and follows itself or no one, no daemon is linked to itself, every
    id is a real one, and the settled head is up. *)
Theorem reachable_well_formed (d0 : gset string) (y : Sys) (Hids : "" ∉ d0) (Hr : reachable d0 y) :
  well_formed y.
Proof. by apply (reachable_ok d0). Qed.

(** C2: no daemon leaves a settled head that stays up, however daemons link,
    crash, boot and elect: in a reachable system a step keeps every follower
    of the settled head that is up before and after with that head, and a
    daemon that follows no one can only come to follow it. *)
Theorem stable_head (d0 : gset string) (y y' : Sys) (h e : string) (Hids : "" ∉ d0)
    (Hr : reachable d0 y) (Hs : step y y') (Hset : settled y = Some h) (Hup' : h ∈ up y') (He : e ∈ up y ∩ up y') :
  (head y e = Some h → head y' e = Some h) ∧ (head y' e = None ∨ head y' e = Some h) ∧ settled y' = Some h.
Proof.
  destruct (reachable_ok d0 y Hids Hr) as [Hwf Hst].
  pose proof (wf_settled y Hwf h Hset) as Hup. pose proof (Hst h Hset) as Hp.
  destruct (step_keeps_place y y' h) as (_ & Hheads & _); [done..|].
  assert (head y' e = None ∨ head y' e = Some h) as He' by (apply Hheads; set_solver).
  split_and!; [|done|by apply (step_keeps_settled y)]. intros Hfol.
  destruct He' as [Hn|]; [|done]. destruct (step_keeps_following y y' e Hs); [set_solver|congruence|done].
Qed.

(** ** A whole mesh agrees *)

(** Every live daemon has links to the other live daemons, and to no other. *)
Definition whole (y : Sys) : Prop :=
  ∀ d, d ∈ up y → d ∈ heard y ∧ ∀ x, Alive y d x ↔ x ∈ up y.

(** Daemons take their turn to elect, in the given order. *)
Definition elect (d : string) (y : Sys) : Sys :=
  if decide (head y d = Some (Candidate y d)) then y
  else settle (y <| head ::= <[d := Some (Candidate y d)]> |>).
Fixpoint round (l : list string) (y : Sys) : Sys :=
  match l with [] => y | d :: l' => round l' (elect d y) end.

Definition common (y : Sys) (h : string) : Prop := h ∈ up y ∧ ∃ e, e ∈ up y ∧ head y e = Some h.
Lemma whole_hears y d h : whole y → d ∈ up y → hears y d h ↔ common y h.
Proof.
  intros Hw Hd. unfold hears, common. destruct (Hw d Hd) as [_ Hal]. rewrite Hal. by setoid_rewrite Hal.
Qed.

(** What every live daemon of a whole mesh would elect. *)
Definition would_elect (y : Sys) (c : string) : Prop :=
  least (common y) c ∨ (∀ h, ¬ common y h) ∧ least (.∈ up y) c.
Lemma whole_candidate y d : whole y → d ∈ up y → would_elect y (Candidate y d).
Proof.
  intros Hw Hd. destruct (Candidate_least y d) as [Hc|[Hno Hc]].
  - left. apply (least_ext (hears y d)); [|done]. intros x. by apply whole_hears.
  - right. split; [intros h Hh; by apply (Hno h), whole_hears|].
    apply (least_ext (Alive y d)); [|done]. intros x. by apply Hw.
Qed.
Lemma would_elect_unique y c c' : would_elect y c → would_elect y c' → c = c'.
Proof.
  intros [Hc|[Hno Hc]] [Hc'|[Hno' Hc']]; [by eapply least_unique| | |by eapply least_unique].
  - by destruct (Hno' c (proj1 Hc)).
  - by destruct (Hno c' (proj1 Hc')).
Qed.

Lemma elect_whole y d c : whole y → d ∈ up y → would_elect y c →
  let y' := elect d y in
  whole y' ∧ up y' = up y ∧ head y' d = Some c ∧ would_elect y' c ∧
  (∀ e, head y e = Some c → head y' e = Some c) ∧ rtc step y y'.
Proof.
  intros Hw Hd Hc. cbn zeta. unfold elect.
  assert (Candidate y d = c) as -> by (eapply would_elect_unique; [by apply whole_candidate|done]).
  case_decide as Hhd; [by split_and!|]. split_and!; [exact Hw|done|apply fn_lookup_insert| | |].
  - assert (c ∈ up y) as Hup by (destruct Hc as [[[? _] _]|[_ [? _]]]; done).
    left. split.
    + split; [done|]. exists d. split; [done|apply fn_lookup_insert].
    + intros x [Hx (e & He & Hhe)]. cbn in Hhe, Hx. destruct (decide (d = e)) as [<-|Hne].
      { rewrite fn_lookup_insert in Hhe. injection Hhe as <-. reflexivity. }
      rewrite fn_lookup_insert_ne in Hhe by done. assert (common y x) as Hcx by (split; eauto).
      destruct Hc as [[_ Hle]|[Hno _]]; [by apply Hle|by destruct (Hno x)].
  - intros e He. cbn. fn_cases; done.
  - apply rtc_once. replace c with (Candidate y d) by (eapply would_elect_unique; [by apply whole_candidate|done]).
    destruct (Hw d Hd) as [Hheard Hal]. apply Elect; [done| |].
    + intros Heq. rewrite Heq in Hhd. apply Hhd. f_equal.
      eapply would_elect_unique; [by apply whole_candidate|done].
    + rewrite decide_True by done. intros e He Hne. apply Hal in He as [->|He]; done.
Qed.

Lemma round_whole l y c : whole y → (∀ d, d ∈ l → d ∈ up y) → would_elect y c →
  up (round l y) = up y ∧ rtc step y (round l y) ∧
  (∀ d, d ∈ l ∨ head y d = Some c → head (round l y) d = Some c).
Proof.
  revert y. induction l as [|d l IH]; intros y Hw Hl Hc; cbn [round].
  { split_and!; [done|done|]. intros d [Hd|Hd]; [by apply not_elem_of_nil in Hd|done]. }
  destruct (elect_whole y d c) as (Hw' & Hup & Hhd & Hc' & Hkeep & Hst); [done|set_solver|done|].
  destruct (IH (elect d y)) as (Hup' & Hst' & Hall); [done|rewrite Hup; set_solver|done|].
  split_and!; [by rewrite Hup', Hup|by etrans|].
  intros e [[->|He]%elem_of_cons|He]; apply Hall; [by right|by left|right; by apply Hkeep].
Qed.

Lemma reachable_settled d0 y h : reachable d0 y → Agreed y h → settled y = Some h.
Proof.
  intros Hr [Hup Hall]. destruct Hr as [|y y' _ Hs]; [by specialize (Hall h Hup)|].
  rewrite (step_settled y y' Hs). unfold NextSettled.
  destruct (find_first _ _) as [h'|] eqn:Hf.
  - apply find_first_Some in Hf as [_ Hf]. apply bool_decide_eq_true in Hf as [_ Hf]. cbn in Hf.
    specialize (Hf h Hup). rewrite (Hall h Hup) in Hf. by injection Hf as ->.
  - unfold find_first in Hf. rewrite find_map_None in Hf. specialize (Hf h). cbn in Hf.
    rewrite bool_decide_eq_true_2 in Hf; [|done]. discriminate Hf. by apply elem_of_elements.
Qed.
Lemma reachable_rtc d0 y y' : reachable d0 y → rtc step y y' → reachable d0 y'.
Proof. intros Hr Hs. induction Hs as [|y y1 y2 Hs _ IH]; [done|]. apply IH. by eapply reach_step. Qed.

(** C28: daemons that all have links to each other, and to none that is down,
    agree after one round. A link to a crashed daemon that its end has not
    noticed yet is out of this: until the link drops, a daemon may keep
    electing the dead one. Let every live daemon take one turn to elect, in any
    order, while no link changes: each turn is a step
    of the protocol or none, and at the end all of them follow one live daemon,
    the one the first of them picked, and that head is settled. *)
Theorem one_round_agrees (d0 : gset string) (y : Sys) (l : list string) (d : string)
    (Hr : reachable d0 y) (Hwhole : whole y) (Hl : ∀ x, x ∈ l ↔ x ∈ up y) (Hd : d ∈ up y) :
  rtc step y (round l y) ∧ Agreed (round l y) (Candidate y d) ∧ settled (round l y) = Some (Candidate y d).
Proof.
  set (c := Candidate y d). assert (would_elect y c) as Hc by by apply whole_candidate.
  destruct (round_whole l y c) as (Hup & Hst & Hall); [done|intros x; apply Hl|done|].
  assert (Agreed (round l y) c) as Hag.
  { split; [rewrite Hup; destruct Hc as [[[? _] _]|[_ [? _]]]; done|].
    intros x Hx. rewrite Hup in Hx. apply Hall. left. by apply Hl. }
  split_and!; [done|done|]. by apply (reachable_settled d0), Hag; apply (reachable_rtc d0 y).
Qed.

(** ** The code plays the protocol *)

(** A head id as the code keeps it: the empty string is no head. *)
Definition as_head (h : string) : option string := if str_empty h then None else Some h.

(** What a daemon's state shows of the system: its links are its live peers,
    whose last snapshots name their heads. *)
Record sees (y : Sys) (d : string) (s : State) : Prop := {
  se_id : node_id s = d;
  se_keyed : peers_keyed s;
  se_links i : i ∈ link y d ↔ ∃ p, peers s !! i = Some p ∧ pe_alive p = true;
  se_head : as_head (head_node_id s) = head y d;
  se_reports i p : peers s !! i = Some p → pe_alive p = true → (h ← published_head p; as_head h) = head y i }.

Lemma as_head_Some h x : as_head h = Some x ↔ x = h ∧ h ≠ "".
Proof. unfold as_head, str_empty. case_bool_decide; naive_solver. Qed.

Section refinement.
Context `{HI : HashIter} (y : Sys) (d : string) (s : State) (Hsees : sees y d s).

Lemma sees_alive i : live_id s i ↔ Alive y d i.
Proof. unfold live_id, Alive. rewrite (se_links y d s Hsees), (se_id y d s Hsees). done. Qed.

Lemma sees_followed h : followed s h ↔ hears y d h.
Proof.
  unfold followed, hears. rewrite sees_alive. split.
  - intros (Hne & Hal & [->|(k & p & Hk & Ha & Hp)]); (split; [done|]).
    + exists d. split; [by left|]. rewrite <-(se_head y d s Hsees). by apply as_head_Some.
    + exists k. split; [right; apply (se_links y d s Hsees); eauto|].
      rewrite <-(se_reports y d s Hsees k p Hk Ha), Hp. by apply as_head_Some.
  - intros (Hal & e & [->|He] & Hhe).
    + rewrite <-(se_head y d s Hsees) in Hhe. apply as_head_Some in Hhe as [-> Hne]. auto.
    + apply (se_links y d s Hsees) in He as (p & Hp & Ha).
      rewrite <-(se_reports y d s Hsees e p Hp Ha) in Hhe. destruct (published_head p) as [x|] eqn:Hx; [|done].
      cbn in Hhe. apply as_head_Some in Hhe as [-> Hne]. split_and!; [done|done|]. right. eauto.
Qed.

Lemma sees_candidate : head_candidate s = Candidate y d.
Proof.
  destruct (head_candidate_least s (se_keyed y d s Hsees)) as [Hc|[Hno Hc]], (Candidate_least y d) as [Hd|[Hno' Hd]].
  - eapply least_unique; [|exact Hd]. by apply (least_ext (followed s) _ _ sees_followed).
  - destruct Hc as [Hf _]. by destruct (Hno' _ (proj1 (sees_followed _) Hf)).
  - destruct Hd as [Hf _]. by destruct (Hno _ (proj2 (sees_followed _) Hf)).
  - eapply least_unique; [|exact Hd]. by apply (least_ext (live_id s) _ _ sees_alive).
Qed.
End refinement.

(** C4: the elector implements the protocol. Where a daemon's state shows its
    part of a well-formed system, its candidate is the protocol's, and a turn
    of its elector is either no step or the protocol's Elect, after which its
    state shows the new system. The hypothesis on timing is the spec's: a
    daemon past its boot wait that has heard anyone has links to every live
    daemon, and one that has heard no one is alone. *)
Theorem elector_refines (HI : HashIter) (t : ElectorTurn) (l : Elector) (y : Sys) (d : string)
    (Hwf : well_formed y) (Hsees : sees y d (st (tk_world t))) (Hup : d ∈ up y)
    (Htiming : heard_now t l →
       if decide (d ∈ heard y) then ∀ e, e ∈ up y → e ≠ d → e ∈ link y d else d ∈ waited y) :
  tk_candidate t = Candidate y d ∧
  ((turn t l).2 = tk_world t ∨
   let y' := settle (y <| head ::= <[d := Some (Candidate y d)]> |>) in
   step y y' ∧ sees y' d (st (turn t l).2)).
Proof.
  pose proof (sees_candidate y d _ Hsees) as Hc. split; [done|].
  destruct (turn_cases t l) as [(Hh & (Hne & _) & ->)|[(_ & _ & ->)|[_ ->]]]; [|by left..].
  right. cbn zeta. cbn [snd]. unfold tk_candidate, tk_head in *. rewrite Hc in *.
  destruct t as [E ms w]. cbn [tk_env tk_up tk_world] in *. split.
  - apply Elect; [done| |by apply Htiming]. rewrite <-(se_head y d _ Hsees). intros Heq.
    apply as_head_Some in Heq as [Heq _]. congruence.
  - pose proof (Candidate_alive y d) as Hal.
    assert (Candidate y d ≠ "") as Hid.
    { apply (wf_ids y Hwf). destruct Hal as [->|Hal]; [by left|right; left; eauto]. }
    pose proof (commit_head_reads E peers (Candidate y d) w ltac:(by intros ? ? ->) ltac:(done)) as Hpeers.
    pose proof (commit_head_reads E node_id (Candidate y d) w ltac:(by intros ? ? ->) ltac:(done)) as Hnode.
    pose proof (commit_head_head E (Candidate y d) w) as Hhead. cbn in Hpeers, Hnode.
    set (w' := (commit_head E _ w).2) in *. split; unfold peers_keyed; rewrite ?Hpeers, ?Hnode, ?Hhead; try apply Hsees.
    + cbn. rewrite fn_lookup_insert. by apply as_head_Some.
    + intros i p Hp Ha. cbn. rewrite fn_lookup_insert_ne; [by apply (se_reports y d _ Hsees)|].
      intros <-. apply (wf_no_self y Hwf d), (se_links y d _ Hsees). eauto.
Qed.

(** ** Instances *)

(** [n2] follows itself and its live peer [n1] reports [n9], dead here, as head. *)
Definition demo_voter (h : string) : World :=
  (demo_node "n2") <| st ::= λ s, s <| peers := {[ "n1" := demo_peer "n1" "n9" ]} |> <| head_node_id := h |> |>.

Lemma demo_voter_keyed h : peers_keyed (st (demo_voter h)).
Proof. intros k p Hp. change (({[ "n1" := demo_peer "n1" "n9" ]} : gmap string PeerInfo) !! k = Some p) in Hp.
  apply lookup_singleton_Some in Hp as [<- <-]. reflexivity. Qed.

Lemma head_candidate_spec_witness : live_id (st (demo_voter "n2")) "n2".
Proof. exact (proj1 (proj2 (proj2 (head_candidate_spec in_key_order (st (demo_voter "n2")) (demo_voter_keyed "n2"))))). Defined.

Definition demo_turn (up : N) : ElectorTurn := mkTurn demo_env up (demo_voter "").
Lemma hold_down_respected_witness :
  head_node_id (st (@turn in_key_order (demo_turn 7000)
    (@elector_run in_key_order (mkElector false None) [demo_turn 1000; demo_turn 2000])).2) = "n1".
Proof.
  refine (proj1 (@hold_down_respected in_key_order false [demo_turn 1000; demo_turn 2000] (demo_turn 7000) _)).
  vm_compute. discriminate.
Defined.
Lemma hold_down_ends_witness :
  ∃ pre t' post, [demo_turn 1000; demo_turn 7000] = pre ++ t' :: post ∧
    head_node_id (st (@turn in_key_order t' (@elector_run in_key_order (mkElector false None) pre)).2) = "n1".
Proof.
  refine (@hold_down_ends in_key_order "n1" (mkElector false None) (demo_turn 1000) (demo_turn 7000) [] _ _ _ _).
  - intros t [->|[->|[]%not_elem_of_nil]%elem_of_cons]%elem_of_cons; (split; [vm_compute; reflexivity|vm_compute; discriminate]).
  - right; left. vm_compute. reflexivity.
  - discriminate.
  - vm_compute. discriminate.
Defined.

(** A daemon alone waits out its boot, elects itself and is settled; a second
    one boots. *)
Definition demo_waits : Sys := settle ((Init {["n1"]}) <| waited ::= λ s, {["n1"]} ∪ s |>).
Definition demo_settled : Sys := settle (demo_waits <| head ::= <["n1" := Some (Candidate demo_waits "n1")]> |>).
Definition demo_booted : Sys := settle (demo_settled <| up ::= λ s, {["n2"]} ∪ s |>).

Lemma demo_settled_reachable : reachable {["n1"]} demo_settled.
Proof.
  apply (reach_step _ demo_waits); [apply (reach_step _ (Init {["n1"]})); [apply reach_init|]|].
  - apply (BootWaitEnds (Init {["n1"]}) "n1"); [set_solver..|]. intros e He. cbn in He. set_solver.
  - apply (Elect demo_waits "n1"); [cbn; set_solver|vm_compute; discriminate|].
    rewrite decide_False by (cbn; set_solver). cbn. set_solver.
Qed.
Lemma demo_booted_step : step demo_settled demo_booted.
Proof. apply (Boot demo_settled "n2"); [discriminate|]. cbn. set_solver. Qed.

Lemma reachable_well_formed_witness : well_formed demo_settled.
Proof. apply (reachable_well_formed {["n1"]}); [set_solver|exact demo_settled_reachable]. Defined.

Lemma stable_head_witness : head demo_booted "n1" = Some "n1" ∧ settled demo_booted = Some "n1".
Proof.
  destruct (stable_head {["n1"]} demo_settled demo_booted "n1" "n1") as (Hf & _ & Hset);
    [set_solver|exact demo_settled_reachable|exact demo_booted_step|vm_compute; reflexivity|cbn; set_solver..|].
  split; [apply Hf; vm_compute; reflexivity|exact Hset].
Defined.

(** What the voter of the hold-down instances sees. *)
Definition demo_sys : Sys :=
  mkSys {["n1"; "n2"]} (λ i, if decide (i = "n1") then Some "n9" else None)
    (λ i, if decide (i = "n2") then {["n1"]} else if decide (i = "n1") then {["n2"]} else ∅)
    {["n1"; "n2"]} ∅ None.

Lemma demo_sys_well_formed : well_formed demo_sys.
Proof.
  split; cbn.
  - intros d Hd. rewrite !decide_False by set_solver. set_solver.
  - intros d Hd. rewrite !decide_False by set_solver. auto.
  - intros d. repeat case_decide; set_solver.
  - intros d [Hd|[[e He]|[e He]]]; [set_solver| |]; repeat case_decide; set_solver.
  - done.
Qed.

Lemma demo_sees : sees demo_sys "n2" (st (demo_voter "")).
Proof.
  assert (peers (st (demo_voter "")) = {[ "n1" := demo_peer "n1" "n9" ]}) as Hp by (vm_compute; reflexivity).
  split; [vm_compute; reflexivity|apply demo_voter_keyed| |vm_compute; reflexivity|]; rewrite Hp; cbn [link head demo_sys].
  - intros i. rewrite decide_True by done. rewrite elem_of_singleton. split.
    + intros ->. eexists. split; [apply lookup_singleton_eq|reflexivity].
    + by intros (p & [<- _]%lookup_singleton_Some & _).
  - intros i p [<- <-]%lookup_singleton_Some _. vm_compute. reflexivity.
Qed.

Lemma elector_refines_witness :
  @tk_candidate in_key_order (demo_turn 7000) = Candidate demo_sys "n2".
Proof.
  refine (proj1 (elector_refines in_key_order (demo_turn 7000) (mkElector true (Some ("n1", 1000%N))) demo_sys "n2"
    demo_sys_well_formed demo_sees _ _)).
  - cbn. set_solver.
  - intros _. rewrite decide_True by (cbn; set_solver). cbn. intros e He Hne. set_solver.
Defined.

Definition demo_linked : Sys := settle (link_up "n2" "n1" (Init {["n1"; "n2"]})).
Lemma demo_linked_reachable : reachable {["n1"; "n2"]} demo_linked.
Proof.
  apply (reach_step _ (Init {["n1"; "n2"]})); [apply reach_init|].
  apply (Link (Init {["n1"; "n2"]}) "n2" "n1"); [discriminate|cbn; set_solver..].
Qed.
Lemma demo_linked_whole : whole demo_linked.
Proof.
  intros d Hd. cbn in Hd |- *. split; [set_solver|]. intros x. unfold Alive. cbn.
  unfold insert, fn_insert. repeat case_decide; set_solver.
Qed.
Lemma one_round_agrees_witness : settled (round ["n2"; "n1"] demo_linked) = Some "n1".
Proof.
  refine (proj2 (proj2 (one_round_agrees {["n1"; "n2"]} demo_linked ["n2"; "n1"] "n2"
    demo_linked_reachable demo_linked_whole _ _))).
  - intros x. cbn. set_solver.
  - cbn. set_solver.
Defined.
