(* ===== verification/Fabric.v ===== *)
(** * The island keeper (rust/mentatd/src/island.rs)

    [run] gathers a [FabricView] from this daemon's tags, its live peers and
    what they publish of theirs, derives the islands, and puts them in force
    once they have held still for the hold-down; a waiting group may then fit.
    What it logs about pruned and unverified ports is not modelled. *)

From S2P Require Import Prelude HoldDown Json Proto Addr Island State Status Placement Actors Clients Agents Head Mesh.

Section fabric.
Context `{HI : HashIter} (E : Env).

(** ** The view *)

Definition tag_map (v : Value) : gmap string (list string) :=
  collect_map ((λ '(k, t), (k, str_list t)) <$> entries v).
Definition add_ok (v : FabricView) (pairs : list (string * string)) : FabricView :=
  v <| v_ok_pairs ::= λ s, s ∪ list_to_set pairs |>.

(** The answered pairs of a published probe table, and of a peer's own. *)
Definition json_ok (v : Value) : bool := default false (as_bool (index "ok" v)).
Definition published_ok (q : Value) : list (string * string) :=
  entries (index "probes" q) ≫= λ '(local, remotes),
    omap (λ '(remote, r), if json_ok r then Some (local, remote) else None) (entries remotes).
Definition probed_ok (p : PeerInfo) : list (string * string) :=
  bt_iter (pe_probe_pairs p) ≫= λ '(local, remotes),
    omap (λ '(remote, r), if pp_ok r then Some (local, remote) else None) (bt_iter remotes).

Definition merge_row (v : FabricView) (x : string * Value) : FabricView :=
  let '(id_, q) := x in
  if negb (default false (as_bool (index "alive" q))) then v
  else add_ok (note v id_ (str_list (index "addrs" q)) (tag_map (index "addr_tags" q))) (published_ok q).
Definition merge_published (v : FabricView) (ps : Value) : FabricView := foldl merge_row v (entries ps).

Definition gather_peer (v : FabricView) (p : PeerInfo) : FabricView :=
  let v := add_ok (note v (pe_node_id p) (pe_addrs p) (pe_addr_tags p)) (probed_ok p) in
  merge_published v (index "peers" (pe_last_status p)).
Definition gather (s : State) : FabricView :=
  foldl gather_peer (note view_default (node_id s) (local_addrs (host E)) (local_addr_tags (host E))) (live_peers s).

(** ** The keeper *)

Definition fresh_fabrics (s : State) : Fabrics := (fabrics (gather s)).1.
Definition island_json (i : Island) : Value :=
  obj_of [("nodes", Jstrs (i_nodes i)); ("addrs", Jstrmap (i_addr i))].
Definition commit_fabrics (fresh : Fabrics) : SM unit :=
  modify_st (λ s, s <| st_fabrics := fresh |>) ;;
  emit_patch E "islands_changed" [patch_set ["islands"] (Arr (island_json <$> f_islands fresh))]
    (pretty (size (f_tagged fresh)) +:+ " tagged nodes") ;;
  try_place E ;;
  notify_all.

(** One turn, [up] ms after boot; the candidate it keeps is the result. The turn
    takes the lock three times: [gathered] is the state the first section
    read, and other threads may have run since. The second compares and the
    third commits; nothing but the keeper writes the fabrics, so what the
    comparison reads is what the commit replaces. *)
Definition keeper_turn (gathered : State) (up : N) (candidate : option (Fabrics * N)) : SM (option (Fabrics * N)) :=
  s ← get_st id;
  let fresh := fresh_fabrics gathered in
  if decide (st_fabrics s = fresh) then mret None
  else match candidate with
  | Some (c, since) =>
      if decide (c = fresh) then
        if bool_decide (saturating_sub up since < island_hold_down_ms (cfg E))%N then mret (Some (c, since))
        else commit_fabrics fresh ;; mret None
      else mret (Some (fresh, up))
  | None => mret (Some (fresh, up))
  end.
End fabric.

(** ** What the keeper reports *)

(** The time between two turns. *)
Definition keeper_tick (hold_down : N) : N := N.min (N.max (hold_down / 5) 100) 1000.

(** The pruned ports a turn logs: those the turn before did not have. *)
Definition port_key (p : Pruned) : string * string := (p_node p, p_addr p).
Definition report_pruned (was : gset (string * string)) (pruned : list Pruned) : list Pruned * gset (string * string) :=
  (filter (λ p, port_key p ∉ was) pruned, list_to_set (port_key <$> pruned)).

(** The tagged addresses a turn logs, with their node: those no answered pair
    holds and that were not logged before; an answer forgets the log. *)
Definition report_addr (confirmed : gset string) (node : string) (acc : list (string * string) * gset string) (a : string)
    : list (string * string) * gset string :=
  let '(out, unverified) := acc in
  if decide (a ∈ confirmed) then (out, unverified ∖ {[a]})
  else if decide (a ∈ unverified) then (out, unverified) else (out ++ [(node, a)], {[a]} ∪ unverified).
Definition confirmed_addrs (v : FabricView) : gset string :=
  set_map fst (v_ok_pairs v) ∪ set_map snd (v_ok_pairs v).
Definition report_unverified (v : FabricView) (unverified : gset string) : list (string * string) * gset string :=
  foldl (λ acc '(node, addrs), foldl (report_addr (confirmed_addrs v) node) acc addrs) ([], unverified) (bt_iter (v_rdma v)).

Lemma report_addrs C n addrs acc (r := foldl (report_addr C n) acc addrs) :
  (∀ b, b ∈ r.1.*2 ↔ b ∈ acc.1.*2 ∨ (b ∈ addrs ∧ (b ∉ C) ∧ (b ∉ acc.2))) ∧
  (∀ b, b ∉ C → (b ∈ r.2 ↔ b ∈ acc.2 ∨ b ∈ addrs)).
Proof.
  subst r. revert acc. induction addrs as [|a addrs IH]; intros acc; cbn [foldl];
    [split; [intros b|intros b _]; rewrite elem_of_nil; naive_solver|].
  destruct (IH (report_addr C n acc a)) as [H1 H2].
  assert ((∀ b, b ∈ (report_addr C n acc a).1.*2 ↔ b ∈ acc.1.*2 ∨ (b = a ∧ (b ∉ C) ∧ (b ∉ acc.2))) ∧
          (∀ b, b ∉ C → (b ∈ (report_addr C n acc a).2 ↔ b ∈ acc.2 ∨ b = a))) as [E1 E2].
  { destruct acc as [out u]. cbn [report_addr fst snd].
    destruct (decide (a ∈ C)); [|destruct (decide (a ∈ u))]; cbn [fst snd]; split; intros b;
      rewrite ?fmap_app, ?elem_of_app, ?elem_of_difference, ?elem_of_union, ?elem_of_singleton; cbn [fmap list_fmap snd];
      rewrite ?list_elem_of_singleton; destruct (decide (b = a)) as [->|]; tauto. }
  split; intros b; rewrite elem_of_cons.
  - rewrite H1, E1. destruct (decide (b ∈ C)); [tauto|]. rewrite E2 by done.
    destruct (decide (b = a)); tauto.
  - intros Hb. rewrite H2, E2 by done. tauto.
Qed.

(** An address is named when a node tags it, no answered pair holds it and it
    was not named before. *)
Lemma report_unverified_spec v unverified b :
  b ∈ (report_unverified v unverified).1.*2 ↔
  (∃ node addrs, v_rdma v !! node = Some addrs ∧ b ∈ addrs) ∧ (b ∉ confirmed_addrs v) ∧ (b ∉ unverified).
Proof.
  unfold report_unverified. set (C := confirmed_addrs v).
  assert (∀ (l : list (string * list string)) acc,
    let r := foldl (λ acc '(node, addrs), foldl (report_addr C node) acc addrs) acc l in
    (b ∈ r.1.*2 ↔ b ∈ acc.1.*2 ∨ (∃ node addrs, (node, addrs) ∈ l ∧ b ∈ addrs) ∧ (b ∉ C) ∧ (b ∉ acc.2))) as H.
  { induction l as [|[n addrs] l IH]; intros acc; cbn [foldl].
    { split; [by left|]. intros [?|[(? & ? & []%not_elem_of_nil & _) _]]; done. }
    cbv zeta in *. rewrite IH. destruct (report_addrs C n addrs acc) as [H1 H2]. rewrite H1.
    assert ((∃ node a, (node, a) ∈ (n, addrs) :: l ∧ b ∈ a) ↔ b ∈ addrs ∨ ∃ node a, (node, a) ∈ l ∧ b ∈ a) as ->.
    { setoid_rewrite elem_of_cons. split; [intros (? & ? & [[= -> ->]|?] & ?); [by left|right; eauto]|].
      intros [?|(? & ? & ? & ?)]; eauto 6. }
    destruct (decide (b ∈ C)); [tauto|]. rewrite H2 by done.
    destruct (decide (b ∈ addrs)), (decide (b ∈ acc.2)); tauto. }
  rewrite H. cbn [fst snd fmap list_fmap]. rewrite elem_of_nil. setoid_rewrite elem_of_bt_iter. tauto.
Qed.

(** A turn that looks again at what it saw logs nothing again. *)
Lemma report_pruned_once was pruned : (report_pruned (report_pruned was pruned).2 pruned).1 = [].
Proof.
  cbn. apply elem_of_nil_inv. intros p [Hno Hp]%list_elem_of_filter. apply Hno.
  apply elem_of_list_to_set, list_elem_of_fmap. eauto.
Qed.

(** An address that answered and then lost its cable is named again, with the
    words for one that never did. *)
Example named_again :
  let tagged := {[ "n1" := ["10.1.0.1"] ]} in
  let up := mkView tagged {[ ("10.1.0.1", "10.1.0.2") ]} in
  let down := mkView tagged ∅ in
  (report_unverified down ∅).1 = [("n1", "10.1.0.1")] ∧
  (report_unverified down (report_unverified up (report_unverified down ∅).2).2).1 = [("n1", "10.1.0.1")] ∧
  (report_unverified down (report_unverified down ∅).2).1 = [].
Proof. by vm_compute. Qed.

(** ** What the view is made of *)

(** A node as some source shows it: its id, addresses, tags and answered
    pairs. *)
Record Sighting := mkSighting {
  si_node : string; si_addrs : list string; si_tags : gmap string (list string);
  si_ok : list (string * string) }.
Definition see (v : FabricView) (x : Sighting) : FabricView :=
  add_ok (note v (si_node x) (si_addrs x) (si_tags x)) (si_ok x).

(** A live peer as this daemon knows it, and as a row shows it. *)
Definition sight_peer (p : PeerInfo) : Sighting :=
  mkSighting (pe_node_id p) (pe_addrs p) (pe_addr_tags p) (probed_ok p).
Definition sight_row (x : string * Value) : option Sighting :=
  if default false (as_bool (index "alive" x.2))
  then Some (mkSighting x.1 (str_list (index "addrs" x.2)) (tag_map (index "addr_tags" x.2)) (published_ok x.2))
  else None.
Definition sight_published (p : PeerInfo) : list Sighting := omap sight_row (published_rows p).

Section view_facts.
Context `{HI : HashIter} (E : Env).

Definition sightings (s : State) : list Sighting :=
  mkSighting (node_id s) (local_addrs (host E)) (local_addr_tags (host E)) [] ::
  (live_peers s ≫= λ p, sight_peer p :: sight_published p).

Lemma merge_published_see v l : foldl merge_row v l = foldl see v (omap sight_row l).
Proof.
  revert v. induction l as [|[i q] l IH]; intros v; [done|]. cbn [foldl omap list_omap]. rewrite IH.
  unfold sight_row at 2, merge_row. cbn [fst snd]. by destruct (default false _).
Qed.

Lemma gather_see s : gather E s = foldl see view_default (sightings s).
Proof.
  unfold gather, sightings. cbn [foldl].
  assert (see view_default (mkSighting (node_id s) (local_addrs (host E)) (local_addr_tags (host E)) [])
    = note view_default (node_id s) (local_addrs (host E)) (local_addr_tags (host E))) as ->.
  { unfold see, add_ok. cbn. destruct (note _ _ _ _) as [r o] eqn:Hn. unfold update_with. cbn. f_equal. set_solver. }
  generalize (note view_default (node_id s) (local_addrs (host E)) (local_addr_tags (host E))) as v.
  induction (live_peers s) as [|p l IH]; intros v; [done|]. cbn [foldl mbind list_bind]. rewrite IH.
  rewrite foldl_app. cbn [foldl]. unfold gather_peer, merge_published, sight_published, published_rows.
  by rewrite merge_published_see.
Qed.

Definition tagged (x : Sighting) : list string := filter (λ a, is_rdma (si_tags x) a = true) (si_addrs x).

Lemma foldl_see_ok l v a b :
  (a, b) ∈ v_ok_pairs (foldl see v l) ↔ (a, b) ∈ v_ok_pairs v ∨ ∃ x, x ∈ l ∧ (a, b) ∈ si_ok x.
Proof.
  revert v. induction l as [|x l IH]; intros v; cbn [foldl]; [set_solver|]. rewrite IH.
  assert (v_ok_pairs (see v x) = v_ok_pairs v ∪ list_to_set (si_ok x)) as ->.
  { unfold see, add_ok, note. by destruct (nonempty _). }
  rewrite elem_of_union, elem_of_list_to_set. setoid_rewrite elem_of_cons. naive_solver.
Qed.

Lemma foldl_see_tagged l v n addrs :
  v_rdma (foldl see v l) !! n = Some addrs →
  v_rdma v !! n = Some addrs ∨ ∃ x, x ∈ l ∧ si_node x = n ∧ tagged x = addrs ∧ addrs ≠ [].
Proof.
  revert v. induction l as [|x l IH]; intros v; cbn [foldl]; [by left|]. intros [Hv|(y & Hy & ?)]%IH.
  2: { right. exists y. split; [by right|done]. }
  unfold see, add_ok, note in Hv. fold (tagged x) in Hv. destruct (tagged x) as [|a t] eqn:Ht; [by left|].
  cbn in Hv. apply lookup_insert_Some in Hv as [[<- <-]|[_ Hv]]; [|by left].
  right. exists x. split; [left|]. by rewrite Ht.
Qed.

Lemma foldl_see_dom l v n :
  is_Some (v_rdma (foldl see v l) !! n) ↔
    is_Some (v_rdma v !! n) ∨ ∃ x, x ∈ l ∧ si_node x = n ∧ tagged x ≠ [].
Proof.
  revert v. induction l as [|x l IH]; intros v; cbn [foldl].
  { split; [by left|]. intros [|(x & Hx & _)]; [done|by apply not_elem_of_nil in Hx]. }
  rewrite IH. assert (is_Some (v_rdma (see v x) !! n) ↔ is_Some (v_rdma v !! n) ∨ si_node x = n ∧ tagged x ≠ []) as ->.
  { unfold see, add_ok, note. fold (tagged x). destruct (tagged x) as [|a t]; cbn; [naive_solver|].
    destruct (decide (si_node x = n)) as [->|Hne]; [rewrite lookup_insert_eq|rewrite lookup_insert_ne by done]; naive_solver. }
  setoid_rewrite elem_of_cons. naive_solver.
Qed.

(** The view a daemon derives islands from is what its own interfaces, its
    live peers and the live rows those publish show, and nothing else: the
    answered pairs and the tagged nodes are exactly theirs, whatever order the
    peers are walked in, and a tagged node's addresses are the tagged ones of
    one of its sightings. *)
Theorem gather_spec (s : State) :
  (∀ a b, (a, b) ∈ v_ok_pairs (gather E s) ↔ ∃ x, x ∈ sightings s ∧ (a, b) ∈ si_ok x) ∧
  (∀ n, n ∈ f_tagged (fresh_fabrics E s) ↔ ∃ x, x ∈ sightings s ∧ si_node x = n ∧ tagged x ≠ []) ∧
  (∀ n addrs, v_rdma (gather E s) !! n = Some addrs →
     ∃ x, x ∈ sightings s ∧ si_node x = n ∧ addrs = tagged x ∧ addrs ≠ []) ∧
  (∀ x, x ∈ sightings s ↔
     x = mkSighting (node_id s) (local_addrs (host E)) (local_addr_tags (host E)) [] ∨
     ∃ k p, peers s !! k = Some p ∧ pe_alive p = true ∧
       (x = sight_peer p ∨ ∃ i q, (i, q) ∈ published_rows p ∧ sight_row (i, q) = Some x)).
Proof.
  split_and!.
  - intros a b. rewrite gather_see, foldl_see_ok. cbn. set_solver.
  - intros n. unfold fresh_fabrics, fabrics. destruct (islands (gather E s)) as [out pruned]. cbn.
    rewrite elem_of_dom, gather_see, foldl_see_dom. cbn. rewrite lookup_empty. unfold is_Some. naive_solver.
  - intros n addrs. rewrite gather_see. intros [Hv|(x & Hx & Hn & <- & Hne)]%foldl_see_tagged; [by cbn in Hv; rewrite lookup_empty in Hv|].
    eauto.
  - intros x. unfold sightings. rewrite elem_of_cons, list_elem_of_bind. setoid_rewrite elem_of_live_peers.
    setoid_rewrite elem_of_cons. unfold sight_published. setoid_rewrite list_elem_of_omap. split.
    + intros [->|(p & [->|([i q] & Hq & Hx)] & k & Hk & Ha)]; [by left| |]; right; exists k, p; eauto 8.
    + intros [->|(k & p & Hk & Ha & [->|(i & q & Hq & Hx)])]; [by left| |]; right; exists p; split; eauto.
Qed.
End view_facts.

(** ** What is published is what is read *)

Lemma str_list_Jstrs l : str_list (Jstrs l) = l.
Proof. unfold str_list, Jstrs, items. cbn. induction l as [|x l IH]; [done|]. cbn. by f_equal. Qed.
Lemma tag_map_Jmap m : tag_map (Jmap Jstrs m) = m.
Proof.
  unfold tag_map, Jmap, entries. cbn. rewrite <-list_fmap_compose.
  etrans; [|apply (collect_bt_iter m)]. f_equal. rewrite <-(list_fmap_id (bt_iter m)) at 2.
  apply list_fmap_ext. intros i [k t] _. change ((k, str_list (Jstrs t)) = (k, t)). by rewrite str_list_Jstrs.
Qed.

Lemma published_ok_row (local : string) rs :
  omap (λ '(remote, r), if json_ok r then Some (local, remote) else None) (entries (Jmap probe_json rs)) =
  omap (λ '(remote, r), if pp_ok r then Some (local, remote) else None) (bt_iter rs).
Proof.
  change (entries (Jmap probe_json rs)) with ((λ '(k, x), (k, probe_json x)) <$> bt_iter rs).
  induction (bt_iter rs) as [|[r x] t IH]; [done|]. rewrite fmap_cons. cbn [omap list_omap]. rewrite IH.
  change (json_ok (probe_json x)) with (pp_ok x). by destruct (pp_ok x).
Qed.
Lemma published_probe_table p : published_ok (peer_row p) = probed_ok p.
Proof.
  unfold published_ok. change (index "probes" (peer_row p)) with (probe_table p).
  change (entries (probe_table p)) with ((λ '(k, x), (k, Jmap probe_json x)) <$> bt_iter (pe_probe_pairs p)).
  unfold probed_ok. induction (bt_iter (pe_probe_pairs p)) as [|[l rs] t IH]; [done|].
  rewrite fmap_cons, !bind_cons. rewrite IH. by rewrite published_ok_row.
Qed.

(** A row a daemon publishes shows its reader the peer as the publisher
    knows it: the same addresses, tags and answered pairs, filed under the
    row's key, and nothing for a peer the publisher holds dead. So a daemon
    learns of links it does not probe itself. *)
Theorem published_row_roundtrip (p : PeerInfo) :
  sight_row (pe_node_id p, peer_row p) = if pe_alive p then Some (sight_peer p) else None.
Proof.
  unfold sight_row, sight_peer. cbn [fst snd]. rewrite published_probe_table.
  change (index "alive" (peer_row p)) with (Bool (pe_alive p)).
  change (index "addrs" (peer_row p)) with (Jstrs (pe_addrs p)).
  change (index "addr_tags" (peer_row p)) with (Jmap Jstrs (pe_addr_tags p)).
  rewrite str_list_Jstrs, tag_map_Jmap. by destruct (pe_alive p).
Qed.

(** ** The hold-down *)

Section keeper.
Context `{HI : HashIter}.

Record KeeperTurn := mkKTurn { kt_env : Env; kt_up : N; kt_gathered : State; kt_world : World }.
Definition k_turn (t : KeeperTurn) (c : option (Fabrics * N)) : option (Fabrics * N) * World :=
  keeper_turn (kt_env t) (kt_gathered t) (kt_up t) c (kt_world t).
Definition keeper_run (c : option (Fabrics * N)) (ts : list KeeperTurn) : option (Fabrics * N) :=
  foldl (λ c t, (k_turn t c).1) c ts.

Definition kt_hold (t : KeeperTurn) : N := island_hold_down_ms (cfg (kt_env t)).
Definition kt_current (t : KeeperTurn) : Fabrics := st_fabrics (st (kt_world t)).
Definition kt_fresh (t : KeeperTurn) : Fabrics := fresh_fabrics (kt_env t) (kt_gathered t).
Abbreviation k_due := (due kt_up kt_hold kt_current kt_fresh).

Lemma k_turn_cases t c :
  (k_due c t ∧ k_turn t c = (None, (commit_fabrics (kt_env t) (kt_fresh t) (kt_world t)).2)) ∨
  (¬ k_due c t ∧ k_turn t c = (next_candidate kt_up kt_current kt_fresh c t, kt_world t)).
Proof.
  destruct t as [E up g w]. unfold k_turn, keeper_turn, due, next_candidate, kt_current, kt_fresh, kt_hold.
  cbn [kt_env kt_up kt_gathered kt_world]. rewrite bind_run. cbn [get_st gets fst snd id]. cbv zeta.
  destruct (decide (fresh_fabrics E g = st_fabrics (st w))) as [Heq|Hne].
  { right. rewrite decide_True by done. naive_solver. }
  rewrite decide_False by congruence. destruct c as [[c since]|]; [|right; naive_solver].
  destruct (decide (c = fresh_fabrics E g)) as [->|Hc]; [|right; naive_solver].
  case_bool_decide as Hup.
  - right. split; [|done]. intros (_ & s & [= <-] & Hle). lia.
  - left. split; [|by rewrite bind_run]. split; [done|]. exists since. split; [done|lia].
Qed.

Lemma commit_fabrics_keeps E f w : st_fabrics (st (commit_fabrics E f w).2) = f.
Proof.
  unfold commit_fabrics. rewrite bind_run. cbn [modify_st modify fst snd].
  match goal with |- context [(?k ?x).2] => assert (keeps st_fabrics k) as Hk; [|etrans; [exact (Hk x)|done]] end.
  apply keeps_bind; [apply keeps_emit; by intros ? ? ->|]. intros _.
  apply keeps_bind; [apply keeps_try_place; by intros ? ? ->|]. intros _. apply keeps_notify.
Qed.

(** C31: the islands placement uses change only to islands that the view has
    given all through the hold-down: whenever a turn of the keeper changes
    them, an earlier turn at least the hold-down before derived the same ones,
    and so did every turn between, so a link that flaps does not move them. *)
Theorem islands_hold_still (ts : list KeeperTurn) (t : KeeperTurn)
    (f' := st_fabrics (st (k_turn t (keeper_run None ts)).2))
    (Hmoved : f' ≠ kt_current t) :
  f' = kt_fresh t ∧
  ∃ pre t0 win, ts = pre ++ t0 :: win ∧ (kt_hold t ≤ kt_up t - kt_up t0)%N ∧
    ∀ t', t' ∈ t0 :: win ++ [t] → steady kt_current kt_fresh f' t'.
Proof.
  set (c := keeper_run _ ts) in *.
  assert (counted kt_up kt_current kt_fresh ts c) as Hc.
  { unfold c. clear. induction ts as [|t ts IH] using rev_ind; [apply counted_None|].
    unfold keeper_run in *. rewrite foldl_app. cbn [foldl].
    destruct (k_turn_cases t (foldl (λ c t, (k_turn t c).1) None ts)) as [[_ ->]|[_ ->]];
      [apply counted_None|by apply counted_next]. }
  subst f'. destruct (k_turn_cases t c) as [[Hdue Heq]|[_ Heq]]; rewrite Heq in *; cbn [snd] in *; [|done].
  rewrite commit_fabrics_keeps in *. split; [done|]. by apply (due_held kt_up kt_hold _ _ _ _ _ Hc).
Qed.
End keeper.

(** ** Instances

    A node with one fabric port, probing its peer's. *)

Definition demo_fabric_host : Host := mkHost ["10.1.0.1"] ["10.1.0.1"] {[ "10.1.0.1" := ["rdma"] ]} ∅ ∅.
Definition demo_fabric_env : Env := mkEnv 1000 cfg_default demo_fabric_host (λ _, None) (λ _, true) "ab".
Definition demo_cabled : PeerInfo :=
  (demo_peer "n2" "") <| pe_addrs := ["10.1.0.2"] |> <| pe_addr_tags := {[ "10.1.0.2" := ["rdma"] ]} |>
    <| pe_probe_pairs := {[ "10.1.0.1" := {[ "10.1.0.2" := mkProbe true 1 (Some 900%N) "" None None ]} ]} |>.
Definition demo_fabric : World :=
  (demo_node "n1") <| st ::= λ s, s <| peers := {[ "n2" := demo_cabled ]} |> |>.
Definition demo_k_turn (up : N) : KeeperTurn := mkKTurn demo_fabric_env up (st demo_fabric) demo_fabric.

Lemma islands_hold_still_witness :
  st_fabrics (st (@k_turn in_key_order (demo_k_turn 7000)
    (@keeper_run in_key_order None [demo_k_turn 1000; demo_k_turn 2000])).2) =
  @kt_fresh in_key_order (demo_k_turn 7000).
Proof.
  refine (proj1 (@islands_hold_still in_key_order [demo_k_turn 1000; demo_k_turn 2000] (demo_k_turn 7000) _)).
  vm_compute. discriminate.
Defined.
Example demo_fabric_islands :
  i_nodes <$> f_islands (@fresh_fabrics in_key_order demo_fabric_env (st demo_fabric)) = [["n1"; "n2"]].
Proof. vm_compute. reflexivity. Qed.
