(* ===== verification/Daemon.v ===== *)
(** * The daemon as a whole (rust/mentatd/src/daemon.rs, mesh.rs, island.rs)

    Every handler and every thread of the daemon takes the one lock, so what
    the daemon does is a sequence of critical sections. [Section_] lists them,
    [perform] runs one, and [possible] is what any interleaving of them leads
    to. The invariants of the components hold throughout. *)

From S2P Require Import Prelude Text HoldDown Json Proto Addr Island State Status Claim Placement Actors Clients.
From S2P Require Import Secret Meta Agents Sweeper Head Mesh Election Fabric.

(** ** The books *)

(** A ref that a new call may be given is in nobody's hands. *)
Definition ref_name (actor : string) (n : N) : string := actor +:+ ":" +:+ pretty n.
Definition refs_fresh (s : State) : Prop :=
  ∀ j n, (next_ref s ≤ n)%N → (n < u64_modulus)%N → refs s !! ref_name j n = None.

(** Rows are filed under their ids, claims are held, and the next ref ids are
    free. *)
Record rows_ok (s : State) : Prop := {
  ro_actors : actors_keyed s;
  ro_clients : clients_keyed s;
  ro_peers : peers_keyed s;
  ro_claims : claims_ok s;
  ro_refs : refs_fresh s }.

#[export] Instance rows_ok_stable : Stable rows_ok.
Proof. intros s s' ->. destruct s. by intros []. Qed.

Section rows.
Implicit Types s : State.

Lemma rows_frame s s' :
  actors s' = actors s → clients s' = clients s → peers s' = peers s → claims s' = claims s →
  next_ref s' = next_ref s → (∀ r, refs s !! r = None → refs s' !! r = None) → rows_ok s → rows_ok s'.
Proof.
  intros Ha Hc Hp Hl Hn Hr [R1 R2 R3 R4 R5].
  split; unfold actors_keyed, clients_keyed, peers_keyed, claims_ok, refs_fresh in *; rewrite ?Ha, ?Hc, ?Hp, ?Hl, ?Hn; auto.
Qed.

Lemma rows_actors s m : (∀ k a, m !! k = Some a → a_id a = k) → rows_ok s → rows_ok (s <| actors := m |>).
Proof. intros Hm []. by split. Qed.
Lemma rows_clients s m : (∀ k c, m !! k = Some c → c_id c = k) → rows_ok s → rows_ok (s <| clients := m |>).
Proof. intros Hm []. by split. Qed.
Lemma rows_peers s m : (∀ k p, m !! k = Some p → pe_node_id p = k) → rows_ok s → rows_ok (s <| peers := m |>).
Proof. intros Hm []. by split. Qed.
Lemma rows_refs s m : (∀ r, refs s !! r = None → m !! r = None) → rows_ok s → rows_ok (s <| refs := m |>).
Proof. intros Hm Hs. by apply (rows_frame s). Qed.

(** The ways a table is edited: a row replaced by one of its id, every row
    edited in place, rows dropped. *)
Lemma keyed_alter {A} (key : A → string) (m : gmap string A) f i :
  (∀ x, key (f x) = key x) → (∀ k x, m !! k = Some x → key x = k) →
  ∀ k x, alter f i m !! k = Some x → key x = k.
Proof.
  intros Hf Hm k x. destruct (decide (i = k)) as [->|Hne].
  - rewrite lookup_alter_eq. intros (y & Hy & ->)%fmap_Some. rewrite Hf. by apply Hm.
  - rewrite lookup_alter_ne by done. apply Hm.
Qed.
Lemma keyed_fmap {A} (key : A → string) (m : gmap string A) f :
  (∀ x, key (f x) = key x) → (∀ k x, m !! k = Some x → key x = k) →
  ∀ k x, (f <$> m) !! k = Some x → key x = k.
Proof. intros Hf Hm k x. rewrite lookup_fmap. intros (y & Hy & ->)%fmap_Some. rewrite Hf. by apply Hm. Qed.
Lemma keyed_insert {A} (key : A → string) (m : gmap string A) i x0 :
  key x0 = i → (∀ k x, m !! k = Some x → key x = k) →
  ∀ k x, <[i := x0]> m !! k = Some x → key x = k.
Proof. intros Hx Hm k x [[<- <-]|[_ Hk]]%lookup_insert_Some; [done|by apply Hm]. Qed.
Lemma keyed_delete {A} (key : A → string) (m : gmap string A) i :
  (∀ k x, m !! k = Some x → key x = k) → ∀ k x, delete i m !! k = Some x → key x = k.
Proof. intros Hm k x [_ Hk]%lookup_delete_Some. by apply Hm. Qed.
Lemma keyed_delete_all {A} (key : A → string) (m : gmap string A) l :
  (∀ k x, m !! k = Some x → key x = k) → ∀ k x, delete_all l m !! k = Some x → key x = k.
Proof. intros Hm k x [Hk _]%delete_all_Some. by apply Hm. Qed.
Lemma keyed_empty {A} (key : A → string) : ∀ k (x : A), (∅ : gmap string A) !! k = Some x → key x = k.
Proof. intros k x. by rewrite lookup_empty. Qed.

Lemma absent_fmap {A B} (f : A → B) (m : gmap string A) r : m !! r = None → (f <$> m) !! r = None.
Proof. intros H. by rewrite lookup_fmap, H. Qed.
Lemma absent_alter {A} (f : A → A) i (m : gmap string A) r : m !! r = None → alter f i m !! r = None.
Proof. intros H. apply lookup_alter_None. done. Qed.
Lemma absent_filter {A} (P : string * A → Prop) `{∀ x, Decision (P x)} (m : gmap string A) r :
  m !! r = None → filter P m !! r = None.
Proof. intros H'. apply map_lookup_filter_None. by left. Qed.
Lemma absent_imap {A B} (f : string → A → option B) (m : gmap string A) r : m !! r = None → map_imap f m !! r = None.
Proof. intros H. by rewrite map_lookup_imap, H. Qed.
End rows.

Create HintDb rows discriminated.
#[export] Hint Resolve keyed_alter keyed_fmap keyed_insert keyed_delete keyed_delete_all keyed_empty
  absent_fmap absent_alter absent_filter absent_imap : rows.

(** Walks a do-block for [preserves (inv P)], down to its state changes. *)
Ltac walk := repeat (cbv zeta; lazymatch goal with
  | |- preserves _ (mbind _ _) => apply preserves_bind; [|intros ?]
  | |- preserves _ (match ?x with _ => _ end) => destruct x
  | |- preserves _ (for_each _ _) => apply preserves_for_each; intros ? _
  | |- preserves _ (when _ _) => apply preserves_when
  | |- preserves _ (bump _) => unfold bump
  | |- preserves _ (modify_st _) => apply preserves_modify_st; intros ? ?
  | |- preserves _ (emit_patch ?E _ _ _) => apply (preserves_emit_patch E); apply _
  | |- preserves _ (push_subs ?E _) => apply (preserves_push_subs E); apply _
  | |- preserves _ (get_st _) => apply preserves_get_st
  | |- preserves _ (mret _) => apply preserves_ret
  | |- preserves _ skip => apply preserves_skip
  | |- preserves _ (send ?E _ _ _ _) => apply (preserves_send E)
  | |- preserves _ (send_ignore ?E _ _ _ _) => apply (preserves_send_ignore E)
  | |- preserves _ (shutdown _) => apply preserves_shutdown
  | |- preserves _ notify_all => apply preserves_notify
  end).
(** A state change that leaves the books' rows where they are. *)
Ltac rows_same := match goal with H : rows_ok ?s |- rows_ok _ => apply (rows_frame s); solve [done | cbn; auto with rows] end.

Section keep_rows.
Context `{HI : HashIter} (E : Env).

Lemma try_place_rows_ok : preserves (inv rows_ok) (try_place E).
Proof.
  intros w Hw. unfold inv in *. pose proof (try_place_frame E w) as Hf. unfold same_but_pgs in Hf. rewrite Hf.
  by apply (rows_frame (st w)).
Qed.

(** Actor rows edited in place. *)
Lemma rows_alter_actor s f i : (∀ a, a_id (f a) = a_id a) → rows_ok s → rows_ok (s <| actors ::= alter f i |>).
Proof. intros Hf Hs. apply rows_actors; [|done]. apply keyed_alter; [done|apply Hs]. Qed.
Lemma rows_fmap_actors s f : (∀ a, a_id (f a) = a_id a) → rows_ok s → rows_ok (s <| actors ::= fmap f |>).
Proof. intros Hf Hs. apply rows_actors; [|done]. apply keyed_fmap; [done|apply Hs]. Qed.

Lemma fan_out_rows j why : preserves (inv rows_ok) (fan_out E j why).
Proof. unfold fan_out. walk; [rows_same|apply try_place_rows_ok]. Qed.
Lemma mark_dead_rows j why : preserves (inv rows_ok) (mark_actor_dead E j why).
Proof. unfold mark_actor_dead. walk; try apply fan_out_rows. by apply rows_alter_actor. Qed.
Lemma kill_actor_rows j why : preserves (inv rows_ok) (kill_actor E j why).
Proof. unfold kill_actor. walk. apply mark_dead_rows. Qed.
Lemma create_actor_rows c name n pg ix env p : preserves (inv rows_ok) (create_actor E c name n pg ix env p).
Proof.
  unfold create_actor. walk; try apply mark_dead_rows; try rows_same.
  apply rows_actors; [|done]. apply keyed_insert; [done|]. apply ro_actors. done.
Qed.

(** ** Clients *)

Lemma hello_row_id s c g k node se : clients_keyed s → c_id (hello_row s c g k node se) = c.
Proof.
  intros Hk. unfold hello_row. destruct (clients s !! c) as [x|] eqn:Hx; [pose proof (Hk c x Hx)|]; by destruct se.
Qed.
(** Operations that move clients or claims only. *)
Definition other_rows (s : State) := (actors s, peers s, next_ref s, refs s).
Lemma rows_other {A} (m : SM A) :
  keeps other_rows m → preserves (inv clients_keyed) m → preserves (inv claims_ok) m → preserves (inv rows_ok) m.
Proof.
  intros Hk Hc Hl w Hw. specialize (Hk w). unfold other_rows in Hk. injection Hk as Ha Hp Hn Hr.
  pose proof (Hc w (ro_clients _ Hw)) as Hc'. pose proof (Hl w (ro_claims _ Hw)) as Hl'. destruct Hw as [R1 R2 R3 R4 R5].
  split; [|exact Hc'| |exact Hl'|]; unfold actors_keyed, peers_keyed, refs_fresh in *; rewrite ?Ha, ?Hp, ?Hn, ?Hr; auto.
Qed.

#[export] Instance clients_keyed_stable : Stable clients_keyed.
Proof. intros s s' ->. by destruct s. Qed.

Ltac keep_other := repeat (cbv zeta; lazymatch goal with
  | |- keeps _ (mbind _ _) => apply keeps_bind; [|intros ?]
  | |- keeps _ (match ?x with _ => _ end) => destruct x
  | |- keeps _ (for_each _ _) => apply keeps_for_each; intros ? _
  | |- keeps _ (bump _) => unfold bump
  | |- keeps _ (modify_st _) => apply keeps_modify; intros ?; reflexivity
  | |- keeps _ (emit_patch _ _ _ _) => apply keeps_emit; by intros ? ? ->
  | |- keeps _ (get_st _) => apply keeps_get_st
  | |- keeps _ (mret _) => apply keeps_ret
  | |- keeps _ skip => apply keeps_skip
  | |- keeps _ (send_ignore _ _ _ _ _) => apply keeps_send
  | |- keeps _ (shutdown _) => apply keeps_shutdown
  | |- keeps _ notify_all => apply keeps_notify
  end).

Lemma client_hello_rows w r pr c g se k cl pip : preserves (inv rows_ok) (client_hello E w r pr c g se k cl pip).
Proof.
  apply rows_other.
  - unfold client_hello. keep_other.
  - intros w0 Hk. unfold inv, clients_keyed in *. rewrite client_hello_clients.
    destruct (client_hello _ _ _ _ _ _ _ _ _ _ _).1; [|done]. cbv zeta.
    apply keyed_insert; [by apply hello_row_id|done].
  - unfold client_hello. walk; done.
Qed.
Lemma client_closed_rows w : preserves (inv rows_ok) (client_closed w).
Proof. unfold client_closed. walk. rows_same. Qed.
Lemma client_forget_rows c moved : preserves (inv rows_ok) (client_forget c moved).
Proof. unfold client_forget. walk. apply rows_clients; [|done]. apply keyed_delete, ro_clients. done. Qed.

Lemma claim_rows c g n sh : preserves (inv rows_ok) (claim E c g n sh).
Proof. apply rows_other; [|unfold claim; walk; done|apply claim_claims_ok]. unfold claim. keep_other. Qed.
Lemma release_rows c key : preserves (inv rows_ok) (release E c key).
Proof. apply rows_other; [|unfold release; walk; done|apply release_claims_ok]. unfold release. keep_other. Qed.
Lemma release_all_rows c : preserves (inv rows_ok) (release_all E c).
Proof. unfold release_all. walk. apply release_rows. Qed.
Lemma reap_begin_rows c : preserves (inv rows_ok) (reap_begin E c).
Proof. unfold reap_begin. walk. apply rows_clients; [|done]. apply keyed_delete, ro_clients. done. Qed.
Lemma reap_defer_rows c : preserves (inv rows_ok) (reap_defer c).
Proof. unfold reap_defer. walk. rows_same. Qed.
Lemma reap_start_rows c g t : preserves (inv rows_ok) (reap_start E c g t).
Proof. unfold reap_start, emit_pg_removed. walk; try apply release_all_rows; rows_same. Qed.
Lemma reap_finish_rows c : preserves (inv rows_ok) (reap_finish E c).
Proof. unfold reap_finish. walk; [rows_same|apply try_place_rows_ok]. Qed.
Lemma pg_create_rows c b sg cl : preserves (inv rows_ok) (pg_create E c b sg cl).
Proof. unfold pg_create. walk; [rows_same|apply try_place_rows_ok]. Qed.
Lemma pg_remove_rows k : preserves (inv rows_ok) (pg_remove E k).
Proof. unfold pg_remove. walk; [rows_same|apply try_place_rows_ok]. Qed.

(** ** Calls *)

(** A ref id the next calls will not be given. *)
Definition used (r : string) (s : State) : Prop := ∀ j n, (next_ref s ≤ n)%N → ref_name j n ≠ r.
Lemma ref_name_inj j n j' n' : ref_name j n = ref_name j' n' → j = j' ∧ n = n'.
Proof.
  unfold ref_name. intros Heq. pose proof (rsplit_once_pretty j n) as H1. rewrite Heq, rsplit_once_pretty in H1.
  injection H1 as -> Hn. split; [done|]. by apply (inj pretty) in Hn.
Qed.

Lemma insert_ref_rows r x s : rows_ok s → used r s → rows_ok (s <| refs ::= <[r := x]> |>).
Proof.
  intros [R1 R2 R3 R4 R5] Hu. split; [done..|]. intros j n Hn Hm. cbn.
  rewrite lookup_insert_ne; [by apply R5|]. intros ->. by apply (Hu j n).
Qed.

#[export] Instance used_stable r : Stable (λ s, rows_ok s ∧ used r s).
Proof. intros s s' Hs [H1 H2]. split; [by eapply stable|]. rewrite Hs. exact H2. Qed.

Lemma route_call_rows c j m r p a :
  preserves (inv (λ s, rows_ok s ∧ used r s)) (route_call E c j m r p a).
Proof.
  unfold route_call, insert_ref, hold_call. walk;
    match goal with H : rows_ok _ ∧ used _ _ |- _ => destruct H as [Hr Hu] end; (split; [|exact Hu]);
    (by apply insert_ref_rows) || (by apply rows_alter_actor).
Qed.

(** There are ref numbers left. *)
Definition room (s : State) : Prop := (next_ref s + 1 < u64_modulus)%N.
Definition is_call (msg : Msg.t) : Prop := match msg with Msg.ActorCall _ _ => True | _ => False end.

Lemma actor_call_rows c j m p w : rows_ok (st w) → room (st w) → rows_ok (st (actor_call E c j m p w).2).
Proof.
  intros Hw Hroom. unfold actor_call. rewrite bind_run. set (w1 := (bump _ w).2).
  assert (rows_ok (st w1)) as Hw1 by (by apply (rows_frame (st w))).
  rewrite bind_run. set (r := (new_ref_id j w1).1). set (w2 := (new_ref_id j w1).2).
  assert (rows_ok (st w2) ∧ used r (st w2)) as Hw2.
  { unfold w2, r, new_ref_id. rewrite !bind_run. cbn. unfold u64_succ, room in *. rewrite u64_add_small by done.
    split.
    - destruct Hw1 as [R1 R2 R3 R4 R5]. split; [done..|]. intros j' n Hn Hm. apply R5; [cbn in *; lia|done].
    - intros j' n Hn [_ Heq]%ref_name_inj. cbn in Hn. lia. }
  clearbody w2 r. match goal with |- rows_ok (st (?k w2).2) =>
    assert (preserves (inv (λ s, rows_ok s ∧ used r s)) k) as Hk by (walk; apply route_call_rows) end.
  exact (proj1 (Hk w2 Hw2)).
Qed.

Lemma handle_client_msg_rows dbg c msg u p w :
  rows_ok (st w) → (is_call msg → room (st w)) → rows_ok (st (handle_client_msg E dbg c msg u p w).2).
Proof.
  intros Hw Hroom. assert ((∀ j m, msg ≠ Msg.ActorCall j m) ∨ ∃ j m, msg = Msg.ActorCall j m) as [Hmsg|(j & m & ->)].
  { destruct msg; eauto; left; by intros. }
  - revert w Hw Hroom. assert (preserves (inv rows_ok) (handle_client_msg E dbg c msg u p)) as H; [|intros; by apply H].
    unfold handle_client_msg. apply preserves_bind; [apply preserves_get_st|]. intros s. cbv zeta.
    destruct msg; try apply preserves_ret.
    all: lazymatch goal with
      | |- preserves _ (actor_call _ _ _ _ _ ≫= _) => by destruct (Hmsg actor_id method)
      | |- preserves _ (_ ≫= _) => apply preserves_bind; [|intros ?; repeat case_match; apply preserves_ret]
      | _ => repeat case_match; apply preserves_ret end.
    + apply claim_rows.
    + apply pg_create_rows.
    + apply pg_remove_rows.
    + apply create_actor_rows.
  - unfold handle_client_msg. rewrite bind_run. cbn [get_st gets fst snd id]. cbv zeta. rewrite bind_run.
    apply actor_call_rows; [done|by apply Hroom].
Qed.

(** ** Agents *)

(** A reported ref's number leaves room for the next. *)
Definition numbers_fit (r : Registration) : Prop :=
  ∀ rid n, rid ∈ reported_refs r → (ref_parts rid).2 = Some n → (n + 1 < u64_modulus)%N.

Lemma adopt_ref_rows g rid :
  (∀ n, (ref_parts rid).2 = Some n → (n + 1 < u64_modulus)%N) → preserves (inv rows_ok) (adopt_ref E g rid).
Proof.
  intros Hfit. unfold adopt_ref. destruct (ref_parts rid) as [j n] eqn:Hparts. walk.
  destruct H as [R1 R2 R3 R4 R5]. split; [done..|]. intros j' n' Hle Hlt. cbn in *.
  rewrite lookup_insert_ne; [apply R5; [|done]|].
  - destruct n as [n|]; cbn in Hle; lia.
  - intros ->. unfold ref_parts, ref_name in Hparts. rewrite rsplit_once_pretty, parse_u64_pretty in Hparts by done.
    injection Hparts as <- <-. cbn in Hle. unfold u64_succ in Hle. rewrite u64_add_small in Hle by (by apply Hfit). lia.
Qed.

Lemma keyed_adopt (m : gmap string ActorInfo) l :
  (∀ k a, m !! k = Some a → a_id a = k) →
  ∀ k a, foldl (λ m a, <[a_id a := a]> m) m l !! k = Some a → a_id a = k.
Proof. revert m. induction l as [|x l IH]; intros m Hm; [done|]. cbn. apply IH. by apply keyed_insert. Qed.

Lemma agent_register_rows w req r : numbers_fit r → preserves (inv rows_ok) (agent_register E w req r).
Proof.
  intros Hfit. unfold agent_register, register_row, seq, adopt_actors, bury_missing, fail_lost, drain_held, send_held.
  walk; try apply mark_dead_rows; try apply try_place_rows_ok; try rows_same.
  - apply rows_actors; [|done]. apply keyed_adopt, ro_actors. done.
  - unfold adopt_refs. apply preserves_for_each. intros rid Hrid. apply adopt_ref_rows. intros n. by apply Hfit.
  - apply rows_fmap_actors; [|done]. intros a. by destruct (_ && _).
Qed.

Lemma agent_hello_rows w req pr cl pip : preserves (inv rows_ok) (agent_hello E w req pr cl pip).
Proof. unfold agent_hello. walk. Qed.
Lemma agent_check_rows w req i ip node : preserves (inv rows_ok) (agent_check E w req i ip node).
Proof. unfold agent_check. walk. rows_same. Qed.
Lemma agent_msg_rows w i req m p : preserves (inv rows_ok) (agent_msg E w i req m p).
Proof.
  unfold agent_msg, spawn_result, actor_result, actor_exit, service_note.
  destruct m; walk; try apply mark_dead_rows; try rows_same; apply rows_alter_actor; try done.
  - intros a. by destruct (bool_decide _).
  - intros a. by destruct (bool_decide _).
Qed.
Lemma agent_lost_rows w i : preserves (inv rows_ok) (agent_lost E w i).
Proof. unfold agent_lost. walk. rows_same. Qed.

(** ** Sweepers, the head and the keeper *)

Lemma sweep_lifecycle_rows : preserves (inv rows_ok) (sweep_lifecycle E).
Proof.
  unfold sweep_lifecycle, warn_slow, expire_overdue, expire_one, tick_agents, emit_agent, give_up_one, sweep_history, emit_agent.
  walk; try apply mark_dead_rows; try rows_same.
  apply (rows_frame (s <| actors ::= delete_all (gone_actors E s) |>)); [done..| |].
  - intros rid Hr. cbn. by apply absent_filter.
  - apply rows_actors; [|done]. apply keyed_delete_all, ro_actors. done.
Qed.

Lemma head_moved_rows : preserves (inv rows_ok) (head_moved E).
Proof.
  unfold head_moved. walk. unfold moved. destruct H as [R1 R2 R3 R4 R5]. split.
  - refine (keyed_fmap a_id (actors s) _ _ R1). intros a. unfold move_actor. by destruct (is_dead _).
  - exact (keyed_empty c_id).
  - done.
  - intros key c. cbn. by rewrite lookup_empty.
  - intros j n _ _. cbn. apply lookup_empty.
Qed.
Lemma elector_tick_rows up l : preserves (inv rows_ok) (elector_tick E up l).
Proof. unfold elector_tick, commit_head. walk; try apply head_moved_rows. rows_same. Qed.
Lemma keeper_turn_rows g up c : preserves (inv rows_ok) (keeper_turn E g up c).
Proof. unfold keeper_turn, commit_fabrics. walk; [rows_same|apply try_place_rows_ok]. Qed.
End keep_rows.

(** ** The mesh *)

#[export] Instance peers_keyed_stable : Stable peers_keyed.
Proof. intros s s' ->. by destruct s. Qed.

(** What an operation of the mesh reads back unchanged. *)
Definition all_but_peers (s : State) := (agents s, pgs s, actors s, clients s, claims s, next_ref s, refs s).
Lemma books_mesh {D A} (m : SM A) :
  (∀ B (f : State → B), Quiet f → (∀ s g, f (s <| peers ::= g |>) = f s) → keeps f m) →
  preserves (inv peers_keyed) m → preserves (inv (alloc_ok D)) m ∧ preserves (inv rows_ok) m.
Proof.
  intros Hk Hp. specialize (Hk _ all_but_peers ltac:(by intros ? ? ->) ltac:(done)).
  split; intros w Hw; specialize (Hk w); unfold all_but_peers in Hk; injection Hk as Hag Hpg Ha Hc Hl Hn Hr.
  - by apply (alloc_ok_frame (st w)).
  - pose proof (Hp w (ro_peers _ Hw)) as Hp'. destruct Hw as [R1 R2 R3 R4 R5].
    split; [|unfold clients_keyed|exact Hp'|unfold claims_ok|unfold refs_fresh];
      unfold actors_keyed in *; rewrite ?Ha, ?Hc, ?Hl, ?Hn, ?Hr; auto.
Qed.

Ltac alloc_same := match goal with H : alloc_ok _ ?s |- alloc_ok _ _ => by apply (alloc_ok_frame s) end.

Section mesh_books.
Context `{HI : HashIter} (E : Env) {D : gset string}.

Lemma peers_alter s f i : (∀ p, pe_node_id (f p) = pe_node_id p) → peers_keyed s → peers_keyed (s <| peers ::= alter f i |>).
Proof. intros Hf Hs. exact (keyed_alter pe_node_id (peers s) f i Hf Hs). Qed.

Lemma emit_peer_keyed kind i why : preserves (inv peers_keyed) (emit_peer E kind i why).
Proof. unfold emit_peer. walk. Qed.
Lemma register_peer_keyed w p : preserves (inv peers_keyed) (register_peer E w p).
Proof.
  unfold register_peer, drop_superseded. walk; try apply emit_peer_keyed; try done.
  - exact (keyed_delete pe_node_id (peers s) _ H).
  - exact (keyed_insert pe_node_id (peers s) _ (peer_of E p w _) eq_refl H).
Qed.
Lemma peer_status_id d p : pe_node_id (peer_status E d p) = pe_node_id p.
Proof. unfold peer_status. cbv zeta. by repeat case_match. Qed.

Lemma accept_peer_books w req lip pr i nip c h ad tg fs :
  preserves (inv (alloc_ok D)) (accept_peer E w req lip pr i nip c h ad tg fs) ∧
  preserves (inv rows_ok) (accept_peer E w req lip pr i nip c h ad tg fs).
Proof. apply books_mesh; [by intros; apply accept_peer_keeps|]. unfold accept_peer. walk. apply register_peer_keyed. Qed.
Lemma register_peer_books w p :
  preserves (inv (alloc_ok D)) (register_peer E w p) ∧ preserves (inv rows_ok) (register_peer E w p).
Proof. apply books_mesh; [by intros; apply register_peer_keeps|apply register_peer_keyed]. Qed.
Lemma peer_msg_books i m : preserves (inv (alloc_ok D)) (peer_msg E i m) ∧ preserves (inv rows_ok) (peer_msg E i m).
Proof.
  apply books_mesh; [by intros; apply peer_msg_keeps|]. unfold peer_msg, deliver_peer_event.
  destruct m; walk; apply peers_alter; try done. apply peer_status_id.
Qed.
Lemma peer_lost_books w i : preserves (inv (alloc_ok D)) (peer_lost E w i) ∧ preserves (inv rows_ok) (peer_lost E w i).
Proof.
  apply books_mesh; [by intros; apply peer_lost_keeps|]. unfold peer_lost. walk; try apply emit_peer_keyed.
  by apply peers_alter.
Qed.
Lemma sweep_peers_books cut : preserves (inv (alloc_ok D)) (sweep_peers E cut) ∧ preserves (inv rows_ok) (sweep_peers E cut).
Proof.
  apply books_mesh; [by intros; apply sweep_peers_keeps|]. unfold sweep_peers. walk; try apply emit_peer_keyed.
  - refine (keyed_fmap pe_node_id (peers s) _ _ H). intros p. unfold tick_peer. by repeat case_match.
  - exact (keyed_delete pe_node_id (peers s) _ H).
Qed.
Lemma push_status_books : preserves (inv (alloc_ok D)) (push_status E) ∧ preserves (inv rows_ok) (push_status E).
Proof. apply books_mesh; [by intros; apply push_status_keeps|]. unfold push_status. walk. Qed.
Lemma probe_result_books i l r mac x :
  preserves (inv (alloc_ok D)) (probe_result E i l r mac x) ∧ preserves (inv rows_ok) (probe_result E i l r mac x).
Proof. apply books_mesh; [by intros; apply probe_result_keeps|]. unfold probe_result. walk. by apply peers_alter. Qed.
Lemma finish_round_books i ls rs b :
  preserves (inv (alloc_ok D)) (finish_round i ls rs b) ∧ preserves (inv rows_ok) (finish_round i ls rs b).
Proof. apply books_mesh; [by intros; apply finish_round_keeps|]. unfold finish_round. walk. by apply peers_alter. Qed.

Lemma elector_tick_ok up l : preserves (inv (alloc_ok D)) (elector_tick E up l).
Proof. unfold elector_tick, commit_head. walk; try apply head_moved_ok. alloc_same. Qed.
Lemma keeper_turn_ok g up c : preserves (inv (alloc_ok D)) (keeper_turn E g up c).
Proof. unfold keeper_turn, commit_fabrics. walk; [alloc_same|apply try_place_ok]. Qed.
End mesh_books.

(** ** The critical sections *)

Inductive Section_ :=
| Hello (w : Sock) (req : N) (proto client group : string) (session : bool) (kind claimed peer_ip : string)
| Request (client : string) (msg : Msg.t) (unknown : string) (payload : bytes)
| KillActor (actor why : string)
| Closed (w : Sock)
| Forget (client : string) (moved : bool)
| ReapBegin (client : string)
| ReapDefer (client : string)
| ReapStart (client group : string) (token : option N)
| ReapFinish (client : string)
| AgentHello (w : Sock) (req : N) (proto claimed peer_ip : string)
| AgentCheck (w : Sock) (req : N) (agent ip node : string)
| Register (w : Sock) (req : N) (r : Registration)
| AgentMsg (w : Sock) (agent : string) (req : N) (msg : Msg.t) (payload : bytes)
| AgentLost (w : Sock) (agent : string)
| Lifecycle
| PeerHello (w : Sock) (req : N) (link_ip proto node node_ip : string) (control http : N) (addrs : list string)
    (tags : gmap string (list string)) (ifaces : gmap string string)
| PeerLink (w : Sock) (p : PeerIdent)
| PeerMsg (peer : string) (msg : Msg.t)
| PeerLost (w : Sock) (peer : string)
| SweepPeers (cut : list string)
| PushStatus
| DialTarget (target : string)
| ConnectorTurn (seed : string) (discovered : bool) (known : option string) (uncovered : N)
| ProbeResult (peer local remote : string) (mac : option string) (r : Result N string)
| FinishRound (peer : string) (locals remotes : list string) (bind_ifaces : gmap string string)
| ElectorTick (up : N) (l : Elector)
| KeeperTick (gathered : State) (up : N) (c : option (Fabrics * N)).

Section daemon.
Context `{HI : HashIter} (debug_msg : Msg.t → string).

Definition perform (E : Env) (a : Section_) : SM unit :=
  match a with
  | Hello w req proto c g se k cl pip => client_hello E w req proto c g se k cl pip ;; skip
  | Request c msg u p => handle_client_msg E debug_msg c msg u p ;; skip
  | KillActor j why => kill_actor E j why
  | Closed w => client_closed w ;; skip
  | Forget c moved => client_forget c moved
  | ReapBegin c => reap_begin E c ;; skip
  | ReapDefer c => reap_defer c ;; skip
  | ReapStart c g t => reap_start E c g t ;; skip
  | ReapFinish c => reap_finish E c
  | AgentHello w req pr cl pip => agent_hello E w req pr cl pip ;; skip
  | AgentCheck w req i ip node => agent_check E w req i ip node ;; skip
  | Register w req r => agent_register E w req r
  | AgentMsg w i req m p => agent_msg E w i req m p
  | AgentLost w i => agent_lost E w i
  | Lifecycle => sweep_lifecycle E
  | PeerHello w req lip pr i nip c h ad tg fs => accept_peer E w req lip pr i nip c h ad tg fs ;; skip
  | PeerLink w p => register_peer E w p ;; skip
  | PeerMsg i m => peer_msg E i m
  | PeerLost w i => peer_lost E w i
  | SweepPeers cut => sweep_peers E cut
  | PushStatus => push_status E
  | DialTarget t => dial t ;; skip
  | ConnectorTurn seed d known un => connector_turn E seed d known un ;; skip
  | ProbeResult i l r mac x => probe_result E i l r mac x
  | FinishRound i ls rs b => finish_round i ls rs b
  | ElectorTick up l => elector_tick E up l ;; skip
  | KeeperTick g up c => keeper_turn E g up c ;; skip
  end.

(** The moments a daemon can reach from a boot by the sections that [ok] lets
    run, in any interleaving. *)
Inductive possible (ok : State → Section_ → Prop) : World → Prop :=
| boots ip h control boot : possible ok (mkWorld (state_new ip h control boot) [])
| runs E a w : possible ok w → ok (st w) a → possible ok (perform E a w).2.

(** The only section that is told what devices are in use is a registration,
    and what it is told is not checked. [doubted] holds the ids of actors
    whose reports the books need not bear out: any set of ids, so every
    history of agents that list each device once is vouched for by the set of
    all ids that were ever adopted. *)
Definition vouched (doubted : gset string) (s : State) (a : Section_) : Prop :=
  match a with Register _ _ r => honest doubted s r | _ => True end.

(** Ref numbers do not run out: a call is made with room for its number, and
    the numbers an agent reports leave room for the next. *)
Definition in_range (s : State) (a : Section_) : Prop :=
  match a with
  | Register _ _ r => numbers_fit r
  | Request _ msg _ _ => is_call msg → room s
  | _ => True
  end.

Lemma possible_weaken (ok ok' : State → Section_ → Prop) w :
  (∀ s a, ok s a → ok' s a) → possible ok w → possible ok' w.
Proof. intros Hok. induction 1; [apply boots|apply runs; auto]. Qed.

Lemma boot_alloc D ip h control boot : alloc_ok D (state_new ip h control boot).
Proof. split; unfold agents_keyed; cbn; intros *; rewrite ?lookup_empty; done. Qed.
Lemma boot_rows ip h control boot : rows_ok (state_new ip h control boot).
Proof.
  split; unfold actors_keyed, clients_keyed, peers_keyed, claims_ok, refs_fresh; cbn; intros *; rewrite ?lookup_empty; done.
Qed.

Lemma drop_result {A} P (m : SM A) : preserves P m → preserves P (m ;; skip).
Proof. intros Hm. apply preserves_bind; [done|]. intros _. apply preserves_skip. Qed.
Lemma drop_run {A} (m : SM A) w : ((m ;; skip) w).2 = (m w).2.
Proof. by rewrite bind_run. Qed.

Lemma dial_run t w : ∃ ds, st (dial t w).2 = (st w) <| dialing := ds |>.
Proof. eexists. unfold dial. by rewrite !bind_run. Qed.
Lemma connector_turn_run E seed d known un w :
  ∃ ds, st (connector_turn E seed d known un w).2 = (st w) <| dialing := ds |>.
Proof.
  unfold connector_turn. rewrite bind_run. cbn [get_st gets fst snd id].
  assert (st w = (st w) <| dialing := dialing (st w) |>) as Hid by by destruct (st w).
  destruct (covered (st w) seed known); [exists (dialing (st w)); exact Hid|].
  destruct (_ && _); [|exists (dialing (st w)); exact Hid]. eexists. by rewrite bind_run.
Qed.
Lemma alloc_dialing D s ds : alloc_ok D s → alloc_ok D (s <| dialing := ds |>).
Proof. by apply alloc_ok_frame. Qed.
Lemma rows_dialing s ds : rows_ok s → rows_ok (s <| dialing := ds |>).
Proof. by apply rows_frame. Qed.

Lemma perform_alloc D E a w : alloc_ok D (st w) → vouched D (st w) a → alloc_ok D (st (perform E a w).2).
Proof.
  intros Hw. destruct a; cbn [perform vouched]; intros Hal; rewrite ?drop_run.
  all: try (by apply client_hello_ok); try (by apply handle_client_msg_ok); try (by apply kill_actor_ok);
    try (by apply client_closed_ok); try (by apply client_forget_ok); try (by apply reap_begin_ok);
    try (by apply reap_defer_ok); try (by apply reap_start_ok); try (by apply reap_finish_ok);
    try (by apply agent_msg_ok); try (by apply agent_lost_ok); try (by apply sweep_lifecycle_ok);
    try (by apply elector_tick_ok); try (by apply keeper_turn_ok).
  - apply (λ H, H : preserves (inv (alloc_ok D)) (agent_hello E w0 req proto claimed peer_ip)); [|done].
    unfold agent_hello. walk.
  - by apply agent_check_ok.
  - by apply agent_register_ok.
  - by apply accept_peer_books.
  - by apply register_peer_books.
  - by apply peer_msg_books.
  - by apply peer_lost_books.
  - by apply sweep_peers_books.
  - by apply push_status_books.
  - destruct (dial_run target w) as [ds ->]. by apply alloc_dialing.
  - destruct (connector_turn_run E seed discovered known uncovered w) as [ds ->]. by apply alloc_dialing.
  - by apply probe_result_books.
  - by apply finish_round_books.
Qed.

Lemma perform_rows E a w : rows_ok (st w) → in_range (st w) a → rows_ok (st (perform E a w).2).
Proof.
  intros Hw. destruct a; cbn [perform in_range]; intros Hal; rewrite ?drop_run.
  all: try (by apply client_hello_rows); try (by apply handle_client_msg_rows); try (by apply kill_actor_rows);
    try (by apply client_closed_rows); try (by apply client_forget_rows); try (by apply reap_begin_rows);
    try (by apply reap_defer_rows); try (by apply reap_start_rows); try (by apply reap_finish_rows);
    try (by apply agent_hello_rows); try (by apply agent_check_rows); try (by apply agent_msg_rows); try (by apply agent_lost_rows);
    try (by apply sweep_lifecycle_rows); try (by apply elector_tick_rows); try (by apply keeper_turn_rows).
  - apply agent_register_rows; [exact Hal|exact Hw].
  - by apply (accept_peer_books E (D := ∅)).
  - by apply (register_peer_books E (D := ∅)).
  - by apply (peer_msg_books E (D := ∅)).
  - by apply (peer_lost_books E (D := ∅)).
  - by apply (sweep_peers_books E (D := ∅)).
  - by apply (push_status_books E (D := ∅)).
  - destruct (dial_run target w) as [ds ->]. by apply rows_dialing.
  - destruct (connector_turn_run E seed discovered known uncovered w) as [ds ->]. by apply rows_dialing.
  - by apply (probe_result_books E (D := ∅)).
  - by apply (finish_round_books (D := ∅)).
Qed.

Lemma possible_alloc D w : possible (vouched D) w → alloc_ok D (st w).
Proof. induction 1; [apply boot_alloc|by apply perform_alloc]. Qed.
Lemma possible_rows w : possible in_range w → rows_ok (st w).
Proof. induction 1; [apply boot_rows|by apply perform_rows]. Qed.

(** C3: the daemon's rows are in order at every moment, whatever its clients,
    agents, peers and threads do and however their critical sections
    interleave, as long as ref numbers stay below 2^64 - 1 (no call is made
    and no reported ref has a number without room for the next): actors,
    clients and peers are filed under their ids, every claim has a holder, and
    no ref id that a new call may be given is taken. Nothing is asked of what
    an agent reports but the size of its numbers. *)
Theorem books_always_in_order (w : World) (Hp : possible in_range w) : rows_ok (st w).
Proof. by apply possible_rows. Qed.

(** C1: no device is given out twice, at any moment of the daemon and for any
    set of doubted actors, when every agent lists each of its devices once. A
    registration is not checked against the books, so an adopted actor whose
    reported devices disagree with them is put among the doubted
    ([vouched_history]: that set can always be found); an actor this daemon
    spawned itself need never be. Whatever the doubted claim, two placement
    groups hold no device in common and a device counted free is held by no
    group and no live actor, doubted or not. A live actor that is not doubted
    shares devices with a group only by running in one of its bundles, and two
    such actors of an agent hold the same devices or none in common. *)
Theorem no_double_alloc (doubted : gset string) (w : World) (Hp : possible (vouched doubted) w) :
  let s := st w in
  (∀ k1 k2 p1 p2 g d, pgs s !! k1 = Some p1 → pgs s !! k2 = Some p2 → k1 ≠ k2 →
     d ∈ pg_holds g p1 → d ∉ pg_holds g p2) ∧
  (∀ g d, d ∈ free_gpus_of s g → ¬ held s g d) ∧
  (∀ j k a p d, actors s !! j = Some a → j ∉ doubted → a_live a = true → pgs s !! k = Some p →
     d ∈ a_gpu_ids a → d ∈ pg_holds (a_agent a) p →
     ∃ b, b ∈ placed_bundles p ∧ b_agent b = a_agent a ∧ b_gpu_ids b = a_gpu_ids a) ∧
  (∀ j1 j2 a1 a2 d, actors s !! j1 = Some a1 → actors s !! j2 = Some a2 → j1 ∉ doubted → j2 ∉ doubted →
     a_live a1 = true → a_live a2 = true →
     a_agent a1 = a_agent a2 → d ∈ a_gpu_ids a1 → d ∈ a_gpu_ids a2 → a_gpu_ids a1 = a_gpu_ids a2).
Proof.
  cbn zeta. pose proof (possible_alloc doubted w Hp) as Hok. split_and!.
  - intros k1 k2 p1 p2 g d H1 H2 Hne. by apply (al_groups _ Hok k1 k2).
  - intros g d (a & _ & _ & Hn)%elem_of_free. done.
  - intros j k a p d Ha Hj Hl Hk Hd Hh. destruct (al_actor_group _ Hok j k a p Ha Hk Hl Hj) as [(_ & Hb)|Hno]; [done|].
    by destruct (Hno d Hd).
  - intros j1 j2 a1 a2 d H1 H2 N1 N2 L1 L2 Hag D1 D2.
    destruct (al_actors _ Hok j1 j2 a1 a2 H1 H2 L1 L2 Hag N1 N2) as [|Hno]; [done|]. by destruct (Hno d D1).
Qed.

(** A history of agents that list each device once is vouched for by the ids
    of the actors they reported. *)
Definition lists_once (s : State) (a : Section_) : Prop :=
  match a with Register _ _ r => NoDup (g_index <$> m_gpus (rg_machine r)) | _ => True end.

Lemma vouched_more D D' s a : D ⊆ D' → vouched D s a → vouched D' s a.
Proof. intros Hs. destruct a; try done. intros []. split; [done|..]; naive_solver. Qed.

Theorem vouched_history (w : World) : possible lists_once w → ∃ doubted, possible (vouched doubted) w.
Proof.
  induction 1 as [|E a w _ [D HD] Hal]; [exists ∅; apply boots|].
  pose (new := match a with Register _ _ r => list_to_set (r_actor_id <$> rg_resume r) | _ => ∅ end : gset string).
  exists (D ∪ new). apply runs.
  - eapply possible_weaken; [|exact HD]. intros s b. apply vouched_more. set_solver.
  - destruct a; try done. cbn in *. apply honest_of_doubted; [done|]. intros x Hx. unfold new.
    apply elem_of_union_r, elem_of_list_to_set, list_elem_of_fmap. eauto.
Qed.

(** A call's ref is its own. Whatever happened before, agents back with
    old calls and heads restarted included, the id given to a new call names
    no ref the daemon knows. *)
Theorem call_ref_fresh (w : World) (E : Env) (c j method : string) (payload : bytes)
    (Hp : possible in_range w) (Hroom : room (st w)) :
  refs (st w) !! ref_name j (next_ref (st w)) = None ∧
  ∀ a, actors (st w) !! j = Some a →
    (actor_call E c j method payload w).1 = (Msg.ActorCallOk (ref_name j (next_ref (st w))), []).
Proof.
  pose proof (possible_rows w Hp) as Hr. split.
  - apply (ro_refs _ Hr); [done|]. unfold room in Hroom. lia.
  - intros a Ha. unfold actor_call, bump, new_ref_id. rewrite !bind_run.
    cbn [get_st gets modify_st modify fst snd mret M_ret]. cbn [st actors update_with]. rewrite Ha.
    by rewrite !bind_run.
Qed.
End daemon.

(** ** Instances

    A daemon boots, a driver opens its session, an agent registers, and comes
    back with an actor that this daemon never spawned. *)

Definition demo_boot : World := mkWorld (state_new "10.0.0.1" "h" "10.0.0.1:6379" "b") [].
Definition demo_report (resume : list ResumeActor) (unacked : list string) : Registration :=
  mkReg "a1" "g" "10.0.0.1" "n1" (mkMachine 1 1024 [demo_gpu 0; demo_gpu 1]) "" 7 ∅ ∅ resume unacked.
Definition demo_hello : Section_ := Hello 3 1 Version.PROTO "c:1" "g" true "driver" "" "10.0.0.1".
Definition demo_history : World :=
  (@perform in_key_order (λ _, "") demo_env (Register 5 2 (demo_report [] []))
    (@perform in_key_order (λ _, "") demo_env demo_hello demo_boot).2).2.
Definition demo_return : World :=
  (@perform in_key_order (λ _, "") demo_env
    (Register 6 3 (demo_report [mkResume "x:9" "rank9" [1]%N 5 "c:9" []] ["x:9:41"])) demo_history).2.

Lemma demo_return_vouched : @possible in_key_order (λ _, "") (vouched {["x:9"]}) demo_return.
Proof.
  assert (NoDup (g_index <$> [demo_gpu 0; demo_gpu 1])) as Hnd by (apply (bool_decide_unpack _); by vm_compute).
  apply (@runs in_key_order); [apply (@runs in_key_order); [apply (@runs in_key_order);
    [apply (@boots in_key_order)|done]|]|].
  - apply honest_of_doubted; [exact Hnd|]. by intros x ?%elem_of_nil.
  - apply honest_of_doubted; [exact Hnd|]. intros x ->%list_elem_of_singleton. by apply elem_of_singleton.
Qed.
Lemma demo_return_in_range : @possible in_key_order (λ _, "") in_range demo_return.
Proof.
  apply (@runs in_key_order); [apply (@runs in_key_order); [apply (@runs in_key_order);
    [apply (@boots in_key_order)|done]|]|].
  - by intros rid n ?%elem_of_nil.
  - intros rid n Hin. change (rid ∈ ["x:9:41"]) in Hin. apply list_elem_of_singleton in Hin as ->.
    intros Hn. assert (n = 41%N) as -> by (vm_compute in Hn; congruence). by vm_compute.
Qed.

Lemma books_always_in_order_witness :
  next_ref (st demo_return) = 42%N ∧ rows_ok (st demo_return).
Proof.
  split; [by vm_compute|].
  exact (@books_always_in_order in_key_order (λ _, "") demo_return demo_return_in_range).
Defined.
Lemma no_double_alloc_witness :
  (a_gpu_ids <$> actors (st demo_return) !! "x:9") = Some [1]%N ∧
  @free_gpus_of in_key_order (st demo_return) "a1" = [0]%N ∧ ¬ held (st demo_return) "a1" 0.
Proof.
  split; [by vm_compute|]. split; [by vm_compute|].
  destruct (@no_double_alloc in_key_order (λ _, "") {["x:9"]} demo_return demo_return_vouched) as (_ & H & _).
  apply H. apply (bool_decide_unpack _). by vm_compute.
Defined.
Lemma call_ref_fresh_witness : refs (st demo_return) !! "x:9:42" = None.
Proof.
  refine (proj1 (@call_ref_fresh in_key_order (λ _, "") demo_return demo_env "c:1" "x:9" "m" []
    demo_return_in_range _)).
  vm_compute. reflexivity.
Defined.
