(* ===== verification/Groups.v ===== *)
(** * The router's tables (rust/mentatd-serve/src/main.rs)

    What the daemons' snapshots say about groups, folded into one table: the
    addresses of each node, the endpoints each group announces, which daemon's
    account of a group wins, which groups may serve, which are retired, and
    the model table and listing that follow. Times are milliseconds of one
    monotonic clock, and an age is the time since an instant. *)

From S2P Require Import Prelude Json Stable Net.

(** ** State *)

Record SCfg := mkSCfg {
  seeds : list string; poll_interval : N; probe_interval : N; probe_timeout : N; probe_fresh : N;
  probe_promote : N; serving_timeout : N; model_wait : N; sse_keepalive : N; mcp_timeout : N;
  tools_ttl : N; model_ttl : N; allowed_sources : Allow; discover_peers : bool }.

Record DaemonView := mkView {
  dv_status : option Value; dv_seen : option N; dv_error : option string;
  dv_node_id : option string; dv_seed : bool }.
#[export] Instance eta_DaemonView : Eta DaemonView := λ v,
  mkView (dv_status v) (dv_seen v) (dv_error v) (dv_node_id v) (dv_seed v).
Definition view_empty (seed : bool) : DaemonView := mkView None None None None seed.

(** One node's watch: the address polled and the ones it falls back to. *)
Record NodeWatch := mkWatch { w_addr : string; w_alternates : gset string }.
#[export] Instance eta_NodeWatch : Eta NodeWatch := λ w, mkWatch (w_addr w) (w_alternates w).

Record ProbeResult := mkProbeResult {
  pr_ok : bool; pr_models : list Value; pr_seen : N; pr_error : option string;
  pr_selected : option string; pr_promoted_at : N }.

(** One group's serving clock. *)
Record Liveness := mkLive { ok_at : N; told : bool }.

Record Shared := mkShared {
  daemons : gmap string DaemonView; watched : gset string; nodes : gmap string NodeWatch;
  probes : gmap string ProbeResult; live : gmap string Liveness;
  tools : gmap string (N * Result (list Value) string) }.
#[export] Instance eta_Shared : Eta Shared := λ s,
  mkShared (daemons s) (watched s) (nodes s) (probes s) (live s) (tools s).

(** What a critical section reads besides the tables. *)
Record Ctx := mkCtx { now : N; scfg : SCfg; ifaces : list Net }.
Definition elapsed (c : Ctx) (t : N) : N := (now c - t)%N.

Record Endpoint := mkEndpoint { candidates : list string; announced : string; note : option string }.
Definition best (e : Endpoint) : option string := head (candidates e).

Record GroupEntry := mkGroup {
  g_group : string; g_daemon : string; agents_alive : nat; running : nat;
  openai : option Endpoint; mcp : option Endpoint; provider : string; placed : bool }.

(** ** The addresses of each node *)

Definition strings_of (v : Value) : list string := omap as_str (items v).
Definition str_or (d : string) (v : Value) : string := default d (as_str v).

Definition Addrs := (gmap string (list string)).

(** [record]: the longest list wins, and the first of equals. *)
Definition record_addrs (out : gmap string (list string)) (ids : list string) (addrs : list string)
    : gmap string (list string) :=
  match addrs with
  | [] => out
  | _ =>
      foldl (λ out id,
        if is_some_and (out !! id) (λ prev, bool_decide (length addrs ≤ length prev)) then out
        else <[id := addrs]> out)
        out (filter (λ s, str_empty s = false) ids)
  end.

Definition own_or (addrs : list string) (ip : string) : list string :=
  if nonempty addrs then addrs else [ip].

Definition collect_node_addrs (snap : Value) (out : gmap string (list string)) : gmap string (list string) :=
  let own := strings_of (index "addrs" snap) in
  let own_ip := str_or "" (index "node_ip" snap) in
  let out := record_addrs out (own_ip :: own) (own_or own own_ip) in
  foldl (λ out '(_, p),
    let addrs := strings_of (index "addrs" p) in
    let ip := str_or "" (index "node_ip" p) in
    record_addrs out (ip :: str_or "" (index "link_ip" p) :: addrs) (own_or addrs ip))
    out (entries (index "peers" snap)).

(** ** Endpoints *)

(** [seen.insert(h)] as a filter: the first of each. *)
Fixpoint keep_first (seen : gset string) (l : list string) : list string :=
  match l with
  | [] => []
  | h :: l => if decide (h ∈ seen) then keep_first seen l else h :: keep_first ({[h]} ∪ seen) l
  end.

Definition http_url (host : string) (port : N) (path : string) : string :=
  "http://" +:+ host +:+ ":" +:+ pretty port +:+ path.

(** The hosts of a port announcement, best first. *)
Definition candidate_hosts (hosts : list string) (allowed : Allow) (local : list Net) : list string :=
  let hosts := filter (λ h, negb (str_empty h) && permits allowed h local = true) hosts in
  sort_by_flag (λ h, negb (on_local_net h local)) (keep_first ∅ hosts).

Definition endpoint_of (agent : Value) (svc : string) (addrs : gmap string (list string)) (allowed : Allow)
    (local : list Net) : option Endpoint :=
  let entry := index svc (index "services" agent) in
  let note := n ← as_str (index "note" entry); if str_empty n then None else Some n in
  port ← as_u64 (index "port" entry);
  let path := str_or "" (index "path" entry) in
  match (h ← as_str (index "host" entry); if str_empty h then None else Some h) with
  | Some host =>
      let url := http_url host port path in Some (mkEndpoint [url] url note)
  | None =>
      let node_ip := str_or "" (index "node_ip" agent) in
      let hosts := default [node_ip] (addrs !! node_ip) in
      Some (mkEndpoint ((λ h, http_url h port path) <$> candidate_hosts hosts allowed local)
              ("port " +:+ pretty port +:+ path +:+ " on node " +:+ node_ip) note)
  end.

(** [Option<&str>::cmp]: none first. *)
Definition opt_str_cmp (a b : option string) : comparison :=
  match a, b with
  | None, None => Eq | None, Some _ => Lt | Some _, None => Gt
  | Some a, Some b => String.compare a b
  end.

Definition best_openai (announced : list (Endpoint * string)) : option Endpoint * string :=
  match min_by (λ x y, opt_str_cmp (best x.1) (best y.1)) announced with
  | Some (e, provider) => (Some e, provider)
  | None => (None, EmptyString)
  end.

(** ** Groups *)

Section groups.
Context `{HI : HashIter} (C : Ctx).

Definition all_node_addrs (s : Shared) : gmap string (list string) :=
  foldl (λ m v, match dv_status v with Some snap => collect_node_addrs snap m | None => m end)
        ∅ (hash_values (daemons s)).

Definition fresh_view (v : DaemonView) : bool :=
  is_some_and (dv_seen v) (λ t, bool_decide (elapsed C t ≤ poll_interval (scfg C) * 3)%N).
Definition fresh_status (v : DaemonView) : option Value := if fresh_view v then dv_status v else None.

Definition alive_agents (g : Value) : list Value :=
  filter (λ a, default false (as_bool (index "alive" a)) = true) (snd <$> entries (index "agents" g)).
Definition running_actors (g : Value) : nat :=
  length (filter (λ a, as_str (index "state" a) = Some "running") (snd <$> entries (index "actors" g))).

Definition mcp_cmp (x y : bool * Endpoint) : comparison :=
  lex (bool_cmp x.1 y.1) (opt_str_cmp (best x.2) (best y.2)).

Definition group_entry (addrs : gmap string (list string)) (daemon name : string) (g : Value) : GroupEntry :=
  let agents := alive_agents g in
  let resolve a svc := endpoint_of a svc addrs (allowed_sources (scfg C)) (ifaces C) in
  let '(openai, provider) := best_openai (omap (λ a,
    (λ e, (e, str_or "" (index "provider" (index "openai" (index "services" a))))) <$> resolve a "openai")
    agents) in
  let mcp := snd <$> min_by mcp_cmp (omap (λ a,
    (λ m, (is_null (index "openai" (index "services" a)), m)) <$> resolve a "mcp") agents) in
  mkGroup name daemon (length agents) (running_actors g) openai mcp provider
    (nonempty (entries (index "actors" g))).

(** Whether a daemon's account of a group replaces the one held. *)
Definition replaces (e prev : GroupEntry) : bool :=
  bool_decide (running prev < running e ∨ (running prev = running e ∧ agents_alive prev < agents_alive e))
  || (bool_decide (running e = running prev ∧ agents_alive e = agents_alive prev)
      && bool_decide (str_lt (g_daemon e) (g_daemon prev))).

Definition add_entry (out : gmap string GroupEntry) (e : GroupEntry) : gmap string GroupEntry :=
  if is_none_or (out !! g_group e) (replaces e) then <[g_group e := e]> out else out.

(** Every account of every group by a fresh view, in the order they are met. *)
Definition accounts (s : Shared) : list GroupEntry :=
  let addrs := all_node_addrs s in
  hash_iter (daemons s) ≫= λ '(addr, v),
    match fresh_status v with
    | None => []
    | Some snap => (λ '(name, g), group_entry addrs addr name g) <$> entries (index "groups" snap)
    end.

Definition announced_groups (s : Shared) : gmap string GroupEntry := foldl add_entry ∅ (accounts s).

(** *** Retirement *)

Definition live_new (t : N) : Liveness := mkLive t false.
Definition retired (l : Liveness) : bool := bool_decide (model_ttl (scfg C) < elapsed C (ok_at l))%N.

(** [Liveness::round]: the clock after one round, and whether this is the
    round that retires the group. *)
Definition live_round (l : Liveness) (ok : bool) : Liveness * bool :=
  if ok then (live_new (now C), false)
  else if told l || negb (retired l) then (l, false)
  else (mkLive (ok_at l) true, true).

Definition group_table (s : Shared) : gmap string GroupEntry :=
  filter (λ '(name, _), is_none_or (live s !! name) (λ l, negb (retired l)) = true) (announced_groups s).

(** *** Health *)

Definition health_of (s : Shared) (e : GroupEntry) : Result (list Value) string :=
  match openai e with
  | None => Err "no announced OpenAI endpoint"
  | Some ep =>
      match candidates ep with
      | [] => Err ("announced " +:+ announced ep +:+ ", and no address of that node passes ALLOWED_SOURCES")
      | _ =>
          if placed e && bool_decide (running e = 0) then Err "no running actors"
          else match probes s !! g_group e with
               | None => Err "not probed yet"
               | Some p =>
                   if negb (pr_ok p) then
                     Err ("endpoint probe failed: " +:+ default "unknown" (pr_error p) +:+
                          match note ep with Some n => " (agent reports: " +:+ n +:+ ")" | None => "" end)
                   else if bool_decide (probe_fresh (scfg C) < elapsed C (pr_seen p))%N
                   then Err "endpoint probe stale"
                   else Ok (pr_models p)
               end
      end
  end.

Definition in_service (s : Shared) (e : GroupEntry) : Result unit string :=
  match openai e, mcp e with
  | None, Some _ =>
      if decide (agents_alive e = 0) then Err "no alive agent announces its MCP server" else Ok tt
  | _, _ => match health_of s e with Ok _ => Ok tt | Err why => Err why end
  end.

(** One probe round's bookkeeping, and the retirements to report. *)
Definition age_one (s : Shared) (e : GroupEntry) (acc : gmap string Liveness * list (string * string))
    : gmap string Liveness * list (string * string) :=
  let '(lv, gone) := acc in
  let l := default (live_new (now C)) (lv !! g_group e) in
  match in_service s e with
  | Ok _ => (<[g_group e := (live_round l true).1]> lv, gone)
  | Err why =>
      let '(l', tell) := live_round l false in
      (<[g_group e := l']> lv, if tell then gone ++ [(g_group e, why)] else gone)
  end.
Definition age_groups (s : Shared) (table : gmap string GroupEntry) : Shared * list (string * string) :=
  let kept := filter (λ '(name, _), is_Some (table !! name)) (live s) in
  let '(lv, gone) := foldl (λ acc e, age_one s e acc) (kept, []) (bt_values table) in
  (s <| live := lv |>, gone).

(** *** Routes *)

Definition endpoint_url (s : Shared) (e : GroupEntry) : option string :=
  ep ← openai e;
  match probes s !! g_group e ≫= pr_selected with Some u => Some u | None => best ep end.

Definition model_ids (models : list Value) : list string := omap (λ m, as_str (index "id" m)) models.

Definition healthy_entries (s : Shared) : list (GroupEntry * list Value) :=
  omap (λ e, match health_of s e with Ok ms => Some (e, ms) | Err _ => None end) (bt_values (group_table s)).

(** [entry(k).or_insert(v)] *)
Definition or_insert {A} (k : string) (v : A) (m : gmap string A) : gmap string A :=
  match m !! k with Some _ => m | None => <[k := v]> m end.

Definition model_table (s : Shared) : gmap string (string * string) :=
  foldl (λ m '(e, ms),
    let url := default EmptyString (endpoint_url s e) in
    foldl (λ m id, or_insert id (g_group e, url) m) m (model_ids ms)) ∅ (healthy_entries s).

Definition listed_model (m : Value) (group : string) : Value := set_key "owned_by" (Str group) m.

Definition model_objects (s : Shared) : list Value :=
  bt_values (foldl (λ out '(e, ms),
    foldl (λ out m, match as_str (index "id" m) with
                    | Some id => or_insert id (listed_model m (g_group e)) out
                    | None => out
                    end) out ms) ∅ (healthy_entries s)).

Definition not_ready (s : Shared) : gmap string string :=
  foldl (λ out e, match health_of s e with Ok _ => out | Err why => <[g_group e := why]> out end)
        ∅ (bt_values (group_table s)).

(** *** The status document *)

Definition secs (ms : N) : N := (ms / 1000)%N.
Definition Jbool_opt (o : option bool) : Value := Jopt Bool o.

Definition daemon_json (s : Shared) (v : DaemonView) : Value :=
  obj_of [("connected", Bool (bool_decide (is_Some (dv_status v))));
          ("age_s", Jopt JN (secs ∘ elapsed C <$> dv_seen v)); ("error", Jopt Str (dv_error v));
          ("node_id", Jopt Str (dv_node_id v)); ("seed", Bool (dv_seed v));
          ("alternates", Jopt Jstrs (id ← dv_node_id v; w ← nodes s !! id;
                                     Some (sort_strs (elements (w_alternates w)))))].

Definition group_json (s : Shared) (e : GroupEntry) : Value :=
  let health := health_of s e in
  obj_of [("daemon", Str (g_daemon e)); ("agents_alive", Jnat (agents_alive e));
          ("actors_running", Jnat (running e)); ("openai", Jopt Str (endpoint_url s e));
          ("openai_candidates", Jopt Jstrs (candidates <$> openai e));
          ("openai_note", Jopt Str (openai e ≫= note)); ("provider", Str (provider e));
          ("mcp", Jopt Str (mcp e ≫= best));
          ("healthy", Bool (bool_decide (is_Some (ok health))));
          ("models", Jopt (Jstrs ∘ model_ids) (ok health));
          ("why_not", match health with Ok _ => Null | Err why => Str why end)].

Definition status_view (s : Shared) (started : N) (verify : bool) : Value :=
  obj_of [("uptime_s", JN (secs (elapsed C started))); ("verify", Bool verify);
          ("daemons", Jmap (daemon_json s) (daemons s));
          ("groups", Jmap (group_json s) (group_table s));
          ("models", Jmap (λ '(g, url), obj_of [("group", Str g); ("url", Str url)]) (model_table s))].
End groups.

(** ** Objects *)

Lemma index_set_key k k' v x : is_Some (as_object x) →
  index k (set_key k' v x) = if decide (k = k') then v else index k x.
Proof.
  destruct x; intros [? ?]; try done. unfold index, get. cbn. rewrite obj_get_insert. by case_decide.
Qed.

(** ** Sorted iteration of related maps *)

Lemma bt_iter_sorted {A} (m : gmap string A) : StronglySorted key_le (bt_iter m).
Proof.
  assert (Total (@key_le A)) by (intros x y; unfold key_le; apply total, _).
  assert (Transitive (@key_le A)) by (intros x y z; unfold key_le; apply transitivity).
  apply (StronglySorted_merge_sort _).
Qed.

Lemma bt_iter_NoDup {A} (m : gmap string A) : NoDup (bt_iter m).
Proof. apply (NoDup_fmap_1 fst), bt_keys_NoDup. Qed.

Lemma bt_iter_imap {A B} (f : string → A → B) (m : gmap string A) :
  bt_iter (map_imap (λ k x, Some (f k x)) m) = (λ '(k, x), (k, f k x)) <$> bt_iter m.
Proof.
  set (h := λ '(k, x), (k, f k x)).
  assert (∀ k y, (k, y) ∈ h <$> bt_iter m ↔ (k, y) ∈ bt_iter (map_imap (λ k x, Some (f k x)) m)) as Hin.
  { intros k y. rewrite elem_of_bt_iter, map_lookup_imap, list_elem_of_fmap. split.
    - intros ([k' x] & [= -> ->] & Hx%elem_of_bt_iter). by rewrite Hx.
    - destruct (m !! k) as [x|] eqn:Hx; [|done]. cbn. intros [= <-]. exists (k, x). by rewrite elem_of_bt_iter. }
  apply (StronglySorted_unique_strong key_le).
  - intros [k x] [k' y] Hx Hy Hle Hge. assert (k = k') as <- by (apply (anti_symm String.le); done).
    apply Hin, elem_of_bt_iter in Hy. apply elem_of_bt_iter in Hx. congruence.
  - apply bt_iter_sorted.
  - clear Hin. pose proof (bt_iter_sorted m) as Hs. induction Hs as [|[k x] l Hs IH Hall]; [constructor|]. cbn. constructor; [done|].
    apply Forall_fmap. apply (list.Forall_impl _ _ _ Hall). by intros [k' y].
  - symmetry. apply NoDup_Permutation; [|apply bt_iter_NoDup|by intros [k y]].
    apply (NoDup_fmap_1 fst). rewrite <-list_fmap_compose.
    rewrite (list_fmap_ext _ fst) by (by intros ? [? ?]). apply bt_keys_NoDup.
Qed.

Lemma bt_values_imap {A B} (f : string → A → B) (m : gmap string A) :
  bt_values (map_imap (λ k x, Some (f k x)) m) = (λ '(k, x), f k x) <$> bt_iter m.
Proof.
  unfold bt_values. rewrite bt_iter_imap, <-list_fmap_compose. apply list_fmap_ext. by intros i [k x].
Qed.

Lemma bt_values_fmap {A B} (f : A → B) (m : gmap string A) : bt_values (f <$> m) = f <$> bt_values m.
Proof.
  replace (f <$> m) with (map_imap (λ _ x, Some (f x)) m).
  - rewrite bt_values_imap. unfold bt_values. rewrite <-list_fmap_compose. apply list_fmap_ext. by intros i [k x].
  - apply map_eq. intros k. by rewrite map_lookup_imap, lookup_fmap; destruct (m !! k).
Qed.

Lemma elem_of_bt_values {A} (m : gmap string A) x : x ∈ bt_values m ↔ ∃ k, m !! k = Some x.
Proof.
  unfold bt_values. rewrite list_elem_of_fmap. split.
  - intros ([k y] & -> & Hin). exists k. by apply elem_of_bt_iter in Hin.
  - intros [k Hk]. exists (k, x). by rewrite elem_of_bt_iter.
Qed.

(** ** First writer wins *)

Lemma foldl_or_insert {A} (l : list (string * A)) m k :
  foldl (λ m '(k, v), or_insert k v m) m l !! k
  = match m !! k with
    | Some v => Some v
    | None => find_map (λ '(k', v), if decide (k' = k) then Some v else None) l
    end.
Proof.
  revert m. induction l as [|[k1 v1] l IH]; intros m; cbn; [by destruct (m !! k)|].
  rewrite IH. unfold or_insert. destruct (decide (k1 = k)) as [->|Hne].
  - destruct (m !! k) as [v|] eqn:Hk; [by rewrite Hk|]. by rewrite lookup_insert_eq.
  - destruct (m !! k1); [done|]. by rewrite lookup_insert_ne.
Qed.

(** ** What the tables hold *)

Section tables.
Context `{HI : HashIter} (C : Ctx).
Implicit Types s : Shared.

Definition group_keyed (table : gmap string GroupEntry) : Prop := ∀ k e, table !! k = Some e → g_group e = k.

Lemma announced_fold l m name e :
  group_keyed m → foldl add_entry m l !! name = Some e →
  (m !! name = Some e ∨ e ∈ l) ∧ g_group e = name.
Proof.
  revert m. induction l as [|x l IH]; intros m Hm; cbn.
  { intros He. split; [by left|by apply Hm]. }
  intros He. assert (group_keyed (add_entry m x)) as Hx.
  { unfold add_entry. case_match; [|done]. intros k e' [[<- <-]|[_ ?]]%lookup_insert_Some; [done|by apply Hm]. }
  destruct (IH _ Hx He) as [[Hin|Hin] Hg]; [|split; [|done]; right; by right].
  split; [|done]. unfold add_entry in Hin. case_match; [|by left].
  apply lookup_insert_Some in Hin as [[_ ->]|[_ ?]]; [right; by left|by left].
Qed.

Lemma group_keyed_empty : group_keyed ∅.
Proof. by intros k e He. Qed.

Lemma announced_keyed s : group_keyed (announced_groups C s).
Proof. intros k e He. by apply announced_fold in He as [_ ?]; [|apply group_keyed_empty]. Qed.

(** The daemon with more running actors is believed, then the one with more
    live agents, then the one whose address sorts first. *)
Definition no_better (e e' : GroupEntry) : Prop :=
  running e' < running e ∨ (running e' = running e ∧
    (agents_alive e' < agents_alive e ∨ (agents_alive e' = agents_alive e ∧ String.le (g_daemon e) (g_daemon e')))).

Lemma replaces_no_better e prev : replaces e prev = true → no_better e prev.
Proof.
  unfold replaces, no_better, str_lt. rewrite orb_true_iff, andb_true_iff, !bool_decide_eq_true.
  intros [[|[]]|[[] []]]; [lia|lia|]. right. split; [done|]. by right.
Qed.

Lemma not_replaces_no_better e prev : replaces e prev = false → no_better prev e.
Proof.
  unfold replaces, no_better, str_lt. rewrite orb_false_iff, andb_false_iff, !bool_decide_eq_false.
  intros [H1 H2]. destruct (decide (running e = running prev ∧ agents_alive e = agents_alive prev)) as [[? ?]|Hne].
  - right. split; [done|]. right. split; [done|]. destruct (total String.le (g_daemon e) (g_daemon prev)); [|done].
    destruct (decide (g_daemon e = g_daemon prev)) as [->|]; [done|]. exfalso. destruct H2; tauto.
  - clear H2. destruct (decide (running e = running prev)); [right; split; [done|]; left|left]; lia.
Qed.

Lemma no_better_trans a b c : no_better a b → no_better b c → no_better a c.
Proof.
  intros [|[E1 H1]] [|[E2 H2]]; try (left; lia). right. split; [lia|].
  destruct H1 as [|[F1 L1]], H2 as [|[F2 L2]]; try (left; lia). right. split; [lia|]. by etrans.
Qed.
Lemma no_better_refl a : no_better a a.
Proof. right. split; [done|]. by right. Qed.

Lemma announced_best l m name :
  (∀ e, foldl add_entry m l !! name = Some e →
    (∀ e', e' ∈ l → g_group e' = name → no_better e e') ∧
    (∀ e', m !! name = Some e' → no_better e e')) ∧
  (foldl add_entry m l !! name = None → m !! name = None ∧ ∀ e', e' ∈ l → g_group e' ≠ name).
Proof.
  revert m. induction l as [|x l IH]; intros m; cbn.
  { split; [|intros ->; split; [done|]; by intros ? ?%not_elem_of_nil].
    intros e He. split; [by intros ? ?%not_elem_of_nil|]. intros e' He'. simplify_eq. apply no_better_refl. }
  destruct (IH (add_entry m x)) as [IHs IHn]. split.
  - intros e He. destruct (IHs e He) as [Hl Hm]. unfold add_entry in Hm.
    assert (∀ e', m !! name = Some e' → no_better e e') as Hkeep.
    { intros e' He'. destruct (decide (g_group x = name)) as [Hx|Hx].
      - rewrite Hx, He' in Hm. cbn in Hm. destruct (replaces x e') eqn:Hr; [|by apply Hm].
        eapply no_better_trans; [apply Hm; by rewrite lookup_insert_eq|by apply replaces_no_better].
      - apply Hm. case_match; [by rewrite lookup_insert_ne|done]. }
    split; [|done]. intros e' [->|Hin]%elem_of_cons Hg; [|by apply Hl]. rewrite Hg in Hm.
    destruct (m !! name) as [e2|] eqn:He2; cbn in Hm.
    + destruct (replaces x e2) eqn:Hr; [apply Hm; by rewrite lookup_insert_eq|].
      eapply no_better_trans; [by apply Hkeep|by apply not_replaces_no_better].
    + apply Hm. by rewrite lookup_insert_eq.
  - intros Hnone. destruct (IHn Hnone) as [Hm Hl]. unfold add_entry in Hm.
    destruct (decide (g_group x = name)) as [Hx|Hx].
    + rewrite Hx in Hm. destruct (m !! name) as [e2|] eqn:He2; cbn in Hm.
      * destruct (replaces x e2); [by rewrite lookup_insert_eq in Hm|congruence].
      * by rewrite lookup_insert_eq in Hm.
    + split; [|intros e' [->|?]%elem_of_cons; [done|by apply Hl]].
      case_match; [by rewrite lookup_insert_ne in Hm|done].
Qed.

(** The table holds every group some fresh view describes, by the account
    of one daemon whose view is fresh: the one with most running actors, then
    most live agents, then the least address. A stale view contributes
    nothing. *)
Theorem announced_choice s name :
  (∀ e, announced_groups C s !! name = Some e →
     g_group e = name ∧ (∃ v, daemons s !! g_daemon e = Some v ∧ fresh_view C v = true) ∧
     ∀ e', e' ∈ accounts C s → g_group e' = name → no_better e e') ∧
  (announced_groups C s !! name = None → ∀ e', e' ∈ accounts C s → g_group e' ≠ name).
Proof.
  destruct (announced_best (accounts C s) ∅ name) as [Hs Hn]. split.
  - intros e He. destruct (announced_fold _ _ _ _ group_keyed_empty He) as [[Hin|Hin] Hg]; [done|].
    split; [done|]. split; [|by apply Hs].
    unfold accounts in Hin. apply list_elem_of_bind in Hin as ([addr v] & Hin & Hv).
    apply elem_of_hash_iter in Hv. unfold fresh_status in Hin. destruct (fresh_view C v) eqn:Hf; [|by apply not_elem_of_nil in Hin].
    destruct (dv_status v); [|by apply not_elem_of_nil in Hin].
    apply list_elem_of_fmap in Hin as ([n g] & -> & _). exists v. split; [|done].
    unfold group_entry. by destruct (best_openai _).
  - intros Hnone. by apply Hn.
Qed.
End tables.

(** ** Endpoints *)

Lemma elem_of_keep_first l seen h : h ∈ keep_first seen l ↔ h ∈ l ∧ h ∉ seen.
Proof.
  revert seen. induction l as [|x l IH]; intros seen; cbn.
  { split; [by intros ?%not_elem_of_nil|by intros [?%not_elem_of_nil ?]]. }
  destruct (decide (x ∈ seen)) as [Hx|Hx].
  - rewrite IH, elem_of_cons. split; [tauto|]. intros [[->|?] ?]; [done|tauto].
  - rewrite !elem_of_cons, IH, not_elem_of_union, elem_of_singleton.
    destruct (decide (h = x)) as [->|]; tauto.
Qed.

Lemma keep_first_NoDup l seen : NoDup (keep_first seen l).
Proof.
  revert seen. induction l as [|x l IH]; intros seen; cbn; [constructor|].
  destruct (decide (x ∈ seen)); [done|]. constructor; [|done].
  rewrite elem_of_keep_first, not_elem_of_union, elem_of_singleton. tauto.
Qed.

(** A port announcement becomes one URL per address of the announcing node
    that ALLOWED_SOURCES admits and no other, each once, the addresses on this
    router's own networks first and the node's order inside each half; a
    host the operator wrote is the one URL and is not gated. *)
Theorem endpoint_gated agent svc addrs allowed local ep :
  endpoint_of agent svc addrs allowed local = Some ep →
  let entry := index svc (index "services" agent) in
  let node_ip := str_or "" (index "node_ip" agent) in
  ∃ port, as_u64 (index "port" entry) = Some port ∧
  let url h := http_url h port (str_or "" (index "path" entry)) in
  match as_str (index "host" entry) with
  | Some (String a h) => candidates ep = [url (String a h)]
  | _ =>
      ∃ hosts, candidates ep = url <$> filter (λ h, on_local_net h local = true) hosts ++
                                       filter (λ h, on_local_net h local = false) hosts ∧
        NoDup hosts ∧
        ∀ h, h ∈ hosts ↔ h ∈ default [node_ip] (addrs !! node_ip) ∧ h ≠ EmptyString ∧
                         permits allowed h local = true
  end.
Proof.
  unfold endpoint_of. cbn zeta. set (entry := index svc (index "services" agent)).
  destruct (as_u64 (index "port" entry)) as [port|]; [|done]. cbn [mbind option_bind]. intros He. exists port.
  split; [done|]. destruct (as_str (index "host" entry)) as [[|a h]|]; cbn in He; injection He as <-; [|done|];
    (eexists; split_and!; [cbn [candidates]; unfold candidate_hosts; rewrite sort_by_flag_spec; f_equal;
       f_equal; apply list_filter_iff; intros x; by destruct (on_local_net x local)|apply keep_first_NoDup|];
     intros x; rewrite elem_of_keep_first, list_elem_of_filter, andb_true_iff;
     unfold str_empty; rewrite negb_true_iff, bool_decide_eq_false; set_solver).
Qed.

(** ** Routes and the listing *)

Section routes.
Context `{HI : HashIter} (C : Ctx).
Implicit Types s : Shared.

Definition route_of s (e : GroupEntry) : string * string := (g_group e, default EmptyString (endpoint_url s e)).
Definition names_model (id : string) (em : GroupEntry * list Value) : bool := bool_decide (id ∈ model_ids em.2).

Lemma find_map_bind {A B D} (f : B → option D) (g : A → list B) (l : list A) :
  find_map f (l ≫= g) = find_map (λ x, find_map f (g x)) l.
Proof.
  induction l as [|x l IH]; [done|]. cbn. induction (g x) as [|y ys IHy]; cbn; [done|].
  by destruct (f y).
Qed.

Lemma find_map_ext {A B} (f g : A → option B) l : (∀ x, f x = g x) → find_map f l = find_map g l.
Proof. intros Hfg. induction l as [|x l IH]; cbn; [done|]. by rewrite Hfg, IH. Qed.

Lemma fold_routes {A B} (key : A → list (string * B)) (l : list A) (k : string) :
  foldl (λ m x, foldl (λ m '(k, v), or_insert k v m) m (key x)) ∅ l !! k
  = find_map (λ x, find_map (λ '(k', v), if decide (k' = k) then Some v else None) (key x)) l.
Proof.
  transitivity (foldl (λ m '(k, v), or_insert k v m) ∅ (l ≫= key) !! k).
  - f_equal. generalize (∅ : gmap string B). induction l as [|x l IH]; intros m; cbn; [done|].
    by rewrite foldl_app, IH.
  - rewrite foldl_or_insert, lookup_empty. apply find_map_bind.
Qed.

Lemma find_id {B} (v : B) (id : string) (ids : list string) :
  find_map (λ '(k', v), if decide (k' = id) then Some v else None) ((λ i, (i, v)) <$> ids)
  = if bool_decide (id ∈ ids) then Some v else None.
Proof.
  induction ids as [|i ids IH]; [done|]. cbn. destruct (decide (i = id)) as [->|Hne].
  - by rewrite bool_decide_eq_true_2 by left.
  - rewrite IH. rewrite (bool_decide_ext (id ∈ ids) (id ∈ i :: ids)); [done|].
    rewrite elem_of_cons. split; [by right|by intros [->|?]].
Qed.

Lemma model_table_lookup s id :
  model_table C s !! id
  = find_map (λ em, if names_model id em then Some (route_of s em.1) else None) (healthy_entries C s).
Proof.
  transitivity (find_map (λ em, find_map (λ '(k', v), if decide (k' = id) then Some v else None)
    ((λ i, (i, route_of s em.1)) <$> model_ids em.2)) (healthy_entries C s)).
  - rewrite <-fold_routes. unfold model_table. f_equal.
    generalize (∅ : gmap string (string * string)).
    induction (healthy_entries C s) as [|[e ms] l IH]; intros m; [done|]. cbn [foldl]. rewrite IH. f_equal.
    cbn [fst snd]. revert m. induction (model_ids ms) as [|i ids IHi]; intros m; [done|]. cbn. apply IHi.
  - apply find_map_ext. intros em. by rewrite find_id.
Qed.

(** The listing's map before its values are taken. *)
Definition listed s : gmap string Value :=
  foldl (λ out '(e, ms),
    foldl (λ out m, match as_str (index "id" m) with
                    | Some id => or_insert id (listed_model m (g_group e)) out
                    | None => out
                    end) out ms) ∅ (healthy_entries C s).

Definition listed_pairs (em : GroupEntry * list Value) : list (string * Value) :=
  omap (λ m, (λ id, (id, listed_model m (g_group em.1))) <$> as_str (index "id" m)) em.2.

Lemma listed_lookup s id :
  listed s !! id
  = find_map (λ em, find_map (λ '(k', v), if decide (k' = id) then Some v else None) (listed_pairs em))
      (healthy_entries C s).
Proof.
  rewrite <-fold_routes. unfold listed. f_equal. generalize (∅ : gmap string Value).
  induction (healthy_entries C s) as [|[e ms] l IH]; intros m; [done|]. cbn [foldl]. rewrite IH. f_equal.
  unfold listed_pairs. cbn [fst snd]. revert m. induction ms as [|v ms IHm]; intros m; [done|]. cbn.
  destruct (as_str (index "id" v)); cbn; apply IHm.
Qed.

Lemma listed_model_reads m g id : as_str (index "id" m) = Some id →
  as_str (index "id" (listed_model m g)) = Some id ∧ index "owned_by" (listed_model m g) = Str g.
Proof.
  intros Hid. assert (is_Some (as_object m)) as Hobj by (destruct m; cbn in Hid; try done; by eexists).
  unfold listed_model. rewrite !index_set_key by done. by rewrite decide_False, decide_True.
Qed.

(** One entry's part of the listing agrees with its part of the routes. *)
Lemma listed_pairs_find em id :
  (λ o, (as_str (index "id" o), index "owned_by" o)) <$>
    find_map (λ '(k', v), if decide (k' = id) then Some v else None) (listed_pairs em)
  = if names_model id em then Some (Some id, Str (g_group em.1)) else None.
Proof.
  destruct em as [e ms]. unfold listed_pairs, names_model, model_ids. cbn [fst snd].
  induction ms as [|m ms IH]; [done|]. cbn. destruct (as_str (index "id" m)) as [i|] eqn:Hi; [|apply IH]. cbn.
  destruct (decide (i = id)) as [->|Hne].
  - rewrite bool_decide_eq_true_2 by left. cbn. destruct (listed_model_reads m (g_group e) id Hi) as [-> ->]. done.
  - rewrite IH. unfold model_ids. set (ids := omap _ ms). rewrite (bool_decide_ext (id ∈ ids) (id ∈ i :: ids)); [done|].
    rewrite elem_of_cons. split; [by right|by intros [->|?]].
Qed.

Lemma find_map_fmap {A B D} (g : B → D) (f : A → option B) l :
  g <$> find_map f l = find_map (λ x, g <$> f x) l.
Proof. induction l as [|x l IH]; cbn; [done|]. by destruct (f x). Qed.

Lemma listed_agrees s :
  (λ o, (as_str (index "id" o), index "owned_by" o)) <$> listed s
  = map_imap (λ id '(g, _), Some (Some id, Str g)) (model_table C s).
Proof.
  apply map_eq. intros id. rewrite lookup_fmap, map_lookup_imap, listed_lookup, model_table_lookup, find_map_fmap.
  induction (healthy_entries C s) as [|em l IH]; [done|]. cbn. rewrite listed_pairs_find.
  destruct (names_model id em); [done|apply IH].
Qed.

Lemma elem_of_healthy s e ms : (e, ms) ∈ healthy_entries C s ↔
  group_table C s !! g_group e = Some e ∧ health_of C s e = Ok ms.
Proof.
  unfold healthy_entries. rewrite list_elem_of_omap. split.
  - intros (e' & Hin & He). destruct (health_of C s e') as [ms'|] eqn:Hh; [|done]. injection He as -> ->.
    split; [|done]. apply elem_of_bt_values in Hin as [k Hk]. pose proof Hk as Hk'.
    apply map_lookup_filter_Some in Hk' as [Ha _]. by rewrite (announced_keyed C s k e Ha).
  - intros [He Hh]. exists e. rewrite Hh. split; [|done]. apply elem_of_bt_values. eauto.
Qed.

(** The groups in service come in the order of their names. *)
Lemma healthy_sorted s :
  StronglySorted (λ x y, String.le (g_group x.1) (g_group y.1)) (healthy_entries C s).
Proof.
  assert (∀ p, p ∈ bt_iter (group_table C s) → g_group p.2 = p.1) as Hkey.
  { intros [k e] Hin%elem_of_bt_iter. apply map_lookup_filter_Some in Hin as [Hin _]. by apply announced_keyed in Hin. }
  unfold healthy_entries, bt_values. revert Hkey.
  induction (bt_iter_sorted (group_table C s)) as [|p l Hs IH Hall]; intros Hkey; [constructor|]. cbn.
  specialize (IH (λ q Hq, Hkey q (list_elem_of_further _ _ _ Hq))).
  destruct (health_of C s p.2) as [ms|]; [|exact IH]. constructor; [exact IH|].
  apply list.Forall_forall. intros [e' ms'] (e & Hin & He)%list_elem_of_omap.
  apply list_elem_of_fmap in Hin as (q & -> & Hq). destruct (health_of C s q.2); [|done]. injection He as <- <-. cbn.
  rewrite (Hkey p), (Hkey q) by (by constructor). apply (proj1 (list.Forall_forall _ _) Hall q Hq).
Qed.

Lemma find_map_first {A B} (R : A → A → Prop) (f : A → option B) l x y :
  StronglySorted R l → x ∈ l → is_Some (f x) → find_map f l = Some y →
  ∃ x0, f x0 = Some y ∧ (x0 = x ∨ R x0 x).
Proof.
  induction 1 as [|x0 l Hs IH Hall]; [by intros ?%not_elem_of_nil|]. intros Hin Hf. cbn.
  destruct (f x0) as [y0|] eqn:H0.
  - intros [= ->]. exists x0. split; [done|]. apply elem_of_cons in Hin as [->|Hin]; [by left|right].
    by apply (proj1 (list.Forall_forall _ _) Hall).
  - apply elem_of_cons in Hin as [->|Hin]; [rewrite H0 in Hf; by destruct Hf|]. by apply IH.
Qed.

(** C24: A model is routed only to a group that is announced, not retired and
    healthy, whose own endpoint lists it, the first such group in the order of
    their names, and every model such a group lists is routed; and the listing a client reads names exactly the routed models,
    each once and in order, owned by the very group its requests go to. *)
Theorem routes_and_listing s :
  (∀ id g url, model_table C s !! id = Some (g, url) →
     ∃ e ms, group_table C s !! g = Some e ∧ health_of C s e = Ok ms ∧ id ∈ model_ids ms ∧
             url = default EmptyString (endpoint_url s e)) ∧
  (∀ id g url g' e' ms', model_table C s !! id = Some (g, url) →
     group_table C s !! g' = Some e' → health_of C s e' = Ok ms' → id ∈ model_ids ms' → String.le g g') ∧
  (∀ g e ms id, group_table C s !! g = Some e → health_of C s e = Ok ms → id ∈ model_ids ms →
     is_Some (model_table C s !! id)) ∧
  (λ o, (as_str (index "id" o), index "owned_by" o)) <$> model_objects C s
  = (λ '(id, (g, _)), (Some id, Str g)) <$> bt_iter (model_table C s).
Proof.
  split_and!.
  - intros id g url. rewrite model_table_lookup. intros ([e ms] & Hin & Hf)%find_map_Some.
    unfold names_model, route_of in Hf. cbn in Hf. case_bool_decide as Hid; [|done]. injection Hf as <- <-.
    apply elem_of_healthy in Hin as [He Hh]. by exists e, ms.
  - intros id g url g' e' ms'. rewrite model_table_lookup. intros Hf He Hh Hid.
    assert (g_group e' = g') as <-.
    { apply map_lookup_filter_Some in He as [He _]. by apply announced_keyed in He. }
    eapply find_map_first in Hf as ([e ms] & Hf & Hle);
      [|apply healthy_sorted|by apply elem_of_healthy|unfold names_model; by rewrite bool_decide_eq_true_2].
    destruct (names_model id (e, ms)); [|done]. injection Hf as <- _.
    destruct Hle as [[= -> ->]|Hle]; [reflexivity|exact Hle].
  - intros g e ms id He Hh Hid. rewrite model_table_lookup.
    assert (g_group e = g) as <-.
    { apply map_lookup_filter_Some in He as [He _]. by apply announced_keyed in He. }
    destruct (find_map _ _) eqn:Hf; [by eexists|]. exfalso.
    rewrite find_map_None in Hf. specialize (Hf (e, ms) (proj2 (elem_of_healthy s e ms) (conj He Hh))).
    unfold names_model in Hf. by rewrite bool_decide_eq_true_2 in Hf.
  - change (model_objects C s) with (bt_values (listed s)). rewrite <-bt_values_fmap, listed_agrees.
    rewrite (map_imap_ext _ (λ id r, Some (Some id, Str r.1)) _ (model_table C s)) by (intros k; by destruct (model_table C s !! k) as [[? ?]|]).
    rewrite bt_values_imap. apply list_fmap_ext. by intros i [id [g url]].
Qed.
End routes.

(** ** Retirement over time *)

Section retirement.
Context `{HI : HashIter} (C : Ctx).
Implicit Types s : Shared.

Definition at_time (t : N) : Ctx := mkCtx t (scfg C) (ifaces C).

(** What one probe round finds of a group: not announced, or announced and in
    service or not. *)
Record Round := mkRound { r_time : N; r_says : option bool }.

Definition clock_step (l : option Liveness) (r : Round) : option Liveness * bool :=
  match r_says r with
  | None => (None, false)
  | Some ok =>
      let '(l', tell) := live_round (at_time (r_time r)) (default (live_new (r_time r)) l) ok in
      (Some l', tell)
  end.
Fixpoint clock_run (l : option Liveness) (rs : list Round) : option Liveness * list bool :=
  match rs with
  | [] => (l, [])
  | r :: rs =>
      let '(l1, tell) := clock_step l r in
      let '(l2, tells) := clock_run l1 rs in (l2, tell :: tells)
  end.

Definition in_service_b s (e : GroupEntry) : bool := bool_decide (is_Some (ok (in_service C s e))).
Definition found s (table : gmap string GroupEntry) (name : string) : Round :=
  mkRound (now C) (in_service_b s <$> table !! name).

Lemma at_now : at_time (now C) = C.
Proof. unfold at_time. generalize C. by intros []. Qed.

Lemma age_one_lookup s e acc name :
  (age_one C s e acc).1 !! name
  = if decide (g_group e = name)
    then Some (live_round C (default (live_new (now C)) (acc.1 !! name)) (in_service_b s e)).1
    else acc.1 !! name.
Proof.
  destruct acc as [lv gone]. unfold age_one, in_service_b. cbn [fst].
  destruct (decide (g_group e = name)) as [->|Hne].
  - destruct (in_service C s e) as [[]|why].
    + cbn [fst ok]. by rewrite lookup_insert_eq.
    + destruct (live_round C (default (live_new (now C)) (lv !! name)) false) as [l' tell] eqn:Hr. cbn [ok fst].
      rewrite bool_decide_eq_false_2, Hr by by intros [? ?].
      by rewrite lookup_insert_eq.
  - destruct (in_service C s e) as [[]|why]; [by apply lookup_insert_ne|].
    destruct (live_round C (default (live_new (now C)) (lv !! g_group e)) false) as [l' tell]. cbn [fst].
    by rewrite lookup_insert_ne.
Qed.

Lemma age_fold s l acc name : NoDup (g_group <$> l) →
  (foldl (λ acc e, age_one C s e acc) acc l).1 !! name
  = match list_find (λ e, g_group e = name) l with
    | Some (_, e) => Some (live_round C (default (live_new (now C)) (acc.1 !! name)) (in_service_b s e)).1
    | None => acc.1 !! name
    end.
Proof.
  revert acc. induction l as [|e l IH]; intros acc Hnd; [done|]. cbn in Hnd.
  apply list.NoDup_cons in Hnd as [Hno Hnd]. cbn [foldl]. rewrite IH, age_one_lookup by done.
  cbn. destruct (decide (g_group e = name)) as [He|He].
  - replace (list_find (λ e, g_group e = name) l) with (@None (nat * GroupEntry)); [done|].
    symmetry. apply list_find_None, list.Forall_forall. intros e' Hin Hg. apply Hno.
    apply list_elem_of_fmap. exists e'. by rewrite He.
  - by destruct (list_find (λ e, g_group e = name) l) as [[? ?]|].
Qed.

(** One round of the prober turns every group's clock by one step. *)
Lemma age_groups_step s table name : group_keyed table →
  live (age_groups C s table).1 !! name = (clock_step (live s !! name) (found s table name)).1.
Proof.
  intros Hk. unfold age_groups.
  destruct (foldl _ _ _) as [lv gone] eqn:Hf.
  assert (lv = (foldl (λ acc e, age_one C s e acc) (filter (λ '(n, _), is_Some (table !! n)) (live s), []) (bt_values table)).1)
    as -> by by rewrite Hf.
  cbn [fst live update_with]. cbn. rewrite age_fold.
  - cbn [fst]. unfold clock_step, found. cbn [r_says r_time]. rewrite at_now.
    destruct (table !! name) as [e|] eqn:He; cbn [fmap option_fmap option_map].
    + assert (∃ i, list_find (λ e, g_group e = name) (bt_values table) = Some (i, e)) as [i ->].
      { destruct (list_find_elem_of (λ e, g_group e = name) (bt_values table) e) as [[i e'] Hfind].
        - apply elem_of_bt_values. eauto.
        - by apply Hk.
        - exists i. rewrite Hfind. apply list_find_Some in Hfind as (Hin & Hg & _).
          apply list_elem_of_lookup_2, elem_of_bt_values in Hin as [k Hin]. pose proof (Hk _ _ Hin) as Hk'.
          do 2 f_equal. congruence. }
      assert (filter (λ '(n, _), is_Some (table !! n)) (live s) !! name = live s !! name) as ->.
      { destruct (live s !! name) as [l|] eqn:Hl; [|by apply map_lookup_filter_None; left].
        apply map_lookup_filter_Some. by rewrite He. }
      by destruct (live_round C (default (live_new (now C)) (live s !! name)) (in_service_b s e)).
    + assert (list_find (λ e, g_group e = name) (bt_values table) = None) as ->.
      { apply list_find_None, list.Forall_forall. intros e Hin Hg. apply elem_of_bt_values in Hin as [k Hin].
        pose proof (Hk _ _ Hin). congruence. }
      apply map_lookup_filter_None. right. intros l _. rewrite He. by intros [? ?].
  - assert (g_group <$> bt_values table = bt_keys table) as ->; [|apply bt_keys_NoDup].
    unfold bt_values, bt_keys. rewrite <-list_fmap_compose. apply list_fmap_ext.
    intros i [k e] Hin%list_elem_of_lookup_2. apply elem_of_bt_iter in Hin. by apply Hk.
Qed.

Definition reports (tells : list bool) : nat := length (filter (λ b, b = true) tells).
Definition late (r r' : Round) : bool := bool_decide (model_ttl (scfg C) < r_time r' - r_time r)%N.

(** The round a clock counts from, and what has happened since. *)
Definition counts_from (rs : list Round) (l : Liveness) (tells : list bool) (r : Round) (since : list Round)
    : Prop :=
  ∃ pre, rs = pre ++ r :: since ∧ ok_at l = r_time r ∧ (∀ r', r' ∈ since → r_says r' = Some false) ∧
    (r_says r = Some true ∨ (r_says r = Some false ∧ (pre = [] ∨ ∃ pre' r0, pre = pre' ++ [r0] ∧ r_says r0 = None))) ∧
    told l = existsb (late r) since ∧
    reports (drop (length pre) tells) = (if told l then 1 else 0) ∧ length tells = length rs.

Lemma clock_run_app l rs1 rs2 :
  clock_run l (rs1 ++ rs2) = let '(l1, t1) := clock_run l rs1 in let '(l2, t2) := clock_run l1 rs2 in (l2, t1 ++ t2).
Proof.
  revert l. induction rs1 as [|r rs1 IH]; intros l; cbn; [by destruct (clock_run l rs2)|].
  destruct (clock_step l r) as [l1 tell]. rewrite IH. destruct (clock_run l1 rs1) as [l2 t2].
  by destruct (clock_run l2 rs2).
Qed.

Lemma clock_run_length l rs : length (clock_run l rs).2 = length rs.
Proof.
  revert l. induction rs as [|r rs IH]; intros l; [done|]. cbn. destruct (clock_step l r) as [l1 tell].
  specialize (IH l1). destruct (clock_run l1 rs). cbn in *. by f_equal.
Qed.

Lemma clock_counts rs :
  match clock_run None rs with
  | (Some l, tells) => ∃ r since, counts_from rs l tells r since
  | (None, _) => rs = [] ∨ ∃ rs' r0, rs = rs' ++ [r0] ∧ r_says r0 = None
  end.
Proof.
  induction rs as [|r rs IH] using rev_ind; [by left|]. rewrite clock_run_app.
  pose proof (clock_run_length None rs) as Hlen.
  destruct (clock_run None rs) as [l tells]. cbn [clock_run snd] in *. destruct (clock_step l r) as [l' tell] eqn:Hstep.
  unfold clock_step in Hstep. destruct (r_says r) as [okb|] eqn:Hsays.
  2: { injection Hstep as <- <-. right. by exists rs, r. }
  destruct l as [l|]; cbn [from_option id] in Hstep.
  - destruct IH as (r0 & since & pre & -> & Hat & Hf & Hfrom & Htold & Hrep & _).
    unfold live_round in Hstep. destruct okb.
    + injection Hstep as <- <-. exists r, [], (pre ++ r0 :: since). cbn.
      split_and!; [done|done|by intros ? ?%not_elem_of_nil|by left|done| |rewrite !length_app, Hlen, length_app; cbn; lia].
      by rewrite drop_app_length' by done.
    + assert (retired (at_time (r_time r)) l = late r0 r) as Hlate.
      { unfold retired, late, elapsed. cbn. by rewrite Hat. }
      rewrite Hlate in Hstep. rewrite !length_app in Hlen. cbn in Hlen.
      assert (∀ l2, ok_at l2 = ok_at l → told l2 = (told l || late r0 r) →
        (reports [tell] = (if told l then 0 else if late r0 r then 1 else 0)) →
        ∃ r1 since1, counts_from ((pre ++ r0 :: since) ++ [r]) l2 (tells ++ [tell]) r1 since1) as Hgo.
      { intros l2 Hok2 Ht2 Hr2. exists r0, (since ++ [r]), pre. split_and!.
        - by rewrite <-app_assoc.
        - congruence.
        - intros r' [?| ->%list_elem_of_singleton]%elem_of_app; [by apply Hf|done].
        - done.
        - rewrite existsb_app. cbn. by rewrite orb_false_r, <-Htold.
        - rewrite drop_app_le by lia. unfold reports in *. rewrite list.filter_app, length_app, Hrep, Hr2, Ht2.
          by destruct (told l), (late r0 r).
        - rewrite !length_app. cbn. lia. }
      destruct (told l) eqn:Ht; cbn in Hstep; [|destruct (late r0 r) eqn:Hl; cbn in Hstep];
        injection Hstep as <- <-; apply Hgo; cbn; by rewrite ?Ht.
  - assert (l' = Some (live_new (r_time r)) ∧ tell = false) as [-> ->].
    { unfold live_round, retired, elapsed, live_new in Hstep. cbn in Hstep. rewrite N.sub_diag in Hstep.
      rewrite bool_decide_eq_false_2 in Hstep by lia. destruct okb; by injection Hstep as <- <-. }
    exists r, [], rs. split_and!; [done|done|by intros ? ?%not_elem_of_nil| |done| |].
    + destruct okb; [by left|]. right. split; [done|]. destruct IH as [->|IH]; [by left|by right].
    + by rewrite drop_app_length' by done.
    + by rewrite !length_app, Hlen.
Qed.
End retirement.

(** A group's serving clock counts from the last probe round that found it
    in service, or from the round that first saw it if none has since it was
    last announced. The group is listed exactly while that is no more than the
    model TTL ago, and its retirement is reported once, by the first round that finds
    it past the TTL. *)
Theorem retire_clock `{HI : HashIter} (C : Ctx) (s : Shared) rs l tells name :
  clock_run C None rs = (Some l, tells) → live s !! name = Some l →
  (∃ r since, counts_from C rs l tells r since ∧
    (is_Some (group_table C s !! name) ↔
     is_Some (announced_groups C s !! name) ∧ (now C - r_time r ≤ model_ttl (scfg C))%N)) ∧
  ∀ table, group_keyed table →
    live (age_groups C s table).1 !! name = (clock_step C (Some l) (found C s table name)).1.
Proof.
  intros Hrun Hl. split.
  - pose proof (clock_counts C rs) as Hc. rewrite Hrun in Hc. destruct Hc as (r & since & Hc).
    exists r, since. split; [done|]. destruct Hc as (pre & _ & Hat & _). unfold group_table.
    assert (retired C l = bool_decide (model_ttl (scfg C) < now C - r_time r)%N) as Hr.
    { unfold retired, elapsed. by rewrite Hat. }
    split.
    + intros [e [He Hv]%map_lookup_filter_Some]. split; [by eexists|]. rewrite Hl in Hv. cbn in Hv.
      rewrite Hr, negb_true_iff, bool_decide_eq_false in Hv. lia.
    + intros [[e He] Hle]. exists e. apply map_lookup_filter_Some. split; [done|]. rewrite Hl. cbn.
      rewrite Hr, negb_true_iff, bool_decide_eq_false. lia.
  - intros table Hk. rewrite <-Hl. by apply age_groups_step.
Qed.

(** ** Instances

    A daemon whose group announces vLLM on a port, two addresses of its node,
    and a router on the second one's network. *)

Definition demo_scfg : SCfg :=
  mkSCfg ["127.0.0.1:6380"] 10000 5000 3000 18000 30000 1800000 60000 10000 180000 60000 3600000
    (allow_parse "local,10.0.0.0/8") true.
Definition demo_lan : list Net := omap net_from_str ["192.168.1.0/24"].
Definition demo_ctx (t : N) : Ctx := mkCtx t demo_scfg demo_lan.
Definition demo_agent : Value :=
  obj_of [("alive", Bool true); ("node_ip", Str "10.0.0.1");
    ("services", obj_of [("openai", obj_of [("port", JN 8000); ("path", Str "/v1"); ("provider", Str "vllm")])])].
Definition demo_snapshot : Value :=
  obj_of [("node_ip", Str "10.0.0.1"); ("addrs", Jstrs ["10.0.0.1"; "172.16.0.9"; "192.168.1.5"]);
    ("groups", obj_of [("glm", obj_of [("agents", obj_of [("a1", demo_agent)]);
       ("actors", obj_of [("x", obj_of [("state", Str "running")])])])])].
Definition demo_model : Value := obj_of [("id", Str "glm53"); ("owned_by", Str "vllm")].
Definition demo_shared : Shared :=
  mkShared {[ "h:6380" := mkView (Some demo_snapshot) (Some 1000%N) None (Some "n1") true ]} {[ "h:6380" ]} ∅
    {[ "glm" := mkProbeResult true [demo_model] 1000 None None 0 ]} {[ "glm" := mkLive 0 false ]} ∅.

Example demo_routed :
  model_table (HI := in_key_order) (demo_ctx 2000) demo_shared !! "glm53" = Some ("glm", "http://192.168.1.5:8000/v1").
Proof. by vm_compute. Qed.
Example demo_stale : model_table (HI := in_key_order) (demo_ctx 32000) demo_shared = ∅.
Proof. by vm_compute. Qed.

Lemma endpoint_gated_witness : ∃ ep,
  endpoint_of demo_agent "openai" {[ "10.0.0.1" := ["10.0.0.1"; "172.16.0.9"; "192.168.1.5"] ]}
    (allowed_sources demo_scfg) demo_lan = Some ep ∧
  candidates ep = ["http://192.168.1.5:8000/v1"; "http://10.0.0.1:8000/v1"] ∧
  ∃ hosts, NoDup (A := string) hosts ∧ candidates ep = (λ h, http_url h 8000 "/v1") <$>
    filter (λ h, on_local_net h demo_lan = true) hosts ++ filter (λ h, on_local_net h demo_lan = false) hosts.
Proof.
  eexists. split; [vm_compute; reflexivity|]. split; [reflexivity|].
  edestruct (endpoint_gated demo_agent "openai" {[ "10.0.0.1" := ["10.0.0.1"; "172.16.0.9"; "192.168.1.5"] ]}
    (allowed_sources demo_scfg) demo_lan) as (port & Hport & Hc); [vm_compute; reflexivity|].
  injection Hport as <-. destruct Hc as (hosts & Hc & Hnd & _). exists hosts. split; [exact Hnd|exact Hc].
Defined.

Lemma retire_clock_witness :
  clock_run (demo_ctx 2000) None [mkRound 0 (Some true); mkRound 1000 (Some false)] = (Some (mkLive 0 false), [false; false]) ∧
  is_Some (announced_groups (HI := in_key_order) (demo_ctx 2000) demo_shared !! "glm") ∧
  is_Some (group_table (HI := in_key_order) (demo_ctx 2000) demo_shared !! "glm").
Proof.
  split; [reflexivity|].
  assert (is_Some (announced_groups (HI := in_key_order) (demo_ctx 2000) demo_shared !! "glm")) as Ha
    by (vm_compute; by eexists).
  split; [exact Ha|].
  destruct (proj1 (@retire_clock in_key_order (demo_ctx 2000) demo_shared
    [mkRound 0 (Some true); mkRound 1000 (Some false)] (mkLive 0 false) [false; false] "glm" eq_refl eq_refl))
    as (r & since & Hc & Hiff).
  apply Hiff. split; [exact Ha|]. destruct Hc as (pre & Heq & Hat & _).
  cbn [ok_at] in Hat. rewrite <-Hat. vm_compute. congruence.
Defined.
