(* ===== verification/AgentEnv.v ===== *)
(** * What an agent announces (rust/mentatd/src/agent.rs)

    The endpoints its container names, the node it claims to be, and the
    addresses a server listens on, read from the kernel's table. *)

From S2P Require Import Prelude Text Json Proto Addr Pattern Net Groups.

(** ** Numbers in text *)

(** [str::parse::<u16>] and [u16::from_str_radix(p, 16)]. *)
Definition skip_plus (s : string) : string := match s with String "+" s' => s' | _ => s end.
Definition parse_radix (radix lim : N) (s : string) : option N :=
  let s := skip_plus s in
  '(n, r) ← read_number radix (String.length s) true lim s; if str_empty r then Some n else None.
Definition parse_u16 (s : string) : option N :=
  n ← parse_u64 s; if bool_decide (n < 65536)%N then Some n else None.
Definition u16_from_hex : string → option N := parse_radix 16 65536.

(** ** Announcements *)

Inductive Announcement := Url (u : string) | Port (port : N) (path : string).

(** The text before the first slash, and the rest with the slash. *)
Definition split_path (rest : string) : string * string :=
  match split_once "/" rest with Some (l, r) => (l, "/" +:+ r) | None => (rest, EmptyString) end.

Definition parse_announcement (v : string) : Announcement :=
  let port_form (rest : string) :=
    let '(port, path) := split_path rest in
    match parse_u16 port with Some port => Port port path | None => Url v end in
  match strip_prefix "http://" v with
  | Some rest =>
      match strip_prefix "0.0.0.0:" rest with
      | Some rest => port_form rest
      | None => Url v
      end
  | None => if contains_str "://" v then Url v else port_form v
  end.

(** [http://host:port/path] as the fields a consumer forms a URL from. *)
Definition split_url (u : string) : option Service :=
  rest ← strip_prefix "http://" u;
  let '(authority, path) := split_path rest in
  '(host, port) ← rsplit_once ":" authority;
  let host := if bool_decide (host = "0.0.0.0" ∨ host = "::") then EmptyString else host in
  port ← parse_u16 port;
  Some (mkService host port path EmptyString EmptyString).

(** One variable: nothing set, a service, or a value the agent stops at. *)
Definition announced_service (v : option string) (provider : string) : Result (option Service) string :=
  match v with
  | None => Ok None
  | Some v =>
      if str_empty v then Ok None
      else match parse_announcement v with
           | Port port path => Ok (Some (mkService EmptyString port path provider EmptyString))
           | Url u =>
               match split_url u with
               | Some s => Ok (Some (s <| s_provider := provider |>))
               | None => Err v
               end
           end
  end.

(** [announced_services] and [announced_provider]; [to_lowercase] is the
    standard library's, over all of Unicode. An error stops the process. *)
Definition announced_services (to_lowercase : string → string) (env : string → option string)
    : Result (gmap string Service) string :=
  let provider := to_lowercase (trim (default EmptyString (env "MENTAT_MODEL_PROVIDER"))) in
  let? openai := announced_service (env "MENTAT_OPENAI_API") provider in
  let? mcp := announced_service (env "MENTAT_MCP_API") EmptyString in
  let out := match openai with Some s => {["openai" := s]} | None => ∅ end in
  Ok (match mcp with Some s => <["mcp" := s]> out | None => out end).

(** ** The node *)

Definition host_of (addr : string) : string :=
  let a := trim addr in
  match parse_ip a with
  | Some _ => a
  | None =>
      match strip_prefix "[" a ≫= split_once "]" with
      | Some (h, _) => h
      | None => match rsplit_once ":" a with Some (h, _) => h | None => a end
      end
  end.
Definition on_this_box (daemon_addr : string) (mine : list string) : bool :=
  let host := host_of daemon_addr in is_loopback host || bool_decide (host ∈ mine).

(** [claimed_node_ip]: [route] is the address the kernel would use toward the
    daemon. *)
Definition claimed_node_ip (var : option string) (daemon_addr : string) (mine : list string)
    (route : option string) : string :=
  let v := trim (default EmptyString var) in
  if negb (str_empty v) then v
  else if on_this_box daemon_addr mine then EmptyString
  else match route with
       | Some ip => if is_loopback ip then EmptyString else ip
       | None => EmptyString
       end.

(** ** Listening addresses *)

(** [Ipv4Addr] and [Ipv6Addr] as text. *)
Definition ipv4_text (o : list N) : string := join "." (pretty <$> o).

Fixpoint lower_hex_go (fuel : nat) (n : N) (acc : string) : string :=
  match fuel with
  | 0 => acc
  | S fuel =>
      let acc := String (hex_digit (n `mod` 16)) acc in
      if bool_decide (n < 16)%N then acc else lower_hex_go fuel (n / 16) acc
  end.
Definition lower_hex (n : N) : string := lower_hex_go 4 n EmptyString.

(** The longest run of zero segments, the first of equals, as its start and
    length. *)
Fixpoint zero_run (i : nat) (cur best : nat * nat) (segs : list N) : nat * nat :=
  match segs with
  | [] => best
  | s :: segs =>
      if decide (s = 0%N) then
        let cur := (if decide (snd cur = 0) then i else fst cur, S (snd cur)) in
        zero_run (S i) cur (if decide (snd best < snd cur) then cur else best) segs
      else zero_run (S i) (0, 0) best segs
  end.
Definition ipv6_text (segs : list N) : string :=
  match segs with
  | [0; 0; 0; 0; 0; 65535; a; b]%N => "::ffff:" +:+ ipv4_text [a / 256; a `mod` 256; b / 256; b `mod` 256]%N
  | _ =>
      let '(start, len) := zero_run 0 (0, 0) (0, 0) segs in
      let part (l : list N) := join ":" (lower_hex <$> l) in
      if decide (1 < len) then part (take start segs) +:+ "::" +:+ part (drop (start + len) segs) else part segs
  end.

(** [as_bytes().chunks(n)] of a string whose length [n] divides. *)
Fixpoint words8 (l : list string) : list (list string) :=
  match l with
  | a :: b :: c :: d :: l => [a; b; c; d] :: words8 l
  | [] => []
  | _ => [l]
  end.

(** One hex [local_address] field: each 32-bit word comes low byte first. *)
Definition parse_proc_addr (hex : string) (v6 : bool) : option string :=
  if decide (String.length hex = if v6 then 32 else 8) then
    ws ← mapM (mapM u8_from_hex) (words8 (chunks2 hex));
    let octets := ws ≫= @reverse N in
    Some (if v6 then ipv6_text ((fix pairs l := match l with a :: b :: l => (256 * a + b)%N :: pairs l | _ => [] end) octets)
          else ipv4_text octets)
  else None.

(** A row of /proc/net/tcp that listens on the port. *)
Definition listening_row (v6 : bool) (port : N) (line : string) : option string :=
  match split_whitespace line with
  | _ :: local :: _ :: st :: _ =>
      if bool_decide (st = "0A") then
        '(addr, p) ← split_once ":" local;
        if bool_decide (u16_from_hex p = Some port) then parse_proc_addr addr v6 else None
      else None
  | _ => None
  end.
Definition listening_addrs (table : string) (v6 : bool) (port : N) : list string :=
  omap (listening_row v6 port) (drop 1 (lines table)).
(** Both tables, where they can be read. *)
Definition listening_addrs_for (read : string → option string) (port : N) : list string :=
  sort_dedup (
    from_option (λ t, listening_addrs t false port) [] (read "/proc/net/tcp") ++
    from_option (λ t, listening_addrs t true port) [] (read "/proc/net/tcp6")).

(** One round of [watch_service_binds]: what is kept for the next, and the
    change to report: [Some note] to tell, [Some None] to withdraw. *)
Inductive BindTurn := GiveUp | Wait (ever : bool) | Settled (reported : option string) | Report (note : option string).
Definition bind_turn (ever late : bool) (reported : option string) (bound : list string) : BindTurn :=
  if negb (nonempty bound) then (if negb ever && late then GiveUp else Wait ever)
  else
    let wide := existsb (λ a, bool_decide (a = "0.0.0.0" ∨ a = "::")) bound in
    let note := if wide then None else Some ("bound to " +:+ join "," bound +:+ " only") in
    if bool_decide (note = reported) then Settled reported else Report note.

(** ** The unit tests of the source *)

Example any_address_of_this_box :
  let mine := ["10.100.0.2"; "192.168.1.77"] in
  on_this_box "192.168.1.77:6379" mine = true ∧ on_this_box "127.0.0.1:6379" mine = true ∧
  on_this_box "::1" mine = true ∧ on_this_box "[::1]:6379" mine = true ∧ on_this_box "10.100.0.2" mine = true ∧
  on_this_box "10.100.0.1:6379" mine = false ∧ on_this_box "gx10-5818:6379" mine = false ∧ on_this_box "" mine = false.
Proof. vm_compute. done. Qed.

Example announcement_forms :
  parse_announcement "http://10.100.0.1:8000/v1" = Url "http://10.100.0.1:8000/v1" ∧
  parse_announcement "http://0.0.0.0:8000/v1" = Port 8000 "/v1" ∧ parse_announcement "8000/v1" = Port 8000 "/v1" ∧
  parse_announcement "9000" = Port 9000 "" ∧ parse_announcement "not a url" = Url "not a url" ∧
  parse_announcement "http://0.0.0.0:notaport/v1" = Url "http://0.0.0.0:notaport/v1" ∧ parse_announcement "/v1" = Url "/v1".
Proof. vm_compute. done. Qed.

Definition tcp4 : string := join (String newline "")
  ["  sl  local_address rem_address   st tx_queue";
   "   0: 00000000:1F40 00000000:0000 0A 0"; "   1: 0100640A:2328 00000000:0000 0A 0";
   "   2: 0100640A:1F40 0200640A:C350 01 0"; ""].
Definition tcp6 : string := join (String newline "")
  ["  sl  local_address rem_address st";
   "   0: 00000000000000000000000000000000:1F40 00000000000000000000000000000000:0000 0A";
   "   1: 0000000000000000FFFF00000100640A:2328 00000000000000000000000000000000:0000 0A";
   "   2: B80D0120000000000000000001000000:2329 00000000000000000000000000000000:0000 0A"].
Example listening_rows :
  listening_addrs tcp4 false 8000 = ["0.0.0.0"] ∧ listening_addrs tcp4 false 9000 = ["10.100.0.1"] ∧
  listening_addrs tcp4 false 50000 = [] ∧ listening_addrs "" false 8000 = [] ∧
  listening_addrs tcp6 true 8000 = ["::"] ∧ listening_addrs tcp6 true 9000 = ["::ffff:10.100.0.1"] ∧
  listening_addrs tcp6 true 9001 = ["2001:db8::1"].
Proof. vm_compute. done. Qed.

(** ** From the variable to the router *)

Definition no_slash (s : string) : bool := all_chars (λ a, negb (bool_decide (a = "/"%char))) s.
Definition path_form (path : string) : Prop := path = EmptyString ∨ ∃ r, path = "/" +:+ r.

Lemma split_path_app authority path : no_slash authority = true → path_form path →
  split_path (authority +:+ path) = (authority, path).
Proof.
  intros Ha [->|[r ->]]; unfold split_path.
  - rewrite str_app_nil_r. by rewrite split_once_None.
  - rewrite (split_once_first "/" authority r Ha : split_once "/" (authority +:+ "/" +:+ r) = _). done.
Qed.
Lemma pretty_no_slash (n : N) : no_slash (pretty n) = true.
Proof.
  unfold no_slash. eapply all_chars_impl; [|apply pretty_digits]. intros a Ha.
  apply negb_true_iff, bool_decide_eq_false. by intros ->.
Qed.
Lemma parse_u16_pretty n : (n < 65536)%N → parse_u16 (pretty n) = Some n.
Proof.
  intros Hn. unfold parse_u16. rewrite parse_u64_pretty by (unfold u64_modulus; lia). cbn.
  by rewrite bool_decide_eq_true_2.
Qed.

Lemma index_Jmap {A} (f : A → Value) (m : gmap string A) k x : m !! k = Some x → index k (Jmap f m) = f x.
Proof.
  intros Hk. unfold index, get, Jmap, obj_get. apply elem_of_bt_iter in Hk. pose proof (bt_keys_NoDup m) as Hnd.
  unfold bt_keys in Hnd. induction (bt_iter m) as [|[k' y] l IH]; [by apply not_elem_of_nil in Hk|].
  cbn in *. apply list.NoDup_cons in Hnd as [Hno Hnd]. case_decide as Hkk.
  - subst k'. apply elem_of_cons in Hk as [[= ->]|Hin]; [done|]. destruct Hno. apply list_elem_of_fmap. by exists (k, x).
  - apply elem_of_cons in Hk as [[= -> _]|Hin]; [done|]. by apply IH.
Qed.

Lemma http_url_rest host port path : strip_prefix "http://" (http_url host port path) = Some (host +:+ ":" +:+ pretty port +:+ path).
Proof. apply (strip_prefix_app "http://"). Qed.

Lemma split_authority host (port : N) path : no_slash host = true → path_form path →
  split_path (host +:+ ":" +:+ pretty port +:+ path) = (host +:+ ":" +:+ pretty port, path).
Proof.
  intros Hh Hp. assert (host +:+ ":" +:+ pretty port +:+ path = (host +:+ ":" +:+ pretty port) +:+ path) as ->.
  { by rewrite !str_app_assoc. }
  apply split_path_app; [|done]. unfold no_slash in *. rewrite all_chars_app, Hh. cbn. apply pretty_no_slash.
Qed.

Lemma split_url_http host port path : no_slash host = true → path_form path → (port < 65536)%N →
  host ≠ "0.0.0.0" → host ≠ "::" →
  split_url (http_url host port path) = Some (mkService host port path EmptyString EmptyString).
Proof.
  intros Hh Hp Hport H0 H6. unfold split_url. rewrite http_url_rest. cbn.
  rewrite split_authority, rsplit_once_pretty by done. cbn. rewrite bool_decide_eq_false_2 by tauto.
  by rewrite parse_u16_pretty.
Qed.

(** The text up to the first colon decides. *)
Lemma prefix_colon q host t : all_chars (λ a, negb (bool_decide (a = ":"%char))) q = true →
  String.prefix (q +:+ ":") (host +:+ String ":" t) = String.prefix (q +:+ ":") (host +:+ ":").
Proof.
  revert host. induction q as [|c q IH]; intros [|a host] Hq.
  - change ((if ascii_dec ":" ":" then String.prefix EmptyString t else false) = true).
    destruct (ascii_dec ":" ":"); [by destruct t|done].
  - change ((if ascii_dec ":" a then String.prefix EmptyString (host +:+ String ":" t) else false)
      = (if ascii_dec ":" a then String.prefix EmptyString (host +:+ ":") else false)).
    destruct (ascii_dec ":" a); [|done]. by destruct host.
  - cbn [all_chars] in Hq. apply andb_true_iff in Hq as [Hc _]. apply negb_true_iff, bool_decide_eq_false in Hc.
    change ((if ascii_dec c ":" then String.prefix (q +:+ ":") t else false)
      = (if ascii_dec c ":" then String.prefix (q +:+ ":") EmptyString else false)).
    by destruct (ascii_dec c ":").
  - cbn [all_chars] in Hq. apply andb_true_iff in Hq as [_ Hq].
    change ((if ascii_dec c a then String.prefix (q +:+ ":") (host +:+ String ":" t) else false)
      = (if ascii_dec c a then String.prefix (q +:+ ":") (host +:+ ":") else false)).
    destruct (ascii_dec c a); [|done]. by apply IH.
Qed.

Lemma parse_announcement_url host port path :
  starts_with "0.0.0.0:" (host +:+ ":") = false →
  parse_announcement (http_url host port path) = Url (http_url host port path).
Proof.
  intros H0. unfold parse_announcement. rewrite http_url_rest. unfold strip_prefix.
  rewrite (prefix_colon "0.0.0.0" host (pretty port +:+ path) eq_refl : String.prefix "0.0.0.0:" (host +:+ ":" +:+ _) = _).
  unfold starts_with in H0. change ("0.0.0.0" +:+ ":") with "0.0.0.0:". by rewrite H0.
Qed.

(** An endpoint the operator writes as a URL reaches the router as written:
    the agent announces its host, port and path, and the router makes of the
    agent's row the one candidate that is that URL, whatever the node's other
    addresses and the router's allowed sources. *)
Theorem operator_url_used_verbatim host port path provider row services svc nodes allowed local :
  no_slash host = true → path_form path → (port < 65536)%N → host ≠ EmptyString → host ≠ "::" →
  starts_with "0.0.0.0:" (host +:+ ":") = false →
  let v := http_url host port path in
  ∃ s, announced_service (Some v) provider = Ok (Some s) ∧
    (index "services" row = Jmap service_json services → services !! svc = Some s →
     endpoint_of row svc nodes allowed local = Some (mkEndpoint [v] v None)).
Proof.
  intros Hh Hp Hport Hne H6 H0 v. assert (host ≠ "0.0.0.0") as H4 by (by intros ->).
  exists (mkService host port path provider EmptyString). split.
  - unfold announced_service, v. rewrite parse_announcement_url, split_url_http by done. done.
  - intros Hrow Hs. unfold endpoint_of. rewrite Hrow, (index_Jmap _ _ _ _ Hs).
    change (index "note" _) with (Str EmptyString). change (index "port" _) with (JN port).
    change (index "path" _) with (Str path). change (index "host" _) with (Str host). cbn.
    unfold str_empty. rewrite bool_decide_eq_false_2 by done. done.
Qed.

Definition demo_url : string := "http://[fd00::5]:8000/v1".
Lemma operator_url_used_verbatim_witness :
  demo_url = http_url "[fd00::5]" 8000 "/v1" ∧
  ∃ s, announced_service (Some demo_url) "vllm" = Ok (Some s) ∧
    endpoint_of (obj_of [("services", Jmap service_json {["openai" := s]})]) "openai" ∅ (allow_parse "local") []
    = Some (mkEndpoint [demo_url] demo_url None).
Proof.
  split; [reflexivity|].
  destruct (operator_url_used_verbatim "[fd00::5]" 8000 "/v1" "vllm"
    (obj_of [("services", Jmap service_json {["openai" := mkService "[fd00::5]" 8000 "/v1" "vllm" ""]})])
    {["openai" := mkService "[fd00::5]" 8000 "/v1" "vllm" ""]} "openai" ∅ (allow_parse "local") [])
    as (s & Hs & He); [reflexivity|right; by exists "v1"|lia|done|done|reflexivity|].
  exists s. split; [exact Hs|]. injection Hs as <-. apply He; reflexivity.
Defined.

(** A value that [parse_announcement] passes through, since it is still the
    operator's endpoint, stops the agent when it is not [http] with a port. *)
Example verbatim_value_stops_the_agent :
  parse_announcement "https://models.example:8443/v1" = Url "https://models.example:8443/v1" ∧
  announced_service (Some "https://models.example:8443/v1") "" = Err "https://models.example:8443/v1" ∧
  announced_service (Some "http://localhost/v1") "" = Err "http://localhost/v1".
Proof. vm_compute. done. Qed.

(** The IPv6 wildcard is read as one only without its brackets, which no URL
    has: the bracketed form is announced as a host to connect to. *)
Example ipv6_wildcard_is_a_host :
  announced_service (Some "http://[::]:8000/v1") "" = Ok (Some (mkService "[::]" 8000 "/v1" "" "")).
Proof. vm_compute. done. Qed.
