(* ===== verification/Stream.v ===== *)
(** * Following a daemon's event stream
      (rust/mentatd-serve/src/main.rs, with rust/mentatd/src/state.rs and http.rs)

    A daemon numbers its events and sends each with the rows it changed; a
    subscriber starts from a snapshot that says which event it reflects. The
    router folds the events into its stored snapshot and re-reads when it
    cannot. Here is the folding, and the proof that the stored view is never
    anything but the daemon's rows at the event the router stands at, whatever
    the connection loses, repeats or reorders. *)

From S2P Require Import Prelude Json State Net Groups.

(** ** Patches *)

Definition obj_remove (k : string) (m : list (string * Value)) : list (string * Value) :=
  filter (λ '(k', _), k' ≠ k) m.

(** The walk of [patch_at]: missing objects on the way are created. *)
Fixpoint patch_keys (cur : Value) (parents : list string) (leaf : string) (value : option Value) : Value * bool :=
  match parents, cur with
  | [], Obj m =>
      (Obj match value with Some v => obj_insert leaf v m | None => obj_remove leaf m end, true)
  | k :: parents, Obj m =>
      let '(child, done) := patch_keys (default (Obj []) (obj_get k m)) parents leaf value in
      (Obj (obj_insert k child m), done)
  | _, _ => (cur, false)
  end.

(** [split_last] *)
Definition split_last {A} (l : list A) : option (A * list A) :=
  match reverse l with x :: r => Some (x, reverse r) | [] => None end.

Definition patch_at (root : Value) (path : list Value) (value : option Value) : Value * bool :=
  let keys := omap as_str path in
  if negb (bool_decide (length keys = length path)) then (root, false)
  else match split_last keys with
       | None => (root, false)
       | Some (leaf, parents) => patch_keys root parents leaf value
       end.

Fixpoint patch_entries (staged : Value) (patch : list Value) : option Value :=
  match patch with
  | [] => Some staged
  | entry :: patch =>
      match as_array (index "at" entry) with
      | None => None
      | Some path =>
          let '(staged, done) := patch_at staged path (get "value" entry) in
          if done then patch_entries staged patch else None
      end
  end.

(** Every entry lands, or none does: the new snapshot, or none. *)
Definition apply_patch (snapshot event : Value) : option Value :=
  match as_array (index "patch" event) with
  | None => None
  | Some patch => patch_entries snapshot patch
  end.

(** ** One frame *)

Inductive Applied := Yes | Skip | Resync.

Definition set_view (s : Shared) (addr : string) (v : DaemonView) : Shared :=
  s <| daemons ::= <[addr := v]> |>.

Definition apply_frame (now : N) (s : Shared) (addr : string) (node : option string) (ev : Value)
    (last_seq : option N) : Applied * Shared * option N :=
  match daemons s !! addr with
  | None => (Skip, s, last_seq)
  | Some view =>
      if bool_decide (as_str (index "type" ev) = Some "snapshot") then
        (Yes, set_view s addr (view <| dv_status := Some (index "data" ev) |> <| dv_seen := Some now |>
                                    <| dv_error := None |>), as_u64 (index "seq" ev))
      else if negb (bool_decide (as_str (index "node" ev) = node)) then (Skip, s, last_seq)
      else
        match as_u64 (index "seq" ev) with
        | None => (Resync, s, last_seq)
        | Some seq =>
            match last_seq with
            | None => (Resync, s, last_seq)
            | Some prev =>
                if decide (seq = u64_succ prev) then
                  match dv_status view with
                  | None => (Resync, s, last_seq)
                  | Some snapshot =>
                      match apply_patch snapshot ev with
                      | None => (Resync, s, last_seq)
                      | Some snapshot =>
                          (Yes, set_view s addr (view <| dv_status := Some snapshot |> <| dv_seen := Some now |>),
                           Some seq)
                      end
                  end
                else if bool_decide (seq ≤ prev)%N then (Skip, s, last_seq)
                else (Resync, s, last_seq)
            end
        end
  end.

Definition anchored_seq (s : Shared) (addr : string) : option N :=
  view ← daemons s !! addr; snap ← dv_status view; as_u64 (index "seq" snap).

(** What a successful poll stores ([poll_status]), and where it resumes. *)
Definition store_poll (now : N) (s : Shared) (addr : string) (snap : Value) : Shared :=
  let seed := from_option dv_seed false (daemons s !! addr) in
  set_view s addr (mkView (Some snap) (Some now) None (as_str (index "node_id" snap)) seed).

(** ** The daemon's side

    The body of an event, as [emit] and [emit_patch] build it, and the first
    frame of a subscription. *)

Definition event_json (kind : string) (seq ts : N) (node : string) (patch : list Patch) (why : string) : Value :=
  obj_of ([("type", Str kind); ("seq", JN seq); ("ts_ms", JN ts); ("node", Str node)] ++
          entries (obj_of ([("patch", Arr (patch_json <$> patch))] ++
                           if str_empty why then [] else [("why", Str why)]))).

Definition snapshot_frame (seq : N) (snap : Value) : Value :=
  obj_of [("type", Str "snapshot"); ("seq", JN seq); ("data", snap)].

Definition run_patch (v : Value) (p : Patch) : Value * bool :=
  match split_last (at_path p) with
  | None => (v, false)
  | Some (leaf, parents) => patch_keys v parents leaf (p_value p)
  end.
Fixpoint run_patches (v : Value) (ps : list Patch) : option Value :=
  match ps with
  | [] => Some v
  | p :: ps => let '(v, done) := run_patch v p in if done then run_patches v ps else None
  end.

(** ** The two ends agree on the format *)

Lemma split_last_snoc {A} (l : list A) x : split_last (l ++ [x]) = Some (x, l).
Proof. unfold split_last. by rewrite reverse_snoc, reverse_involutive. Qed.

Lemma omap_strs (l : list string) : omap as_str (Str <$> l) = l.
Proof. induction l as [|x l IH]; [done|]. cbn. by f_equal. Qed.

Lemma patch_at_strs v l x : patch_at v (Str <$> l) x = run_patch v (mkPatch l x).
Proof.
  unfold patch_at, run_patch. rewrite omap_strs, length_fmap, bool_decide_eq_true_2 by done. done.
Qed.

Lemma patch_entries_json v ps : patch_entries v (patch_json <$> ps) = run_patches v ps.
Proof.
  revert v. induction ps as [|p ps IH]; intros v; [done|]. cbn [fmap list_fmap patch_entries run_patches].
  assert (as_array (index "at" (patch_json p)) = Some (Str <$> at_path p)) as -> by (by destruct p as [? [?|]]).
  assert (get "value" (patch_json p) = p_value p) as -> by (by destruct p as [? [?|]]).
  rewrite patch_at_strs. replace (mkPatch (at_path p) (p_value p)) with p by (by destruct p).
  destruct (run_patch v p) as [v' []]; [apply IH|done].
Qed.

Lemma event_fields kind seq ts node patch why :
  let ev := event_json kind seq ts node patch why in
  index "type" ev = Str kind ∧ index "seq" ev = JN seq ∧ index "node" ev = Str node ∧
  ∀ v, apply_patch v ev = run_patches v patch.
Proof.
  cbn zeta. unfold event_json. assert (∀ ev, index "patch" ev = Arr (patch_json <$> patch) →
    ∀ v, apply_patch v ev = run_patches v patch) as Hp.
  { intros ev Hev v. unfold apply_patch. rewrite Hev. apply patch_entries_json. }
  destruct (str_empty why); (split_and!; [done..|by apply Hp]).
Qed.

Lemma emit_patch_run `{HI : HashIter} (E : Env) kind patch why w :
  let s := st w in let ev := event_json kind (next_event_seq s) (now_ms E) (node_id s) patch why in
  ∃ o, emit_patch E kind patch why w = (tt, mkWorld
    (s <| next_event_seq := u64_succ (next_event_seq s) |>
       <| event_subs := filter (λ x, sub_open E x = true) (event_subs s) |>)
    (out w ++ ((λ x, Deliver x ev) <$> event_subs s) ++ o)) ∧ ∀ x e, Deliver x e ∉ o.
Proof.
  cbn zeta. unfold emit_patch. rewrite emit_spec. eexists. split; [done|].
  intros x e (p & Hin & _)%list_elem_of_bind. destruct (pe_alive p); [|by apply not_elem_of_nil in Hin].
  by apply list_elem_of_singleton in Hin.
Qed.

(** ** The router's loop over one address *)

Inductive Input := Frame (ev : Value) | Polled (snap : Value).

Section follow.
Context (now : N) (addr : string) (node : option string).

Definition follow (acc : Shared * option N) (i : Input) : (Shared * option N) * Applied :=
  let '(s, last) := acc in
  match i with
  | Frame ev => let '(a, s, last) := apply_frame now s addr node ev last in ((s, last), a)
  | Polled snap => let s := store_poll now s addr snap in ((s, anchored_seq s addr), Yes)
  end.
Fixpoint follow_all (acc : Shared * option N) (is_ : list Input) : (Shared * option N) * list Applied :=
  match is_ with
  | [] => (acc, [])
  | i :: is_ =>
      let '(acc, a) := follow acc i in
      let '(acc, l) := follow_all acc is_ in (acc, a :: l)
  end.

Definition is_snapshot (ev : Value) : bool := bool_decide (as_str (index "type" ev) = Some "snapshot").

(** What an input re-reads, and the event it says it reflects. *)
Definition reread (i : Input) : option (Value * option N) :=
  match i with
  | Frame ev => if is_snapshot ev then Some (index "data" ev, as_u64 (index "seq" ev)) else None
  | Polled snap => Some (snap, as_u64 (index "seq" snap))
  end.
Fixpoint last_read (is_ : list Input) (acc : option (Value * option N)) : option (Value * option N) :=
  match is_ with
  | [] => acc
  | i :: is_ => last_read is_ (match reread i with Some r => Some r | None => acc end)
  end.

(** The daemon's log: event [n] is numbered [n] and names the daemon. *)
Context (log : N → Value).

Definition numbered : Prop := ∀ n, as_u64 (index "seq" (log n)) = Some n ∧ as_str (index "node" (log n)) = node ∧
                              as_str (index "type" (log n)) ≠ Some "snapshot".

(** [j] events of the log after number [m], applied in order. *)
Fixpoint replay (base : Value) (m : N) (j : nat) : option Value :=
  match j with 0 => Some base | S j => v ← replay base m j; apply_patch v (log (m + N.of_nat (S j))) end.

(** What a stream may bring: a snapshot, an event of the log, another node's. *)
Definition from_log (i : Input) : Prop :=
  match reread i, i with
  | Some (_, m), _ => from_option (λ m, m < u64_modulus)%N True m
  | None, Frame ev => (∃ n, (0 < n < u64_modulus)%N ∧ ev = log n) ∨ as_str (index "node" ev) ≠ node
  | None, Polled _ => True
  end.

Definition stands (acc : Shared * option N) (r : option (Value * option N)) : Prop :=
  is_Some (daemons acc.1 !! addr) ∧
  ∀ k, acc.2 = Some k → (k < u64_modulus)%N ∧
    ∃ base m j view, r = Some (base, Some m) ∧ k = (m + N.of_nat j)%N ∧ daemons acc.1 !! addr = Some view ∧
      is_Some (dv_status view) ∧ dv_status view = replay base m j.

Lemma set_view_lookup s v : daemons (set_view s addr v) !! addr = Some v.
Proof. apply lookup_insert_eq. Qed.

Lemma follow_stands acc i r : numbered → from_log i → stands acc r →
  stands (follow acc i).1 (match reread i with Some r' => Some r' | None => r end).
Proof.
  intros Hlog Hi [[view Hv] Hst]. destruct acc as [s last]. cbn [fst snd] in *. destruct i as [ev|snap]; cbn [follow].
  - unfold apply_frame. rewrite Hv. fold (is_snapshot ev). unfold from_log in Hi. cbn [reread] in *.
    destruct (is_snapshot ev).
    + cbn [fst]. split; cbn [fst]; [rewrite set_view_lookup; by eexists|]. cbn [snd]. intros k Hk.
      rewrite Hk in *. split; [done|]. eexists _, k, 0, _. rewrite set_view_lookup. split_and!; [done|lia|done|by eexists|done].
    + destruct Hi as [(n & Hn & ->)|Hother].
      2: { rewrite bool_decide_eq_false_2 by done. cbn. split; [by eexists|]. cbn. exact Hst. }
      destruct (Hlog n) as (Hseq & Hnode & _). rewrite bool_decide_eq_true_2 by done. cbn [negb]. rewrite Hseq.
      assert (stands (s, last) r) as Hsame by (split; [by eexists|exact Hst]).
      destruct last as [prev|]; [|exact Hsame]. destruct (Hst prev eq_refl) as (Hprev & base & m & j & view' & -> & Hk & Hv' & [snapshot Hsome] & Hrep).
      rewrite Hv in Hv'. injection Hv' as <-.
      destruct (decide (n = u64_succ prev)) as [Hnext|_]; [|by case_bool_decide].
      rewrite Hsome. destruct (apply_patch snapshot (log n)) as [snapshot'|] eqn:Happ; [|exact Hsame].
      assert (n = prev + 1)%N as Hn1.
      { unfold u64_succ, u64_add in Hnext. destruct (decide (prev + 1 = u64_modulus)%N) as [He|He].
        - rewrite He, N.Div0.mod_same in Hnext. lia.
        - by rewrite N.mod_small in Hnext by lia. }
      split; cbn [fst snd]; [rewrite set_view_lookup; by eexists|]. intros k [= <-]. split; [lia|].
      exists base, m, (S j). eexists. rewrite set_view_lookup. split_and!; [done|lia|done|by eexists|].
      cbn [replay]. rewrite <-Hrep, Hsome. cbn. replace (m + N.of_nat (S j))%N with n by lia. by rewrite Happ.
  - cbn zeta. cbn [reread fst]. unfold store_poll, anchored_seq.
    split; cbn [fst snd]; [rewrite set_view_lookup; by eexists|].
    intros k. rewrite set_view_lookup. cbn. intros Hk.
    unfold from_log in Hi. cbn [reread] in Hi. rewrite Hk in Hi. split; [done|].
    rewrite Hk. eexists _, k, 0, _. split_and!; [done|lia|done|by eexists|done].
Qed.

(** Whatever a connection delivers, events lost, repeated or out of order,
    snapshots and polls at any point, other nodes' events mixed in: when the
    router stands at event [k] its view is the last snapshot it read with
    every event after that snapshot up to [k] applied, each once and in
    order. *)
Theorem view_is_snapshot_plus_events s is_ : numbered → Forall from_log is_ →
  is_Some (daemons s !! addr) →
  let '((s', last), _) := follow_all (s, None) is_ in
  ∀ k, last = Some k → ∃ base m j view, last_read is_ None = Some (base, Some m) ∧ k = (m + N.of_nat j)%N ∧
    daemons s' !! addr = Some view ∧ is_Some (dv_status view) ∧ dv_status view = replay base m j.
Proof.
  intros Hlog Hall Hv.
  assert (∀ acc r, stands acc r → Forall from_log is_ → stands (follow_all acc is_).1 (last_read is_ r)) as Hgen.
  { clear Hall. induction is_ as [|i is_ IH]; intros acc r Hst Hall; [done|].
    apply list.Forall_cons in Hall as [Hi Hall]. cbn [follow_all last_read].
    pose proof (follow_stands acc i r Hlog Hi Hst) as Hst'. destruct (follow acc i) as [acc' a]. cbn [fst] in Hst'.
    specialize (IH acc' _ Hst' Hall). by destruct (follow_all acc' is_). }
  specialize (Hgen (s, None) None). destruct (follow_all (s, None) is_) as [[s' last] l].
  intros k Hk. destruct Hgen as [_ Hst]; [|done|by destruct (Hst k Hk)].
  split; [exact Hv|]. by intros k' [=].
Qed.
End follow.

(** ** A subscriber keeps up with the daemon's model

    The events a run of [emit_patch] delivers, received in order after the
    snapshot of the same subscription. *)

Section subscriber.
Context `{HI : HashIter} (E : Env) (sub : N).

Definition Change := (string * list Patch * string)%type.
Definition emit_all (cs : list Change) : SM unit :=
  for_each cs (λ '(kind, patch, why), emit_patch E kind patch why).

Definition received (o : list Effect) : list Value :=
  omap (λ e, match e with Deliver x ev => if decide (x = sub) then Some ev else None | _ => None end) o.

(** The events of a run, numbered from [n]. *)
Fixpoint numbered_from (n : N) (nd : string) (cs : list Change) : list Value :=
  match cs with
  | [] => []
  | (kind, patch, why) :: cs => event_json kind n (now_ms E) nd patch why :: numbered_from (u64_succ n) nd cs
  end.

Lemma received_delivers subs ev : sub ∈ subs → NoDup subs →
  received ((λ x, Deliver x ev) <$> subs) = [ev].
Proof.
  intros Hin Hnd. induction Hnd as [|x subs Hx Hnd IH]; [by apply not_elem_of_nil in Hin|].
  unfold received in *. cbn. apply elem_of_cons in Hin as [<-|Hin].
  - rewrite decide_True by done. f_equal. assert (sub ∉ subs) as Hno by done. clear -Hno.
    induction subs as [|y subs IH]; [done|]. cbn. apply not_elem_of_cons in Hno as [? ?].
    rewrite decide_False by done. by apply IH.
  - rewrite decide_False by (intros ->; done). by apply IH.
Qed.

Lemma received_others o : (∀ x e, Deliver x e ∉ o) → received o = [].
Proof.
  intros Hno. unfold received. induction o as [|e o IH]; [done|]. cbn. destruct e as [| |x ev|];
    try (apply IH; intros; intros ?; by eapply Hno, list_elem_of_further).
  exfalso. by eapply Hno, list_elem_of_here.
Qed.

Lemma emit_all_received cs w : sub ∈ event_subs (st w) → NoDup (event_subs (st w)) → sub_open E sub = true →
  ∃ o, out (emit_all cs w).2 = out w ++ o ∧ received o = numbered_from (next_event_seq (st w)) (node_id (st w)) cs.
Proof.
  revert w. induction cs as [|[[kind patch] why] cs IH]; intros w Hin Hnd Hopen.
  { exists []. split; [by rewrite app_nil_r|done]. }
  unfold emit_all. cbn [for_each]. rewrite bind_run.
  destruct (emit_patch_run E kind patch why w) as (o & -> & Ho). cbn [fst snd].
  edestruct IH as (o' & Hout & Hrec); [| |done|]; cycle 2.
  - unfold emit_all in Hout. rewrite Hout. cbn [out]. rewrite <-app_assoc. eexists. split; [done|].
    unfold received in *. rewrite !omap_app, Hrec. fold (received ((λ x, Deliver x (event_json kind (next_event_seq (st w)) (now_ms E) (node_id (st w)) patch why)) <$> event_subs (st w))).
    rewrite received_delivers by done. fold (received o). rewrite received_others by done. by destruct w.
  - cbn. apply list_elem_of_filter. by split.
  - cbn. by apply list.NoDup_filter.
Qed.
End subscriber.

Lemma follow_numbered now addr nd E s seq cs snap v :
  (∀ kind patch why, (kind, patch, why) ∈ cs → kind ≠ "snapshot") →
  run_patches snap (cs ≫= λ '(_, patch, _), patch) = Some v →
  (∃ view, daemons s !! addr = Some view ∧ dv_status view = Some snap) →
  let '((s', last), as_) := follow_all now addr (Some nd) (s, Some seq) (Frame <$> numbered_from E (u64_succ seq) nd cs) in
  Forall (λ a, a = Yes) as_ ∧ last = Some (Nat.iter (length cs) u64_succ seq) ∧
  ∃ view, daemons s' !! addr = Some view ∧ dv_status view = Some v.
Proof.
  revert s seq snap. induction cs as [|[[kind patch] why] cs IH]; intros s seq snap Hk Hp (view & Hv & Hst).
  { injection Hp as ->. cbn. split_and!; [constructor|done|by exists view]. }
  cbn [numbered_from fmap list_fmap follow_all follow].
  destruct (event_fields kind (u64_succ seq) (now_ms E) nd patch why) as (Htype & Hseq & Hnode & Happ).
  unfold apply_frame. rewrite Hv, Htype, Hnode, Hseq. cbn [as_str as_u64 JN].
  rewrite bool_decide_eq_false_2 by (intros [= ->]; by eapply Hk; [left|]).
  rewrite bool_decide_eq_true_2 by done. cbn [negb]. rewrite decide_True by done. rewrite Hst, Happ.
  cbn [mbind list_bind] in Hp.
  assert (∀ ps qs u, run_patches u (ps ++ qs) = u' ← run_patches u ps; run_patches u' qs) as Hsplit.
  { clear. induction ps as [|p ps IH]; intros qs u; [done|]. cbn. destruct (run_patch u p) as [u' []]; [apply IH|done]. }
  change (run_patches snap (patch ++ (cs ≫= λ '(_, patch, _), patch)) = Some v) in Hp.
  rewrite Hsplit in Hp. destruct (run_patches snap patch) as [snap'|]; [|done]. cbn in Hp.
  specialize (IH (set_view s addr (view <| dv_status := Some snap' |> <| dv_seen := Some now |>)) (u64_succ seq) snap').
  destruct (follow_all _ _ _ _ _) as [[s' last] as_].
  destruct IH as (Hall & Hl & Hview); [intros ??? ?; eapply Hk; by right|done|by eexists; rewrite set_view_lookup|].
  split_and!; [by constructor| |done]. rewrite Hl. cbn [length]. f_equal.
  clear. induction (length cs) as [|n IH]; [done|]. cbn. f_equal. apply IH.
Qed.

(** A subscriber that takes its snapshot and then every event the daemon
    sends it, as the daemon's own [emit_patch] builds and numbers them, never
    has to re-read: whatever its view was, the snapshot replaces it, each event moves it, and the view ends as the
    snapshot with all the rows the daemon sent, at the daemon's own event
    number. *)
Theorem subscriber_keeps_up `{HI : HashIter} (E : Env) (sub now seq : N) (w : World) (s : Shared) addr
    (cs : list Change) snap v :
  sub ∈ event_subs (st w) → NoDup (event_subs (st w)) → sub_open E sub = true →
  next_event_seq (st w) = u64_succ seq → out w = [] →
  (∀ kind patch why, (kind, patch, why) ∈ cs → kind ≠ "snapshot") →
  run_patches snap (cs ≫= λ '(_, patch, _), patch) = Some v → is_Some (daemons s !! addr) →
  let '((s', last), applied) :=
    follow_all now addr (Some (node_id (st w))) (s, None)
      (Frame <$> snapshot_frame seq snap :: received sub (out (emit_all E cs w).2)) in
  Forall (λ a, a = Yes) applied ∧ last = Some (Nat.iter (length cs) u64_succ seq) ∧
  ∃ view, daemons s' !! addr = Some view ∧ dv_status view = Some v.
Proof.
  intros Hin Hnd Hopen Hseq Hout Hk Hp [view0 Hv].
  destruct (emit_all_received E sub cs w Hin Hnd Hopen) as (o & Ho & Hrec). rewrite Ho, Hout. cbn [app].
  rewrite Hrec, Hseq. cbn [fmap list_fmap follow_all follow]. unfold apply_frame. rewrite Hv.
  change (as_str (index "type" (snapshot_frame seq snap))) with (Some "snapshot").
  rewrite bool_decide_eq_true_2 by done.
  change (as_u64 (index "seq" (snapshot_frame seq snap))) with (Some seq).
  change (index "data" (snapshot_frame seq snap)) with snap.
  set (s1 := set_view s addr _).
  pose proof (follow_numbered now addr (node_id (st w)) E s1 seq cs snap v Hk Hp) as Hf.
  fold (@fmap list list_fmap _ _ Frame).
  destruct (follow_all _ _ _ (s1, _) _) as [[s' last] applied].
  destruct Hf as (Hall & Hl & Hview); [eexists; subst s1; by rewrite set_view_lookup|].
  split; [by constructor|done].
Qed.

(** ** Instances *)

Definition demo_row (state : string) : Patch :=
  patch_set ["groups"; "g"; "actors"; "x:1"] (obj_of [("state", Str state)]).
Definition demo_changes : list Change :=
  [("actor_spawn", [demo_row "spawning"], ""); ("actor_ready", [demo_row "running"], "first call");
   ("actor_gone", [patch_remove ["groups"; "g"; "actors"; "x:1"]; patch_set ["clients"; "c"] Null], "")].
Definition demo_before : Value := obj_of [("groups", obj_of []); ("clients", obj_of [])].
Definition demo_after : Value :=
  obj_of [("groups", obj_of [("g", obj_of [("actors", obj_of [])])]); ("clients", obj_of [("c", Null)])].
Definition demo_daemon : World :=
  mkWorld ((state_new "10.0.0.1" "h" "10.0.0.1:6379" "b") <| event_subs := [4; 9]%N |>) [].
Definition demo_stream_env : Env :=
  mkEnv 1000 cfg_default (mkHost [] [] ∅ ∅ ∅) (λ _, None) (λ _, true) "ab".
Definition demo_router : Shared :=
  mkShared {[ "h:6380" := view_empty true ]} ∅ ∅ ∅ ∅ ∅.

Lemma subscriber_keeps_up_witness :
  let '((s', last), applied) :=
    follow_all 2000 "h:6380" (Some (node_id (st demo_daemon))) (demo_router, None)
      (Frame <$> snapshot_frame 0 demo_before ::
        received 9 (out (emit_all (HI := in_key_order) demo_stream_env demo_changes demo_daemon).2)) in
  Forall (λ a, a = Yes) applied ∧ last = Some 3%N ∧
  ∃ view, daemons s' !! "h:6380" = Some view ∧ dv_status view = Some demo_after.
Proof.
  apply (@subscriber_keeps_up in_key_order demo_stream_env 9 2000 0 demo_daemon demo_router "h:6380"
    demo_changes demo_before demo_after).
  - cbn. set_solver.
  - cbn. apply (bool_decide_unpack _). by vm_compute.
  - reflexivity.
  - reflexivity.
  - reflexivity.
  - intros kind patch why Hin. unfold demo_changes in Hin. intros ->.
    repeat (apply elem_of_cons in Hin as [Hin|Hin]; [by injection Hin|]). by apply not_elem_of_nil in Hin.
  - by vm_compute.
  - by eexists.
Defined.

(** An event lost, one repeated, a neighbour's, and the poll that follows. *)
Definition demo_log (n : N) : Value := event_json "tick" n 5 "n1" [patch_set ["clients"; pretty n] (JN n)] "".
Definition demo_inputs : list Input :=
  [Frame (snapshot_frame 6 demo_before); Frame (demo_log 7); Frame (event_json "tick" 8 5 "n2" [] "");
   Frame (demo_log 7); Frame (demo_log 9); Polled (set_key "seq" (JN 9) demo_before); Frame (demo_log 10)].

Lemma view_is_snapshot_plus_events_witness :
  (follow_all 0 "h:6380" (Some "n1") (demo_router, None) demo_inputs).2 = [Yes; Yes; Skip; Skip; Resync; Yes; Yes] ∧
  ∃ m j, last_read demo_inputs None = Some (set_key "seq" (JN 9) demo_before, Some m) ∧ 10%N = (m + N.of_nat j)%N.
Proof.
  split; [by vm_compute|].
  assert (∃ base m j view, last_read demo_inputs None = Some (base, Some m) ∧ 10%N = (m + N.of_nat j)%N ∧
    daemons (follow_all 0 "h:6380" (Some "n1") (demo_router, None) demo_inputs).1.1 !! "h:6380" = Some view ∧
    is_Some (dv_status view) ∧ dv_status view = replay demo_log base m j) as (base & m & j & view & Hr & Hk & _).
  - pose proof (view_is_snapshot_plus_events 0 "h:6380" (Some "n1") demo_log demo_router demo_inputs) as H.
    destruct (follow_all 0 "h:6380" (Some "n1") (demo_router, None) demo_inputs) as [[s' last] l] eqn:Hf.
    apply H; clear H; [by intros n| |by eexists|].
    + unfold demo_inputs. rewrite !list.Forall_cons. split_and!; [by vm_compute| | | | |by vm_compute| |constructor].
      * left. by exists 7%N.
      * by right.
      * left. by exists 7%N.
      * left. by exists 9%N.
      * left. by exists 10%N.
    + change last with (s', last).2. assert ((follow_all 0 "h:6380" (Some "n1") (demo_router, None) demo_inputs).1.2 = Some 10%N) as Hl by by vm_compute.
      by rewrite Hf in Hl.
  - injection Hr as <- <-. exists 9%N, j. split; [reflexivity|exact Hk].
Defined.
