(* ===== verification/Handshake.v ===== *)
(** * The event stream's handshake
      (rust/mentatd/src/http.rs, rust/mentatd-serve/src/ws.rs)

    How a router's event stream is opened: the request it writes and the answer
    it waits for, the request as the daemon reads it byte by byte, and the
    digest of the answer. The routes behind the request are in Http.v, the
    frames that follow the answer in Ws.v. *)

From S2P Require Import Prelude Text Proto Addr Pattern Ws.

Import Framing.

(** ** Requests *)

(** One read of one byte: the byte, or the end of the stream, an error or the
    read timeout. *)
Definition ByteRead := option byte.

Definition HEAD_LIMIT : N := 16384.
Definition ends_with (suffix b : bytes) : bool :=
  bool_decide (length suffix ≤ length b ∧ drop (length b - length suffix) b = suffix).
Definition crlf : string := String carriage (String newline EmptyString).
Definition blank : bytes := [x0d; x0a; x0d; x0a].

(** The bytes up to the blank line, if it comes. *)
Fixpoint read_head (buf : bytes) (reads : list (option byte)) : option bytes :=
  if ends_with blank buf then Some buf
  else if bool_decide (HEAD_LIMIT < N.of_nat (length buf))%N then None
  else match reads with
       | Some b :: reads => read_head (buf ++ [b]) reads
       | _ => None
       end.

Definition add_header (headers : gmap string string) (line : string) : gmap string string :=
  match split_once ":" line with
  | Some (k, v) => <[to_ascii_lowercase (trim k) := trim v]> headers
  | None => headers
  end.

Definition parse_request (buf : bytes) : option (string * gmap string string) :=
  match lines (string_of_bytes (from_utf8_lossy buf)) with
  | [] => None
  | request_line :: rest =>
      match split_whitespace request_line with
      | method :: path :: _ => if bool_decide (method = "GET") then Some (path, foldl add_header ∅ rest) else None
      | _ => None
      end
  end.
Definition read_request (reads : list (option byte)) : option (string * gmap string string) :=
  read_head [] reads ≫= parse_request.

(** [EventStream::connect] behind the TCP connection. *)
Definition SAMPLE_KEY : string := "dGhlIHNhbXBsZSBub25jZQ==".
Definition connect_request (addr : string) : string :=
  "GET /events HTTP/1.1" +:+ crlf +:+ "Host: " +:+ addr +:+ crlf +:+ "Upgrade: websocket" +:+ crlf +:+
  "Connection: Upgrade" +:+ crlf +:+ "Sec-WebSocket-Key: " +:+ SAMPLE_KEY +:+ crlf +:+
  "Sec-WebSocket-Version: 13" +:+ crlf +:+ crlf.

(** The wait for the answer: what the stream holds behind it, and the reads
    still to come. *)
Fixpoint connect (buf : bytes) (evs : list WsRead) : Result (bytes * list WsRead) WsError :=
  match find buf blank with
  | Some pos =>
      let text := string_of_bytes (from_utf8_lossy (take pos buf)) in
      let status_line := default "" (head (lines text)) in
      if contains_str " 101" status_line then Ok (drop (pos + 4) buf, evs)
      else Err (Ws.InvalidData ("handshake refused: " +:+ status_line))
  | None =>
      if bool_decide (65536 < N.of_nat (length buf))%N then Err (Ws.InvalidData "handshake response over 64 KiB")
      else match evs with
           | [] | Elapsed :: _ => Err (Ws.TimedOut "handshake timeout")
           | Chunk [] :: _ => Err (Ws.UnexpectedEof "EOF in handshake")
           | Chunk bs :: evs => connect (buf ++ bs) evs
           | ReadFailed e :: _ => Err (Ws.ReadError e)
           end
  end.

(** ** The handshake's digest *)

Definition u32_modulus : N := 4294967296.
Definition u32_add (a b : N) : N := (a + b) `mod` u32_modulus.
Definition rotl (k a : N) : N := N.lor (N.shiftl a k `mod` u32_modulus) (N.shiftr a (32 - k)).
Definition u32_not (a : N) : N := N.lxor a (u32_modulus - 1).

(** [while msg.len() % 64 != 56]: at most 63 zero bytes. *)
Fixpoint zero_fill (fuel : nat) (msg : bytes) : bytes :=
  match fuel with
  | 0 => msg
  | S fuel => if decide (length msg `mod` 64 = 56) then msg else zero_fill fuel (msg ++ [x00])
  end.
Definition sha1_pad (data : bytes) : bytes :=
  zero_fill 64 (data ++ [x80]) ++ be_bytes 8 ((N.of_nat (length data) * 8) `mod` u64_modulus).

Fixpoint chunks (fuel k : nat) (b : bytes) : list bytes :=
  match fuel, b with
  | S fuel, _ :: _ => take k b :: chunks fuel k (drop k b)
  | _, _ => []
  end.

(** The eighty words: [w] is held backwards, the last word first. *)
Definition next_word (w : list N) : N :=
  let at_ i := default 0%N (w !! i) in
  rotl 1 (N.lxor (N.lxor (at_ 2) (at_ 7)) (N.lxor (at_ 13) (at_ 15))).
Definition schedule (chunk : bytes) : list N :=
  let w := reverse (from_be_bytes <$> chunks 16 4 chunk) in
  reverse (Nat.iter 64 (λ w, next_word w :: w) w).

Definition sha1_f (i : nat) (b c d : N) : N * N :=
  if bool_decide (i < 20) then (N.lor (N.land b c) (N.land (u32_not b) d), 0x5A827999%N)
  else if bool_decide (i < 40) then (N.lxor (N.lxor b c) d, 0x6ED9EBA1%N)
  else if bool_decide (i < 60) then (N.lor (N.lor (N.land b c) (N.land b d)) (N.land c d), 0x8F1BBCDC%N)
  else (N.lxor (N.lxor b c) d, 0xCA62C1D6%N).

Definition Digest := (N * N * N * N * N)%type.
Definition sha1_round (x : Digest) (iw : nat * N) : Digest :=
  let '(a, b, c, d, e) := x in
  let '(f, k) := sha1_f iw.1 b c d in
  (u32_add (u32_add (u32_add (u32_add (rotl 5 a) f) e) k) iw.2, a, rotl 30 b, c, d).
Definition sha1_chunk (h : Digest) (chunk : bytes) : Digest :=
  let '(a, b, c, d, e) := h in
  let '(a', b', c', d', e') := foldl sha1_round h (imap pair (schedule chunk)) in
  (u32_add a a', u32_add b b', u32_add c c', u32_add d d', u32_add e e').

Definition sha1_start : Digest := (0x67452301, 0xEFCDAB89, 0x98BADCFE, 0x10325476, 0xC3D2E1F0)%N.
Definition sha1 (data : bytes) : bytes :=
  let msg := sha1_pad data in
  let '(a, b, c, d, e) := foldl sha1_chunk sha1_start (chunks (length msg) 64 msg) in
  [a; b; c; d; e] ≫= be_bytes 4.

Definition ALPHABET : string := "ABCDEFGHIJKLMNOPQRSTUVWXYZabcdefghijklmnopqrstuvwxyz0123456789+/".
Definition alpha (n : N) : ascii := default "="%char (String.get (N.to_nat (n `mod` 64)) ALPHABET).

Fixpoint base64 (data : bytes) : string :=
  match data with
  | [] => EmptyString
  | [x] =>
      let n := (Byte.to_N x * 65536)%N in
      String (alpha (n / 262144)) (String (alpha (n / 4096)) "==")
  | [x; y] =>
      let n := (Byte.to_N x * 65536 + Byte.to_N y * 256)%N in
      String (alpha (n / 262144)) (String (alpha (n / 4096)) (String (alpha (n / 64)) "="))
  | x :: y :: z :: data =>
      let n := (Byte.to_N x * 65536 + Byte.to_N y * 256 + Byte.to_N z)%N in
      String (alpha (n / 262144)) (String (alpha (n / 4096)) (String (alpha (n / 64)) (String (alpha n) (base64 data))))
  end.

Definition MAGIC : string := "258EAFA5-E914-47DA-95CA-C5AB0DC85B11".
Definition accept_key (key : string) : string := base64 (sha1 (bytes_of (key +:+ MAGIC))).

Example rfc6455_vector : accept_key "dGhlIHNhbXBsZSBub25jZQ==" = "s3pPLMBiTxaQ9kYGzzhZRbK+xOo=".
Proof. by vm_compute. Qed.

Definition switching (key : string) : string :=
  "HTTP/1.1 101 Switching Protocols" +:+ crlf +:+ "Upgrade: websocket" +:+ crlf +:+ "Connection: Upgrade" +:+ crlf +:+
  "Sec-WebSocket-Accept: " +:+ accept_key key +:+ crlf +:+ crlf.

(** ** The end of a head *)

Lemma ends_with_app suffix b : ends_with suffix (b ++ suffix) = true.
Proof.
  unfold ends_with. apply bool_decide_eq_true. rewrite length_app. split; [lia|].
  replace (length b + length suffix - length suffix) with (length b) by lia. apply drop_app_length.
Qed.

(** The loop stops at the first blank line, and reads nothing behind it: a
    request within the limit is read as far as its head, whatever follows. *)
Lemma read_head_first buf head rest :
  (∀ k, k < length head → ends_with blank (buf ++ take k head) = false) →
  (N.of_nat (length buf + length head) ≤ HEAD_LIMIT + 1)%N →
  ends_with blank (buf ++ head) = true →
  read_head buf ((Some <$> head) ++ rest) = Some (buf ++ head).
Proof.
  revert buf. induction head as [|b head IH]; intros buf Hk Hl He.
  - rewrite app_nil_r in He |- *. destruct rest; cbn; by rewrite He.
  - cbn [fmap list_fmap app read_head]. pose proof (Hk 0 ltac:(cbn; lia)) as H0. cbn in H0. rewrite app_nil_r in H0. rewrite H0.
    rewrite bool_decide_eq_false_2 by (cbn in Hl; lia). replace (buf ++ b :: head) with ((buf ++ [b]) ++ head) by by rewrite <-app_assoc.
    apply IH.
    + intros k Hlt. specialize (Hk (S k) ltac:(cbn; lia)). by rewrite <-app_assoc.
    + rewrite length_app. cbn in *. lia.
    + by rewrite <-app_assoc.
Qed.

(** A head that does not end is given up at the limit. *)
Lemma read_head_bound buf reads r :
  read_head buf reads = Some r → (N.of_nat (length buf) ≤ HEAD_LIMIT + 1)%N → (N.of_nat (length r) ≤ HEAD_LIMIT + 1)%N.
Proof.
  revert buf. induction reads as [|[b|] reads IH]; intros buf; cbn [read_head]; destruct (ends_with blank buf);
    try (by intros [= <-]); case_bool_decide as Hb; try done.
  intros H _. apply (IH _ H). rewrite length_app. cbn. lia.
Qed.

(** ** The digest *)

Lemma chunks_concat fuel k b : 0 < k → length b ≤ fuel → concat (chunks fuel k b) = b.
Proof.
  intros Hk. revert b. induction fuel as [|fuel IH]; intros b Hf; [destruct b; [done|cbn in Hf; lia]|].
  destruct b as [|x b]; [done|]. cbn [chunks concat]. rewrite IH; [apply take_drop|].
  destruct k; [lia|]. cbn. rewrite length_drop. cbn in Hf. lia.
Qed.
Lemma chunks_whole fuel k n b : 0 < k → length b ≤ fuel → length b = k * n →
  length (chunks fuel k b) = n ∧ Forall (λ c, length c = k) (chunks fuel k b).
Proof.
  intros Hk. revert n b. induction fuel as [|fuel IH]; intros n b Hf Hn.
  - destruct b; [|cbn in Hf; lia]. cbn in Hn. split; [cbn; lia|constructor].
  - destruct b as [|x b]; [cbn in Hn; split; [cbn; lia|constructor]|]. destruct n as [|n]; [cbn in Hn; lia|].
    cbn [chunks]. destruct (IH n (drop k (x :: b))) as [Hl Hall].
    + rewrite length_drop. cbn in *. lia.
    + rewrite length_drop, Hn. lia.
    + split; [cbn; by rewrite Hl|]. constructor; [|done]. rewrite length_take, Hn. lia.
Qed.

(** The zero bytes stop where the length fits: the fuel is enough, the padded
    message is whole blocks, and no slice of the digest is out of range. *)
Lemma zero_fill_ends fuel msg : (56 + 64 - length msg `mod` 64) `mod` 64 < fuel →
  length (zero_fill fuel msg) `mod` 64 = 56.
Proof.
  revert msg. induction fuel as [|fuel IH]; intros msg Hf; [lia|]. cbn [zero_fill].
  destruct (decide (length msg `mod` 64 = 56)) as [He|He]; [done|].
  apply IH. rewrite length_app. cbn [length]. revert Hf He. generalize (length msg) as n. intros n Hf He.
  pose proof (Nat.mod_upper_bound n 64 ltac:(lia)).
  assert ((n + 1) `mod` 64 = (n `mod` 64 + 1) `mod` 64) as -> by (by rewrite Nat.Div0.add_mod_idemp_l).
  revert Hf He. generalize dependent (n `mod` 64). intros m Hm Hf He.
  destruct (decide (m = 63)) as [->|]; [change ((63 + 1) `mod` 64) with 0; cbn in *; lia|].
  rewrite (Nat.mod_small (m + 1)) by lia.
  destruct (decide (m < 56)) as [Hlt|Hlt].
  - replace (56 + 64 - m) with ((56 - m) + 1 * 64) in Hf by lia. rewrite Nat.Div0.mod_add, Nat.mod_small in Hf by lia.
    replace (56 + 64 - (m + 1)) with ((56 - (m + 1)) + 1 * 64) by lia. rewrite Nat.Div0.mod_add, Nat.mod_small by lia. lia.
  - rewrite Nat.mod_small in Hf by lia. rewrite Nat.mod_small by lia. lia.
Qed.
Lemma sha1_pad_whole data : ∃ n, length (sha1_pad data) = 64 * n.
Proof.
  unfold sha1_pad. rewrite length_app, be_bytes_length.
  pose proof (zero_fill_ends 64 (data ++ [x80])) as Hz. ospecialize (Hz _); [apply Nat.mod_upper_bound; lia|].
  set (z := length _) in *. pose proof (Nat.div_mod_eq z 64). exists (S (z / 64)). lia.
Qed.
Lemma schedule_length chunk : length chunk = 64 → length (schedule chunk) = 80.
Proof.
  intros Hc. unfold schedule. rewrite length_reverse.
  assert (∀ k w, length (Nat.iter k (λ w, next_word w :: w) w) = k + length w) as Hit
    by (intros k w; induction k as [|k IH]; [done|rewrite Nat.iter_succ; cbn [length]; lia]).
  rewrite Hit, length_reverse, length_fmap.
  (* sixteen words *)
  assert (chunks 16 4 chunk = chunks 64 4 chunk) as ->.
  { do 64 (destruct chunk as [|? chunk]; [done|]). by destruct chunk. }
  by destruct (chunks_whole 64 4 16 chunk) as [-> _]; [lia|lia|lia|].
Qed.


Lemma sha1_length data : length (sha1 data) = 20.
Proof. unfold sha1. by destruct (foldl sha1_chunk _ _) as [[[[a b] c] d] e]. Qed.

(** ** Base 64 and its reading *)

(** The reader of RFC 4648, which the peer of a handshake applies. *)
Definition digit64 (c : ascii) : option N :=
  let n := N_of_ascii c in
  if decide (65 ≤ n ≤ 90)%N then Some (n - 65)%N
  else if decide (97 ≤ n ≤ 122)%N then Some (n - 71)%N
  else if decide (48 ≤ n ≤ 57)%N then Some (n + 4)%N
  else if decide (c = "+"%char) then Some 62%N
  else if decide (c = "/"%char) then Some 63%N
  else None.
Fixpoint unbase64 (s : string) : option bytes :=
  match s with
  | EmptyString => Some []
  | String a (String b (String c (String d s'))) =>
      match digit64 a, digit64 b, digit64 c, digit64 d with
      | Some p, Some q, Some r, Some t =>
          let n := (p * 262144 + q * 4096 + r * 64 + t)%N in
          (λ l, byte_of_N (n / 65536) :: byte_of_N (n / 256) :: byte_of_N n :: l) <$> unbase64 s'
      | Some p, Some q, Some r, None =>
          let n := (p * 262144 + q * 4096 + r * 64)%N in
          if decide (d = "="%char ∧ s' = EmptyString) then Some [byte_of_N (n / 65536); byte_of_N (n / 256)] else None
      | Some p, Some q, None, None =>
          let n := (p * 262144 + q * 4096)%N in
          if decide (c = "="%char ∧ d = "="%char ∧ s' = EmptyString) then Some [byte_of_N (n / 65536)] else None
      | _, _, _, _ => None
      end
  | _ => None
  end.

Lemma digit64_alpha n : digit64 (alpha n) = Some (n `mod` 64)%N.
Proof.
  assert (∀ m, (m < 64)%N → digit64 (alpha m) = Some m) as H.
  { intros m Hm.
    assert (forallb (λ i, bool_decide (digit64 (alpha (N.of_nat i)) = Some (N.of_nat i))) (seq 0 64) = true) as Hall by by vm_compute.
    rewrite List.forallb_forall in Hall. specialize (Hall (N.to_nat m)). rewrite N2Nat.id in Hall.
    apply bool_decide_eq_true in Hall; [done|]. apply List.in_seq. lia. }
  assert (alpha n = alpha (n `mod` 64)) as -> by (unfold alpha; by rewrite N.Div0.mod_mod).
  apply H. by apply N.mod_lt.
Qed.

Lemma byte_bound b : (Byte.to_N b < 256)%N.
Proof. by destruct b. Qed.
Lemma byte_of_same n b k : (n = 256 * k + Byte.to_N b)%N → byte_of_N n = b.
Proof.
  intros ->. rewrite byte_of_N_mod. rewrite (N.mul_comm 256), N.add_comm, N.Div0.mod_add, <-byte_of_N_mod. apply byte_of_to.
Qed.

(** Four digits hold twenty-four bits. *)
Lemma four_digits n : (n < 16777216)%N →
  ((n / 262144) `mod` 64 * 262144 + (n / 4096) `mod` 64 * 4096 + (n / 64) `mod` 64 * 64 + n `mod` 64)%N = n.
Proof.
  intros Hn. assert (n / 4096 = n / 64 / 64)%N as -> by (by rewrite N.Div0.div_div).
  assert (n / 262144 = n / 64 / 64 / 64)%N as -> by (by rewrite !N.Div0.div_div).
  pose proof (N.div_mod' n 64) as H0. pose proof (N.div_mod' (n / 64) 64) as H1. pose proof (N.div_mod' (n / 64 / 64) 64) as H2.
  rewrite (N.mod_small (n / 64 / 64 / 64)); [lia|].
  rewrite !N.Div0.div_div. apply N.Div0.div_lt_upper_bound. lia.
Qed.
Lemma three_bytes x y z (n := (Byte.to_N x * 65536 + Byte.to_N y * 256 + Byte.to_N z)%N) :
  byte_of_N (n / 65536) = x ∧ byte_of_N (n / 256) = y ∧ byte_of_N n = z.
Proof.
  pose proof (byte_bound x) as Hx. pose proof (byte_bound y) as Hy. pose proof (byte_bound z) as Hz.
  assert (n / 256 = Byte.to_N x * 256 + Byte.to_N y)%N as H1 by (symmetry; apply N.div_unique with (Byte.to_N z); subst n; lia).
  assert (n / 65536 = Byte.to_N x)%N as H2
    by (symmetry; apply N.div_unique with (Byte.to_N y * 256 + Byte.to_N z)%N; subst n; lia).
  rewrite H1, H2. split_and!.
  - apply byte_of_to.
  - apply byte_of_same with (Byte.to_N x). lia.
  - apply byte_of_same with (Byte.to_N x * 256 + Byte.to_N y)%N. subst n. lia.
Qed.
Lemma group_bound x y z : (Byte.to_N x * 65536 + Byte.to_N y * 256 + Byte.to_N z < 16777216)%N.
Proof. pose proof (byte_bound x). pose proof (byte_bound y). pose proof (byte_bound z). lia. Qed.

(** What the printer writes, a reader of base 64 reads back. *)
Lemma base64_roundtrip data : unbase64 (base64 data) = Some data.
Proof.
  induction data as [data IH] using (induction_ltof1 _ (@length byte)). unfold ltof in IH.
  destruct data as [|x [|y [|z data]]]; [done| | |].
  - cbn [base64]. set (n := (Byte.to_N x * 65536)%N). cbn [unbase64]. rewrite !digit64_alpha.
    change (digit64 "=") with (@None N). rewrite decide_True by done.
    pose proof (four_digits n ltac:(pose proof (group_bound x x00 x00); cbn in *; lia)) as H4.
    pose proof (three_bytes x x00 x00) as (H1 & _ & _). change (Byte.to_N x00) with 0%N in H1. rewrite N.mul_0_l, !N.add_0_r in H1.
    fold n in H1. assert ((n / 64) `mod` 64 = 0 ∧ n `mod` 64 = 0)%N as [Ha Hb].
    { subst n. replace (Byte.to_N x * 65536)%N with (Byte.to_N x * 1024 * 64)%N by lia. rewrite N.div_mul by done.
      split; [|by rewrite N.Div0.mod_mul]. replace (Byte.to_N x * 1024)%N with (Byte.to_N x * 16 * 64)%N by lia. by rewrite N.Div0.mod_mul. }
    rewrite Ha, Hb in H4. rewrite N.mul_0_l, !N.add_0_r in H4. by rewrite H4, H1.
  - cbn [base64]. set (n := (Byte.to_N x * 65536 + Byte.to_N y * 256)%N). cbn [unbase64]. rewrite !digit64_alpha.
    change (digit64 "=") with (@None N). rewrite decide_True by done.
    pose proof (four_digits n ltac:(pose proof (group_bound x y x00); cbn in *; lia)) as H4.
    pose proof (three_bytes x y x00) as (H1 & H2 & _). change (Byte.to_N x00) with 0%N in H1, H2. rewrite !N.add_0_r in H1, H2.
    fold n in H1, H2. assert (n `mod` 64 = 0)%N as Hb.
    { subst n. replace (Byte.to_N x * 65536 + Byte.to_N y * 256)%N with ((Byte.to_N x * 1024 + Byte.to_N y * 4) * 64)%N by lia.
      by rewrite N.Div0.mod_mul. }
    rewrite Hb, N.add_0_r in H4. by rewrite H4, H1, H2.
  - cbn [base64]. set (n := (Byte.to_N x * 65536 + Byte.to_N y * 256 + Byte.to_N z)%N). cbn [unbase64]. rewrite !digit64_alpha.
    rewrite four_digits by apply group_bound. pose proof (three_bytes x y z) as (H1 & H2 & H3). fold n in H1, H2, H3.
    rewrite IH by (cbn; lia). cbn. by rewrite H1, H2, H3.
Qed.

Lemma accept_key_length key : String.length (accept_key key) = 28.
Proof.
  unfold accept_key. pose proof (sha1_length (bytes_of (key +:+ MAGIC))) as Hl.
  destruct (sha1 _) as [|? l]; [done|]. do 20 (destruct l as [|? l]; [done|]). done.
Qed.

(** ** Text and its bytes *)

Lemma numbers_bytes_of s : numbers (bytes_of s) = codes s.
Proof. apply to_N_bytes_of. Qed.

(** A header's characters: ASCII, and neither end of a line. *)
Definition plain (a : ascii) : bool :=
  bool_decide (N_of_ascii a < 128)%N && negb (bool_decide (a = carriage)) && negb (bool_decide (a = newline)).

Lemma utf8_ascii s : all_chars (λ a, bool_decide (N_of_ascii a < 128)%N) s = true → utf8_valid (codes s) = true.
Proof. induction s as [|a s IH]; [done|]. cbn. intros [-> Hs]%andb_true_iff. by apply IH. Qed.
Lemma plain_lacks s : all_chars plain s = true →
  lacks carriage s = true ∧ lacks newline s = true ∧ all_chars (λ a, bool_decide (N_of_ascii a < 128)%N) s = true.
Proof.
  intros Hs. split_and!; (eapply all_chars_impl; [|exact Hs]); intros a; unfold plain; rewrite !andb_true_iff; tauto.
Qed.
Lemma plain_bytes s : lacks carriage s = true → x0d ∉ bytes_of s.
Proof.
  induction s as [|a s IH]; [set_solver|]. intros [Ha Hs]%lacks_cons. unfold bytes_of. cbn. rewrite not_elem_of_cons.
  split; [|by apply IH]. intros H. apply Ha. apply (f_equal Byte.to_N) in H. rewrite byte_to_of_N in H by apply code_bound.
  change (Byte.to_N x0d) with 13%N in H. apply (f_equal ascii_of_N) in H. by rewrite ascii_N_embedding in H.
Qed.

(** ** A head of lines *)

Definition head_text (ls : list string) : string := foldr (λ l r, l +:+ crlf +:+ r) crlf ls.
Definition head_bytes (ls : list bytes) : bytes := foldr (λ l r, l ++ [x0d; x0a] ++ r) [x0d; x0a] ls.

Lemma bytes_of_head ls : bytes_of (head_text ls) = head_bytes (bytes_of <$> ls).
Proof. induction ls as [|l ls IH]; [done|]. cbn [head_text foldr fmap list_fmap head_bytes]. rewrite !bytes_of_app. by f_equal; f_equal. Qed.

Lemma strip_cr_line l : strip_cr (l +:+ String carriage "") = l.
Proof. unfold strip_cr. by rewrite rsplit_once_last. Qed.
Lemma split_head ls : Forall (λ l, lacks newline l = true) ls →
  split_char newline (head_text ls) = ((λ l, l +:+ String carriage "") <$> ls) ++ [String carriage ""; ""].
Proof.
  induction 1 as [|l ls Hl Hls IH]; [done|]. cbn [head_text foldr fmap list_fmap app].
  change (l +:+ crlf +:+ foldr _ crlf ls) with (l +:+ (String carriage "" +:+ String newline (head_text ls))).
  rewrite <-str_app_assoc, split_char_app; [by rewrite IH|]. by rewrite all_chars_app, Hl.
Qed.
(** The lines of a head are the lines it was made of, and an empty one. *)
Lemma lines_head ls : Forall (λ l, lacks newline l = true) ls → lines (head_text ls) = ls ++ [""].
Proof.
  intros Hls. unfold lines. rewrite split_head by done.
  set (l := (λ l, l +:+ String carriage "") <$> ls).
  rewrite bool_decide_eq_true_2 by by rewrite last_app.
  rewrite length_app. cbn [length]. replace (length l + 2 - 1) with (length (l ++ [String carriage ""])) by (rewrite length_app; cbn; lia).
  change [String carriage ""; ""] with ([String carriage ""] ++ [""]). rewrite (app_assoc l), take_app_length, fmap_app. f_equal.
  subst l. rewrite <-list_fmap_compose. rewrite <-(list_fmap_id ls) at 2. apply list_fmap_ext. intros i x _. apply strip_cr_line.
Qed.

(** ** Where a head ends *)

Lemma find_skip c hay : c ≠ x0d → find (c :: hay) blank = S <$> find hay blank.
Proof. intros Hc. cbn [find]. unfold begins. rewrite bool_decide_eq_false_2; [done|]. by intros [= ? _]. Qed.
Lemma find_line l rest : x0d ∉ l → find (l ++ rest) blank = (λ p, length l + p) <$> find rest blank.
Proof.
  induction l as [|c l IH]; intros Hl; [cbn; by destruct (find rest blank)|]. apply not_elem_of_cons in Hl as [Hc Hl].
  change ((c :: l) ++ rest) with (c :: (l ++ rest)). rewrite find_skip, IH by done. by destruct (find rest blank).
Qed.
Lemma find_break c rest : c ≠ x0d → find (x0d :: x0a :: c :: rest) blank = (λ p, 2 + p) <$> find (c :: rest) blank.
Proof.
  intros Hc. change (find (x0d :: x0a :: c :: rest) blank) with
    (if begins blank (x0d :: x0a :: c :: rest) then Some 0 else S <$> find (x0a :: c :: rest) blank).
  unfold begins. rewrite bool_decide_eq_false_2 by (by intros [= ? _]). rewrite find_skip by done. by destruct (find (c :: rest) blank).
Qed.
Lemma find_head l ls rest : Forall (λ l, l ≠ [] ∧ x0d ∉ l) (l :: ls) →
  find (head_bytes (l :: ls) ++ rest) blank = Some (length (head_bytes (l :: ls)) - 4).
Proof.
  revert l. induction ls as [|l' ls IH]; intros l [[Hne Hl] Hls]%list.Forall_cons.
  - cbn [head_bytes foldr]. rewrite <-app_assoc, find_line by done.
    change (find _ blank) with (Some 0). cbn. rewrite length_app. cbn. f_equal. lia.
  - specialize (IH l' Hls). apply list.Forall_cons in Hls as [[Hne' Hl'] Hls].
    change (head_bytes (l :: l' :: ls)) with (l ++ [x0d; x0a] ++ head_bytes (l' :: ls)).
    assert (∃ c r, head_bytes (l' :: ls) = c :: r ∧ c ≠ x0d) as (c & r & Hc & Hcn).
    { destruct l' as [|c r]; [done|]. apply not_elem_of_cons in Hl' as [? _]. eexists c, _. split; [reflexivity|done]. }
    assert (4 ≤ length (head_bytes (l' :: ls))) as H4.
    { apply find_bound in IH. rewrite length_app in IH. cbn [blank length] in IH.
      destruct (decide (4 ≤ length (head_bytes (l' :: ls)))); [done|]. clear IH.
      cbn [head_bytes foldr]. rewrite !length_app. destruct ls; cbn; rewrite ?length_app; cbn; destruct l'; cbn in *; try done; lia. }
    rewrite <-!app_assoc, find_line by done. rewrite Hc in *. cbn [app].
    rewrite find_break by done. cbn [app] in IH. rewrite IH. cbn -[Nat.sub]. rewrite length_app. cbn [length] in *. f_equal. lia.
Qed.

(** A search of the first bytes finds what the whole search finds, once it is
    there in full. *)
Lemma begins_prefix needle a b : begins needle (a ++ b) = true → begins needle a = bool_decide (length needle ≤ length a).
Proof.
  unfold begins. rewrite bool_decide_eq_true. intros H. apply bool_decide_ext. split; intros Ha.
  - rewrite <-Ha, length_take. lia.
  - by rewrite <-(take_app_le a b) by done.
Qed.
Lemma begins_false_prefix needle a b : begins needle (a ++ b) = false → begins needle a = false.
Proof.
  unfold begins. rewrite !bool_decide_eq_false. intros H Ha. apply H.
  rewrite take_app_le; [done|]. apply (f_equal length) in Ha. rewrite length_take in Ha. lia.
Qed.
Lemma find_prefix needle hay rest pos : needle ≠ [] → find (hay ++ rest) needle = Some pos →
  find hay needle = if decide (pos + length needle ≤ length hay) then Some pos else None.
Proof.
  intros Hn. revert pos. induction hay as [|b hay IH]; intros pos Hf.
  - rewrite decide_False by (destruct needle; [done|cbn; lia]).
    by destruct needle.
  - cbn [app find] in Hf |- *. change (b :: hay ++ rest) with ((b :: hay) ++ rest) in Hf.
    destruct (begins needle ((b :: hay) ++ rest)) eqn:Hb.
    + injection Hf as <-. rewrite (begins_prefix _ _ _ Hb). case_bool_decide as Hl; case_decide as Hl'; try done; try lia.
      apply fmap_None. destruct (find hay needle) as [q|] eqn:Hq; [|done]. apply find_bound in Hq. cbn in Hl. lia.
    + apply begins_false_prefix in Hb as ->. destruct (find (hay ++ rest) needle) as [p|] eqn:Hp; [|done].
      injection Hf as <-. rewrite (IH p eq_refl). cbn [length]. repeat case_decide; (done || lia).
Qed.
Lemma find_at needle hay pos : find hay needle = Some pos → take (length needle) (drop pos hay) = needle.
Proof.
  revert pos. induction hay as [|b hay IH]; intros pos; cbn [find]; destruct (begins needle _) eqn:Hb.
  1, 3: intros [= <-]; by apply bool_decide_eq_true in Hb.
  - done.
  - intros (p & Hp & ->)%fmap_Some. by apply IH.
Qed.
Lemma find_least needle p rest : ∃ q, find (p ++ needle ++ rest) needle = Some q ∧ q ≤ length p.
Proof.
  induction p as [|b p IH].
  - exists 0. split; [exact (find_here needle rest)|cbn; lia].
  - cbn [app find]. destruct (begins _ _); [exists 0; split; [done|lia]|].
    destruct IH as (q & -> & Hq). exists (S q). split; [done|cbn; lia].
Qed.

Lemma ends_with_spec suffix b : ends_with suffix b = true ↔ ∃ p, b = p ++ suffix.
Proof.
  unfold ends_with. rewrite bool_decide_eq_true. split.
  - intros [_ Hd]. exists (take (length b - length suffix) b). rewrite <-(take_drop (length b - length suffix) b) at 1. by rewrite Hd.
  - intros (p & ->). rewrite length_app. split; [lia|]. replace (length p + length suffix - length suffix) with (length p) by lia.
    apply drop_app_length.
Qed.

(** Reading byte by byte to the first blank line, and searching for it, end
    at the same byte. *)
Lemma read_head_find hay rest pos : find hay blank = Some pos → (N.of_nat (pos + 4) ≤ HEAD_LIMIT + 1)%N →
  read_head [] ((Some <$> hay) ++ rest) = Some (take (pos + 4) hay).
Proof.
  intros Hf Hl. pose proof (find_bound _ _ _ Hf) as Hb. change (length blank) with 4 in Hb.
  rewrite <-(take_drop (pos + 4) hay) at 1. rewrite fmap_app, <-app_assoc.
  apply (read_head_first [] (take (pos + 4) hay)).
  - intros k Hk. rewrite length_take in Hk. cbn [app]. rewrite take_take, Nat.min_l by lia.
    apply not_true_is_false. intros (p & Hp)%ends_with_spec.
    destruct (find_least blank p (drop k hay)) as (q & Hq & Hle).
    rewrite app_assoc, <-Hp, take_drop, Hf in Hq. injection Hq as <-.
    apply (f_equal length) in Hp. rewrite length_take, length_app in Hp. change (length blank) with 4 in Hp. lia.
  - rewrite length_take. cbn [length]. lia.
  - apply ends_with_spec. exists (take pos hay). cbn [app]. pose proof (find_at _ _ _ Hf) as Ha. change (length blank) with 4 in Ha.
    by rewrite <-(take_take_drop hay pos 4), Ha.
Qed.

(** ** The two ends *)

Definition brings (ev : WsRead) : Prop := match ev with Chunk (_ :: _) => True | _ => False end.

(** The client's wait, on an answer cut anywhere: it ends with the answer, and
    what came behind the answer is kept. *)
Lemma connect_reads buf first later pos (whole := buf ++ arrived first ++ arrived later) :
  find whole blank = Some pos → (N.of_nat (pos + 4) ≤ 65536)%N →
  contains_str " 101" (default "" (head (lines (string_of_bytes (from_utf8_lossy (take pos whole)))))) = true →
  Forall brings first → pos + 4 ≤ length (buf ++ arrived first) →
  ∃ b rest, connect buf (first ++ later) = Ok (b, rest ++ later) ∧ rest `suffix_of` first ∧
    b ++ arrived rest ++ arrived later = drop (pos + 4) whole.
Proof.
  intros Hf Hmax Hok Hfirst Hlen. subst whole. revert buf Hf Hok Hlen.
  induction Hfirst as [|ev first Hev Hfirst IH]; intros buf Hf Hok Hlen;
    pose proof (find_prefix blank buf _ pos ltac:(done) Hf) as Hp; change (length blank) with 4 in Hp;
    destruct (decide (pos + 4 ≤ length buf)) as [Hle|Hgt].
  - exists (drop (pos + 4) buf), []. rewrite drop_app_le by done. split_and!; [|done|done].
    cbn [app]. rewrite take_app_le in Hok by lia. by destruct later; cbn [connect]; rewrite Hp, Hok.
  - cbn in Hlen. rewrite app_nil_r in Hlen. lia.
  - exists (drop (pos + 4) buf), (ev :: first). rewrite drop_app_le by done. split_and!; [|done|done].
    cbn [app connect]. rewrite take_app_le in Hok by lia. by rewrite Hp, Hok.
  - cbn [app connect]. rewrite Hp, bool_decide_eq_false_2 by lia. destruct ev as [[|x bs]| |]; try done.
    change (arrived (Chunk (x :: bs) :: first)) with ((x :: bs) ++ arrived first) in *.
    destruct (IH (buf ++ x :: bs)) as (b & rest & Hc & Hs & Hd).
    + by rewrite <-!app_assoc in Hf |- *.
    + by rewrite <-!app_assoc in Hok |- *.
    + by rewrite <-!app_assoc.
    + exists b, rest. split_and!; [exact Hc|by apply suffix_cons_r|]. rewrite Hd. by rewrite <-!app_assoc.
Qed.

Definition answer_lines (key : string) : list string :=
  ["HTTP/1.1 101 Switching Protocols"; "Upgrade: websocket"; "Connection: Upgrade"; "Sec-WebSocket-Accept: " +:+ accept_key key].
Definition request_lines (addr : string) : list string :=
  ["GET /events HTTP/1.1"; "Host: " +:+ addr; "Upgrade: websocket"; "Connection: Upgrade";
   "Sec-WebSocket-Key: " +:+ SAMPLE_KEY; "Sec-WebSocket-Version: 13"].
Lemma switching_lines key : switching key = head_text (answer_lines key).
Proof. reflexivity. Qed.
Lemma request_lines_text addr : connect_request addr = head_text (request_lines addr).
Proof. reflexivity. Qed.

Lemma alpha_plain n : plain (alpha n) = true.
Proof.
  assert (forallb (λ i, plain (alpha (N.of_nat i))) (seq 0 64) = true) as Hall by by vm_compute.
  rewrite List.forallb_forall in Hall. specialize (Hall (N.to_nat (n `mod` 64))). rewrite N2Nat.id in Hall.
  assert (alpha n = alpha (n `mod` 64)) as -> by (unfold alpha; by rewrite N.Div0.mod_mod).
  apply Hall, List.in_seq. pose proof (N.mod_lt n 64 ltac:(done)) as Hm. revert Hm. generalize (n `mod` 64)%N. lia.
Qed.
Lemma base64_plain data : all_chars plain (base64 data) = true.
Proof.
  induction data as [data IH] using (induction_ltof1 _ (@length byte)). unfold ltof in IH.
  destruct data as [|x [|y [|z data]]]; [done|..]; cbn [base64 all_chars]; rewrite !alpha_plain; [done..|].
  apply IH. cbn. lia.
Qed.

Lemma length_bytes_of s : length (bytes_of s) = String.length s.
Proof. unfold bytes_of. rewrite length_fmap. induction s as [|a s IH]; [done|]. cbn. by rewrite IH. Qed.

Lemma first_line l rest : lacks newline l = true → head (lines (l +:+ crlf +:+ rest)) = Some l.
Proof.
  intros Hl. unfold lines. change (l +:+ crlf +:+ rest) with (l +:+ (String carriage "" +:+ String newline rest)).
  rewrite <-str_app_assoc, split_char_app by by rewrite all_chars_app, Hl.
  assert (∃ w r, split_char newline rest = w :: r) as (w & r & ->).
  { destruct rest as [|a rest]; [by exists "", []|]. cbn [split_char]. case_decide; [by exists "", (split_char newline rest)|].
    destruct (split_char newline rest) as [|w r]; by eexists _, _. }
  replace (length ((l +:+ String carriage "") :: w :: r) - 1) with (S (length r)) by (cbn; lia).
  case_bool_decide; cbn [take fmap list_fmap head]; by rewrite strip_cr_line.
Qed.

(** The head of an answer, without the blank line that ends it. *)
Definition answer_head (key : string) : string :=
  "HTTP/1.1 101 Switching Protocols" +:+ crlf +:+ "Upgrade: websocket" +:+ crlf +:+ "Connection: Upgrade" +:+ crlf +:+
  "Sec-WebSocket-Accept: " +:+ accept_key key.
Lemma switching_head key : bytes_of (switching key) = bytes_of (answer_head key) ++ blank.
Proof. rewrite <-(bytes_of_app _ (crlf +:+ crlf)). unfold answer_head. by rewrite !str_app_assoc. Qed.
Lemma answer_head_length key : length (bytes_of (answer_head key)) = 125.
Proof. unfold answer_head. by rewrite length_bytes_of, !length_str_app, accept_key_length. Qed.

Lemma head_lines_ok ls : Forall (λ l, l ≠ "" ∧ all_chars plain l = true) ls →
  Forall (λ l, l ≠ [] ∧ x0d ∉ l) (bytes_of <$> ls) ∧ Forall (λ l, lacks newline l = true) ls.
Proof.
  induction 1 as [|l ls [Hne Hl] Hls [IH1 IH2]]; [split; constructor|]. apply plain_lacks in Hl as (Hc & Hn & _).
  split; constructor; try done. split; [by destruct l|]. by apply plain_bytes.
Qed.
Lemma answer_lines_ok key : Forall (λ l, l ≠ "" ∧ all_chars plain l = true) (answer_lines key).
Proof. repeat constructor; try done. rewrite all_chars_app. apply base64_plain. Qed.

Lemma find_answer key rest : find (bytes_of (switching key) ++ rest) blank = Some 125.
Proof.
  rewrite switching_lines, bytes_of_head. unfold answer_lines. cbn [fmap list_fmap].
  rewrite find_head by apply (head_lines_ok _ (answer_lines_ok key)). f_equal.
  change (_ :: _) with (bytes_of <$> answer_lines key). rewrite <-bytes_of_head, <-switching_lines, switching_head.
  rewrite length_app, answer_head_length. done.
Qed.

(** C23: A router's event stream opens and delivers: whatever the key, the
    daemon's answer and the frames behind it are read back by the router as
    exactly the daemon's lines, however the connection cuts the bytes, even
    where one read holds the end of the answer and the start of a frame. The
    polls may tick between the frames; before the answer is complete a tick
    would end the attempt. *)
Theorem event_stream_opens key items first later calls :
  Forall sendable items → Forall brings first → Forall flowing later →
  length (bytes_of (switching key)) ≤ length (arrived first) →
  arrived first ++ arrived later = bytes_of (switching key) ++ wire items →
  length items + length first + length later < calls →
  ∃ b evs, connect [] (first ++ later) = Ok (b, evs) ∧ ws_texts calls b evs = Ok (texts items, []).
Proof.
  intros Hi Hf Hl Hlen Heq Hc. pose proof (find_answer key (wire items)) as Hfind. rewrite <-Heq in Hfind.
  rewrite switching_head, length_app, answer_head_length in Hlen. change (length blank) with 4 in Hlen.
  destruct (connect_reads [] first later 125) as (b & rest & Hconn & Hsuf & Hd); try done.
  { cbn [app]. rewrite Heq, switching_head, <-app_assoc, <-(answer_head_length key), take_app_length.
    rewrite from_utf8_lossy_valid.
    - rewrite string_of_bytes_of. unfold answer_head. by rewrite first_line.
    - rewrite numbers_bytes_of. apply utf8_ascii. unfold answer_head. rewrite !all_chars_app.
      destruct (plain_lacks _ (base64_plain (sha1 (bytes_of (key +:+ MAGIC))))) as (_ & _ & Ha). unfold accept_key. by rewrite Ha. }
  exists b, (rest ++ later). split; [done|]. apply ws_texts_stream; [done| | |].
  - apply Forall_app_2; [|done]. destruct Hsuf as [pre ->]. apply Forall_app in Hf as [_ Hf].
    apply (list.Forall_impl _ _ _ Hf). by intros [[|? ?]| |].
  - unfold arrived. rewrite bind_app. fold (arrived rest) (arrived later). rewrite Hd. cbn [app]. rewrite Heq, switching_head.
    apply drop_app_length'. by rewrite length_app, answer_head_length.
  - rewrite length_app. apply suffix_length in Hsuf. lia.
Qed.

Definition request_headers (addr : string) : gmap string string :=
  <["sec-websocket-version" := "13"]> (<["sec-websocket-key" := SAMPLE_KEY]> (<["connection" := "Upgrade"]>
  (<["upgrade" := "websocket"]> {["host" := trim addr]}))).

Lemma request_lines_ok addr : all_chars plain addr = true →
  Forall (λ l, l ≠ "" ∧ all_chars plain l = true) (request_lines addr).
Proof. intros Ha. by repeat constructor. Qed.

Lemma add_header_line m k v : lacks ":"%char k = true → add_header m (k +:+ ":" +:+ v) = <[to_ascii_lowercase (trim k) := trim v]> m.
Proof. intros Hk. unfold add_header. change (k +:+ ":" +:+ v) with (k +:+ String ":"%char v). by rewrite split_once_first. Qed.

(** The daemon reads the router's request for the event stream whole and as it
    was meant, the path, the upgrade and the key, whatever follows on the
    connection: the byte-by-byte reading stops at the first blank line. *)
Lemma events_request_read addr rest : all_chars plain addr = true → (N.of_nat (String.length addr) ≤ 16000)%N →
  read_request ((Some <$> bytes_of (connect_request addr)) ++ rest) = Some ("/events", request_headers addr).
Proof.
  intros Ha Hl. pose proof (head_lines_ok _ (request_lines_ok addr Ha)) as [Hb Hn].
  assert (length (bytes_of (connect_request addr)) = 145 + String.length addr) as Hlen.
  { rewrite length_bytes_of. unfold connect_request. rewrite !length_str_app. cbn [String.length]. cbn. lia. }
  assert (find (bytes_of (connect_request addr)) blank = Some (141 + String.length addr)) as Hf.
  { rewrite <-(app_nil_r (bytes_of _)), request_lines_text, bytes_of_head. unfold request_lines. cbn [fmap list_fmap].
    rewrite find_head by exact Hb. change (_ :: _) with (bytes_of <$> request_lines addr).
    by rewrite <-bytes_of_head, <-request_lines_text, Hlen. }
  unfold read_request. rewrite (read_head_find _ rest _ Hf) by (unfold HEAD_LIMIT; lia). cbn [mbind option_bind].
  rewrite take_ge by lia. unfold parse_request.
  rewrite from_utf8_lossy_valid, string_of_bytes_of.
  - rewrite request_lines_text, lines_head by exact Hn. cbn [request_lines app].
    cbv iota beta. change (split_whitespace "GET /events HTTP/1.1") with ["GET"; "/events"; "HTTP/1.1"]. cbv iota beta. rewrite bool_decide_eq_true_2 by done.
    unfold request_headers. cbn [foldl].
    change ("Host: " +:+ addr) with ("Host" +:+ ":" +:+ String " "%char addr). rewrite (add_header_line ∅) by done.
    rewrite trim_space. rewrite insert_empty. reflexivity.
  - rewrite numbers_bytes_of. apply utf8_ascii. unfold connect_request. rewrite !all_chars_app.
    by destruct (plain_lacks _ Ha) as (_ & _ & ->).
Qed.

(** An answer that is not a 101 is refused with its status line. *)
Lemma connect_refused line rest evs : all_chars plain line = true → contains_str " 101" line = false → line ≠ "" →
  connect (bytes_of (line +:+ crlf +:+ crlf) ++ rest) evs = Err (Ws.InvalidData ("handshake refused: " +:+ line)).
Proof.
  intros Hp Hno Hne. assert (find (bytes_of (line +:+ crlf +:+ crlf) ++ rest) blank = Some (String.length line)) as Hf.
  { pose proof (find_head (bytes_of line) [] rest) as H. change (head_bytes [bytes_of line]) with (bytes_of line ++ blank) in H.
    rewrite bytes_of_app. change (bytes_of (crlf +:+ crlf)) with blank. rewrite H.
    - rewrite length_app, length_bytes_of. cbn [blank length]. f_equal. lia.
    - constructor; [|constructor]. split; [by destruct line|]. apply plain_bytes. by apply plain_lacks. }
  assert (take (String.length line) (bytes_of (line +:+ crlf +:+ crlf) ++ rest) = bytes_of line) as Ht.
  { rewrite bytes_of_app, <-app_assoc. apply take_app_length'. symmetry. apply length_bytes_of. }
  assert (head (lines line) = Some line) as Hh.
  { apply plain_lacks in Hp as (Hc & Hn & _). unfold lines. rewrite split_char_none by done.
    rewrite bool_decide_eq_false_2 by (cbn; by intros [= ?]). cbn. unfold strip_cr. by rewrite rsplit_once_None. }
  assert (from_utf8_lossy (bytes_of line) = bytes_of line) as Hu.
  { apply from_utf8_lossy_valid. rewrite numbers_bytes_of. apply utf8_ascii. by apply plain_lacks. }
  destruct evs; cbn [connect]; rewrite Hf, Ht, Hu, string_of_bytes_of, Hh; change (default "" (Some line)) with line; by rewrite Hno.
Qed.

(** ** Instances *)

Definition demo_answer : list WsRead :=
  let w := bytes_of (switching SAMPLE_KEY) ++ wire demo_lines in
  [Chunk (take 7 w); Chunk (take 120 (drop 7 w)); Chunk (take 10 (drop 127 w))].
Definition demo_later : list WsRead :=
  let w := bytes_of (switching SAMPLE_KEY) ++ wire demo_lines in
  [Elapsed; Chunk (take 40 (drop 137 w)); Elapsed; Chunk (drop 177 w)].

Lemma event_stream_opens_witness : ∃ b evs,
  connect [] (demo_answer ++ demo_later) = Ok (b, evs) ∧
  ws_texts 12 b evs = Ok ([[x7b; x7d]; replicate 130 x61; [xc3; xa9]], []).
Proof.
  apply (event_stream_opens SAMPLE_KEY demo_lines demo_answer demo_later 12).
  - repeat constructor; vm_compute; congruence.
  - vm_compute. by repeat constructor.
  - vm_compute. by repeat constructor.
  - vm_compute. lia.
  - vm_compute. reflexivity.
  - vm_compute. lia.
Defined.

Lemma events_request_read_witness :
  read_request ((Some <$> bytes_of (connect_request "10.0.0.1:8080")) ++ [Some x41; None]) =
    Some ("/events", request_headers "10.0.0.1:8080").
Proof. apply events_request_read; [reflexivity|done]. Defined.
