(* ===== verification/Http.v ===== *)
(** * The daemon's HTTP side port (rust/mentatd/src/http.rs)

    The document a request names, the metrics text, and the subscription to the
    event stream. A request's bytes and the handshake are in Handshake.v, the
    frames in Ws.v, the events in Stream.v; the sockets and the JSON printer are
    outside. *)

From S2P Require Import Prelude Text Json Proto Addr Pattern Ws State Status Net Groups Stream Handshake.

(** [path.split('?').nth(i).unwrap_or("")] *)
Definition piece (i : nat) (c : ascii) (s : string) : string := default EmptyString (split_char c s !! i).

(** ** Answers *)

Record HttpAnswer := mkAnswer { ha_code : N; ha_type : string; ha_body : string }.

Definition reason_of (code : N) : string :=
  if decide (code = 200%N) then "OK" else if decide (code = 400%N) then "Bad Request" else "Not Found".
Definition respond (a : HttpAnswer) : string :=
  "HTTP/1.1 " +:+ pretty (ha_code a) +:+ " " +:+ reason_of (ha_code a) +:+ crlf +:+
  "Content-Type: " +:+ ha_type a +:+ crlf +:+
  "Content-Length: " +:+ pretty (N.of_nat (String.length (ha_body a))) +:+ crlf +:+
  "Connection: close" +:+ crlf +:+ crlf +:+ ha_body a.

(** ** Metrics *)

Definition dq1 : string := String quote_char EmptyString.
Definition labelled (k v : string) : string := k +:+ "=" +:+ dq1 +:+ v +:+ dq1.
Definition metric (name : string) (labels : list string) (value : N) : string :=
  name +:+ (if nonempty labels then "{" +:+ join "," labels +:+ "}" else EmptyString) +:+ " " +:+ pretty value +:+ nl.

Section metrics.
Context `{HI : HashIter} (version : string).

Definition vendors_of (alive : list AgentInfo) : list string :=
  sort_dedup (alive ≫= λ a, g_vendor <$> m_gpus (ag_machine a)).

(** One agent's devices of a vendor: how many, how many not free, how much
    memory. *)
Definition devices_of (v : string) (a : AgentInfo) : list Gpu := filter (λ d, g_vendor d = v) (m_gpus (ag_machine a)).
Definition used_of (s : State) (v : string) (a : AgentInfo) : list Gpu :=
  filter (λ d, g_index d ∉ free_gpus_of s (ag_id a)) (devices_of v a).
Definition vendor_totals (s : State) (alive : list AgentInfo) (v : string) : nat * nat * N :=
  foldl (λ '(total, used, bytes) a,
    (total + length (devices_of v a), used + length (used_of s v a),
     foldl (λ b d, u64_add b (g_memory d)) bytes (devices_of v a))) (0, 0, 0%N) alive.

Definition group_metrics (s : State) (g : string) : string :=
  let alive := live_in_group s g in
  metric "mentat_agents" [labelled "group" g] (N.of_nat (length alive)) +:+
  metric "mentat_memory_bytes" [labelled "group" g] (foldl (λ b a, u64_add b (m_memory (ag_machine a))) 0%N alive) +:+
  String.concat EmptyString ((λ v,
    let '(total, used, bytes) := vendor_totals s alive v in
    let labels := [labelled "group" g; labelled "vendor" v] in
    metric "mentat_gpus_total" labels (N.of_nat total) +:+ metric "mentat_gpus_used" labels (N.of_nat used) +:+
    metric "mentat_gpu_memory_bytes" labels bytes) <$> vendors_of alive).

Definition state_word (a : ActorInfo) : string :=
  match a_state a with Spawning => "spawning" | Running => "running" | Dead _ _ => "dead" end.
Definition actor_count (s : State) (g w : string) : nat :=
  length (filter (λ a, a_group a = g ∧ state_word a = w) (hash_values (actors s))).
Definition actor_metrics (s : State) (g : string) : string :=
  String.concat EmptyString ((λ w, metric "mentat_actors" [labelled "group" g; labelled "state" w] (N.of_nat (actor_count s g w)))
    <$> ["spawning"; "running"; "dead"]).

Definition typed (name kind : string) : string := "# TYPE " +:+ name +:+ " " +:+ kind +:+ nl.
Definition counted (name kind : string) (v : N) : string := typed name kind +:+ metric name [] v.

Definition metrics (s : State) : string :=
  let groups := sort_dedup (ag_group <$> hash_values (agents s)) in
  let c := counters s in
  typed "mentat_build_info" "gauge" +:+
  "mentat_build_info{" +:+ labelled "version" version +:+ "} 1" +:+ nl +:+
  typed "mentat_agents" "gauge" +:+ typed "mentat_gpus_total" "gauge" +:+ typed "mentat_gpus_used" "gauge" +:+
  typed "mentat_gpu_memory_bytes" "gauge" +:+ typed "mentat_memory_bytes" "gauge" +:+
  String.concat EmptyString (group_metrics s <$> groups) +:+
  typed "mentat_actors" "gauge" +:+
  String.concat EmptyString (actor_metrics s <$> groups) +:+
  counted "mentat_actors_spawned_total" "counter" (actors_spawned c) +:+
  typed "mentat_actor_exits_total" "counter" +:+
  metric "mentat_actor_exits_total" [labelled "kind" "clean"] (actor_exits_clean c) +:+
  metric "mentat_actor_exits_total" [labelled "kind" "signal"] (actor_exits_signal c) +:+
  metric "mentat_actor_exits_total" [labelled "kind" "error"] (actor_exits_error c) +:+
  counted "mentat_relayed_total" "counter" (relayed c) +:+
  counted "mentat_calls_total" "counter" (calls_total c) +:+
  counted "mentat_clients_total" "counter" (clients_total c) +:+
  counted "mentat_agents_registered_total" "counter" (agents_registered c) +:+
  counted "mentat_event_subscribers" "gauge" (N.of_nat (length (event_subs s))) +:+
  counted "mentat_peers" "gauge" (N.of_nat (length (filter (λ p, pe_alive p = true) (hash_values (peers s))))) +:+
  counted "mentat_is_head" "gauge" (if decide (head_node_id s = node_id s) then 1 else 0)%N +:+
  counted "mentat_head_generation" "counter" (head_generation s).
End metrics.

(** The document a request names, and how it is followed by the events. *)
Section routes.
Context `{HI : HashIter} (version : string) (to_string : Value → string) (h : Host).

Inductive Served := Answer (a : HttpAnswer) | Upgraded (head : string) (first : Value) (sub : N) | Hangup.

(** [written]: the answer's head went out; [cloned]: the socket's second handle
    was made. The subscription and the snapshot are made under one lock; [sub]
    names the new subscriber's channel, which a hangup behind it leaves without
    a receiver, for the next event to prune. *)
Definition websocket_events (written cloned : bool) (headers : gmap string string) (sub : N) (s : State) : Served * State :=
  match headers !! "sec-websocket-key" with
  | None => (Hangup, s)
  | Some key =>
      if negb written then (Hangup, s)
      else
        let first := snapshot_frame ((next_event_seq s + (u64_modulus - 1)) `mod` u64_modulus)%N (snapshot h s None) in
        let s := s <| event_subs ::= λ l, l ++ [sub] |> in
        if cloned then (Upgraded (switching key) first sub, s) else (Hangup, s)
  end.

Definition http_handle (written cloned : bool) (reads : list (option byte)) (sub : N) (s : State) : Served * State :=
  match read_request reads with
  | None => (Hangup, s)
  | Some (path, headers) =>
      let path_only := piece 0 "?" path in
      let query := piece 1 "?" path in
      let text code body := Answer (mkAnswer code "text/plain" body) in
      if decide (path_only = "/healthz") then (text 200%N ("ok" +:+ nl), s)
      else if decide (path_only = "/metrics") then (Answer (mkAnswer 200 "text/plain; version=0.0.4" (metrics version s)), s)
      else if decide (path_only = "/status") then
        let group := find_map (strip_prefix "group=") (split_char "&" query) in
        (Answer (mkAnswer 200 "application/json" (to_string (snapshot h s group))), s)
      else if decide (path_only = "/events") then
        if from_option (λ v, contains_str "websocket" (to_ascii_lowercase v)) false (headers !! "upgrade")
        then websocket_events written cloned headers sub s
        else (text 400%N ("/events is a WebSocket endpoint" +:+ nl), s)
      else (text 404%N ("not found" +:+ nl), s)
  end.
End routes.

(** ** The sending loop *)

(** One turn: a line, fifteen seconds without one, or no sender left; and
    whether the write went through. *)
Inductive Recv := Received (line : bytes) | Timeout | Disconnected.
Fixpoint feed_loop (turns : list (Recv * bool)) : list Outgoing :=
  match turns with
  | (Received line, true) :: turns => Line line :: feed_loop turns
  | (Timeout, true) :: turns => Quiet :: feed_loop turns
  | _ => []
  end.
Definition feed (first : bytes) (first_sent : bool) (turns : list (Recv * bool)) : list Outgoing :=
  if first_sent then Line first :: feed_loop turns else [].

(** ** Theorems *)

(** *** Routes *)

(** A request changes nothing but the list of subscribers, which at most gains
    its own channel; and every answer but the event stream's leaves it alone. *)
Lemma http_handle_state `{HI : HashIter} version pr h written cloned reads sub s :
  let '(served, s') := http_handle version pr h written cloned reads sub s in
  (s' = s ∨ s' = s <| event_subs ::= λ l, l ++ [sub] |>) ∧
  (∀ a, served = Answer a → s' = s) ∧
  (∀ head first c, served = Upgraded head first c → c = sub ∧ s' = s <| event_subs ::= λ l, l ++ [sub] |>).
Proof.
  unfold http_handle. destruct (read_request reads) as [[path headers]|]; [|naive_solver].
  repeat (case_decide; [naive_solver|]). case_decide; [|naive_solver].
  destruct (from_option _ false _); [|naive_solver]. unfold websocket_events.
  destruct (headers !! _); [|naive_solver]. destruct written, cloned; cbn [negb]; naive_solver.
Qed.

(** *** Metrics *)

Lemma sum_nat_app l l' : sum_nat (l ++ l') = sum_nat l + sum_nat l'.
Proof. unfold sum_nat. induction l as [|x l IH]; [done|]. cbn [app foldr]. lia. Qed.
Lemma sum_nat_zero {A} (l : list A) : sum_nat ((λ _, 0) <$> l) = 0.
Proof. unfold sum_nat. induction l as [|x l IH]; [done|]. cbn in *. lia. Qed.
Lemma sum_nat_plus {A} (f g : A → nat) l : sum_nat ((λ x, f x + g x) <$> l) = sum_nat (f <$> l) + sum_nat (g <$> l).
Proof. symmetry. by apply sum_split. Qed.
Lemma sum_nat_swap {A B} (f : A → B → nat) l k :
  sum_nat ((λ x, sum_nat (f x <$> k)) <$> l) = sum_nat ((λ y, sum_nat ((λ x, f x y) <$> l)) <$> k).
Proof.
  induction l as [|x l IH].
  - cbn. by rewrite sum_nat_zero.
  - rewrite fmap_cons. change (sum_nat (?a :: ?r)) with (a + sum_nat r). rewrite IH, <-sum_nat_plus. done.
Qed.
Lemma sum_nat_ext {A} (f g : A → nat) l : (∀ x, x ∈ l → f x = g x) → sum_nat (f <$> l) = sum_nat (g <$> l).
Proof. intros H. f_equal. apply list_fmap_ext. intros i x Hx. apply H. by apply list_elem_of_lookup_2 in Hx. Qed.

(** A list sorted into the classes of a key is counted once. *)
Lemma sum_one (x : string) vs : NoDup vs → x ∈ vs → sum_nat ((λ v, if decide (x = v) then 1 else 0) <$> vs) = 1.
Proof.
  induction 1 as [|v vs Hv Hnd IH]; intros Hx; [set_solver|]. rewrite fmap_cons.
  change (sum_nat (?a :: ?r)) with (a + sum_nat r). case_decide as Hd.
  - subst v. rewrite (sum_nat_ext _ (λ _, 0)), sum_nat_zero; [done|]. intros y Hy. rewrite decide_False; [done|]. by intros ->.
  - rewrite IH by set_solver. done.
Qed.
Lemma sum_classes {A} (f : A → string) vs (l : list A) : NoDup vs → (∀ x, x ∈ l → f x ∈ vs) →
  sum_nat ((λ v, length (filter (λ x, f x = v) l)) <$> vs) = length l.
Proof.
  intros Hnd. induction l as [|x l IH]; intros Hin; [cbn; by rewrite sum_nat_zero|].
  rewrite (sum_nat_ext _ (λ v, (if decide (f x = v) then 1 else 0) + length (filter (λ x, f x = v) l))).
  - rewrite sum_nat_plus, sum_one, IH by set_solver. done.
  - intros v _. rewrite filter_cons. by case_decide.
Qed.

Section metrics_facts.
Context `{HI : HashIter}.

Lemma vendor_totals_sums s alive v :
  (vendor_totals s alive v).1 = (sum_nat ((λ a, length (devices_of v a)) <$> alive), sum_nat ((λ a, length (used_of s v a)) <$> alive)).
Proof.
  unfold vendor_totals. assert (∀ t u b, (foldl (λ '(total, used, bytes) a,
    (total + length (devices_of v a), used + length (used_of s v a),
     foldl (λ b d, u64_add b (g_memory d)) bytes (devices_of v a))) (t, u, b) alive).1 =
     (t + sum_nat ((λ a, length (devices_of v a)) <$> alive), u + sum_nat ((λ a, length (used_of s v a)) <$> alive))) as H;
    [|apply H].
  induction alive as [|a alive IH]; intros t u b; [cbn; by rewrite !Nat.add_0_r|].
  cbn [foldl]. rewrite IH, !fmap_cons. change (sum_nat (?a :: ?r)) with (a + sum_nat r). f_equal; lia.
Qed.

Lemma vendors_cover alive a d : a ∈ alive → d ∈ m_gpus (ag_machine a) → g_vendor d ∈ vendors_of alive.
Proof.
  intros Ha Hd. unfold vendors_of. apply elem_of_sort_dedup, list_elem_of_bind. exists a. split; [|done].
  by apply list_elem_of_fmap_2.
Qed.

Lemma filter_length_map {A B} (f : A → B) (P : B → Prop) (Q : A → Prop) `{∀ x, Decision (P x)} `{∀ x, Decision (Q x)} l :
  (∀ x, x ∈ l → Q x ↔ P (f x)) → length (filter Q l) = length (filter P (f <$> l)).
Proof.
  induction l as [|x l IH]; [done|]. intros Hx. rewrite fmap_cons, !filter_cons.
  specialize (Hx x ltac:(set_solver)) as Hx0. repeat case_decide; try tauto; cbn; rewrite IH by set_solver; done.
Qed.
Lemma used_is_held s a : agents s !! ag_id a = Some a →
  length (filter (λ d, g_index d ∉ free_gpus_of s (ag_id a)) (m_gpus (ag_machine a))) = length (used_gpus_of s a).
Proof.
  intros Ha. unfold used_gpus_of, devices. apply filter_length_map. intros d Hd.
  rewrite free_gpus_of_eq, Ha. unfold retain_not. rewrite list_elem_of_filter.
  assert (g_index d ∈ g_index <$> m_gpus (ag_machine a)) by by apply list_elem_of_fmap_2.
  destruct (decide (g_index d ∈ holdings s (ag_id a))); tauto.
Qed.

(** The metrics and the status tell the same story: summed over a group's
    vendors, the devices the metrics count are the group's devices in the
    snapshot, and those they call used are its [gpus_used]; a box of two models
    is counted once under each, and no device twice. *)
Theorem metrics_agree s g (Hkeyed : agents_keyed s) (alive := live_in_group s g) :
  sum_nat ((λ v, (vendor_totals s alive v).1.1) <$> vendors_of alive) = gpus_total s g ∧
  N.of_nat (sum_nat ((λ v, (vendor_totals s alive v).1.2) <$> vendors_of alive)) = gpus_used s g.
Proof.
  assert (NoDup (vendors_of alive)) as Hnd by apply sort_dedup_NoDup.
  split.
  - rewrite (sum_nat_ext _ (λ v, sum_nat ((λ a, length (devices_of v a)) <$> alive))) by (intros v _; by rewrite vendor_totals_sums).
    rewrite sum_nat_swap. apply sum_nat_ext. intros a Ha. apply sum_classes; [done|]. intros d Hd. by eapply vendors_cover.
  - destruct (gpus_used_exact s g Hkeyed) as [_ ->]. f_equal.
    rewrite (sum_nat_ext _ (λ v, sum_nat ((λ a, length (used_of s v a)) <$> alive))) by (intros v _; by rewrite vendor_totals_sums).
    rewrite sum_nat_swap. apply sum_nat_ext. intros a Ha. rewrite <-used_is_held.
    + rewrite <-(sum_classes g_vendor (vendors_of alive)); [|done|].
      * apply sum_nat_ext. intros v _. unfold used_of, devices_of. rewrite !list_filter_filter. f_equal. apply list_filter_iff. tauto.
      * intros d [_ Hd]%list_elem_of_filter. by eapply vendors_cover.
    + apply list_elem_of_filter in Ha as [_ Ha]. apply elem_of_hash_values in Ha as [k Hk]. by rewrite (Hkeyed k a Hk).
Qed.
End metrics_facts.

(** A label's value is not escaped: a group whose name holds a quote and a line
    break writes samples of its own. *)
Definition forged_group : string := "g" +:+ dq1 +:+ "} 1" +:+ nl +:+ "mentat_is_head 1" +:+ nl +:+ "#".
Lemma group_forges_sample :
  "mentat_is_head 1" ∈ lines (@group_metrics in_key_order (state_new "10.0.0.1" "h" "10.0.0.1:6379" "b") forged_group).
Proof. apply (bool_decide_unpack _). by vm_compute. Qed.

(** *** The subscription *)

Lemma seq_before n : (n < u64_modulus)%N → u64_succ ((n + (u64_modulus - 1)) `mod` u64_modulus) = n.
Proof.
  intros Hn. unfold u64_succ, u64_add. rewrite N.Div0.add_mod_idemp_l.
  replace (n + (u64_modulus - 1) + 1)%N with (n + 1 * u64_modulus)%N by (unfold u64_modulus; lia).
  by rewrite N.Div0.mod_add, N.mod_small.
Qed.

Lemma events_subscribed `{HI : HashIter} version pr h addr rest sub s :
  all_chars plain addr = true → (N.of_nat (String.length addr) ≤ 16000)%N →
  http_handle version pr h true true ((Some <$> bytes_of (connect_request addr)) ++ rest) sub s =
    (Upgraded (switching SAMPLE_KEY)
       (snapshot_frame ((next_event_seq s + (u64_modulus - 1)) `mod` u64_modulus)%N (snapshot h s None)) sub,
     s <| event_subs ::= λ l, l ++ [sub] |>).
Proof. intros Ha Hl. unfold http_handle. by rewrite events_request_read. Qed.

(** C17: A router that opens a daemon's event stream keeps up with it: its request
    is answered with the handshake and a snapshot of the very state it is
    subscribed to. Whatever view of the daemon the router's last poll had
    stored, the snapshot replaces it, and every event the daemon emits from
    then on is taken in turn, so that the router's view is the snapshot with
    all the rows sent, at the daemon's own event number, and nothing falls
    between the two. Asked for: an address the request's head has room for, an
    open subscription, no event called [snapshot], and rows that land in the
    snapshot. *)
Theorem subscription_keeps_up `{HI : HashIter} version pr h (E : Env) addr rest (sub now : N) (s : State) (r : Shared) (polled : DaemonView)
    (cs : list Change) v :
  all_chars plain addr = true → (N.of_nat (String.length addr) ≤ 16000)%N → (next_event_seq s < u64_modulus)%N →
  sub ∉ event_subs s → NoDup (event_subs s) → sub_open E sub = true →
  (∀ kind patch why, (kind, patch, why) ∈ cs → kind ≠ "snapshot") →
  run_patches (snapshot h s None) (cs ≫= λ '(_, patch, _), patch) = Some v →
  daemons r !! addr = Some polled →
  ∃ seq first s',
    http_handle version pr h true true ((Some <$> bytes_of (connect_request addr)) ++ rest) sub s =
      (Upgraded (switching SAMPLE_KEY) first sub, s') ∧
    u64_succ seq = next_event_seq s ∧
    let '((r', last), applied) :=
      follow_all now addr (Some (node_id s)) (r, None)
        (Frame <$> first :: received sub (out (emit_all E cs (mkWorld s' [])).2)) in
    Forall (λ a, a = Yes) applied ∧ last = Some (Nat.iter (length cs) u64_succ seq) ∧
    ∃ view, daemons r' !! addr = Some view ∧ dv_status view = Some v.
Proof.
  intros Ha Hl Hseq Hsub Hnd Hopen Hk Hrun Hv. eexists _, _, _.
  split; [by apply events_subscribed|]. split; [by apply seq_before|].
  change (node_id s) with (node_id (st (mkWorld (s <| event_subs ::= λ l, l ++ [sub] |>) []))).
  refine (subscriber_keeps_up E sub now _ (mkWorld (s <| event_subs ::= λ l, l ++ [sub] |>) []) r addr cs
    (snapshot h s None) v _ _ Hopen _ eq_refl Hk Hrun (ex_intro _ polled Hv)).
  - cbn. set_solver.
  - cbn. apply list.NoDup_app. split_and!; [done| |by apply list.NoDup_singleton]. intros x Hx. set_solver.
  - cbn [st]. symmetry. by apply seq_before.
Qed.

(** *** Instances *)

Definition demo_http_state : State := (state_new "10.0.0.1" "h" "10.0.0.1:6379" "b") <| event_subs := [4%N] |>.
Definition demo_http_view : Value :=
  default Null (run_patches (snapshot (HI := in_key_order) (mkHost [] [] ∅ ∅ ∅) demo_http_state None)
    [patch_set ["clients"; "c"] (obj_of [("kind", Str "driver")]); patch_remove ["clients"; "c"]]).
Definition demo_http_changes : list Change :=
  [("client_connect", [patch_set ["clients"; "c"] (obj_of [("kind", Str "driver")])], "");
   ("client_gone", [patch_remove ["clients"; "c"]], "closed")].

(** The router polled before it subscribed, and a client has gone since. *)
Definition demo_polled : Shared :=
  store_poll 1500 demo_router "h:6380"
    (obj_of [("node_id", Str (node_id demo_http_state)); ("clients", obj_of [("gone", Null)])]).

Lemma subscription_keeps_up_witness : ∃ seq first s',
  http_handle (HI := in_key_order) "0.1.0" (λ _, "{}") (mkHost [] [] ∅ ∅ ∅) true true
    ((Some <$> bytes_of (connect_request "h:6380")) ++ [None]) 9 demo_http_state =
    (Upgraded (switching SAMPLE_KEY) first 9, s') ∧
  u64_succ seq = 1%N ∧
  let '((r', last), applied) :=
    follow_all 2000 "h:6380" (Some (node_id demo_http_state)) (demo_polled, None)
      (Frame <$> first :: received 9 (out (emit_all (HI := in_key_order) demo_stream_env demo_http_changes (mkWorld s' [])).2)) in
  Forall (λ a, a = Yes) applied ∧ last = Some (Nat.iter 2 u64_succ seq) ∧
  ∃ view, daemons r' !! "h:6380" = Some view ∧ dv_status view = Some demo_http_view.
Proof.
  apply (@subscription_keeps_up in_key_order "0.1.0" (λ _, "{}") (mkHost [] [] ∅ ∅ ∅) demo_stream_env "h:6380" [None] 9 2000
    demo_http_state demo_polled (default (view_empty true) (daemons demo_polled !! "h:6380")) demo_http_changes demo_http_view).
  - reflexivity.
  - done.
  - by vm_compute.
  - cbn. set_solver.
  - cbn. apply (bool_decide_unpack _). by vm_compute.
  - reflexivity.
  - intros kind patch why Hin. unfold demo_http_changes in Hin. intros ->.
    repeat (apply elem_of_cons in Hin as [Hin|Hin]; [by injection Hin|]). by apply not_elem_of_nil in Hin.
  - by vm_compute.
  - reflexivity.
Defined.

Lemma metrics_agree_witness :
  sum_nat ((λ v, (@vendor_totals in_key_order demo_state (@live_in_group in_key_order demo_state "g") v).1.1)
    <$> vendors_of (@live_in_group in_key_order demo_state "g")) = 2 ∧
  @gpus_used in_key_order demo_state "g" = 1%N.
Proof.
  destruct (@metrics_agree in_key_order demo_state "g" demo_agents_keyed) as [-> _]. split; by vm_compute.
Defined.
