(* ===== verification/Render.v ===== *)
(** * The terminal's status (rust/mentatd/src/status.rs, [render])

    A snapshot as the lines `mentatd status` and `ray status` print, and the
    pipeline by which an entrypoint reads the GPU line of the scoped form
    (GUIDE.md, and the tests of status.rs). *)

From S2P Require Import Prelude Text Json Proto Addr Pattern Island State Status Secret.
From Stdlib Require Import Floats.SpecFloat ZArith.

(** ** Numbers *)

(** A positive number times [k], to the nearest whole; the tie goes to the even
    one. *)
Definition scaled (k : N) (m : positive) (e : Z) : N :=
  if bool_decide (0 ≤ e)%Z then (N.pos m * 2 ^ Z.to_N e * k)%N
  else
    let d := (2 ^ Z.to_N (- e))%N in
    let q := ((N.pos m * k) / d)%N in
    let r := ((N.pos m * k) `mod` d)%N in
    match (2 * r ?= d)%N with Lt => q | Gt => (q + 1)%N | Eq => if N.odd q then (q + 1)%N else q end.
(** [format!("{:.1}", f)] *)
Definition fixed1 (f : f64) : string :=
  let signed (s : bool) t := if s then "-" +:+ t else t in
  match f with
  | S754_zero s => signed s "0.0"
  | S754_infinity s => signed s "inf"
  | S754_nan => "NaN"
  | S754_finite s m e => let t := scaled 10 m e in signed s (pretty (t / 10)%N +:+ "." +:+ pretty (t `mod` 10)%N)
  end.

(** [f as u64] *)
Definition f64_as_u64 (f : f64) : N :=
  match f with
  | S754_infinity false => (u64_modulus - 1)%N
  | S754_finite false m e => N.min (Z.to_N (Z.shiftl (Zpos m) e)) (u64_modulus - 1)
  | _ => 0%N
  end.

(** [&s[..n.min(s.len())]], which panics inside a character. *)
Definition str_to (n : nat) (s : string) : option string :=
  let n := Nat.min n (String.length s) in
  if at_boundary (String.substring n (String.length s - n) s) then Some (String.substring 0 n s) else None.

(** ** Lines *)

Definition nl : string := String newline EmptyString.
Definition cat (l : list string) : string := String.concat EmptyString l.
Definition str_at (k : string) (v : Value) : string := default "?" (as_str (index k v)).
Definition f64_at (k : string) (v : Value) : f64 := default f64_zero (as_f64 (index k v)).
Definition u64_at (k : string) (v : Value) : N := default 0%N (as_u64 (index k v)).
Definition bool_at (k : string) (v : Value) : bool := default false (as_bool (index k v)).
Definition len_at (k : string) (v : Value) : nat := length (items (index k v)).

Definition meta_cell (kv : string * Value) : string :=
  let v := default "" (as_str kv.2) in
  kv.1 +:+ "=" +:+
  (if str_empty v || negb (all_chars (λ a, negb (bool_decide (a = " "%char ∨ a = quote_char ∨ a = "="%char))) v)
   then debug_str v else v).
Definition meta_line (meta : Value) : option string :=
  m ← as_object meta;
  if nonempty m then Some ("    meta " +:+ join " " (meta_cell <$> m) +:+ nl) else None.

(** Who answers for an address: the last of the local daemon and its peers
    that lists it. *)
Definition mac_owner (data : Value) : gmap string string :=
  foldl (λ owners '(node_ip, macs),
      foldl (λ owners mac, <[mac := default "?" (as_str node_ip)]> owners) owners (omap (λ '(_, m), as_str m) (entries macs)))
    ∅ ((index "node_ip" data, index "addr_macs" data) ::
       ((λ '(_, p), (index "node_ip" p, index "addr_macs" p)) <$> entries (index "peers" data))).

Definition reach_cell (owners : gmap string string) (cell : string * Value) : string :=
  let '(remote, r) := cell in
  let rtt := pretty (u64_at "rtt_ms" r) in
  if negb (bool_at "ok" r) then remote +:+ "=fail"
  else if value_eqb (index "direct" r) (Bool false) then
    let mac := str_at "neighbour_mac" r in
    remote +:+ "=fwd(" +:+ default mac (owners !! mac) +:+ ")/" +:+ rtt +:+ "ms"
  else remote +:+ "=ok/" +:+ rtt +:+ "ms".
Definition reach_line (owners : gmap string string) (row : string * Value) : string :=
  "  reach from " +:+ row.1 +:+ ": " +:+ join " " (reach_cell owners <$> entries row.2) +:+ nl.

Section render.
Context (to_string : Value → string).

Definition peer_lines (data : Value) (peer : string * Value) : option string :=
  let '(pid, p) := peer in
  short ← str_to 8 pid;
  Some ("peer " +:+ short +:+ "... " +:+ str_at "node_ip" p +:+ " alive=" +:+ to_string (index "alive" p) +:+
        (if bool_decide (as_str (index "head_node_id" data) = Some pid) then " [head]" else "") +:+ nl +:+
        cat (reach_line (mac_owner data) <$> entries (index "probes" p))).

Definition member (isl : Value) (n : string) : string :=
  match as_str (index n (index "addrs" isl)) with Some a => a | None => default n (node_ip_of n) end.
Definition fabric_line (i : nat) (isl : Value) : string :=
  "fabric " +:+ pretty (N.of_nat i) +:+ ": " +:+ join " " (member isl <$> omap as_str (items (index "nodes" isl))) +:+ nl.

Definition agent_line (scoped : bool) (agent : string * Value) : string :=
  let '(id, a) := agent in
  let gpus := len_at "gpus" (index "machine" a) in
  let free := len_at "gpus_free" a in
  let vendors := sort_dedup (omap (λ g, as_str (index "vendor" g)) (items (index "gpus" (index "machine" a)))) in
  "  agent " +:+ id +:+ " node=" +:+ str_at "node_ip" a +:+ " container=" +:+ str_at "container" a +:+
  " gpus=" +:+ pretty (usize_sub gpus free) +:+ "/" +:+ pretty (N.of_nat gpus) +:+
  " vendor=" +:+ (if nonempty vendors then join "+" vendors else "?") +:+
  " alive=" +:+ (if bool_at "alive" a then "true" else "false") +:+
  (if bool_at "degraded" a then " degraded=true" else "") +:+ nl +:+
  (if scoped then "" else default "" (meta_line (index "meta" a))).

Definition pg_line (pg : string * Value) : string :=
  "  pg " +:+ pg.1 +:+ " bundles=" +:+ pretty (N.of_nat (len_at "bundles" pg.2)) +:+ " state=" +:+ str_at "state" pg.2 +:+ nl.

Definition actor_line (actor : string * Value) : option string :=
  let '(id, a) := actor in
  node ← str_to 6 (default "??????" (as_str (index "node_id" a)));
  Some ("  actor " +:+ str_at "name" a +:+ " [" +:+ id +:+ "] node=" +:+ node +:+ "... pid=" +:+
        pretty (u64_at "pid" a) +:+ " state=" +:+ str_at "state" a +:+ nl).

Definition group_lines (scoped : bool) (group : string * Value) : option string :=
  let '(name, g) := group in
  actors ← mapM actor_line (entries (index "actors" g));
  Some ("group " +:+ name +:+ ": gpus=" +:+ pretty (f64_as_u64 (f64_at "gpus_used" g)) +:+ "/" +:+
        pretty (f64_as_u64 (f64_at "gpus_total" g)) +:+ nl +:+
        cat (agent_line scoped <$> entries (index "agents" g)) +:+
        cat (pg_line <$> entries (index "placement_groups" g)) +:+ cat actors).

Definition gpu_line (used total : f64) : string :=
  "Resources: " +:+ fixed1 used +:+ "/" +:+ fixed1 total +:+ " GPU (" +:+ fixed1 used +:+ " reserved in placement groups)" +:+ nl.

(** None where a slice panics. *)
Definition render (data : Value) (scoped : bool) : option string :=
  let groups := entries (index "groups" data) in
  let sum k := foldl (λ acc '(_, g), f64_add acc (f64_at k g)) f64_zero groups in
  peers ← mapM (peer_lines data) (entries (index "peers" data));
  rows ← mapM (group_lines scoped) groups;
  Some ((if scoped then gpu_line (sum "gpus_used") (sum "gpus_total") else "") +:+
        "mentat daemon: " +:+ str_at "node_ip" data +:+ ":" +:+ pretty (u64_at "control_port" data) +:+
        " (" +:+ str_at "hostname" data +:+ ")" +:+
        (if value_eqb (index "head_node_id" data) (index "node_id" data) then " [head]" else "") +:+ nl +:+
        cat peers +:+ cat (imap fabric_line (items (index "islands" data))) +:+ cat rows).
End render.

(** ** The entrypoint's pipeline

    [grep -oE '[0-9.]+/[0-9.]+ GPU' | cut -d/ -f2 | cut -d. -f1], as the guide
    gives it. The class has neither the slash nor the space, so at a place there
    is one match or none, and it is the longest. *)

Definition in_class (a : ascii) : bool := is_digit a || bool_decide (a = "."%char).
Fixpoint span (p : ascii → bool) (s : string) : string * string :=
  match s with
  | String a s' => if p a then let '(l, r) := span p s' in (String a l, r) else (EmptyString, s)
  | EmptyString => (EmptyString, EmptyString)
  end.
(** The match at the front: the part behind the slash, and what follows. *)
Definition gpu_match (s : string) : option (string * string) :=
  let '(a, r) := span in_class s in
  if str_empty a then None
  else match r with
       | String "/" r =>
           let '(b, r) := span in_class r in
           if str_empty b then None else (λ r, (b, r)) <$> strip_prefix " GPU" r
       | _ => None
       end.
(** Every match of a line, from the left, the next behind the last. A step
    takes at least a character. *)
Fixpoint gpu_matches (fuel : nat) (s : string) : list string :=
  match fuel with
  | 0 => []
  | S fuel =>
      match gpu_match s with
      | Some (b, r) => b :: gpu_matches fuel r
      | None => match s with String _ s' => gpu_matches fuel s' | EmptyString => [] end
      end
  end.
Definition grep_gpus (text : string) : list string :=
  lines text ≫= λ l, gpu_matches (String.length l) l.
Definition cut_dot (s : string) : string := default "" (head (split_char "." s)).
Definition gpu_gate (text : string) : list string := cut_dot <$> grep_gpus text.

(** ** Whole numbers print as themselves *)

Lemma iter_xO p k : N.pos (Pos.iter xO p k) = (N.pos p * 2 ^ N.pos k)%N.
Proof.
  induction k as [|k IH] using Pos.peano_ind; [cbn; lia|]. rewrite Pos.iter_succ.
  change (N.pos (Pos.iter xO p k)~0) with (2 * N.pos (Pos.iter xO p k))%N. rewrite IH.
  change (N.pos (Pos.succ k)) with (N.succ (N.pos k)). rewrite N.pow_succ_r'. lia.
Qed.
Lemma digits_iter p k : digits2_pos (Pos.iter xO p k) = (digits2_pos p + k)%positive.
Proof.
  induction k as [|k IH] using Pos.peano_ind; [cbn; lia|]. rewrite Pos.iter_succ. cbn [digits2_pos]. rewrite IH. lia.
Qed.
Lemma digits_bound p : (N.pos p < 2 ^ 53)%N → (Zpos (digits2_pos p) ≤ 53)%Z.
Proof.
  intros Hp. pose proof (Pos.size_le p) as H. change (Pos.size p) with (digits2_pos p) in H.
  destruct (Z.le_gt_cases (Zpos (digits2_pos p)) 53) as [|Hgt]; [done|].
  assert (2 ^ 54 ≤ 2 ^ N.pos (digits2_pos p))%N as Hpow by (apply N.pow_le_mono_r; lia).
  assert (2 ^ N.pos (digits2_pos p) ≤ 2 * N.pos p)%N as Hle by exact H.
  change (2 ^ 54)%N with (2 * 2 ^ 53)%N in Hpow. lia.
Qed.

(** Every whole number of at most 53 bits is an [f64], in its canonical form. *)
Lemma f64_of_pos p : (N.pos p < 2 ^ 53)%N →
  ∃ m e, f64_of_N (N.pos p) = S754_finite false m e ∧ (e ≤ 0)%Z ∧ N.pos m = (N.pos p * 2 ^ Z.to_N (- e))%N.
Proof.
  intros Hp. pose proof (digits_bound p Hp) as Hd.
  assert (∀ m e, (Zpos (digits2_pos m) + e = Zpos (digits2_pos p))%Z → e = (Zpos (digits2_pos p) - 53)%Z →
    binary_round_aux 53 1024 false (Zpos m) e loc_Exact = S754_finite false m e) as Haux.
  { intros m e Hm He. unfold binary_round_aux, shr_fexp. cbn [Zdigits2 shr_record_of_loc].
    assert (fexp 53 1024 (Zpos (digits2_pos m) + e) - e = 0)%Z as Hf
      by (unfold fexp, emin; rewrite Hm, He; lia).
    rewrite Hf. cbn [shr shr_m loc_of_shr_record round_nearest_even Zdigits2 shr_record_of_loc].
    rewrite Hf. cbn [shr shr_m]. by rewrite (proj2 (Z.leb_le e (1024 - 53))) by lia. }
  unfold f64_of_N. cbn [Z.of_N binary_normalize]. unfold binary_round.
  assert (fexp 53 1024 (Zpos (digits2_pos p) + 0) = Zpos (digits2_pos p) - 53)%Z as -> by (unfold fexp, emin; lia).
  unfold shl_align. rewrite Z.sub_0_r. destruct (Zpos (digits2_pos p) - 53)%Z as [|d|d] eqn:He; [|lia|].
  - exists p, 0%Z. split; [|split; [lia|change (2 ^ Z.to_N (- 0))%N with 1%N; lia]]. apply Haux; lia.
  - exists (Pos.iter xO p d), (Zneg d). split; [|split; [lia|]].
    + apply Haux; [rewrite digits_iter|]; lia.
    + rewrite iter_xO. done.
Qed.

Lemma scaled_whole k p m e : (e ≤ 0)%Z → N.pos m = (N.pos p * 2 ^ Z.to_N (- e))%N → scaled k m e = (N.pos p * k)%N.
Proof.
  intros He Hm. unfold scaled. case_bool_decide as H0.
  - assert (e = 0%Z) as -> by lia. rewrite Hm. change (2 ^ Z.to_N (- 0))%N with 1%N. change (2 ^ Z.to_N 0)%N with 1%N. lia.
  - set (d := (2 ^ Z.to_N (- e))%N) in *. assert (d ≠ 0%N) by by apply N.pow_nonzero.
    rewrite Hm. replace (N.pos p * d * k)%N with (N.pos p * k * d)%N by lia.
    rewrite N.div_mul, N.Div0.mod_mul by done. rewrite N.mul_0_r. by destruct d.
Qed.
Lemma fixed1_whole n : (n < 2 ^ 53)%N → fixed1 (f64_of_N n) = pretty n +:+ ".0".
Proof.
  destruct n as [|p]; [done|]. intros Hp. destruct (f64_of_pos p Hp) as (m & e & -> & He & Hm).
  unfold fixed1. rewrite (scaled_whole 10 p m e He Hm), N.div_mul by done. by rewrite N.Div0.mod_mul.
Qed.
Lemma f64_zero_add n : (n < 2 ^ 53)%N → f64_add f64_zero (f64_of_N n) = f64_of_N n.
Proof. destruct n as [|p]; [done|]. intros Hp. by destruct (f64_of_pos p Hp) as (m & e & -> & _). Qed.

(** ** The gate *)

Lemma length_app_str s t : String.length (s +:+ t) = String.length s + String.length t.
Proof. induction s as [|a s IH]; [done|]. rewrite app_String. cbn. by rewrite IH. Qed.
Lemma span_app p w s : all_chars p w = true → (∀ a r, s = String a r → p a = false) → span p (w +:+ s) = (w, s).
Proof.
  intros Hw Hs. induction w as [|a w IH].
  - change ("" +:+ s) with s. destruct s as [|a s]; [done|]. cbn. by rewrite (Hs a s).
  - cbn [all_chars] in Hw. apply andb_true_iff in Hw as [Ha Hw]. rewrite app_String. cbn [span]. by rewrite Ha, IH.
Qed.

(** What the search of a string yields, whatever fuel it has above its length. *)
Definition finds (s : string) (found : list string) : Prop :=
  ∀ fuel, String.length s ≤ fuel → gpu_matches fuel s = found.
(** What cannot continue a number. *)
Definition ends_number (s : string) : Prop := ∀ a r, s = String a r → in_class a = false ∧ a ≠ "/"%char.

Lemma finds_nil : finds "" [].
Proof. intros fuel _. by destruct fuel. Qed.
Lemma gpu_match_other a s : in_class a = false → gpu_match (String a s) = None.
Proof. intros Ha. unfold gpu_match. cbn [span]. by rewrite Ha. Qed.
Lemma finds_skip pre s found : all_chars (λ a, negb (in_class a)) pre = true → finds s found → finds (pre +:+ s) found.
Proof.
  intros Hpre Hs. induction pre as [|a pre IH]; [done|]. cbn [all_chars] in Hpre. apply andb_true_iff in Hpre as [Ha Hpre].
  apply negb_true_iff in Ha. intros fuel Hf. rewrite app_String in Hf |- *. destruct fuel as [|fuel]; [cbn in Hf; lia|].
  cbn [gpu_matches]. rewrite gpu_match_other by done. apply IH; [done|cbn in Hf; lia].
Qed.
Lemma finds_number w s found : all_chars in_class w = true → ends_number s → finds s found → finds (w +:+ s) found.
Proof.
  intros Hw He Hs. induction w as [|a w IH]; [done|]. pose proof Hw as Hall. cbn [all_chars] in Hw. apply andb_true_iff in Hw as [Ha Hw].
  intros fuel Hf. destruct fuel as [|fuel]; [rewrite app_String in Hf; cbn in Hf; lia|]. cbn [gpu_matches].
  assert (gpu_match (String a w +:+ s) = None) as ->.
  { unfold gpu_match. rewrite (span_app _ _ _ Hall) by (intros b r Hb; by apply (He b r)). cbn [str_empty].
    destruct s as [|b s]; [done|]. destruct (He b s eq_refl) as [_ Hb]. by destruct b as [[] [] [] [] [] [] [] []]. }
  rewrite app_String in Hf |- *. apply IH; [done|cbn in Hf; lia].
Qed.
Lemma finds_match a b s found : all_chars in_class a = true → all_chars in_class b = true → a ≠ "" → b ≠ "" →
  finds s found → finds (a +:+ "/" +:+ b +:+ " GPU" +:+ s) (b :: found).
Proof.
  intros Ha Hb Hna Hnb Hs fuel Hf. rewrite !length_app_str in Hf. cbn in Hf. destruct fuel as [|fuel]; [lia|]. cbn [gpu_matches].
  assert (gpu_match (a +:+ "/" +:+ b +:+ " GPU" +:+ s) = Some (b, s)) as ->.
  { unfold gpu_match. rewrite (span_app _ a) by (done || by intros ? ? [= <- _]). destruct a; [done|]. cbn [str_empty].
    change ("/" +:+ b +:+ " GPU" +:+ s) with (String "/"%char (b +:+ " GPU" +:+ s)). cbv iota beta.
    rewrite (span_app _ b) by (done || by intros ? ? [= <- _]). destruct b; [done|]. cbn [str_empty]. by rewrite strip_prefix_app. }
  f_equal. apply Hs. lia.
Qed.

Lemma lines_cons l rest : lacks newline l = true → lacks carriage l = true → lines (l +:+ nl +:+ rest) = l :: lines rest.
Proof.
  intros Hn Hc. unfold lines. change (l +:+ nl +:+ rest) with (l +:+ String newline rest). rewrite split_char_app by done.
  assert (split_char newline rest ≠ []) as Hne.
  { destruct rest as [|a rest]; [done|]. cbn [split_char]. case_decide; [done|]. by destruct (split_char newline rest). }
  set (k := split_char newline rest) in *. assert (list.last (l :: k) = list.last k) as -> by by destruct k.
  assert (length (l :: k) - 1 = S (length k - 1)) as -> by (destruct k; [done|cbn; lia]).
  assert (strip_cr l = l) as Hl by (unfold strip_cr; by rewrite rsplit_once_None).
  case_bool_decide; cbn [take fmap list_fmap]; by rewrite Hl.
Qed.

Lemma fixed_class (n : N) : all_chars in_class (pretty n +:+ ".0") = true.
Proof.
  rewrite all_chars_app. rewrite (all_chars_impl is_digit); [done| |apply pretty_digits]. intros a. unfold in_class. by intros ->.
Qed.
Lemma fixed_nonempty (n : N) : pretty n +:+ ".0" ≠ "".
Proof. by destruct (pretty n). Qed.
Lemma class_lacks c s : in_class c = false → all_chars in_class s = true → lacks c s = true.
Proof. intros Hc. apply all_chars_impl. intros a Ha. apply negb_true_iff, bool_decide_eq_false. intros ->. congruence. Qed.

Lemma gate_cons l rest found : lacks newline l = true → lacks carriage l = true → finds l found →
  gpu_gate (l +:+ nl +:+ rest) = (cut_dot <$> found) ++ gpu_gate rest.
Proof. intros Hn Hc Hf. unfold gpu_gate, grep_gpus. rewrite lines_cons by done. cbn [mbind list_bind]. by rewrite Hf, fmap_app. Qed.

(** The pipeline reads the total off the GPU line, and once. *)
Lemma gate_reads_total used total rest : (used < 2 ^ 53)%N → (total < 2 ^ 53)%N →
  gpu_gate (gpu_line (f64_of_N used) (f64_of_N total) +:+ rest) = pretty total :: gpu_gate rest.
Proof.
  intros Hu Ht. unfold gpu_line. rewrite !fixed1_whole by done.
  pose proof (fixed_class used) as Cu. pose proof (fixed_class total) as Ct.
  pose proof (fixed_nonempty used) as Nu. pose proof (fixed_nonempty total) as Nt.
  set (u := pretty used +:+ ".0") in *. set (t := pretty total +:+ ".0") in *.
  assert (("Resources: " +:+ u +:+ "/" +:+ t +:+ " GPU (" +:+ u +:+ " reserved in placement groups)" +:+ nl) +:+ rest =
          ("Resources: " +:+ u +:+ "/" +:+ t +:+ " GPU" +:+ " (" +:+ u +:+ " reserved in placement groups)") +:+ nl +:+ rest) as ->
    by (rewrite !str_app_assoc; done).
  rewrite (gate_cons _ rest [t]).
  - cbn [fmap list_fmap app]. f_equal. unfold cut_dot, t. change (pretty total +:+ ".0") with (pretty total +:+ String "."%char "0").
    rewrite split_char_app; [done|]. eapply all_chars_impl; [|apply pretty_digits]. intros a Ha.
    apply negb_true_iff, bool_decide_eq_false. by intros ->.
  - rewrite !all_chars_app, (class_lacks _ u), (class_lacks _ t) by done. done.
  - rewrite !all_chars_app, (class_lacks _ u), (class_lacks _ t) by done. done.
  - apply finds_skip; [done|]. apply finds_match; try done. apply finds_skip; [done|]. apply finds_number; [done| |].
    + by intros ? ? [= <- _].
    + rewrite <-(str_app_nil_r " reserved in placement groups)"). apply finds_skip; [done|apply finds_nil].
Qed.

(** ** The status of a group *)

Definition ascii_text (s : string) : bool := all_chars (λ a, bool_decide (N_of_ascii a < 128)%N) s.

Lemma all_chars_substring p i n s : all_chars p s = true → all_chars p (String.substring i n s) = true.
Proof.
  revert i n. induction s as [|a s IH]; intros i n Hs; [by destruct i, n|].
  cbn [all_chars] in Hs. apply andb_true_iff in Hs as [Ha Hs]. destruct i as [|i]; cbn [String.substring].
  - destruct n as [|n]; [done|]. cbn [all_chars]. by rewrite Ha, IH.
  - by apply IH.
Qed.
Lemma str_to_ascii n s : ascii_text s = true → is_Some (str_to n s).
Proof.
  intros Hs. unfold str_to. set (t := String.substring (Nat.min n _) _ s).
  assert (ascii_text t = true) as Ht by by apply all_chars_substring.
  assert (at_boundary t = true) as ->; [|by eexists].
  destruct t as [|a t]; [done|]. cbn in Ht |- *. apply andb_true_iff in Ht as [Ha _]. apply bool_decide_eq_true in Ha.
  unfold is_continuation. rewrite bool_decide_eq_false_2; [done|lia].
Qed.

Lemma elem_of_obj_insert k v m x : x ∈ obj_insert k v m → x = (k, v) ∨ x ∈ m.
Proof.
  induction m as [|[k' v'] m IH]; cbn; [set_solver|]. repeat case_decide || case_match; set_solver.
Qed.
Lemma elem_of_obj_of l x : x ∈ entries (obj_of l) → x ∈ l.
Proof.
  change (entries (obj_of l)) with (foldl (λ m '(k, v), obj_insert k v m) [] l).
  assert (∀ m, x ∈ foldl (λ m '(k, v), obj_insert k v m) m l → x ∈ m ∨ x ∈ l) as H.
  { induction l as [|[k v] l IH]; intros m Hx; [by left|]. cbn [foldl] in Hx.
    apply IH in Hx as [[->|?]%elem_of_obj_insert|?]; set_solver. }
  intros Hx. apply H in Hx. set_solver.
Qed.
Section status.
Context `{HI : HashIter} (to_string : Value → string).

Lemma scoped_groups s g : snapshot_groups s (Some g) = [g].
Proof.
  unfold snapshot_groups. set (l := sort_dedup _). assert (NoDup l) as Hnd by apply sort_dedup_NoDup.
  assert (filter (λ x, x = g) l = [] ∨ filter (λ x, x = g) l = [g]) as [-> | ->]; [|done|done].
  clearbody l. induction Hnd as [|x l Hx Hnd IH]; [by left|]. rewrite filter_cons. case_decide as Hd; [|done].
  subst x. right. destruct IH as [-> | IH]; [done|]. exfalso. apply Hx.
  assert (g ∈ filter (λ x, x = g) l) as Hg by (rewrite IH; set_solver). by apply list_elem_of_filter in Hg as [_ Hg].
Qed.

(** The status a group's entrypoint reads always comes, and begins with the
    GPU line: what the guide's pipeline reads first off it is the number of
    devices of the group's live agents, and that line is read once; the used
    ones beside it are those a live group or actor holds. *)
Theorem status_gate h s g (total := N.of_nat (gpus_total s g)) :
  agents_keyed s → (total < 2 ^ 53)%N →
  (∀ k p, peers s !! k = Some p → ascii_text (pe_node_id p) = true) →
  (∀ k a, actors s !! k = Some a → ascii_text (a_node_id a) = true) →
  ∃ rest, render to_string (snapshot h s (Some g)) true = Some (gpu_line (f64_of_N (gpus_used s g)) (f64_of_N total) +:+ rest) ∧
          gpu_gate (gpu_line (f64_of_N (gpus_used s g)) (f64_of_N total) +:+ rest) = pretty total :: gpu_gate rest.
Proof.
  intros Hkeyed Htotal Hpeers Hactors.
  assert (gpus_used s g < 2 ^ 53)%N as Hused.
  { destruct (gpus_used_exact s g Hkeyed) as [Hle _]. unfold gpus_used, usize_sub. rewrite bool_decide_eq_true_2 by done. subst total. lia. }
  assert (entries (index "groups" (snapshot h s (Some g))) = [(g, group_json s g)]) as Hgroups.
  { change (index "groups" (snapshot h s (Some g))) with (obj_of ((λ g, (g, group_json s g)) <$> snapshot_groups s (Some g))).
    by rewrite scoped_groups. }
  unfold render. rewrite Hgroups.
  change (index "peers" (snapshot h s (Some g))) with (obj_of ((λ p, (pe_node_id p, peer_row p)) <$> hash_values (peers s))).
  destruct (mapM_total (peer_lines to_string (snapshot h s (Some g))) (entries (obj_of ((λ p, (pe_node_id p, peer_row p)) <$> hash_values (peers s)))))
    as [ps Hps].
  { intros x (p & -> & Hp)%elem_of_obj_of%list_elem_of_fmap. apply elem_of_hash_values in Hp as [k Hk].
    unfold peer_lines. destruct (str_to_ascii 8 (pe_node_id p) (Hpeers k p Hk)) as [t ->]. by eexists. }
  destruct (mapM_total (group_lines true) [(g, group_json s g)]) as [rows Hrows].
  { intros x ->%list_elem_of_singleton. unfold group_lines.
    change (index "actors" (group_json s g)) with (obj_of ((λ a, (a_id a, actor_row a)) <$> filter (λ a, a_group a = g) (hash_values (actors s)))).
    edestruct (mapM_total actor_line) as [l ->]; [|by eexists].
    intros x (a & -> & [_ Ha]%list_elem_of_filter)%elem_of_obj_of%list_elem_of_fmap. apply elem_of_hash_values in Ha as [k Hk].
    unfold actor_line. assert (as_str (index "node_id" (actor_row a)) = Some (a_node_id a)) as ->
      by (unfold actor_row; by destruct (a_state a)).
    destruct (str_to_ascii 6 (a_node_id a) (Hactors k a Hk)) as [t Ht].
    assert (str_to 6 (default "??????" (Some (a_node_id a))) = Some t) as -> by exact Ht. by eexists. }
  rewrite Hps, Hrows. cbn [mbind option_bind foldl].
  change (f64_at "gpus_used" (group_json s g)) with (f64_of_N (gpus_used s g)).
  change (f64_at "gpus_total" (group_json s g)) with (f64_of_N total).
  rewrite !f64_zero_add by done. eexists. split; [reflexivity|]. by apply gate_reads_total.
Qed.
End status.

(** The names a snapshot carries are free text, of the scoped lines too: an
    actor that is called so adds a match of its own. *)
Definition forged_actor : Value :=
  obj_of [("groups", obj_of [("g", obj_of [("gpus_total", JN 2); ("gpus_used", JN 1);
    ("actors", obj_of [("g:1", obj_of [("name", Str "tp 1/1 GPU"); ("node_id", Str "aabbcc"); ("state", Str "running")])])])])].
Lemma actor_name_matches : gpu_gate <$> render (λ _, "") forged_actor true = Some ["2"; "1"].
Proof. by vm_compute. Qed.

(** *** The listings of the tests *)

Definition demo_forwarded : Value :=
  obj_of [("control_port", JN 6379); ("hostname", Str "y"); ("node_id", Str "a"); ("head_node_id", Str "a");
    ("peers", obj_of [
      ("bbbbbbbbbb", obj_of [("node_ip", Str "10.0.0.2"); ("alive", Bool true); ("addr_macs", obj_of [("10.0.0.2", Str "aa:00:00:00:00:02")]);
        ("probes", obj_of [("10.0.0.1", obj_of [("10.0.0.2", obj_of [("ok", Bool true); ("rtt_ms", JN 0); ("direct", Bool true)]);
                                                ("10.0.0.6", obj_of [("ok", Bool false); ("direct", Null)])])])]);
      ("cccccccccc", obj_of [("node_ip", Str "10.0.0.4"); ("alive", Bool true); ("addr_macs", obj_of [("10.0.0.4", Str "aa:00:00:00:00:04")]);
        ("probes", obj_of [("10.0.0.1", obj_of [("10.0.0.4", obj_of [("ok", Bool true); ("rtt_ms", JN 1); ("direct", Bool false);
                                                ("neighbour_mac", Str "aa:00:00:00:00:02")])])])])])].
Example forwarded_pair : lines <$> render (λ _, "true") demo_forwarded false =
  Some ["mentat daemon: ?:6379 (y) [head]"; "peer bbbbbbbb... 10.0.0.2 alive=true";
        "  reach from 10.0.0.1: 10.0.0.2=ok/0ms 10.0.0.6=fail"; "peer cccccccc... 10.0.0.4 alive=true";
        "  reach from 10.0.0.1: 10.0.0.4=fwd(10.0.0.2)/1ms"].
Proof. by vm_compute. Qed.

Lemma status_gate_witness : ∃ rest,
  render (λ _, "true") (@snapshot in_key_order (mkHost [] [] ∅ ∅ ∅) demo_state (Some "g")) true =
    Some (gpu_line (f64_of_N (@gpus_used in_key_order demo_state "g")) (f64_of_N 2) +:+ rest) ∧
  gpu_gate (gpu_line (f64_of_N (@gpus_used in_key_order demo_state "g")) (f64_of_N 2) +:+ rest) = "2" :: gpu_gate rest.
Proof.
  apply (@status_gate in_key_order (λ _, "true") (mkHost [] [] ∅ ∅ ∅) demo_state "g").
  - apply demo_agents_keyed.
  - by vm_compute.
  - intros k p Hp. change (peers demo_state) with (∅ : gmap string PeerInfo) in Hp. by rewrite lookup_empty in Hp.
  - intros k a Ha. change (actors demo_state) with (∅ : gmap string ActorInfo) in Ha. by rewrite lookup_empty in Ha.
Defined.
