(* ===== verification/Cli.v ===== *)
(** * The command line (rust/mentatd/src/main.rs, config.rs, machine.rs,
      rust/common/src/logfmt.rs)

    What the programs read from their environment, what each subcommand decides
    to do with it, and the one-shot conversation of `mentatd status` and
    `mentatd stop` with a daemon. A process's environment is a function, and
    what it starts, prints or exits with is its outcome. *)

From S2P Require Import Prelude Text Json Proto Addr Pattern State Status Secret Render.

(** ** The log's lines *)

Definition log_field (kv : string * string) : string :=
  let '(k, v) := kv in
  " " +:+ k +:+ "=" +:+
  (if negb (all_chars (λ a, negb (bool_decide (a = " "%char ∨ a = quote_char))) v) then debug_str v else v).
(** [{:03}] *)
Definition three_digits (n : N) : string :=
  let s := pretty n in String.concat EmptyString (replicate (3 - String.length s) "0") +:+ s.
Definition log_line (program : string) (ms : N) (event : string) (fields : list (string * string)) : string :=
  program +:+ " ts=" +:+ pretty (ms / 1000)%N +:+ "." +:+ three_digits (ms `mod` 1000)%N +:+ " event=" +:+ event +:+
  String.concat EmptyString (log_field <$> fields) +:+ nl.

Definition nonblank (s : string) : bool := negb (str_empty (trim s)).
Definition keep_if (p : string → bool) (s : option string) : option string := s ≫= λ s, if p s then Some s else None.
Definition or_else {A} (a b : option A) : option A := match a with Some _ => a | None => b end.

Section environment.
(** [std::env::var]: none where it is unset or not text. *)
Context (env : string → option string).

(** ** The knobs *)

(** The value, and what is logged. *)
Definition env_ms (name : string) (def : N) : N * list (string * list (string * string)) :=
  match env name with
  | Some v =>
      if nonblank v then
        match parse_u64 (trim v) with
        | Some n => (n, [])
        | None => (def, [("bad_env_ms", [("var", name); ("value", v); ("default", pretty def)])])
        end
      else (def, [])
  | None => (def, [])
  end.
Definition env_on (name : string) (def : bool) : bool * list (string * list (string * string)) :=
  match env name with
  | Some v =>
      if nonblank v then
        let w := to_ascii_lowercase (trim v) in
        if bool_decide (w ∈ ["off"; "no"; "false"; "0"]) then (false, [])
        else if bool_decide (w ∈ ["on"; "yes"; "true"; "1"]) then (true, [])
        else (def, [("bad_env_flag", [("var", name); ("value", v); ("default", if def then "true" else "false")])])
      else (def, [])
  | None => (def, [])
  end.

(** [Cfg] of the source: the daemon's knobs are State's [Cfg]. *)
Record Knobs := mkKnobs {
  k_cfg : Cfg; probe_interval_ms : N; probe_timeout_ms : N; host_connect_timeout_ms : N;
  agent_ping_interval_ms : N; peer_status_interval_ms : N; tcp_dead_after_ms : N }.
Definition cfg : Knobs :=
  let ms name def := (env_ms name def).1 in
  mkKnobs
    (mkCfg (ms "MENTAT_PG_PENDING_TIMEOUT_MS" 600000%N) (ms "MENTAT_AGENT_DEGRADED_AFTER_MS" 30000%N)
      (ms "MENTAT_AGENT_DEAD_AFTER_MS" 60000%N) (ms "MENTAT_HISTORY_KEEP_MS" 600000%N)
      (ms "MENTAT_PEER_STALE_AFTER_MS" 30000%N) (ms "MENTAT_PEER_DEAD_AFTER_MS" 60000%N)
      (ms "MENTAT_ELECTION_HOLD_DOWN_MS" 5000%N) (ms "MENTAT_ELECTION_BOOT_WAIT_MS" 20000%N)
      (env_on "MENTAT_ISLAND_PLACEMENT" true).1 (ms "MENTAT_ISLAND_HOLD_DOWN_MS" 5000%N)
      (ms "MENTAT_SLOW_CALL_WARN_MS" 15000%N) (ms "MENTAT_SESSION_REAP_GRACE_MS" 0%N))
    (ms "MENTAT_PROBE_INTERVAL_MS" 15000%N) (ms "MENTAT_PROBE_TIMEOUT_MS" 2000%N)
    (ms "MENTAT_HOST_CONNECT_TIMEOUT_MS" 60000%N) (ms "MENTAT_AGENT_PING_INTERVAL_MS" 2000%N)
    (ms "MENTAT_PEER_STATUS_INTERVAL_MS" 2000%N) (ms "MENTAT_TCP_DEAD_AFTER_MS" 75000%N).

(** ** Subcommands that are programs of their own *)

Definition BUILTIN : list string := ["daemon"; "start"; "status"; "stop"; "internal-agent"; "help"].
(** [exe_dir]: the directory of this binary, where it is known. *)
Definition find_sibling (is_file : string → bool) (exe_dir : option string) (file : string) : option string :=
  let dirs := match exe_dir with Some d => [d] | None => [] end ++ split_char ":" (default "" (env "PATH")) in
  find_first is_file ((λ d, d +:+ "/" +:+ file) <$> dirs).
(** The program and its arguments, or none to go on with this one. *)
Definition exec_external_subcommand (is_file : string → bool) (exe_dir : option string) (args : list string)
    : option (string * list string) :=
  match args with
  | [] => None
  | name :: args =>
      if starts_with "-" name || bool_decide (name ∈ BUILTIN) then None
      else (λ path, (path, args)) <$> find_sibling is_file exe_dir ("mentatd-" +:+ name)
  end.

(** ** The daemon's identity and peers *)

Definition node_ip_from (var route : option string) : string + string :=
  match keep_if nonblank var with
  | Some ip => inl (trim ip)
  | None =>
      match route with
      | Some ip => if is_loopback ip then inr (" (it leaves from " +:+ ip +:+ ")") else inl ip
      | None => inr ""
      end
  end.
(** What the daemon is run with, or why it is not. *)
Definition daemon_opts (flag route : option string) (peers : list string) : (string * list string) + string :=
  let ip := match flag with
            | Some ip => inl ip
            | None => match node_ip_from (env "MENTAT_NODE_IP") route with
                      | inl ip => inl ip
                      | inr found => inr ("no default route to take this node's address from" +:+ found)
                      end
            end in
  match ip with
  | inr why => inr why
  | inl ip =>
      let peers := if nonempty peers then peers
                   else filter (λ s, str_empty s = false) (trim <$> split_char "," (default "" (env "MENTAT_PEERS"))) in
      if nonblank ip then inl (ip, peers) else inr "node ip is empty"
  end.

(** ** Starting an agent *)

Definition group_env : option string :=
  or_else (keep_if (λ s, negb (str_empty s)) (env "MENTAT_GROUP")) (keep_if (λ s, negb (str_empty s)) (env "SERVICE_NAME")).
Definition group_from_env : string := default "default" group_env.

Inductive Started := Runs (daemon_addr group : string) | Detaches (daemon_addr group : string) | Refuses (ray : string).
Definition start (head block : bool) (address : option string) : Started :=
  let told := or_else (keep_if nonblank (env "MENTAT_DAEMON")) (keep_if nonblank address) in
  match (if head && negb (bool_decide (is_Some told)) then keep_if nonblank (env "RAY_ADDRESS") else None) with
  | Some ray => Refuses ray
  | None =>
      let daemon_addr := default "127.0.0.1:6379" told in
      if block then Runs daemon_addr group_from_env else Detaches daemon_addr group_from_env
  end.

(** ** Asking a daemon *)

(** [head_json]: the document at /tmp/mentat/head.json, where it parses. *)
Definition resolve_address (head_json : option Value) (flag : option string) : string :=
  match keep_if (λ s, negb (str_empty s)) flag with
  | Some a => a
  | None =>
      match keep_if (λ s, negb (str_empty s)) (env "RAY_ADDRESS") with
      | Some a => a
      | None => default "127.0.0.1:6379" (head_json ≫= λ v, as_str (index "address" v))
      end
  end.

Section request.
Import Framing.
Context (from_slice : bytes → option Frame) (value_from_slice : bytes → option Value) (to_string : Value → string).
Context (client_id : string).

Definition hello : Frame :=
  frame_new 1 (Msg.Hello Version.PROTO client_id group_from_env false "cli" "").

(** The frames sent, and the reply with its payload: [writes] says whether each
    write goes through. *)
Definition cli_request (writes : option IoError * option IoError) (msg : Msg.t) (reads : list ReadEvent)
    : list Frame * Result (Msg.t * bytes) IoError :=
  match writes.1 with
  | Some e => ([], Err e)
  | None =>
      match read_frame from_slice value_from_slice reads with
      | Err e => ([hello], Err e)
      | Ok None => ([hello], Err UnexpectedEof)
      | Ok (Some (h, _, reads)) =>
          match fr_msg h with
          | Msg.Err error _ _ _ => ([hello], Err (Other error))
          | _ =>
              match writes.2 with
              | Some e => ([hello], Err e)
              | None =>
                  let sent := [hello; frame_new 2 msg] in
                  match read_frame from_slice value_from_slice reads with
                  | Err e => (sent, Err e)
                  | Ok None => (sent, Err UnexpectedEof)
                  | Ok (Some (resp, payload, _)) =>
                      match fr_msg resp with
                      | Msg.Err error _ _ _ => (sent, Err (Other error))
                      | m => (sent, Ok (m, payload))
                      end
                  end
              end
          end
      end
  end.

Inductive CliOut := Prints (text : string) | Unexpected (m : Msg.t) | Fails (e : IoError) | Panics.

Definition status_scope (group : option string) : option string := or_else group group_env.
Definition status_command (writes : option IoError * option IoError) (group : option string) (json : bool)
    (reads : list ReadEvent) : CliOut :=
  let scope := status_scope group in
  match (cli_request writes (Msg.Status scope) reads).2 with
  | Ok (Msg.StatusOk data, _) =>
      if json then Prints (to_string data +:+ nl)
      else match render to_string data (bool_decide (is_Some scope)) with Some t => Prints t | None => Panics end
  | Ok (m, _) => Unexpected m
  | Err e => Fails e
  end.
Definition stop_command (writes : option IoError * option IoError) (group : option string) (all : bool)
    (reads : list ReadEvent) : CliOut :=
  match (cli_request writes (Msg.ActorStop (default "" group) all) reads).2 with
  | Ok _ => Prints ("stop sent" +:+ nl)
  | Err e => Fails e
  end.
End request.

(** ** The machine's inventory *)

(** What a probe's run gives: its exit, its output and its errors. *)
Record ProbeRun := mkProbeRun { pr_success : bool; pr_stdout : string; pr_stderr : string }.
Definition detect_machine (find : string → option string) (run : string → option ProbeRun) (parse : string → option Machine)
    : Machine + string :=
  let read raw from := match parse (trim raw) with Some m => inl m | None => inr (from +:+ " is not a machine") end in
  match keep_if nonblank (env "MENTAT_MACHINE") with
  | Some raw => read raw "MENTAT_MACHINE"
  | None =>
      match or_else (keep_if (λ s, negb (str_empty s)) (env "MENTAT_MACHINE_PROBE")) (find "mentatd-probe-machine") with
      | None => inr "no mentatd-probe-machine beside this binary or on PATH"
      | Some probe =>
          match run probe with
          | None => inr (probe +:+ " did not run")
          | Some p => if pr_success p then read (pr_stdout p) probe else inr (probe +:+ " exited: " +:+ trim (pr_stderr p))
          end
      end
  end.
End environment.

(** ** Theorems *)

(** With nothing set, every knob has its default, and nothing is logged for
    it. *)
Lemma cfg_unset : k_cfg (cfg (λ _, None)) = cfg_default.
Proof. reflexivity. Qed.

Lemma trim_start_skip l s : all_chars is_space l = true → trim_start (l +:+ s) = trim_start s.
Proof. induction l as [|a l IH]; [done|]. cbn [all_chars]. intros [Ha Hl]%andb_true_iff. rewrite app_String. cbn. by rewrite Ha, IH. Qed.
Lemma all_chars_rev p s : all_chars p s = true → all_chars p (String.rev s) = true.
Proof.
  induction s as [|a s IH]; [done|]. cbn [all_chars]. intros [Ha Hs]%andb_true_iff. rewrite rev_String, all_chars_app, IH by done.
  cbn. by rewrite Ha.
Qed.
Lemma trim_padded l s r : all_chars is_space l = true → all_chars is_space r = true → tight s → s ≠ "" →
  trim (l +:+ s +:+ r) = s.
Proof.
  intros Hl Hr Hs Hne. unfold trim. rewrite trim_start_skip by done.
  assert (trim_start (s +:+ r) = s +:+ r) as ->.
  { destruct s as [|a s]; [done|]. rewrite app_String. cbn. by rewrite (proj1 Hs a s eq_refl). }
  rewrite string_rev_app, trim_start_skip by by apply all_chars_rev. rewrite trim_start_tight; [apply rev_rev|].
  intros a t Ht. apply (proj2 Hs a (String.rev t)). rewrite <-(rev_rev s), Ht. by rewrite rev_String.
Qed.

(** A number an operator writes is the number the knob has, spaces around it
    apart; anything else leaves the default and says so. *)
Lemma env_ms_reads env name def n l r : (n < u64_modulus)%N → all_chars is_space l = true → all_chars is_space r = true →
  env name = Some (l +:+ pretty n +:+ r) → env_ms env name def = (n, []).
Proof.
  intros Hn Hl Hr Henv. unfold env_ms. rewrite Henv. unfold nonblank.
  assert (trim (l +:+ pretty n +:+ r) = pretty n) as ->.
  { apply trim_padded; [done..| |apply pretty_nonempty]. apply no_space_tight. unfold no_space. eapply all_chars_impl; [|apply pretty_digits].
    intros a. by destruct a as [[] [] [] [] [] [] [] []]. }
  rewrite parse_u64_pretty by done. assert (str_empty (pretty n) = false) as ->; [|done].
  pose proof (pretty_nonempty n). unfold str_empty. by apply bool_decide_eq_false.
Qed.
Lemma env_ms_default env name def : (∀ v, env name = Some v → parse_u64 (trim v) = None) → (env_ms env name def).1 = def.
Proof.
  intros H. unfold env_ms. destruct (env name) as [v|]; [|done]. rewrite (H v eq_refl). by destruct (nonblank v).
Qed.

(** An agent that runs was told its daemon, by MENTAT_DAEMON before the flag, or
    is the local daemon's; and a head role that names no daemon does not run
    where RAY_ADDRESS names one for its driver. *)
Lemma start_spec env head block address :
  match start env head block address with
  | Refuses ray => head = true ∧ keep_if nonblank (env "MENTAT_DAEMON") = None ∧ keep_if nonblank address = None ∧
                   env "RAY_ADDRESS" = Some ray ∧ nonblank ray = true
  | Runs d g | Detaches d g =>
      g = group_from_env env ∧
      ((keep_if nonblank (env "MENTAT_DAEMON") = Some d) ∨
       (keep_if nonblank (env "MENTAT_DAEMON") = None ∧ keep_if nonblank address = Some d) ∨
       (d = "127.0.0.1:6379" ∧ keep_if nonblank (env "MENTAT_DAEMON") = None ∧ keep_if nonblank address = None ∧
        (head = true → keep_if nonblank (env "RAY_ADDRESS") = None)))
  end.
Proof.
  unfold start. destruct (keep_if nonblank (env "MENTAT_DAEMON")) as [d|]; cbn [or_else].
  { rewrite bool_decide_eq_true_2 by by eexists. cbn [negb]. rewrite andb_false_r. destruct block; cbn; auto. }
  destruct (keep_if nonblank address) as [d|].
  { rewrite bool_decide_eq_true_2 by by eexists. cbn [negb]. rewrite andb_false_r. destruct block; cbn; auto. }
  rewrite bool_decide_eq_false_2 by by intros [? ?]. cbn [negb]. rewrite andb_true_r.
  destruct head; [|destruct block; cbn; naive_solver].
  destruct (keep_if nonblank (env "RAY_ADDRESS")) as [ray|] eqn:Hray; [|destruct block; cbn; naive_solver].
  unfold keep_if in Hray. destruct (env "RAY_ADDRESS") as [r|]; [|done]. cbn in Hray.
  destruct (nonblank r) eqn:Hr; [|done]. by injection Hray as ->.
Qed.

Section asking.
Import Framing.
Context `{HI : HashIter} (env : string → option string) (to_vec : Frame → bytes) (from_slice : bytes → option Frame)
  (value_from_slice : bytes → option Value) (to_string : Value → string) (client_id : string).
Abbreviation ask := (cli_request env from_slice value_from_slice client_id).
Abbreviation sound := (λ '(f, p), fits to_vec f p ∧ Msg.is_unknown (fr_msg f) = false ∧ from_slice (to_vec f) = Some f).

(** A conversation a daemon answers: its two frames are read however they are
    cut, and a refusal of either ends it. *)
Lemma cli_request_answered msg (hf rf : Frame) hp rp rest reads :
  sound (hf, hp) → sound (rf, rp) → Forall healthy reads →
  delivered reads = write_frame to_vec hf hp ++ write_frame to_vec rf rp ++ rest →
  ask (None, None) msg reads =
    match fr_msg hf, fr_msg rf with
    | Msg.Err error _ _ _, _ => ([hello env client_id], Err (Other error))
    | _, Msg.Err error _ _ _ => ([hello env client_id; frame_new 2 msg], Err (Other error))
    | _, m => ([hello env client_id; frame_new 2 msg], Ok (m, rp))
    end.
Proof.
  intros (Hf1 & Hu1 & He1) (Hf2 & Hu2 & He2) Hev Hd. unfold cli_request. cbn [fst snd].
  destruct (read_write_frame to_vec from_slice value_from_slice hf hp _ reads Hf1 Hu1 He1 Hev Hd) as (reads' & -> & Hev' & Hd').
  destruct (read_write_frame to_vec from_slice value_from_slice rf rp _ reads' Hf2 Hu2 He2 Hev' Hd') as (reads'' & -> & _ & _).
  by destruct (fr_msg hf), (fr_msg rf).
Qed.

(** A daemon that hangs up before it answers is an error, not an answer. *)
Lemma cli_request_hung_up msg reads : Forall healthy reads → delivered reads = [] →
  (ask (None, None) msg reads).2 = Err UnexpectedEof.
Proof. intros Hev Hd. unfold cli_request. cbn [fst]. by rewrite read_ended. Qed.

(** C32: What an entrypoint reads off `ray status`: the daemon's answer is printed
    whole, and its first line is the GPU line, so that the guide's pipeline
    reads first the number of devices of the group's live agents, the number its
    gate waits for, however the connection cuts the answer and whatever the
    daemon knows besides. *)
Theorem ray_status_gate h s g group (hf : Frame) hp rp rest reads (total := N.of_nat (gpus_total s g)) :
  status_scope env group = Some g →
  agents_keyed s → (total < 2 ^ 53)%N →
  (∀ k p, peers s !! k = Some p → ascii_text (pe_node_id p) = true) →
  (∀ k a, actors s !! k = Some a → ascii_text (a_node_id a) = true) →
  sound (hf, hp) → (∀ error code head proto, fr_msg hf ≠ Msg.Err error code head proto) →
  sound (frame_new 2 (Msg.StatusOk (snapshot h s (Some g))), rp) → Forall healthy reads →
  delivered reads = write_frame to_vec hf hp ++ write_frame to_vec (frame_new 2 (Msg.StatusOk (snapshot h s (Some g)))) rp ++ rest →
  ∃ more, status_command env from_slice value_from_slice to_string client_id (None, None) group false reads =
            Prints (gpu_line (f64_of_N (gpus_used s g)) (f64_of_N total) +:+ more) ∧
          gpu_gate (gpu_line (f64_of_N (gpus_used s g)) (f64_of_N total) +:+ more) = pretty total :: gpu_gate more.
Proof.
  intros Hscope Hkeyed Htotal Hpeers Hactors Hh Hno Hr Hev Hd.
  destruct (status_gate to_string h s g Hkeyed Htotal Hpeers Hactors) as (more & Hrender & Hgate).
  exists more. split; [|exact Hgate]. unfold status_command. rewrite Hscope.
  rewrite (cli_request_answered (Msg.Status (Some g)) hf _ hp rp rest reads Hh Hr Hev Hd). cbn [fr_msg frame_new].
  destruct (fr_msg hf) eqn:Hm; cbn [snd]; try (by rewrite bool_decide_eq_true_2, Hrender by by eexists).
  by edestruct Hno.
Qed.
End asking.

(** ** Instances *)

Definition demo_group_env (name : string) : option string := if decide (name = "MENTAT_GROUP") then Some "g" else None.
Definition demo_hello_ok : Frame := frame_new 1 (Msg.HelloOk "0.99" "n1" "10.0.0.1" "10.0.0.1:6379" "n1").
Definition demo_status_ok : Frame :=
  frame_new 2 (Msg.StatusOk (@snapshot in_key_order (mkHost [] [] ∅ ∅ ∅) demo_state (Some "g"))).
Definition demo_to_vec (f : Frame) : bytes := match fr_msg f with Msg.HelloOk _ _ _ _ _ => [x01] | _ => [x02] end.
Definition demo_from_slice (b : bytes) : option Frame :=
  if decide (b = [x01]) then Some demo_hello_ok else if decide (b = [x02]) then Some demo_status_ok else None.
Definition demo_reads : list Framing.ReadEvent :=
  let w := Framing.write_frame demo_to_vec demo_hello_ok [] ++ Framing.write_frame demo_to_vec demo_status_ok [] ++ [x41] in
  [Framing.Data (take 3 w); Framing.Interrupted; Framing.Data (take 8 (drop 3 w)); Framing.Data (drop 11 w)].

Lemma ray_status_gate_witness : ∃ more,
  status_command demo_group_env demo_from_slice (λ _, None) (λ _, "true") "c1" (None, None) None false demo_reads =
    Prints (gpu_line (f64_of_N (@gpus_used in_key_order demo_state "g")) (f64_of_N 2) +:+ more) ∧
  gpu_gate (gpu_line (f64_of_N (@gpus_used in_key_order demo_state "g")) (f64_of_N 2) +:+ more) = "2" :: gpu_gate more.
Proof.
  apply (@ray_status_gate in_key_order demo_group_env demo_to_vec demo_from_slice (λ _, None) (λ _, "true") "c1"
    (mkHost [] [] ∅ ∅ ∅) demo_state "g" None demo_hello_ok [] [] [x41] demo_reads).
  - reflexivity.
  - apply demo_agents_keyed.
  - by vm_compute.
  - intros k p Hp. change (peers demo_state) with (∅ : gmap string PeerInfo) in Hp. by rewrite lookup_empty in Hp.
  - intros k a Ha. change (actors demo_state) with (∅ : gmap string ActorInfo) in Ha. by rewrite lookup_empty in Ha.
  - split; [split; by vm_compute|]. split; reflexivity.
  - discriminate.
  - split; [split; by vm_compute|]. split; reflexivity.
  - unfold demo_reads. repeat constructor; vm_compute; exact I.
  - by vm_compute.
Defined.

(** A probe that fails stops the agent; so does an inventory that is none. *)
Example probe_failed :
  detect_machine (λ _, None) (λ _, Some "/opt/probe") (λ _, Some (mkProbeRun false "" (" no driver" +:+ nl))) (λ _, None)
  = inr "/opt/probe exited: no driver".
Proof. reflexivity. Qed.
Example log_quoted : log_line "mentat" 12007 "bad_env_ms" [("var", "X"); ("value", "1 s")] =
  "mentat ts=12.007 event=bad_env_ms var=X value=" +:+ String quote_char ("1 s" +:+ String quote_char nl).
Proof. reflexivity. Qed.
Example head_role_refused :
  start (λ n, if decide (n = "RAY_ADDRESS") then Some "10.0.0.1:6379" else None) true true None = Refuses "10.0.0.1:6379" ∧
  start (λ n, if decide (n = "RAY_ADDRESS") then Some "10.0.0.1:6379" else None) false true None = Runs "127.0.0.1:6379" "default".
Proof. split; reflexivity. Qed.
