(* ===== verification/Prober.v ===== *)
(** * The endpoint prober (rust/mentatd-serve/src/main.rs)

    One round: each announced group's candidate addresses are tried in an order
    that prefers the one in use, the answer becomes the group's probe result,
    and the serving clocks turn. The network is a function from a URL to the
    answer it gives this round. *)

From S2P Require Import Prelude Json Stable Net Groups.

(** [str::trim_end_matches('/')] *)
Fixpoint trim_slashes (s : string) : string :=
  match s with
  | EmptyString => EmptyString
  | String a s =>
      match trim_slashes s with
      | EmptyString => if decide (a = "/"%char) then EmptyString else String a EmptyString
      | t => String a t
      end
  end.

Fixpoint position_of (x : string) (l : list string) : option nat :=
  match l with
  | [] => None
  | y :: l => if decide (y = x) then Some 0 else S <$> position_of x l
  end.

Definition Answers := string → Result Value string.

Definition models_url (base : string) : string := trim_slashes base +:+ "/models".

(** The order of a round. *)
Definition probe_order (cands : list string) (sticky : option string) (promote : bool) : list string :=
  match (s ← sticky; i ← position_of s cands; if promote then None else Some i) with
  | Some i => match cands !! i with
              | Some c => c :: take i cands ++ drop (S i) cands
              | None => cands
              end
  | None => cands
  end.

(** The models an answer names: an entry with no string [id] is dropped. *)
Definition named_models (v : Value) : list Value :=
  filter (λ m, is_Some (as_str (index "id" m))) (items (index "data" v)).

Fixpoint try_candidates (answers : Answers) (order errors : list string) : Result (string * list Value) string :=
  match order with
  | [] => Err (join "; " errors)
  | base :: order =>
      match answers (models_url base) with
      | Ok v => Ok (base, named_models v)
      | Err e => try_candidates answers order (errors ++ [base +:+ ": " +:+ e])
      end
  end.

Definition probe_candidates (answers : Answers) (cands : list string) (sticky : option string) (promote : bool)
    : bool * Result (string * list Value) string :=
  let order := probe_order cands sticky promote in
  (bool_decide (head order = head cands), try_candidates answers order []).

Section round.
Context `{HI : HashIter} (C : Ctx).

(** What the last result says to a new round: the address in use, and whether
    a higher one is due another try. *)
Definition sticky_of (p : option ProbeResult) : option string * bool :=
  match p with
  | Some p => (pr_selected p, bool_decide (probe_promote (scfg C) ≤ elapsed C (pr_promoted_at p))%N)
  | None => (None, true)
  end.

Definition probe_result (group : string) (prev : option ProbeResult)
    (r : bool * Result (string * list Value) string) : ProbeResult :=
  let '(tried_top, res) := r in
  let promoted := if tried_top then now C else from_option pr_promoted_at (now C) prev in
  match res with
  | Ok (url, models) =>
      let models := if nonempty models then models else [obj_of [("id", Str group)]] in
      mkProbeResult true models (now C) None (Some url) promoted
  | Err e => mkProbeResult false [] (now C) (Some e) None promoted
  end.

Definition probe_group (answers : Answers) (s : Shared) (e : GroupEntry) : Shared :=
  match openai e with
  | None => s
  | Some ep =>
      match candidates ep with
      | [] => s
      | cands =>
          let '(sticky, promote) := sticky_of (probes s !! g_group e) in
          let r := probe_candidates answers cands sticky promote in
          s <| probes ::= <[g_group e := probe_result (g_group e) (probes s !! g_group e) r]> |>
      end
  end.

(** The results of groups that announce no endpoint any more are dropped. *)
Definition drop_probes (table : gmap string GroupEntry) (s : Shared) : Shared :=
  s <| probes ::= filter (λ '(k, _), is_Some (table !! k ≫= openai)) |>.

Definition prober_round (answers : Answers) (s : Shared) : Shared * list (string * string) :=
  let table := announced_groups C s in
  let s := drop_probes table s in
  let s := foldl (probe_group answers) s (bt_values table) in
  age_groups C s table.
End round.

(** ** Which address is chosen *)

Definition responds (answers : Answers) (base : string) : Prop := is_Some (ok (answers (models_url base))).
#[export] Instance responds_dec answers base : Decision (responds answers base).
Proof. unfold responds. apply _. Defined.

Lemma try_candidates_spec answers order errors :
  match try_candidates answers order errors with
  | Ok (base, models) => ∃ pre post v, order = pre ++ base :: post ∧ answers (models_url base) = Ok v ∧
      models = named_models v ∧ ∀ c, c ∈ pre → ¬ responds answers c
  | Err _ => ∀ c, c ∈ order → ¬ responds answers c
  end.
Proof.
  revert errors. induction order as [|base order IH]; intros errors; cbn [try_candidates].
  { by intros c ?%not_elem_of_nil. }
  destruct (answers (models_url base)) as [v|e] eqn:Ha.
  - exists [], order, v. split_and!; [done..|]. by intros c ?%not_elem_of_nil.
  - assert (¬ responds answers base) as Hno by (unfold responds; rewrite Ha; by intros [? ?]).
    specialize (IH (errors ++ [base +:+ ": " +:+ e])). destruct (try_candidates _ _ _) as [[b ms]|].
    + destruct IH as (pre & post & v & -> & ? & ? & Hpre). exists (base :: pre), post, v.
      split_and!; [done..|]. intros c [->|?]%elem_of_cons; [done|by apply Hpre].
    + intros c [->|?]%elem_of_cons; [done|by apply IH].
Qed.

Lemma position_of_Some x l i : position_of x l = Some i → l !! i = Some x.
Proof.
  revert i. induction l as [|y l IH]; intros i; cbn; [done|]. destruct (decide (y = x)) as [->|]; [by intros [= <-]|].
  intros (j & Hj & ->)%fmap_Some. by apply IH.
Qed.
Lemma position_of_elem x l : x ∈ l → is_Some (position_of x l).
Proof.
  induction l as [|y l IH]; [by intros ?%not_elem_of_nil|]. cbn. destruct (decide (y = x)) as [->|Hne]; [by eexists|].
  intros [->|Hin]%elem_of_cons; [done|]. by apply fmap_is_Some, IH.
Qed.

Lemma probe_order_perm cands sticky promote : probe_order cands sticky promote ≡ₚ cands.
Proof.
  unfold probe_order. destruct (s ← sticky; _) as [i|]; [|done]. destruct (cands !! i) as [c|] eqn:Hc; [|done].
  rewrite <-(take_drop_middle cands i c Hc) at 3. by rewrite Permutation_middle.
Qed.

Lemma probe_order_sticky cands s : s ∈ cands →
  ∃ rest, probe_order cands (Some s) false = s :: rest.
Proof.
  intros [i Hi]%position_of_elem. unfold probe_order. cbn. rewrite Hi. cbn.
  rewrite (position_of_Some _ _ _ Hi). by eexists.
Qed.

Lemma probe_order_plain cands sticky promote :
  promote = true ∨ (∀ s, sticky = Some s → s ∉ cands) → probe_order cands sticky promote = cands.
Proof.
  unfold probe_order. destruct sticky as [s|]; cbn; [|done]. intros [->|Hs].
  - by destruct (position_of s cands).
  - destruct (position_of s cands) as [i|] eqn:Hi; [|done]. cbn.
    apply position_of_Some, list_elem_of_lookup_2 in Hi. by destruct (Hs s).
Qed.

(** [c] is the highest ranked of the candidates that answer. *)
Definition top_answering (answers : Answers) (cands : list string) (c : string) : Prop :=
  ∃ pre post, cands = pre ++ c :: post ∧ responds answers c ∧ ∀ c', c' ∈ pre → ¬ responds answers c'.

Lemma plain_top answers cands errors base models :
  try_candidates answers cands errors = Ok (base, models) → top_answering answers cands base.
Proof.
  intros Ht. pose proof (try_candidates_spec answers cands errors) as Hs. rewrite Ht in Hs.
  destruct Hs as (pre & post & v & -> & Hv & _ & Hpre). exists pre, post. split_and!; [done| |done].
  unfold responds. rewrite Hv. by eexists.
Qed.

Lemma top_unique answers cands c c' : top_answering answers cands c → top_answering answers cands c' → c = c'.
Proof.
  intros (p1 & q1 & -> & H1 & Hp1) (p2 & q2 & Heq & H2 & Hp2).
  apply app_eq_inv in Heq as [(k & -> & Heq)|(k & -> & Heq)]; destruct k as [|x k].
  - cbn in Heq. congruence.
  - injection Heq as <- _. destruct (Hp1 c'); [apply elem_of_app; right; left|done].
  - cbn in Heq. congruence.
  - injection Heq as <- _. destruct (Hp2 c); [apply elem_of_app; right; left|done].
Qed.

Lemma probe_candidates_sound answers cands sticky promote :
  match (probe_candidates answers cands sticky promote).2 with
  | Ok (base, models) => base ∈ cands ∧ ∃ v, answers (models_url base) = Ok v ∧ models = named_models v
  | Err _ => ∀ c, c ∈ cands → ¬ responds answers c
  end.
Proof.
  unfold probe_candidates. cbn [snd].
  pose proof (try_candidates_spec answers (probe_order cands sticky promote) []) as Hs.
  destruct (try_candidates _ _ _) as [[base models]|e].
  - destruct Hs as (pre & post & v & Ho & Hv & Hm & _). split; [|by exists v].
    rewrite <-(probe_order_perm cands sticky promote), Ho. apply elem_of_app. right. by left.
  - intros c Hc. apply Hs. by rewrite probe_order_perm.
Qed.

(** A probe round finds an address exactly when some candidate answers. It
    keeps an address in use that still answers, except in a promotion round,
    which takes the highest ranked that answers, as does a round with no
    address in use; once the highest ranked that answers is in use, every
    later round with the same answers keeps it. *)
Theorem probe_choice answers cands sticky promote :
  (∀ e, (probe_candidates answers cands sticky promote).2 = Err e → ∀ c, c ∈ cands → ¬ responds answers c) ∧
  ∀ base models, (probe_candidates answers cands sticky promote).2 = Ok (base, models) →
    base ∈ cands ∧ (∃ v, answers (models_url base) = Ok v ∧ models = named_models v) ∧
    (promote = false → ∀ s, sticky = Some s → s ∈ cands → responds answers s → base = s) ∧
    (promote = true ∨ (∀ s, sticky = Some s → s ∉ cands) → top_answering answers cands base) ∧
    (∀ s, sticky = Some s → top_answering answers cands s → base = s).
Proof.
  unfold probe_candidates. cbn [snd].
  pose proof (try_candidates_spec answers (probe_order cands sticky promote) []) as Hs. split.
  - intros e He c Hc. rewrite He in Hs. apply Hs. by rewrite probe_order_perm.
  - intros base models Hb. rewrite Hb in Hs. destruct Hs as (pre & post & v & Ho & Hv & Hm & Hpre).
    assert (∀ s, promote = false → sticky = Some s → s ∈ cands → responds answers s → base = s) as Hkeep.
    { intros s -> -> Hin Hr. destruct (probe_order_sticky cands s Hin) as [rest Hr']. rewrite Hr' in Ho.
      destruct pre as [|x pre]; [by injection Ho|]. injection Ho as <- _. by destruct (Hpre s); [left|]. }
    assert (promote = true ∨ (∀ s, sticky = Some s → s ∉ cands) → top_answering answers cands base) as Hplain.
    { intros Hp. rewrite probe_order_plain in Hb by done. by eapply plain_top. }
    split_and!; [|by exists v|intros Hp s; by apply Hkeep|done|].
    + rewrite <-(probe_order_perm cands sticky promote), Ho. apply elem_of_app. right. by left.
    + intros s Hst Htop. destruct promote; [by eapply top_unique; [apply Hplain; left|]|].
      destruct Htop as (p & q & Hc & Hr & _). apply (Hkeep s); [done..| |done].
      rewrite Hc. apply elem_of_app. right. by left.
Qed.

(** ** A round as a whole *)

Section rounds.
Context `{HI : HashIter} (C : Ctx).
Implicit Types s : Shared.

Lemma probe_group_other answers s e k : k ≠ g_group e → probes (probe_group C answers s e) !! k = probes s !! k.
Proof.
  intros Hk. unfold probe_group. destruct (openai e) as [ep|]; [|done]. destruct (candidates ep); [done|].
  destruct (sticky_of _ _) as [sticky promote]. by apply lookup_insert_ne.
Qed.

Lemma probe_groups_lookup answers l s e : NoDup (g_group <$> l) → e ∈ l →
  probes (foldl (probe_group C answers) s l) !! g_group e = probes (probe_group C answers s e) !! g_group e.
Proof.
  revert s. induction l as [|x l IH]; intros s Hnd Hin; [by apply not_elem_of_nil in Hin|].
  cbn in Hnd. apply list.NoDup_cons in Hnd as [Hno Hnd]. cbn [foldl].
  apply elem_of_cons in Hin as [->|Hin].
  - clear IH. generalize (probe_group C answers s x) as s'. induction l as [|y l IH]; intros s'; [done|].
    cbn [foldl]. cbn in Hno, Hnd. apply not_elem_of_cons in Hno as [Hy Hno]. apply list.NoDup_cons in Hnd as [_ Hnd].
    rewrite IH by done. by apply probe_group_other.
  - rewrite IH by done. assert (g_group e ≠ g_group x) as Hne.
    { intros Heq. apply Hno, list_elem_of_fmap. by exists e. }
    unfold probe_group at 1 3. destruct (openai e) as [ep|]; [|by apply probe_group_other].
    destruct (candidates ep); [by apply probe_group_other|]. rewrite probe_group_other by done.
    destruct (sticky_of _ _) as [sticky promote]. cbn. by rewrite !lookup_insert_eq.
Qed.

Lemma age_groups_probes s table : probes (age_groups C s table).1 = probes s.
Proof. unfold age_groups. by destruct (foldl _ (_, _) _). Qed.

(** After a round, a group whose ranks run and one of whose addresses
    answered is healthy with the models that answer named, at the address
    that answered; one none of whose addresses answered is not healthy and
    has no address in use. *)
Theorem round_health answers s e cands :
  announced_groups C s !! g_group e = Some e → openai e = Some cands → candidates cands ≠ [] →
  (placed e = true → running e ≠ 0) →
  let s' := (prober_round C answers s).1 in
  if decide (Exists (responds answers) (candidates cands)) then
    ∃ base v, base ∈ candidates cands ∧ answers (models_url base) = Ok v ∧ endpoint_url s' e = Some base ∧
      health_of C s' e = Ok (if nonempty (named_models v) then named_models v else [obj_of [("id", Str (g_group e))]])
  else is_Some (ok (health_of C s' e)) → False.
Proof.
  intros He Ho Hne Hrun. pose proof (announced_keyed C s) as Hk. cbn zeta. unfold prober_round.
  set (table := announced_groups C s) in *. set (s0 := drop_probes table s).
  assert (NoDup (g_group <$> bt_values table)) as Hnd.
  { assert (g_group <$> bt_values table = bt_keys table) as ->; [|apply bt_keys_NoDup].
    unfold bt_values, bt_keys. rewrite <-list_fmap_compose. apply list_fmap_ext.
    intros i [k x] Hin%list_elem_of_lookup_2. apply elem_of_bt_iter in Hin. by apply Hk. }
  assert (e ∈ bt_values table) as Hin by (apply elem_of_bt_values; eauto).
  set (s1 := foldl (probe_group C answers) s0 (bt_values table)).
  pose proof (age_groups_probes s1 table) as Hp.
  pose proof (probe_groups_lookup answers (bt_values table) s0 e Hnd Hin) as Hres. fold s1 in Hres. rewrite <-Hp in Hres.
  set (s' := (age_groups C s1 table).1) in *. unfold probe_group in Hres. rewrite Ho in Hres.
  unfold health_of, endpoint_url. rewrite Ho. destruct (candidates cands) as [|c0 cs] eqn:Hc; [done|].
  rewrite <-Hc in *. destruct (sticky_of C (probes s0 !! g_group e)) as [sticky promote].
  cbn in Hres. rewrite lookup_insert_eq in Hres.
  pose proof (probe_candidates_sound answers (candidates cands) sticky promote) as Hsound.
  assert (placed e && bool_decide (running e = 0) = false) as ->.
  { destruct (placed e); [|done]. cbn. apply bool_decide_eq_false. by apply Hrun. }
  rewrite Hres. unfold probe_result. unfold probe_candidates in *. cbn [snd] in *.
  destruct (try_candidates _ _ _) as [[base models]|err].
  - destruct Hsound as (Hb & v & Hv & ->). rewrite decide_True.
    + exists base, v. split_and!; [done..| ]. cbn. unfold elapsed. rewrite N.sub_diag.
      by rewrite bool_decide_eq_false_2 by lia.
    + apply list.Exists_exists. exists base. split; [done|]. unfold responds. rewrite Hv. by eexists.
  - rewrite decide_False.
    + cbn. by intros [? ?].
    + intros (c & Hin' & Hr)%list.Exists_exists. by eapply Hsound.
Qed.
End rounds.

(** ** Witness *)

(** The first address of the group answers with a model. *)
Definition demo_answers : Answers := λ url,
  if decide (url = "http://192.168.1.5:8000/v1/models")
  then Ok (obj_of [("data", Arr [demo_model])]) else Err "connection refused".
Definition demo_endpoint : Endpoint :=
  default (mkEndpoint [] EmptyString None) (announced_groups (HI := in_key_order) (demo_ctx 0) demo_shared !! "glm" ≫= openai).
Definition demo_entry : GroupEntry :=
  default (mkGroup EmptyString EmptyString 0 0 None None EmptyString false) (announced_groups (HI := in_key_order) (demo_ctx 0) demo_shared !! "glm").

Lemma round_health_witness :
  announced_groups (HI := in_key_order) (demo_ctx 0) demo_shared !! "glm" = Some demo_entry ∧
  candidates demo_endpoint = ["http://192.168.1.5:8000/v1"; "http://10.0.0.1:8000/v1"] ∧
  ∃ base, endpoint_url (prober_round (HI := in_key_order) (demo_ctx 0) demo_answers demo_shared).1 demo_entry = Some base ∧
    responds demo_answers base ∧ base ∈ candidates demo_endpoint.
Proof.
  assert (announced_groups (HI := in_key_order) (demo_ctx 0) demo_shared !! g_group demo_entry = Some demo_entry) as He
    by (vm_compute; reflexivity).
  split; [exact He|]. split; [vm_compute; reflexivity|].
  assert (openai demo_entry = Some demo_endpoint) as Ho by (vm_compute; reflexivity).
  assert (candidates demo_endpoint ≠ []) as Hne by (vm_compute; congruence).
  pose proof (round_health (HI := in_key_order) (demo_ctx 0) demo_answers demo_shared demo_entry demo_endpoint He Ho Hne) as H.
  cbn zeta in H. destruct (decide _) as [_|Hno] in H.
  - destruct H as (base & v & Hin & Hv & Hu & _); [vm_compute; congruence|]. exists base.
    split; [exact Hu|]. split; [|exact Hin]. unfold responds. rewrite Hv. by eexists.
  - destruct Hno. apply list.Exists_exists. exists "http://192.168.1.5:8000/v1". split; [vm_compute; left|].
    vm_compute. by eexists.
Defined.
