(* ===== verification/Watch.v ===== *)
(** * The router's daemon watchers (rust/mentatd-serve/src/main.rs)

    One task per watched address. Its critical sections on the shared tables
    are functions: the start of a watch, a poll and the peers it reveals, the
    claim of a node, the move to another address and the end. The network is
    the answer each address gives. *)

From S2P Require Import Prelude Text Stable Json Addr Net Groups Stream.

(** A watch that [ensure_watched] starts: the address, and the others to try
    before the first answer. *)
Definition Start := (string * list string)%type.

(** ** Sections *)

Definition ensure_watched (s : Shared) (addr : string) (others : list string) : Shared * list Start :=
  if existsb (λ w, bool_decide (addr ∈ w_alternates w)) (map_to_list (nodes s)).*2 then (s, [])
  else if decide (addr ∈ watched s) then (s, [])
  else (s <| watched ::= λ w, {[addr]} ∪ w |>, [(addr, others)]).

Definition drop_watch (s : Shared) (addr : string) : Shared :=
  s <| daemons ::= delete addr |> <| watched ::= λ w, w ∖ {[addr]} |>.

(** [peer_addresses]: what a peer row offers, in order of evidence, each once,
    loopback last; and the best of it. *)
Definition is_lo (c : string) : bool := starts_with "127." c || bool_decide (c = "::1").
Definition peer_cands (p : Value) : list string :=
  let pushed := option_list (as_str (index "link_ip" p)) ++ strings_of (index "addrs" p) ++
                option_list (as_str (index "node_ip" p)) in
  sort_by_flag is_lo (keep_first ∅ (filter (λ c, str_empty c = false) pushed)).
Definition or_else {A} (o o' : option A) : option A := match o with Some x => Some x | None => o' end.
Definition peer_addresses (p : Value) (local : list Net) : option string * list string :=
  let cands := peer_cands p in
  (or_else (find_first (λ c, on_local_net c local && negb (is_lo c)) cands)
     (or_else (find_first (λ c, negb (is_lo c)) cands) (head cands)), cands).

Definition with_port (port : N) (a : string) : string := a +:+ ":" +:+ pretty port.

(** Another address of a node: an alternate, unless it is the one polled. *)
Definition add_alternate (w : NodeWatch) (a : string) : NodeWatch :=
  if decide (a = w_addr w) then w else w <| w_alternates ::= λ l, {[a]} ∪ l |>.

(** One peer row of a snapshot: a watched node learns its addresses, an
    unwatched one gets a watch. *)
Definition learn_peer (local : list Net) (acc : Shared * list Start) (row : string * Value) : Shared * list Start :=
  let '(s, started) := acc in
  let '(id, p) := row in
  match as_u64 (index "http_port" p) with
  | None => acc
  | Some port =>
      if bool_decide (port = 0%N) || negb (default false (as_bool (index "alive" p))) then acc
      else
        let '(best, all) := peer_addresses p local in
        match nodes s !! id with
        | Some w => (s <| nodes ::= <[id := foldl add_alternate w (with_port port <$> all)]> |>, started)
        | None =>
            match best with
            | Some ip =>
                let '(s, new) := ensure_watched s (with_port port ip) (with_port port <$> all) in (s, started ++ new)
            | None => acc
            end
        end
  end.

Definition set_error (s : Shared) (addr : string) (e : string) : Shared :=
  s <| daemons ::= alter (λ v, v <| dv_error := Some e |>) addr |>.

Section watch.
Context (C : Ctx).

(** [poll_status] on the answer the address gave: the tables, the daemon's
    node id, and the watches started. *)
Definition poll_status (s : Shared) (addr : string) (answer : Result Value string)
    : Shared * option string * list Start :=
  match answer with
  | Ok snap =>
      let '(s, started) :=
        if discover_peers (scfg C) then foldl (learn_peer (ifaces C)) (s, []) (entries (index "peers" snap))
        else (s, []) in
      (store_poll (now C) s addr snap, as_str (index "node_id" snap), started)
  | Err e => (set_error s addr e, None, [])
  end.

(** A claim fails when another fresh watch holds the node. *)
Definition claim_node (s : Shared) (id addr : string) : Shared * bool :=
  match nodes s !! id with
  | None => (s <| nodes ::= <[id := mkWatch addr ∅]> |>, true)
  | Some w =>
      if decide (w_addr w = addr) then (s, true)
      else if is_some_and (daemons s !! w_addr w) (fresh_view C) then
        (s <| nodes ::= <[id := w <| w_alternates ::= λ l, {[addr]} ∪ l |>]> |>, false)
      else
        let s := s <| nodes ::= <[id := mkWatch addr ({[w_addr w]} ∪ (w_alternates w ∖ {[addr]}))]> |> in
        (drop_watch s (w_addr w), true)
  end.

(** The alternates in the order they are tried: the set's, loopback last. *)
Definition alternates_of (s : Shared) (id current : string) : list string :=
  sort_by_flag (λ a, starts_with "127." a || starts_with "::1" a)
    (filter (λ a, a ≠ current) (sort_strs (from_option (elements ∘ w_alternates) [] (nodes s !! id)))).

(** Each alternate is polled until one answers as the node. *)
Fixpoint try_each (answers : string → Result Value string) (id : string) (alts : list string) (s : Shared)
    (started : list Start) : Shared * option string * list Start :=
  match alts with
  | [] => (s, None, started)
  | alt :: alts =>
      let '(s, got, new) := poll_status s alt (answers alt) in
      if bool_decide (got = Some id) then (s, Some alt, started ++ new) else try_each answers id alts s (started ++ new)
  end.
Definition try_alternates (answers : string → Result Value string) (s : Shared) (id current : string) :=
  try_each answers id (alternates_of s id current) s [].

Definition move_watch (s : Shared) (id from to : string) : Shared :=
  s <| nodes ::= alter (λ w, mkWatch to ({[from]} ∪ (w_alternates w ∖ {[to]}))) id |>
    <| daemons ::= delete from |> <| watched ::= λ w, {[to]} ∪ (w ∖ {[from]}) |>.

(** Whether a fresh view lists the node, or the address, as a live peer. *)
Definition lists_alive (node : option string) (host : string) (row : string * Value) : bool :=
  let '(id, p) := row in
  default false (as_bool (index "alive" p)) &&
  (bool_decide (Some id = node) || bool_decide (as_str (index "node_ip" p) = Some host) ||
   bool_decide (as_str (index "link_ip" p) = Some host) ||
   existsb (λ a, bool_decide (as_str a = Some host)) (items (index "addrs" p))).
Definition published_alive (s : Shared) (node : option string) (addr : string) : bool :=
  let host := match rsplit_once ":" addr with Some (h, _) => h | None => addr end in
  existsb (λ v, match fresh_status C v with
                | Some snap => existsb (lists_alive node host) (entries (index "peers" snap))
                | None => false
                end) (map_to_list (daemons s)).*2.

(** ** The task *)

Record Watcher := mkWatcher {
  wt_addr : string; wt_seed : bool; wt_node : option string; wt_failing : option N; wt_untried : list string }.

Definition watch_start (s : Shared) (addr : string) (others : list string) : Shared * Watcher :=
  let seed := bool_decide (addr ∈ seeds (scfg C)) in
  (s <| daemons ::= λ d, match d !! addr with Some _ => d | None => <[addr := view_empty seed]> d end |>,
   mkWatcher addr seed None None (filter (λ o, o ≠ addr) others)).

(** What a turn of the loop comes to: the task ends because another watch
    holds the node or because the daemon is gone, it goes on to the event
    stream, or it polls again, at once or after a pause. *)
Inductive Turn := Merged (id : string) | Forgotten | Streaming (w : Watcher) | Again (w : Watcher) | Pause (w : Watcher).

(** The address answered as node [id]. *)
Definition watch_answered (s : Shared) (w : Watcher) (id : string) : Shared * Turn :=
  if decide (wt_node w = Some id)
  then (s, Streaming (mkWatcher (wt_addr w) (wt_seed w) (wt_node w) None (wt_untried w)))
  else
    let '(s, claimed) := claim_node s id (wt_addr w) in
    if (claimed : bool) then
      (s <| nodes ::= alter (λ x, x <| w_alternates ::= λ l, list_to_set (wt_untried w) ∪ l |>) id |>,
       Streaming (mkWatcher (wt_addr w) (wt_seed w) (Some id) None []))
    else (drop_watch s (wt_addr w), Merged id).

(** It did not: before the first answer the untried addresses follow each
    other, then the node's alternates are polled. *)
Definition forget (s : Shared) (w : Watcher) : Shared :=
  let s := drop_watch s (wt_addr w) in
  match wt_node w with Some id => s <| nodes ::= delete id |> | None => s end.
Definition watch_silent (answers : string → Result Value string) (s : Shared) (w : Watcher)
    : Shared * Turn * list Start :=
  let since := default (now C) (wt_failing w) in
  let w := mkWatcher (wt_addr w) (wt_seed w) (wt_node w) (Some since) (wt_untried w) in
  let end_of_turn (s : Shared) (started : list Start) :=
    if negb (wt_seed w) && bool_decide (model_ttl (scfg C) < elapsed C since)%N
       && negb (published_alive s (wt_node w) (wt_addr w))
    then (forget s w, Forgotten, started) else (s, Pause w, started) in
  match wt_node w, wt_untried w with
  | None, next :: rest =>
      let s := drop_watch s (wt_addr w) in
      (s <| watched ::= λ l, {[next]} ∪ l |> <| daemons ::= <[next := view_empty (wt_seed w)]> |>,
       Again (mkWatcher next (wt_seed w) None (Some since) (rest ++ [wt_addr w])), [])
  | Some id, _ =>
      match try_alternates answers s id (wt_addr w) with
      | (s, Some next, started) =>
          (move_watch s id (wt_addr w) next, Again (mkWatcher next (wt_seed w) (Some id) None (wt_untried w)), started)
      | (s, None, started) => end_of_turn s started
      end
  | None, [] => end_of_turn s []
  end.

Definition watch_turn (answers : string → Result Value string) (s : Shared) (w : Watcher)
    : Shared * Turn * list Start :=
  let '(s, got, started) := poll_status s (wt_addr w) (answers (wt_addr w)) in
  match got with
  | Some id => let '(s, t) := watch_answered s w id in (s, t, started)
  | None => let '(s, t, new) := watch_silent answers s w in (s, t, started ++ new)
  end.
End watch.

(** ** What a peer row offers *)

Lemma sort_by_flag_perm {A} (f : A → bool) l : sort_by_flag f l ≡ₚ l.
Proof. apply sort_by_key_perm. Qed.
Lemma find_first_None {A} (p : A → bool) l : find_first p l = None ↔ ∀ x, x ∈ l → p x = false.
Proof.
  unfold find_first. rewrite find_map_None. split; intros H x Hx; specialize (H x Hx); by destruct (p x).
Qed.
Lemma elem_of_option_list {A} (o : option A) x : x ∈ option_list o ↔ o = Some x.
Proof. destruct o; cbn; rewrite ?list_elem_of_singleton, ?elem_of_nil; naive_solver. Qed.
Lemma elem_of_strings_of v x : x ∈ strings_of v ↔ Str x ∈ items v.
Proof.
  unfold strings_of. rewrite list_elem_of_omap. split; [|by exists (Str x)].
  intros ([]&?&?); simplify_eq/=; done.
Qed.

Definition offers (p : Value) (c : string) : Prop :=
  c ≠ EmptyString ∧ (as_str (index "link_ip" p) = Some c ∨ Str c ∈ items (index "addrs" p) ∨ as_str (index "node_ip" p) = Some c).

Lemma elem_of_peer_cands p c : c ∈ peer_cands p ↔ offers p c.
Proof.
  unfold peer_cands, offers. rewrite sort_by_flag_perm, elem_of_keep_first, list_elem_of_filter, !elem_of_app,
    !elem_of_option_list, elem_of_strings_of. unfold str_empty. rewrite bool_decide_eq_false. set_solver.
Qed.
Lemma peer_cands_NoDup p : NoDup (peer_cands p).
Proof. unfold peer_cands. rewrite sort_by_flag_perm. apply keep_first_NoDup. Qed.

(** A peer row gives every address it offers once, link, list and name
    alike, loopback after the rest; the best is one of them when there is any,
    on one of the router's own networks when one is, and loopback only when
    nothing else is offered. *)
Theorem peer_addresses_best p local :
  let '(best, all) := peer_addresses p local in
  (∀ c, c ∈ all ↔ offers p c) ∧ NoDup all ∧
  (∃ pre post, all = pre ++ post ∧ (∀ c, c ∈ pre → is_lo c = false) ∧ ∀ c, c ∈ post → is_lo c = true) ∧
  match best with
  | None => ∀ c, ¬ offers p c
  | Some b => offers p b ∧
      (is_lo b = true → ∀ c, offers p c → is_lo c = true) ∧
      ((∃ c, offers p c ∧ is_lo c = false ∧ on_local_net c local = true) → is_lo b = false ∧ on_local_net b local = true)
  end.
Proof.
  unfold peer_addresses. split_and!; [apply elem_of_peer_cands|apply peer_cands_NoDup| |].
  - unfold peer_cands. rewrite sort_by_flag_spec. eexists _, _. split; [reflexivity|].
    split; intros c [? _]%list_elem_of_filter; done.
  - pose proof (elem_of_peer_cands p) as Hc.
    destruct (find_first (λ c, on_local_net c local && negb (is_lo c)) (peer_cands p)) as [b|] eqn:H1; cbn [or_else].
    { apply find_first_Some in H1 as [Hin [Hl Hn%negb_true_iff]%andb_true_iff]. apply Hc in Hin.
      split_and!; [done|congruence|done]. }
    assert (¬ ∃ c, offers p c ∧ is_lo c = false ∧ on_local_net c local = true) as Hnone.
    { intros (c & Hin & Hn & Hl). apply Hc in Hin. apply (find_first_None _ _) with (x := c) in H1; [|done].
      by rewrite Hn, Hl in H1. }
    destruct (find_first (λ c, negb (is_lo c)) (peer_cands p)) as [b|] eqn:H2; cbn [or_else].
    { apply find_first_Some in H2 as [Hin Hn%negb_true_iff]. apply Hc in Hin. split_and!; [done|congruence|done]. }
    assert (∀ c, offers p c → is_lo c = true) as Hlo.
    { intros c Hin%Hc. apply (find_first_None _ _) with (x := c) in H2; [|done]. by apply negb_false_iff. }
    destruct (head (peer_cands p)) as [b|] eqn:H3.
    + split_and!; [apply Hc|done|done]. destruct (peer_cands p); [done|]. injection H3 as ->. by left.
    + intros c Hin%Hc. destruct (peer_cands p); [by apply not_elem_of_nil in Hin|done].
Qed.

(** ** Claims and moves *)

Section facts.
Context (C : Ctx).
Implicit Types s : Shared.

(** The address some watch polls for a node, as the table has it. *)
Definition holder s (id : string) : option string := w_addr <$> nodes s !! id.
Definition fresh_row s (addr : string) : bool := is_some_and (daemons s !! addr) (fresh_view C).

(** A claim of a node decides between two addresses by what is fresh: it
    is refused exactly when another address holds the node and was heard from
    lately, and then the address becomes an alternate and no watch is dropped.
    A granted claim makes the address the node's, no alternate of it, and puts
    a replaced holder's address among the alternates and ends its row. No
    other node is touched. *)
Theorem claim_settles s id addr :
  let '(s', granted) := claim_node C s id addr in
  (granted = false ↔ ∃ held, holder s id = Some held ∧ held ≠ addr ∧ fresh_row s held = true) ∧
  (granted = false → daemons s' = daemons s ∧ watched s' = watched s ∧ holder s' id = holder s id ∧
     ∃ w, nodes s' !! id = Some w ∧ addr ∈ w_alternates w) ∧
  (granted = true → holder s' id = Some addr ∧
     ∀ held, holder s id = Some held → held ≠ addr →
       daemons s' !! held = None ∧ (held ∉ watched s') ∧
       ∃ w, nodes s' !! id = Some w ∧ held ∈ w_alternates w ∧ addr ∉ w_alternates w) ∧
  (∀ other, other ≠ id → nodes s' !! other = nodes s !! other) ∧
  (∀ a, Some a ≠ holder s id → daemons s' !! a = daemons s !! a).
Proof.
  unfold claim_node, holder, fresh_row. destruct (nodes s !! id) as [w|] eqn:Hw; cbn [fmap option_fmap option_map].
  2: { split_and!.
    - split; [done|]. by intros (? & ? & _).
    - done.
    - intros _. cbn. rewrite lookup_insert_eq. split; [done|]. by intros ? ?.
    - intros other Ho. cbn. by rewrite lookup_insert_ne.
    - done. }
  destruct (decide (w_addr w = addr)) as [Heq|Hne].
  { split_and!; [|done| | |done].
    - split; [done|]. intros (held & [= <-] & ? & _). congruence.
    - intros _. rewrite Hw. split; [cbn; congruence|]. intros held [= <-] ?. congruence.
    - done. }
  destruct (is_some_and (daemons s !! w_addr w) (fresh_view C)) eqn:Hf.
  - split_and!; [|intros _|done| |done].
    + split; [|done]. intros _. exists (w_addr w). done.
    + cbn. rewrite lookup_insert_eq. split_and!; [done..|]. eexists. split; [done|]. cbn. set_solver.
    + intros other Ho. cbn. by rewrite lookup_insert_ne.
  - split_and!; [|done|intros _| |].
    + split; [done|]. intros (held & [= <-] & _ & ?). congruence.
    + cbn. rewrite lookup_insert_eq. split; [done|]. intros held [= <-] _.
      split_and!; [apply lookup_delete_eq|set_solver|]. eexists. split; [done|]. cbn. set_solver.
    + intros other Ho. cbn. by rewrite lookup_insert_ne.
    + intros a Ha. cbn. apply lookup_delete_ne. congruence.
Qed.

(** The node an answer names. *)
Definition answered_as (answer : Result Value string) : option string :=
  match answer with Ok snap => as_str (index "node_id" snap) | Err _ => None end.
Lemma poll_status_node s addr answer : (poll_status C s addr answer).1.2 = answered_as answer.
Proof. destruct answer as [snap|]; [|done]. cbn. by destruct (if discover_peers _ then _ else _) as [? ?]. Qed.

(** No poll takes a node from the address that holds it. *)
Lemma add_alternates_addr l w : w_addr (foldl add_alternate w l) = w_addr w.
Proof.
  revert w. induction l as [|a l IH]; intros w; [done|]. cbn [foldl]. rewrite IH.
  unfold add_alternate. by destruct (decide _).
Qed.
Lemma ensure_watched_nodes s addr others : nodes (ensure_watched s addr others).1 = nodes s.
Proof. unfold ensure_watched. destruct (existsb _ _); [done|]. by destruct (decide _). Qed.
Lemma learn_peer_holder local acc row id : holder (learn_peer local acc row).1 id = holder acc.1 id.
Proof.
  destruct acc as [s started], row as [id' p]. unfold learn_peer. destruct (as_u64 _) as [port|]; [|done].
  destruct (bool_decide _ || _); [done|]. destruct (peer_addresses p local) as [best all].
  destruct (nodes s !! id') as [w|] eqn:Hw.
  - cbn. unfold holder. cbn. rewrite lookup_insert. case_decide as Hid; [|done]. subst id'.
    cbn. by rewrite add_alternates_addr, Hw.
  - destruct best as [ip|]; [|done].
    pose proof (ensure_watched_nodes s (with_port port ip) (with_port port <$> all)) as Hn.
    destruct (ensure_watched _ _ _) as [s' new]. cbn in *. unfold holder. by rewrite Hn.
Qed.
Lemma learn_peers_holder local rows acc id : holder (foldl (learn_peer local) acc rows).1 id = holder acc.1 id.
Proof. revert acc. induction rows as [|row rows IH]; intros acc; [done|]. cbn [foldl]. by rewrite IH, learn_peer_holder. Qed.
Lemma poll_status_holder s addr answer id : holder (poll_status C s addr answer).1.1 id = holder s id.
Proof.
  destruct answer as [snap|]; [|done]. cbn. destruct (discover_peers (scfg C)); [|done].
  pose proof (learn_peers_holder (ifaces C) (entries (index "peers" snap)) (s, []) id) as Hl.
  destruct (foldl _ _ _) as [s' started]. exact Hl.
Qed.

Lemma try_each_spec answers id alts s started :
  let '(s', got, _) := try_each C answers id alts s started in
  got = find_first (λ a, bool_decide (answered_as (answers a) = Some id)) alts ∧ ∀ i, holder s' i = holder s i.
Proof.
  revert s started. induction alts as [|a alts IH]; intros s started; [done|]. cbn [try_each].
  pose proof (poll_status_node s a (answers a)) as Hn. pose proof (poll_status_holder s a (answers a)) as Hh.
  destruct (poll_status C s a (answers a)) as [[s' got] new]. cbn in Hn, Hh. subst got.
  unfold find_first. cbn [find_map]. destruct (bool_decide (answered_as (answers a) = Some id)) eqn:Ha; [done|].
  specialize (IH s' (started ++ new)). destruct (try_each C answers id alts s' (started ++ new)) as [[s'' got] st].
  destruct IH as [-> IH]. split; [done|]. intros i. by rewrite IH.
Qed.

Lemma elem_of_alternates_of s id current a :
  a ∈ alternates_of s id current ↔ a ≠ current ∧ ∃ w, nodes s !! id = Some w ∧ a ∈ w_alternates w.
Proof.
  unfold alternates_of. rewrite sort_by_flag_perm, list_elem_of_filter. unfold sort_strs.
  rewrite merge_sort_Permutation. destruct (nodes s !! id) as [w|]; cbn.
  - rewrite elem_of_elements. naive_solver.
  - rewrite elem_of_nil. naive_solver.
Qed.
End facts.

(** ** The fate of a watch *)

Section fate.
Context (C : Ctx) (answers : string → Result Value string).

Definition answers_as (a : string) : option string := answered_as (answers a).
(** The tables after the turn's own poll. *)
Definition polled (s : Shared) (w : Watcher) : Shared := (poll_status C s (wt_addr w) (answers (wt_addr w))).1.1.

Definition same_watch (w w' : Watcher) : Prop := wt_seed w' = wt_seed w ∧ wt_addr w' = wt_addr w.

Lemma watch_silent_spec s w :
  let '(s', t, _) := watch_silent C answers s w in
  match t with
  | Merged _ | Streaming _ => False
  | Forgotten => daemons s' !! wt_addr w = None ∧ (wt_addr w ∉ watched s') ∧ ∀ id, wt_node w = Some id → nodes s' !! id = None
  | Again w' => wt_seed w' = wt_seed w ∧ wt_node w' = wt_node w ∧
      match wt_node w with
      | None => ∃ rest, wt_untried w = wt_addr w' :: rest ∧ wt_untried w' = rest ++ [wt_addr w]
      | Some id => wt_addr w' ∈ alternates_of s id (wt_addr w) ∧ answers_as (wt_addr w') = Some id ∧
          (∀ h, holder s id = Some h → holder s' id = Some (wt_addr w'))
      end
  | Pause w' => same_watch w w' ∧ wt_node w' = wt_node w ∧ is_Some (wt_failing w')
  end.
Proof.
  unfold watch_silent. cbn zeta. set (since := default (now C) (wt_failing w)).
  cbn [wt_node wt_untried wt_seed wt_addr]. destruct (wt_node w) as [id|] eqn:Hn.
  - unfold try_alternates. pose proof (try_each_spec C answers id (alternates_of s id (wt_addr w)) s []) as Ht.
    destruct (try_each C answers id (alternates_of s id (wt_addr w)) s []) as [[s' got] st]. destruct Ht as [Hgot Hh].
    destruct got as [next|].
    + symmetry in Hgot. apply find_first_Some in Hgot as [Hin Ha%bool_decide_eq_true]. cbn.
      split_and!; [done|done|done|done|]. intros h Hs. rewrite <-Hh in Hs. unfold holder in *. cbn.
      rewrite lookup_alter_eq. by destruct (nodes s' !! id).
    + destruct (negb (wt_seed w) && _ && _); cbn; [|by split_and!].
      split_and!; [apply lookup_delete_eq|set_solver|]. intros ? [= <-]. apply lookup_delete_eq.
  - destruct (wt_untried w) as [|next rest] eqn:Hu; [|cbn; split_and!; [done..|by exists rest]].
    destruct (negb (wt_seed w) && _ && _); cbn; [|by split_and!].
    split_and!; [apply lookup_delete_eq|set_solver|done].
Qed.

Lemma claim_sections s id addr :
  let '(s', granted) := claim_node C s id addr in
  if (granted : bool)
  then ¬ ∃ held, holder s id = Some held ∧ held ≠ addr ∧ fresh_row C s held = true
  else ∃ held x, holder s id = Some held ∧ held ≠ addr ∧ fresh_row C s held = true ∧
      nodes s' !! id = Some x ∧ w_addr x = held ∧ addr ∈ w_alternates x.
Proof.
  unfold claim_node, holder, fresh_row. destruct (nodes s !! id) as [w|] eqn:Hw; [|by intros (? & ? & _)].
  destruct (decide (w_addr w = addr)); [intros (held & [= <-] & ? & _); congruence|].
  destruct (is_some_and (daemons s !! w_addr w) (fresh_view C)) eqn:Hf; [|intros (held & [= <-] & _ & ?); congruence].
  exists (w_addr w). eexists. cbn. rewrite lookup_insert_eq. split_and!; [done..|]. cbn. set_solver.
Qed.

(** What an answer leads to. *)
Lemma watch_answered_spec s w id :
  let '(s', t) := watch_answered C s w id in
  ((∃ i, t = Merged i) ↔ ∃ held, wt_node w ≠ Some id ∧
     holder s id = Some held ∧ held ≠ wt_addr w ∧ fresh_row C s held = true) ∧
  match t with
  | Merged i => i = id ∧ daemons s' !! wt_addr w = None ∧ (wt_addr w ∉ watched s') ∧
      ∃ held x, holder s i = Some held ∧ held ≠ wt_addr w ∧
        nodes s' !! i = Some x ∧ w_addr x = held ∧ wt_addr w ∈ w_alternates x
  | Streaming w' => same_watch w w' ∧ is_Some (wt_node w') ∧ wt_node w' = Some id ∧ wt_failing w' = None
  | _ => False
  end.
Proof.
  unfold watch_answered. destruct (decide (wt_node w = Some id)) as [Hid|Hid].
  { split; [|by rewrite Hid]. split; [by intros [? ?]|by intros (? & ? & _)]. }
  pose proof (claim_sections s id (wt_addr w)) as Hc. destruct (claim_node C s id (wt_addr w)) as [s2 [|]]; cbn.
  - split; [|done]. split; [by intros [? ?]|]. intros (held & _ & H1 & H2 & H3). by destruct Hc; exists held.
  - destruct Hc as (held & x & ? & ? & ? & ?). split; [split; [intros _; by exists held|by eexists]|].
    split_and!; [done|apply lookup_delete_eq|set_solver|]. exists held, x. cbn. tauto.
Qed.

(** Nothing is left to try: before the first answer no other address, after it
    no alternate that answers as the node. *)
Definition stranded (s : Shared) (w : Watcher) : Prop :=
  (wt_node w = None → wt_untried w = []) ∧
  (∀ id a, wt_node w = Some id → a ∈ alternates_of s id (wt_addr w) → answers_as a ≠ Some id).
(** No seed, and silent for longer than the limit. *)
Definition silent_too_long (w : Watcher) : Prop :=
  wt_seed w = false ∧ ∃ since, wt_failing w = Some since ∧ (model_ttl (scfg C) < elapsed C since)%N.
(** The tables once the node's alternates were polled. *)
Definition tried (s : Shared) (w : Watcher) : Shared :=
  match wt_node w with Some id => (try_alternates C answers s id (wt_addr w)).1.1 | None => s end.
(** A daemon whose status is fresh lists the node, or its host, as alive. *)
Definition listed_alive (s : Shared) (node : option string) (host : string) : Prop :=
  ∃ a v snap id p, daemons s !! a = Some v ∧ fresh_status C v = Some snap ∧ (id, p) ∈ entries (index "peers" snap) ∧
    as_bool (index "alive" p) = Some true ∧
    (Some id = node ∨ as_str (index "node_ip" p) = Some host ∨ as_str (index "link_ip" p) = Some host ∨
     ∃ x, x ∈ items (index "addrs" p) ∧ as_str x = Some host).
Definition host_in (addr : string) : string := match rsplit_once ":" addr with Some (h, _) => h | None => addr end.
Definition gone (s : Shared) (w : Watcher) : Prop :=
  silent_too_long w ∧ ¬ listed_alive (tried s w) (wt_node w) (host_in (wt_addr w)).

Lemma lists_alive_iff node host id p : lists_alive node host (id, p) = true ↔
  as_bool (index "alive" p) = Some true ∧
  (Some id = node ∨ as_str (index "node_ip" p) = Some host ∨ as_str (index "link_ip" p) = Some host ∨
   ∃ x, x ∈ items (index "addrs" p) ∧ as_str x = Some host).
Proof.
  unfold lists_alive. rewrite andb_true_iff, !orb_true_iff, !bool_decide_eq_true, existsb_exists.
  assert (default false (as_bool (index "alive" p)) = true ↔ as_bool (index "alive" p) = Some true) as ->.
  { destruct (as_bool (index "alive" p)) as [[]|]; done. }
  setoid_rewrite <-list_elem_of_In. setoid_rewrite bool_decide_eq_true. tauto.
Qed.
Lemma published_alive_iff s node addr : published_alive C s node addr = true ↔ listed_alive s node (host_in addr).
Proof.
  unfold published_alive. fold (host_in addr). rewrite existsb_exists. setoid_rewrite <-list_elem_of_In. split.
  - intros (v & ([a v'] & -> & Ha%elem_of_map_to_list)%list_elem_of_fmap & Hl). cbn in *.
    destruct (fresh_status C v') as [snap|] eqn:Hf; [|done]. apply existsb_exists in Hl as ([id p] & Hin & Hl).
    apply list_elem_of_In in Hin. apply lists_alive_iff in Hl. exists a, v', snap, id, p. tauto.
  - intros (a & v & snap & id & p & Ha & Hf & Hin & Hl). exists v. split.
    + apply list_elem_of_fmap. exists (a, v). split; [done|]. by apply elem_of_map_to_list.
    + rewrite Hf. apply existsb_exists. exists (id, p). split; [by apply list_elem_of_In|]. by apply lists_alive_iff.
Qed.

(** Which end a silent turn comes to. *)
Lemma watch_silent_ends s w :
  let '(_, t, _) := watch_silent C answers s w in
  (t = Forgotten ↔ stranded s w ∧ gone s w) ∧ ((∃ w', t = Pause w') ↔ stranded s w ∧ ¬ gone s w) ∧
  ((∃ w', t = Again w') ↔ ¬ stranded s w).
Proof.
  unfold watch_silent. cbv zeta. set (since := default (now C) (wt_failing w)).
  assert (∀ s', tried s w = s' →
    negb (wt_seed w) && bool_decide (model_ttl (scfg C) < elapsed C since)%N &&
      negb (published_alive C s' (wt_node w) (wt_addr w)) = true ↔ gone s w) as Hgone.
  { intros s' <-. unfold gone, silent_too_long. rewrite !andb_true_iff, !negb_true_iff, bool_decide_eq_true.
    rewrite <-(not_true_iff_false (published_alive _ _ _ _)), published_alive_iff.
    assert ((model_ttl (scfg C) < elapsed C since)%N ↔
      ∃ since, wt_failing w = Some since ∧ (model_ttl (scfg C) < elapsed C since)%N) as ->; [|tauto].
    unfold since. split.
    - destruct (wt_failing w) as [t|]; cbn; [eauto|]. unfold elapsed. lia.
    - by intros (t & -> & Ht). }
  assert (∀ s' (started : list Start), tried s w = s' → stranded s w →
    let '(_, t, _) := if negb (wt_seed w) && bool_decide (model_ttl (scfg C) < elapsed C since)%N &&
        negb (published_alive C s' (wt_node w) (wt_addr w))
      then (forget s' (mkWatcher (wt_addr w) (wt_seed w) (wt_node w) (Some since) (wt_untried w)), Forgotten, started)
      else (s', Pause (mkWatcher (wt_addr w) (wt_seed w) (wt_node w) (Some since) (wt_untried w)), started) in
    (t = Forgotten ↔ stranded s w ∧ gone s w) ∧ ((∃ w', t = Pause w') ↔ stranded s w ∧ ¬ gone s w) ∧
    ((∃ w', t = Again w') ↔ ¬ stranded s w)) as Hend.
  { intros s' started Hs' Hst. specialize (Hgone s' Hs'). destruct (_ && _ && _).
    - assert (gone s w) as Hg by by apply Hgone.
      split_and!; [tauto|split; [by intros [? ?]|tauto]|split; [by intros [? ?]|tauto]].
    - assert (¬ gone s w) as Hg by (by intros Hg%Hgone).
      split_and!; [split; [done|tauto]|split; [tauto|intros _; by eexists]|split; [by intros [? ?]|tauto]]. }
  cbn [wt_node wt_untried wt_seed wt_addr]. unfold tried in *. destruct (wt_node w) as [id|] eqn:Hn.
  - unfold try_alternates in *. pose proof (try_each_spec C answers id (alternates_of s id (wt_addr w)) s []) as Ht.
    destruct (try_each C answers id (alternates_of s id (wt_addr w)) s []) as [[s' got] st]. destruct Ht as [Hgot _].
    destruct got as [next|].
    + symmetry in Hgot. apply find_first_Some in Hgot as [Hin Ha%bool_decide_eq_true]. cbn.
      assert (¬ stranded s w) as Hno by (intros [_ Hst]; by apply (Hst id next Hn)).
      split_and!; [split; [done|tauto]|split; [by intros [? ?]|tauto]|split; [done|intros _; by eexists]].
    + apply (Hend s' st); [done|]. split; [by rewrite Hn|]. intros id' a Hid Hin. rewrite Hn in Hid. injection Hid as <-.
      symmetry in Hgot. rewrite find_first_None in Hgot. specialize (Hgot a Hin). by apply bool_decide_eq_false in Hgot.
  - destruct (wt_untried w) as [|next rest] eqn:Hu.
    + apply (Hend s []); [done|]. split; [done|]. intros id a. by rewrite Hn.
    + cbn. assert (¬ stranded s w) as Hno by (intros [Hst _]; rewrite Hu in Hst; by specialize (Hst Hn)).
      split_and!; [split; [done|tauto]|split; [by intros [? ?]|tauto]|split; [done|intros _; by eexists]].
Qed.

(** C36: A turn of a watch comes to one of five ends, each exactly for its
    reason. An answer merges it exactly when it newly names a node that
    another address holds and was heard from lately, and its address is then
    an alternate of that watch; any other answer leads on to the event
    stream. Silence with something left to try moves it: to the next untried
    address before the first answer, and after it to an alternate that does
    answer as the node, which then holds the node. Silence with nothing left
    pauses it, unless it is forgotten, which is exactly when it is no seed,
    was silent for longer than the limit, and no daemon with a fresh status
    lists the node or the address as a live peer. *)
Theorem watch_fate s w :
  let '(s', t, _) := watch_turn C answers s w in
  ((∃ id, t = Merged id) ↔ ∃ id held, answers_as (wt_addr w) = Some id ∧ wt_node w ≠ Some id ∧
     holder (polled s w) id = Some held ∧ held ≠ wt_addr w ∧ fresh_row C (polled s w) held = true) ∧
  (t = Forgotten ↔ answers_as (wt_addr w) = None ∧ stranded (polled s w) w ∧ gone (polled s w) w) ∧
  ((∃ w', t = Pause w') ↔ answers_as (wt_addr w) = None ∧ stranded (polled s w) w ∧ ¬ gone (polled s w) w) ∧
  ((∃ w', t = Again w') ↔ answers_as (wt_addr w) = None ∧ ¬ stranded (polled s w) w) ∧
  match t with
  | Merged id => answers_as (wt_addr w) = Some id ∧ daemons s' !! wt_addr w = None ∧ (wt_addr w ∉ watched s') ∧
      ∃ held x, holder (polled s w) id = Some held ∧ held ≠ wt_addr w ∧
        nodes s' !! id = Some x ∧ w_addr x = held ∧ wt_addr w ∈ w_alternates x
  | Streaming w' => same_watch w w' ∧ is_Some (wt_node w') ∧ wt_node w' = answers_as (wt_addr w) ∧ wt_failing w' = None
  | Forgotten => daemons s' !! wt_addr w = None ∧ (wt_addr w ∉ watched s') ∧ ∀ id, wt_node w = Some id → nodes s' !! id = None
  | Again w' => wt_seed w' = wt_seed w ∧ wt_node w' = wt_node w ∧
      match wt_node w with
      | None => ∃ rest, wt_untried w = wt_addr w' :: rest ∧ wt_untried w' = rest ++ [wt_addr w]
      | Some id => wt_addr w' ∈ alternates_of (polled s w) id (wt_addr w) ∧ answers_as (wt_addr w') = Some id ∧
          (∀ h, holder s id = Some h → holder s' id = Some (wt_addr w'))
      end
  | Pause w' => same_watch w w' ∧ wt_node w' = wt_node w ∧ is_Some (wt_failing w')
  end.
Proof.
  unfold watch_turn, polled, answers_as. pose proof (poll_status_node C s (wt_addr w) (answers (wt_addr w))) as Hn.
  pose proof (poll_status_holder C s (wt_addr w) (answers (wt_addr w))) as Hh.
  destruct (poll_status C s (wt_addr w) (answers (wt_addr w))) as [[s1 got] started]. cbn in Hn, Hh. rewrite <-Hn. cbn [fst].
  destruct got as [id|].
  - pose proof (watch_answered_spec s1 w id) as Ha. destruct (watch_answered C s1 w id) as [s2 t].
    destruct Ha as [Hm Ha]. assert (∀ id', Some id = Some id' ↔ id' = id) as Hid by (intros; split; congruence).
    split_and!; [| | | |destruct t; by try destruct Ha as [-> ?]].
    + rewrite Hm. split; [intros (held & ? & ?); by exists id, held|].
      intros (id' & held & [= <-] & ?). by exists held.
    + split; [intros ->; by destruct Ha|by intros [? _]].
    + split; [intros [? ->]; by destruct Ha|by intros [? _]].
    + split; [intros [? ->]; by destruct Ha|by intros [? _]].
  - pose proof (watch_silent_spec s1 w) as Hs. pose proof (watch_silent_ends s1 w) as He.
    destruct (watch_silent C answers s1 w) as [[s2 t] new]. destruct He as (Hf & Hp & Ha). split_and!.
    + split; [intros [id ->]; by destruct Hs|by intros (? & ? & ? & _)].
    + rewrite Hf. tauto.
    + rewrite Hp. tauto.
    + rewrite Ha. tauto.
    + destruct t as [id| |w'|w'|w']; try done.
      destruct Hs as (H1 & H2 & Hs). split_and!; [done..|]. destruct (wt_node w) as [id|]; [|done].
      destruct Hs as (? & ? & Hm). split_and!; [done..|]. intros h. rewrite <-Hh. apply Hm.
Qed.
End fate.

(** ** Two watches of one node

    A watch whose node was claimed by another address is not told: its row is
    gone and its address is an alternate, but its task runs on with the node
    in hand. *)

Definition node_snapshot : Value := obj_of [("node_id", Str "n1"); ("seq", JN 1)].
Definition both_answer : string → Result Value string := λ _, Ok node_snapshot.
Definition only_b : string → Result Value string := λ a, if decide (a = "b:1") then Ok node_snapshot else Err "refused".
Definition held_by_a : Shared :=
  mkShared {[ "a:1" := mkView (Some node_snapshot) (Some 0%N) None (Some "n1") false ]} {[ "a:1"; "b:1" ]}
    {[ "n1" := mkWatch "a:1" ∅ ]} ∅ ∅ ∅.
Definition watch_a : Watcher := mkWatcher "a:1" false (Some "n1") None [].
Definition watch_b : Watcher := mkWatcher "b:1" false None None [].
(** [b:1] takes the node over from [a:1], which was last heard from long ago. *)
Definition taken_over : Shared := (watch_turn (demo_ctx 100000) only_b held_by_a watch_b).1.1.

Example replaced_watch_goes_on :
  holder taken_over "n1" = Some "b:1" ∧ daemons taken_over !! "a:1" = None ∧
  let '(s, t, _) := watch_turn (demo_ctx 101000) both_answer taken_over watch_a in
  t = Streaming watch_a ∧ holder s "n1" = Some "b:1" ∧
  (dv_node_id <$> daemons s !! "a:1") = Some (Some "n1") ∧ (dv_node_id <$> daemons s !! "b:1") = Some (Some "n1").
Proof. vm_compute. done. Qed.

(** While [a:1] stays silent its task outlives the limit and removes the
    node's record from under the watch that holds it. *)
Example replaced_watch_forgets_the_node :
  let '(s, t, _) := watch_turn (demo_ctx 9000000) (λ _, Err "refused") taken_over
                      (mkWatcher "a:1" false (Some "n1") (Some 100000%N) []) in
  t = Forgotten ∧ holder s "n1" = None ∧ is_Some (daemons s !! "b:1").
Proof. vm_compute. split_and!; [done..|by eexists]. Qed.
