(* ===== verification/Announce.v ===== *)
(** * Announcement datagrams (rust/mentatd/src/announce.rs, rust/mentatd-serve/src/main.rs)

    What a daemon broadcasts, and what a listener, a daemon or a router, does
    with a datagram: the checks in their order, the guard against replays, and
    what an accepted announcement leads to. The digest and the JSON text are
    parameters, as in Secret. *)

From S2P Require Import Prelude Text Json Proto Addr Pattern Net State Mesh Secret Groups Stream Watch AgentEnv.

Definition MAX_DATAGRAM : nat := 1400.

(** ** Sending *)

Section announce.
Context (hmac : bytes → bytes → bytes) (to_string : Value → string) (from_slice : bytes → option Value).

(** One round's payload, and the datagram; [seq] counts rounds, those not
    sent included. *)
Definition payload (s : State) (univ : string) (addrs : list string) (tags : gmap string (list string))
    (seq t : N) : Value :=
  obj_of [("proto", Str Version.PROTO); ("node_id", Str (node_id s)); ("control", Str (control_addr s));
          ("http", Str (node_ip s +:+ ":" +:+ pretty (http_port s))); ("universe", Str univ);
          ("addrs", Jstrs addrs); ("addr_tags", Jmap Jstrs tags); ("boot_id", Str (boot_id s));
          ("seq", JN seq); ("t", JN t)].
Definition datagram (key : bytes) (v : Value) : option bytes :=
  let d := String.list_byte_of_string (sign hmac to_string v key) in
  if decide (length d ≤ MAX_DATAGRAM) then Some d else None.

(** MENTAT_ANNOUNCE_ADDR: extra targets. *)
Definition extra_targets (var : string) (port : N) : list string :=
  (λ s, if contains_str ":" s then s else s +:+ ":" +:+ pretty port) <$>
    filter (λ s, str_empty s = false) (trim <$> split_char "," var).

(** ** Receiving *)

(** The last accepted sequence number of each node's last accepted boot. *)
Abbreviation Seen := (gmap string (string * N)) (only parsing).

Inductive Heard :=
| Oversize | Foreign | Unsigned | OtherProto (offered : string) | NoTime | Stale | Nameless | Replayed
| Fresh (v : Value) (node : string).

(** The sequence number within a boot that the guard lets pass. *)
Definition replayed (seen : Seen) (node boot : string) (seq : N) : bool :=
  match seen !! node with
  | Some (b, last) => bool_decide (b = boot ∧ (seq ≤ last)%N)
  | None => false
  end.

(** The checks both listeners share; [mine] is the listener's own node id,
    which a router does not have. The buffer is one byte longer than the
    longest datagram. *)
Definition hear (key : bytes) (univ : string) (mine : option string) (now : f64) (seen : Seen) (dgram : bytes)
    : Outcome (Heard * Seen) :=
  let raw := take (S MAX_DATAGRAM) dgram in
  if decide (length raw = S MAX_DATAGRAM) then Done (Oversize, seen)
  else if negb (bool_decide (claimed_universe from_slice raw = univ)) then Done (Foreign, seen)
  else match verify hmac to_string from_slice raw key with
  | Panic => Panic
  | Done None => Done (Unsigned, seen)
  | Done (Some v) =>
      let offered := str_or "" (index "proto" v) in
      if negb (Version.major_matches offered) then Done (OtherProto offered, seen)
      else match as_u64 (index "t" v) with
      | None => Done (NoTime, seen)
      | Some t =>
          if negb (fresh (f64_of_N t) now) then Done (Stale, seen)
          else
            let node := str_or "" (index "node_id" v) in
            let boot := str_or "" (index "boot_id" v) in
            let seq := default 0%N (as_u64 (index "seq" v)) in
            if str_empty node || str_empty boot || bool_decide (mine = Some node) then Done (Nameless, seen)
            else if replayed seen node boot seq then Done (Replayed, seen)
            else Done (Fresh v node, <[node := (boot, seq)]> seen)
      end
  end.

(** [listen]: the daemon dials the address an announcement names, unless a
    live link covers the node. *)
Definition listen_fresh (v : Value) (node : string) : SM (option string) :=
  match (c ← as_str (index "control" v); if str_empty c then None else Some c) with
  | None => mret None
  | Some control =>
      s ← get_st id;
      if is_some_and (peers s !! node) pe_alive then mret None
      else (d ← dial control; mret (if (d : bool) then Some control else None))
  end.

(** [udp_listener]: the router takes the address to watch from what it can
    reach; the node's watch learns it, or one starts. *)
Definition announce_address (ranked : list string) (src_ip : string) (allowed : Allow) (local : list Net) : string :=
  default src_ip (find_first (λ a, on_local_net a local) (filter (λ a, permits allowed a local = true) ranked)).

Definition router_fresh (C : Ctx) (s : Shared) (v : Value) (src_ip : string) : Shared * list Start :=
  match (http ← as_str (index "http" v); rsplit_once ":" http) with
  | None => (s, [])
  | Some (_, http_port) =>
      let local := ifaces C in
      let allowed := allowed_sources (scfg C) in
      if bool_decide (default 0%N (parse_u16 http_port) = 0%N) then (s, [])
      else if negb (permits allowed src_ip local) then (s, [])
      else
        let node := str_or "" (index "node_id" v) in
        let ranked := strings_of (index "addrs" v) in
        let at_port (a : string) := a +:+ ":" +:+ http_port in
        let target := at_port (announce_address ranked src_ip allowed local) in
        match (if str_empty node then None else nodes s !! node) with
        | Some w => (s <| nodes ::= <[node := add_alternate w target]> |>, [])
        | None =>
            ensure_watched s target
              ((at_port <$> filter (λ a, permits allowed a local = true) ranked) ++ [at_port src_ip])
        end
  end.

(** A listener's run over the datagrams it receives, each with the time it
    comes at: the accepted ones, in order. *)
Fixpoint hear_all (key : bytes) (univ : string) (mine : option string) (seen : Seen) (ds : list (f64 * bytes))
    : Outcome (list (bytes * Value * string) * Seen) :=
  match ds with
  | [] => Done ([], seen)
  | (now, d) :: ds =>
      match hear key univ mine now seen d with
      | Panic => Panic
      | Done (h, seen) =>
          match hear_all key univ mine seen ds with
          | Panic => Panic
          | Done (l, seen) => Done (match h with Fresh v node => (d, v, node) :: l | _ => l end, seen)
          end
      end
  end.
End announce.

(** ** What is accepted *)

Definition boot_of (v : Value) : string := str_or "" (index "boot_id" v).
Definition seq_of (v : Value) : N := default 0%N (as_u64 (index "seq" v)).

Section heard.
Context (hmac : bytes → bytes → bytes) (to_string : Value → string) (from_slice : bytes → option Value).
Abbreviation hears := (hear hmac to_string from_slice).
Abbreviation hears_all := (hear_all hmac to_string from_slice).

Lemma hear_cases key univ mine now seen d h seen' : hears key univ mine now seen d = Done (h, seen') →
  match h with
  | Fresh v node => replayed seen node (boot_of v) (seq_of v) = false ∧ seen' = <[node := (boot_of v, seq_of v)]> seen ∧
      verify hmac to_string from_slice (take (S MAX_DATAGRAM) d) key = Done (Some v)
  | _ => seen' = seen
  end.
Proof.
  unfold hear. cbn zeta. destruct (decide _); [by intros [= <- <-]|].
  destruct (negb _); [by intros [= <- <-]|]. destruct (verify _ _ _ _ _) as [[v|]|] eqn:Hv; [|by intros [= <- <-]|done].
  destruct (negb (Version.major_matches _)); [by intros [= <- <-]|].
  destruct (as_u64 (index "t" v)); [|by intros [= <- <-]]. destruct (negb (fresh _ _)); [by intros [= <- <-]|].
  destruct (_ || _ || _); [by intros [= <- <-]|].
  destruct (replayed _ _ _ _) eqn:Hr; [by intros [= <- <-]|]. by intros [= <- <-].
Qed.

(** Whatever a listener remembers of a node, the next announcement it accepts
    from the node's same boot is a later one. *)
Lemma hear_all_next key univ mine seen ds l seen' node boot last pre d v post :
  hears_all key univ mine seen ds = Done (l, seen') → seen !! node = Some (boot, last) →
  l = pre ++ (d, v, node) :: post → (∀ x, x ∈ pre → x.2 = node → boot_of x.1.2 = boot) → boot_of v = boot →
  (last < seq_of v)%N.
Proof.
  revert seen l last pre. induction ds as [|[now d0] ds IH]; intros seen l last pre; cbn [hear_all].
  { intros [= <- <-] _ Hl. by destruct pre. }
  destruct (hears key univ mine now seen d0) as [[h seen1]|] eqn:Hh; [|done].
  destruct (hears_all key univ mine seen1 ds) as [[l1 seen2]|] eqn:Hr; [|done]. intros [= <- <-] Hseen Hl Hpre Hboot.
  apply hear_cases in Hh. destruct h as [| | | | | | | |v0 node0].
  9: { destruct Hh as (Hrep & -> & _). unfold replayed in Hrep. destruct pre as [|x pre].
       - injection Hl as <- <- <- _. rewrite Hseen in Hrep. apply bool_decide_eq_false in Hrep.
         destruct (decide (last < seq_of v0)%N); [done|]. destruct Hrep. split; [done|lia].
       - injection Hl as <- Hl. destruct (decide (node0 = node)) as [->|Hne].
         + assert (boot_of v0 = boot) as Hb by (apply (Hpre (d0, v0, node)); [by left|done]).
           rewrite Hseen in Hrep. apply bool_decide_eq_false in Hrep.
           assert (last < seq_of v0)%N as Hlt by (destruct (decide (last < seq_of v0)%N); [done|]; destruct Hrep; split; [done|lia]).
           assert (seq_of v0 < seq_of v)%N; [|lia].
           eapply (IH _ _ _ pre); [done|rewrite lookup_insert_eq; by rewrite Hb|done| |done].
           intros y Hy. apply Hpre. by right.
         + eapply (IH _ _ _ pre); [done|by rewrite lookup_insert_ne|done| |done]. intros y Hy. apply Hpre. by right. }
  all: subst seen1; by eapply (IH _ _ _ pre).
Qed.

Lemma hear_all_verified key univ mine seen ds l seen' d v node :
  hears_all key univ mine seen ds = Done (l, seen') → (d, v, node) ∈ l →
  verify hmac to_string from_slice (take (S MAX_DATAGRAM) d) key = Done (Some v).
Proof.
  revert seen l. induction ds as [|[now d0] ds IH]; intros seen l; cbn [hear_all].
  { by intros [= <- <-] ?%not_elem_of_nil. }
  destruct (hears key univ mine now seen d0) as [[h seen1]|] eqn:Hh; [|done].
  destruct (hears_all key univ mine seen1 ds) as [[l1 seen2]|] eqn:Hr; [|done]. intros [= <- <-] Hin.
  apply hear_cases in Hh. destruct h as [| | | | | | | |v0 node0]; try by eapply IH.
  apply elem_of_cons in Hin as [[= -> -> ->]|Hin]; [by destruct Hh as (_ & _ & ?)|by eapply IH].
Qed.

(** C37: A listener that accepts two announcements of one node and one boot,
    with none of another boot of the node between them, accepts them in the
    order they were numbered: none is accepted twice or out of turn while the
    node's boot is the one last heard. *)
Theorem replay_guard key univ mine seen ds l seen' node pre d v mid d' v' post :
  hears_all key univ mine seen ds = Done (l, seen') →
  l = pre ++ (d, v, node) :: mid ++ (d', v', node) :: post →
  boot_of v' = boot_of v → (∀ x, x ∈ mid → x.2 = node → boot_of x.1.2 = boot_of v) →
  (seq_of v < seq_of v')%N ∧ d ≠ d'.
Proof.
  intros Hh Hl Hboot Hmid. assert (seq_of v < seq_of v')%N as Hlt.
  { revert seen l pre Hh Hl. induction ds as [|[now d0] ds IH]; intros seen l pre; cbn [hear_all].
    { intros [= <- <-] Hl. by destruct pre. }
    destruct (hears key univ mine now seen d0) as [[h seen1]|] eqn:Hh; [|done].
    destruct (hears_all key univ mine seen1 ds) as [[l1 seen2]|] eqn:Hr; [|done]. intros [= <- <-] Hl.
    apply hear_cases in Hh. destruct h as [| | | | | | | |v0 node0]; try by eapply IH.
    destruct Hh as (_ & -> & _). destruct pre as [|x pre]; [|injection Hl as _ Hl; by eapply IH].
    injection Hl as <- <- <- Hl. eapply hear_all_next; [exact Hr|apply lookup_insert_eq|exact Hl| |done]. exact Hmid. }
  split; [done|]. intros <-.
  assert (verify hmac to_string from_slice (take (S MAX_DATAGRAM) d) key = Done (Some v)) as H1.
  { eapply hear_all_verified; [exact Hh|]. rewrite Hl. apply elem_of_app. right. by left. }
  assert (verify hmac to_string from_slice (take (S MAX_DATAGRAM) d) key = Done (Some v')) as H2.
  { eapply hear_all_verified; [exact Hh|]. rewrite Hl. apply elem_of_app. right. right. apply elem_of_app. right. by left. }
  rewrite H1 in H2. injection H2 as <-. lia.
Qed.
End heard.

(** ** From the sender to the listener *)

Section delivery.
Context (hmac : bytes → bytes → bytes) (to_string : Value → string) (from_slice : bytes → option Value).

(** What a listener makes of a daemon's announcement whose signed text parses
    back to what was signed: only the clock and the guard can turn it away. *)
Lemma announced_heard s univ addrs tags seq t key mine now seen d :
  let v := payload s univ addrs tags seq t in
  datagram hmac to_string key v = Some d →
  from_slice d = Some (envelope hmac to_string v key) →
  node_id s ≠ EmptyString → boot_id s ≠ EmptyString → mine ≠ Some (node_id s) →
  hear hmac to_string from_slice key univ mine now seen d =
    Done (if negb (fresh (f64_of_N t) now) then (Stale, seen)
          else if replayed seen (node_id s) (boot_id s) seq then (Replayed, seen)
          else (Fresh v (node_id s), <[node_id s := (boot_id s, seq)]> seen)).
Proof.
  intros v Hd Hjson Hn Hb Hm. unfold datagram in Hd. destruct (decide _) as [Hlen|]; [|done]. injection Hd as Hd.
  rewrite <-Hd in Hjson. rewrite Hd in Hlen.
  unfold hear. rewrite (take_ge d) by lia. cbn zeta. rewrite decide_False by lia.
  assert (verify hmac to_string from_slice d key = Done (Some v)) as ->.
  { rewrite <-Hd. apply verify_of_envelope. exact Hjson. }
  rewrite Hd in Hjson.
  assert (claimed_universe from_slice d = univ) as ->.
  { unfold claimed_universe, peek_universe. rewrite Hjson. reflexivity. }
  rewrite bool_decide_eq_true_2 by done. cbn [negb].
  change (str_or "" (index "proto" v)) with Version.PROTO. change (Version.major_matches Version.PROTO) with true. cbn [negb].
  change (as_u64 (index "t" v)) with (Some t). cbn [negb]. destruct (fresh (f64_of_N t) now); [|done]. cbn [negb].
  change (str_or "" (index "node_id" v)) with (node_id s). change (str_or "" (index "boot_id" v)) with (boot_id s).
  change (default 0%N (as_u64 (index "seq" v))) with seq.
  unfold str_empty. rewrite !bool_decide_eq_false_2 by done. cbn [orb]. by destruct (replayed _ _ _ _).
Qed.

(** What a daemon announces is accepted by every other listener of its
    universe that holds the key and whose clock is within the window, unless
    the guard has already passed this boot's number or a later one: the
    listener gets the payload whole and remembers the boot and the number, so
    it accepts the daemon's next round too. The hypothesis is that the signed
    text parses back to what was signed. *)
Theorem announcement_heard s univ addrs tags seq t key mine now seen d :
  let v := payload s univ addrs tags seq t in
  datagram hmac to_string key v = Some d →
  from_slice d = Some (envelope hmac to_string v key) →
  node_id s ≠ EmptyString → boot_id s ≠ EmptyString → mine ≠ Some (node_id s) →
  fresh (f64_of_N t) now = true →
  (∀ last, seen !! node_id s = Some (boot_id s, last) → (last < seq)%N) →
  hear hmac to_string from_slice key univ mine now seen d
  = Done (Fresh v (node_id s), <[node_id s := (boot_id s, seq)]> seen) ∧
  replayed (<[node_id s := (boot_id s, seq)]> seen) (node_id s) (boot_id s) (seq + 1) = false.
Proof.
  intros v Hd Hjson Hn Hb Hm Hf Hseen. split.
  2: { unfold replayed. rewrite lookup_insert_eq. apply bool_decide_eq_false. lia. }
  rewrite (announced_heard s univ addrs tags seq t key mine now seen d Hd Hjson Hn Hb Hm), Hf. cbn [negb].
  assert (replayed seen (node_id s) (boot_id s) seq = false) as ->; [|done].
  unfold replayed. destruct (seen !! node_id s) as [[b last]|] eqn:Hs; [|done]. apply bool_decide_eq_false.
  intros [-> Hle]. specialize (Hseen _ eq_refl). lia.
Qed.
End delivery.

(** ** What the router acts on *)

(** Whatever an announcement says, every address the router starts to
    watch for it is the datagram's source or one it lists, and passes the
    allowed sources; the one a watched node learns is the source or an
    advertised address on the router's own networks. *)
Theorem router_acts_on_allowed C s v src_ip :
  let allowed a := permits (allowed_sources (scfg C)) a (ifaces C) = true in
  let offered a := a = src_ip ∨ Str a ∈ items (index "addrs" v) in
  let '(s', started) := router_fresh C s v src_ip in
  ∃ port,
  (∀ addr others a, (addr, others) ∈ started → a ∈ addr :: others →
     ∃ h, a = h +:+ ":" +:+ port ∧ offered h ∧ allowed h) ∧
  (∀ id w', nodes s' !! id = Some w' → ∃ w, nodes s !! id = Some w ∧ w_addr w' = w_addr w ∧
     ∀ a, a ∈ w_alternates w' → a ∈ w_alternates w ∨
       ∃ h, a = h +:+ ":" +:+ port ∧ allowed h ∧ (h = src_ip ∨ Str h ∈ items (index "addrs" v) ∧ on_local_net h (ifaces C) = true)).
Proof.
  intros allowed offered. unfold router_fresh.
  destruct (http ← as_str (index "http" v); rsplit_once ":" http) as [[host port]|].
  2: { exists EmptyString. split; [by intros ? ? ? ?%not_elem_of_nil|]. intros id w' Hw. exists w'. split_and!; [done..|]. auto. }
  cbn zeta.
  assert (∀ s0, nodes s0 = nodes s → ∀ id w', nodes s0 !! id = Some w' → ∃ w, nodes s !! id = Some w ∧ w_addr w' = w_addr w ∧
     ∀ a, a ∈ w_alternates w' → a ∈ w_alternates w ∨
       ∃ h, a = h +:+ ":" +:+ port ∧ allowed h ∧ (h = src_ip ∨ Str h ∈ items (index "addrs" v) ∧ on_local_net h (ifaces C) = true)) as Hsame.
  { intros s0 -> id w' Hw. exists w'. split_and!; [done..|]. auto. }
  assert (∀ l : list Start, l = [] → ∀ addr others a, (addr, others) ∈ l → a ∈ addr :: others →
     ∃ h, a = h +:+ ":" +:+ port ∧ offered h ∧ allowed h) as Hnone by (intros l -> ? ? ? ?%not_elem_of_nil; done).
  destruct (bool_decide _); [exists port; split; [by apply Hnone|by apply Hsame]|].
  destruct (permits (allowed_sources (scfg C)) src_ip (ifaces C)) eqn:Hsrc; cbn [negb];
    [|exists port; split; [by apply Hnone|by apply Hsame]].
  set (ranked := strings_of (index "addrs" v)).
  set (pick := announce_address ranked src_ip (allowed_sources (scfg C)) (ifaces C)).
  assert (allowed pick ∧ (pick = src_ip ∨ Str pick ∈ items (index "addrs" v) ∧ on_local_net pick (ifaces C) = true)) as [Hp Hwhere].
  { unfold pick, announce_address. destruct (find_first _ _) as [a|] eqn:Hf; cbn; [|by split; [|left]].
    apply find_first_Some in Hf as [[Ha Hin]%list_elem_of_filter Hl]. split; [exact Ha|]. right. split; [|done].
    by apply elem_of_strings_of. }
  destruct (if str_empty _ then None else _) as [w|] eqn:Hw.
  - exists port. split; [by apply Hnone|]. intros id w'. cbn. destruct (str_empty _); [done|]. rewrite lookup_insert.
    case_decide as Hid; [|by apply Hsame]. subst id. intros [= <-]. exists w. split; [done|].
    unfold add_alternate. destruct (decide _); [auto|]. cbn. split; [done|].
    intros a [->%elem_of_singleton|?]%elem_of_union; [right; by exists pick|by left].
  - unfold ensure_watched. destruct (existsb _ _); [exists port; split; [by apply Hnone|by apply Hsame]|].
    destruct (decide _); [exists port; split; [by apply Hnone|by apply Hsame]|]. exists port. split; [|by apply Hsame].
    intros addr others a [= -> ->]%list_elem_of_singleton. rewrite elem_of_cons, elem_of_app.
    intros [->|[Hin| ->%list_elem_of_singleton]].
    + exists pick. split_and!; [done| |done]. unfold offered. tauto.
    + apply list_elem_of_fmap in Hin as (h & -> & [Hh Hin]%list_elem_of_filter). exists h. split_and!; [done| |done].
      right. by apply elem_of_strings_of.
    + exists src_ip. split_and!; [done|by left|done].
Qed.

(** ** Runs *)

Definition quiet_to_string (v : Value) : string := "{}".
Definition announcer : State := state_new "10.0.0.1" "gx10" "10.0.0.1:6379" "boot-a".
Definition demo_payload : Value := payload announcer "default" ["10.0.0.1"] ∅ 4 1000.
Definition demo_key : bytes := [x01; x02].
Definition demo_slice (b : bytes) : option Value :=
  if decide (b = String.list_byte_of_string "{}") then Some (envelope toy_hmac quiet_to_string demo_payload demo_key) else None.

Lemma announcement_heard_witness :
  datagram toy_hmac quiet_to_string demo_key demo_payload = Some (String.list_byte_of_string "{}") ∧
  hear toy_hmac quiet_to_string demo_slice demo_key "default" (Some "n9") (f64_of_N 1010) {[ node_id announcer := ("boot-a", 3%N) ]}
    (String.list_byte_of_string "{}")
  = Done (Fresh demo_payload (node_id announcer), <[node_id announcer := ("boot-a", 4%N)]> {[ node_id announcer := ("boot-a", 3%N) ]}).
Proof.
  split; [vm_compute; reflexivity|].
  apply (announcement_heard toy_hmac quiet_to_string demo_slice announcer "default" ["10.0.0.1"] ∅ 4 1000 demo_key (Some "n9")
    (f64_of_N 1010) {[ node_id announcer := ("boot-a", 3%N) ]} (String.list_byte_of_string "{}")).
  - vm_compute; reflexivity.
  - vm_compute; reflexivity.
  - vm_compute; congruence.
  - vm_compute; congruence.
  - vm_compute; congruence.
  - vm_compute; reflexivity.
  - intros last Hl. assert (last = 3%N) as -> by (vm_compute in Hl; congruence). reflexivity.
Defined.

(** Announcements [1] and [3] of one boot, [2] of the next. *)
Definition numbered (boot : string) (seq : N) : Value :=
  obj_of [("proto", Str "0.99"); ("node_id", Str "n1"); ("boot_id", Str boot); ("seq", JN seq); ("t", JN 1000)].
Definition three_slice (b : bytes) : option Value :=
  let env v := Some (envelope toy_hmac quiet_to_string v demo_key) in
  if decide (b = [x01]) then env (numbered "boot-a" 7) else if decide (b = [x02]) then env (numbered "boot-b" 1)
  else if decide (b = [x03]) then env (numbered "boot-a" 9) else None.
Definition three_hear (ds : list bytes) : Outcome (list (bytes * Value * string) * gmap string (string * N)) :=
  hear_all toy_hmac quiet_to_string three_slice demo_key "default" None ∅ ((λ d, (f64_of_N 1001, d)) <$> ds).

Lemma replay_guard_witness :
  three_hear [[x01]; [x01]; [x03]; [x01]]
  = Done ([([x01], numbered "boot-a" 7, "n1"); ([x03], numbered "boot-a" 9, "n1")], {[ "n1" := ("boot-a", 9%N) ]}) ∧
  (seq_of (numbered "boot-a" 7) < seq_of (numbered "boot-a" 9))%N.
Proof.
  assert (three_hear [[x01]; [x01]; [x03]; [x01]]
    = Done ([([x01], numbered "boot-a" 7, "n1"); ([x03], numbered "boot-a" 9, "n1")], {[ "n1" := ("boot-a", 9%N) ]})) as Hh
    by (vm_compute; reflexivity).
  split; [exact Hh|].
  destruct (replay_guard toy_hmac quiet_to_string three_slice demo_key "default" None ∅ _ _ _ "n1" [] [x01] (numbered "boot-a" 7) []
    [x03] (numbered "boot-a" 9) [] Hh eq_refl eq_refl) as [H _]; [|exact H].
  intros x Hx. by apply not_elem_of_nil in Hx.
Defined.

(** The guard remembers one boot of a node. A datagram of the boot before it,
    replayed inside the clock window, is accepted and takes its place, and then
    the present boot's own datagram passes a second time: both can go on
    replacing each other. *)
Example earlier_boot_replays :
  (λ r, match r with Done (l, _) => Some (l.*1.*1) | Panic => None end) (three_hear [[x01]; [x02]; [x01]; [x02]; [x01]])
  = Some [[x01]; [x02]; [x01]; [x02]; [x01]].
Proof. vm_compute. reflexivity. Qed.
