(* ===== verification/Proxy.v ===== *)
(** * The proxied route (rust/mentatd-serve/src/proxy.rs)

    A request's model is read from its body, JSON or a form; the model table
    says where it goes; it is sent, and sent again only where the connection
    was refused, until the deadline. A streaming client is kept alive by
    comment lines while the upstream is silent.

    The HTTP client is what each turn of the retry loop meets: the clock, the
    tables and what sending gave. The JSON parser and printer are serde_json's
    and parameters. A response is its status and content type; its body is the
    frames polled from it, and a status prints as the parameter [status_text] says. *)

From S2P Require Import Prelude Text Json Proto Addr Pattern Ws Net Groups Prober.
Import Framing.

Definition PROXY_MAX_BODY : N := 134217728.

(** ** Where a path lands upstream *)

Definition upstream_url (base tail : string) : string :=
  let base := trim_slashes base in
  match strip_suffix "/v1" base, strip_prefix "/v1" tail with
  | Some _, Some rest => base +:+ rest
  | Some root, None => root +:+ tail
  | None, _ => base +:+ tail
  end.

(** ** The request's model *)

Record Routed := mkRouted { rt_model : string; rt_stream : bool }.

Definition boundary_of (content_type : string) : option string :=
  '(kind, params) ← split_once ";" content_type;
  if eq_ignore_ascii_case (trim kind) "multipart/form-data" then
    find_map (λ p,
      '(k, v) ← split_once "=" p;
      if eq_ignore_ascii_case (trim k) "boundary" then Some (trim_matches quote_char (trim v)) else None)
      (split_char ";" params)
  else None.

Definition blank_line : bytes := [x0d; x0a; x0d; x0a].
Definition crlf : bytes := [x0d; x0a].
Definition dashes : bytes := [x2d; x2d].

(** The name a part's headers give its field: none for a file. *)
Definition part_name (head : bytes) : option string :=
  let head := to_ascii_lowercase (string_of_bytes (from_utf8_lossy head)) in
  if contains_str "filename=" head then None
  else '(_, rest) ← split_once_str ("name=" +:+ String quote_char EmptyString) head;
       fst <$> split_once quote_char rest.

Definition text_part (part : bytes) : option (string * string) :=
  i ← find part blank_line;
  name ← part_name (take i part);
  let value := drop (i + 4) part in
  let value := default value (strip_suffix_bytes crlf value) in
  s ← from_utf8 value; Some (name, s).

Definition add_field (o : option (string * string)) (out : gmap string string) : gmap string string :=
  match o with Some (k, v) => <[k := v]> out | None => out end.

(** The walk: [rest] is the body behind the last delimiter met, and [started]
    whether there was one. *)
Fixpoint form_loop (fuel : nat) (delim rest : bytes) (started : bool) (out : gmap string string) : gmap string string :=
  match fuel with
  | O => out
  | S fuel =>
      match find rest delim with
      | None => out
      | Some i =>
          let out := if started then add_field (text_part (take i rest)) out else out in
          form_loop fuel delim (drop (i + length delim) rest) true out
      end
  end.
(** Each turn passes a delimiter, which is not empty. *)
Definition form_fields (body : bytes) (boundary : string) : gmap string string :=
  form_loop (S (length body)) (dashes ++ bytes_of boundary) body false ∅.

Section routing.
Context (from_slice : bytes → option Value).

Definition route_by (content_type : option string) (body : bytes) : Result Routed string :=
  match boundary_of (default EmptyString content_type) with
  | Some boundary =>
      let fields := form_fields body boundary in
      match fields !! "model" with
      | Some model => Ok (mkRouted model (is_some_and (fields !! "stream") (λ s, bool_decide (s = "true"))))
      | None => Err "no model field in the form"
      end
  | None =>
      match from_slice body with
      | None => Err "body is neither JSON nor multipart/form-data"
      | Some parsed =>
          match as_str (index "model" parsed) with
          | None => Err "no model field in request"
          | Some model => Ok (mkRouted model (default false (as_bool (index "stream" parsed))))
          end
      end
  end.
End routing.

(** ** Sending *)

Record Resp := mkResp { r_status : N; r_ct : option string }.
Definition is_success (r : Resp) : bool := bool_decide (200 ≤ r_status r < 300)%N.

(** What the HTTP client met: a response, an error of which it knows whether
    the connection was never made, or nothing within the timeout. *)
Inductive Sent := Replied (r : Resp) | Errored (is_connect : bool) (msg : string) | Silent.
Record SendError := mkSendError { se_msg : string; se_connect : bool; se_timeout : bool }.

(** [{:.1}] of a duration's seconds is part of a message alone. *)
Definition send_once_checked (timeout_msg : string) (o : Sent) : Result Resp SendError :=
  match o with
  | Replied r => Ok r
  | Errored c m => Err (mkSendError m c false)
  | Silent => Err (mkSendError timeout_msg false true)
  end.

Record Refusal := mkRefusal { rf_status : N; rf_body : Value }.
Definition refusal_new (status : N) (error : string) : Refusal := mkRefusal status (obj_of [("error", Str error)]).

(** The request as every try sends it. *)
Record Call := mkCall { c_model : string; c_tail : string; c_deadline : N }.

(** One turn of the loop: the tables and the time at the lookup, what the
    client met if it was asked, and the time the deadline is compared with. *)
Record Turn := mkTurn { t_state : Shared; t_clock : N; t_sent : Sent; t_checked : N }.

Section dispatch.
Context `{HI : HashIter} (C : Ctx) (timeout_msg secs_text : string) (builds : string → option string).

(** The tables as a turn reads them. *)
Definition table_at (t : N) (s : Shared) : gmap string (string * string) := model_table (at_time C t) s.

Definition refusal (c : Call) (t : N) (s : Shared) : Refusal :=
  let pending := not_ready (at_time C t) s in
  let waited := pretty (secs (model_wait (scfg C))) in
  match pending !! c_model c with
  | Some why => refusal_new 503 (c_model c +:+ " is not ready after " +:+ waited +:+ "s: " +:+ why)
  | None => mkRefusal 404 (obj_of [
      ("error", Str ("no group serves model " +:+ debug_str (c_model c) +:+ " after " +:+ waited +:+ "s"));
      ("available", Jstrs (bt_keys (table_at t s)));
      ("not_ready", Jstrmap pending)])
  end.

Abbreviation Dispatched := (Result (string * Resp) Refusal) (only parsing).

(** What a turn sent, and whether the loop ends there. *)
Definition attempt (c : Call) (t : Turn) : option (string * string * Sent) * option Dispatched :=
  match table_at (t_clock t) (t_state t) !! c_model c with
  | None =>
      (None, if bool_decide (t_checked t < c_deadline c)%N then None
             else Some (Err (refusal c (t_checked t) (t_state t))))
  | Some (group, base) =>
      let url := upstream_url base (c_tail c) in
      match builds url with
      | Some e => (None, Some (Err (refusal_new 502 ("cannot build the upstream request: " +:+ e))))
      | None =>
          (Some (group, url, t_sent t),
           match send_once_checked timeout_msg (t_sent t) with
           | Ok resp => Some (Ok (group, resp))
           | Err e =>
               if se_connect e && bool_decide (t_checked t < c_deadline c)%N then None
               else if se_timeout e
               then Some (Err (refusal_new 504 (group +:+ " gave no response within " +:+ secs_text +:+ "s")))
               else Some (Err (refusal_new 502 (group +:+ " did not answer: " +:+ se_msg e)))
           end)
      end
  end.

(** [dispatch]: what was sent over the turns, and what came of it, if the
    turns are enough for it to end. *)
Fixpoint dispatch (c : Call) (turns : list Turn) : list (string * string * Sent) * option Dispatched :=
  match turns with
  | [] => ([], None)
  | t :: turns =>
      let '(sent, done) := attempt c t in
      match done with
      | Some r => (option_list sent, Some r)
      | None => let '(sents, r) := dispatch c turns in (option_list sent ++ sents, r)
      end
  end.
End dispatch.

(** ** A stream kept alive *)

Section keepalive.
Context (json_text : Value → string) (status_text : N → string).

Definition eol : string := String newline EmptyString.
Definition message (r : Refusal) : string :=
  match as_str (index "error" (rf_body r)) with
  | Some e => e
  | None => "HTTP " +:+ status_text (rf_status r)
  end.

Definition error_events (msg : string) : list bytes :=
  let event := obj_of [("error", obj_of [("message", Str msg); ("type", Str "upstream_error")])] in
  [bytes_of ("data: " +:+ json_text event +:+ eol +:+ eol); bytes_of ("data: [DONE]" +:+ eol +:+ eol)].

(** What the dispatch's task has sent to the body, and what polling the
    upstream's body gives. *)
Inductive Rx := RxPending | RxGot (r : Result Resp Refusal) | RxClosed.
Inductive Poll := Pending | Frame (b : bytes) | BodyError | Ended.
Record Polled := mkPolled { p_rx : Rx; p_tick : bool; p_body : Poll }.

Inductive Keep := Waiting | Relaying | Failing (q : list bytes) | Done.

Definition keepalive_line : bytes := bytes_of (": keepalive" +:+ eol +:+ eol).

(** The state the reply leads to: the loop's turns before it returns. *)
Definition resolve (k : Keep) (p : Polled) : Keep :=
  match k, p_rx p with
  | Waiting, RxGot (Ok resp) =>
      if is_success resp then Relaying
      else Failing (error_events ("upstream answered HTTP " +:+ status_text (r_status resp)))
  | Waiting, RxGot (Err refusal) => Failing (error_events (message refusal))
  | Waiting, RxClosed => Failing (error_events "the router dropped the request")
  | _, _ => k
  end.

Definition poll_frame (k : Keep) (p : Polled) : Poll * Keep :=
  match resolve k p with
  | Waiting => (if p_tick p then Frame keepalive_line else Pending, Waiting)
  | Relaying => (p_body p, Relaying)
  | Failing (b :: q) => (Frame b, Failing q)
  | Failing [] => (Ended, Done)
  | Done => (Ended, Done)
  end.

Fixpoint poll_all (k : Keep) (ps : list Polled) : list Poll :=
  match ps with
  | [] => []
  | p :: ps => let '(o, k) := poll_frame k p in o :: poll_all k ps
  end.
End keepalive.

(** ** The route as a whole *)

(** What [Tracked::new] is told of a request the upstream has accepted. *)
Record Tracking := mkTracking { tk_model : string; tk_group : string; tk_bytes : N; tk_stream : bool }.

Inductive Answer :=
  | Refused (status : N) (body : Value)
  | Relayed (resp : Resp)
  | EventStream (reply : Rx).

Section forward.
Context `{HI : HashIter} (C : Ctx) (timeout_msg secs_text : string) (builds : string → option string).
Context (from_slice : bytes → option Value).

Definition into_response (r : Refusal) : Answer := Refused (rf_status r) (rf_body r).

(** The answer, and the row registered with it. *)
Definition relay_or_refuse (routed : Routed) (size : N) (r : Result (string * Resp) Refusal) : Answer * option Tracking :=
  match r with
  | Ok (group, resp) => (Relayed resp, Some (mkTracking (rt_model routed) group size (rt_stream routed)))
  | Err r => (into_response r, None)
  end.
Definition late_reply (routed : Routed) (size : N) (r : option (Result (string * Resp) Refusal)) : Rx * option Tracking :=
  match r with
  | Some (Ok (group, resp)) => (RxGot (Ok resp), Some (mkTracking (rt_model routed) group size true))
  | Some (Err r) => (RxGot (Err r), None)
  | None => (RxPending, None)
  end.

(** [body] is none when it is over the limit. [early] are the turns that end
    before the first keepalive tick, [late] the ones after it. No answer means
    the turns given are not enough. *)
Definition forward (body : option bytes) (content_type : option string) (tail : string) (arrival : N)
    (early late : list Turn) : option (Answer * option Tracking) :=
  match body with
  | None => Some (Refused 413 (obj_of [("error", Str ("request body over " +:+ pretty PROXY_MAX_BODY +:+ " bytes"))]), None)
  | Some bytes =>
      match route_by from_slice content_type bytes with
      | Err e => Some (Refused 400 (obj_of [("error", Str e)]), None)
      | Ok routed =>
          let c := mkCall (rt_model routed) tail (arrival + model_wait (scfg C)) in
          let go := dispatch C timeout_msg secs_text builds c in
          let size := N.of_nat (length bytes) in
          if negb (rt_stream routed) || bool_decide (sse_keepalive (scfg C) = 0%N)
          then relay_or_refuse routed size <$> (go (early ++ late)).2
          else match (go early).2 with
               | Some r => Some (relay_or_refuse routed size r)
               | None =>
                   let '(rx, tracked) := late_reply routed size (go (early ++ late)).2 in
                   Some (EventStream rx, tracked)
               end
      end
  end.
End forward.

(** ** Where a path lands *)

Lemma upstream_url_root base tail : upstream_url base tail = default (trim_slashes base) (strip_suffix "/v1" (trim_slashes base)) +:+ tail.
Proof.
  unfold upstream_url. destruct (strip_suffix "/v1" _) as [root|] eqn:Hs; [|done]. cbn [default from_option id].
  destruct (strip_prefix "/v1" tail) as [rest|] eqn:Ht; [|done].
  apply strip_suffix_Some in Hs. apply strip_prefix_Some in Ht. rewrite Hs, Ht at 1. by rewrite str_app_assoc.
Qed.

(** ** The form *)

(** The walk's fuel is enough for any body. *)
Lemma form_loop_fuel fuel fuel' delim rest started out :
  delim ≠ [] → length rest < fuel → length rest < fuel' →
  form_loop fuel delim rest started out = form_loop fuel' delim rest started out.
Proof.
  intros Hd. revert fuel' rest started out. induction fuel as [|fuel IH]; intros [|fuel'] rest started out H H'; [lia..|].
  cbn [form_loop]. destruct (find rest delim) as [i|] eqn:Hi; [|done]. apply find_bound in Hi.
  assert (length delim ≠ 0) by by destruct delim. apply IH; rewrite length_drop; lia.
Qed.

(** A form as a client writes it: each part is its headers, a blank line and
    its value, a delimiter before each and one more at the end. *)
Record Part := mkPart { part_head : bytes; part_value : bytes }.
Definition part_bytes (p : Part) : bytes := part_head p ++ blank_line ++ part_value p ++ crlf.
Definition delimiter (boundary : string) : bytes := dashes ++ bytes_of boundary.
Definition form_body (boundary : string) (parts : list Part) (epilogue : bytes) : bytes :=
  foldr (λ p rest, delimiter boundary ++ part_bytes p ++ rest) (delimiter boundary ++ epilogue) parts.

(** What RFC 2046 asks of it: the boundary holds no line break, no part holds
    the delimiter and a part's headers hold no blank line. *)
Record part_fits (boundary : string) (p : Part) : Prop := {
  fits_delimiter : find (part_bytes p) (delimiter boundary) = None;
  fits_head : find (part_head p ++ [x0d; x0a; x0d]) blank_line = None }.

Lemma find_short l needle : length l < length needle → find l needle = None.
Proof.
  intros Hl. destruct (find l needle) as [i|] eqn:Hi; [|done]. apply find_bound in Hi. lia.
Qed.

Lemma find_no_straddle a x t needle :
  x ∉ needle → length t < length needle → find (a ++ [x]) needle = None → find (a ++ x :: t) needle = None.
Proof.
  intros Hx Ht. induction a as [|b a IH]; intros Ha.
  - cbn [app find] in Ha |- *. destruct (begins needle (x :: t)) eqn:Hb.
    + apply bool_decide_eq_true in Hb. destruct Hx. rewrite <-Hb. destruct needle as [|y n]; [cbn in Ht; lia|].
      cbn. by left.
    + by rewrite find_short.
  - cbn [app find] in Ha |- *. destruct (begins needle (b :: a ++ [x])) eqn:Hb; [done|].
    destruct (begins needle (b :: a ++ x :: t)) eqn:Hb'.
    + exfalso. apply bool_decide_eq_true in Hb'. apply bool_decide_eq_false in Hb.
      destruct (decide (length needle ≤ length (b :: a ++ [x]))) as [Hle|Hgt].
      * apply Hb. rewrite <-Hb' at 2. change (b :: a ++ x :: t) with ((b :: a) ++ [x] ++ t).
        rewrite app_assoc. by rewrite (take_app_le _ t).
      * apply Hx. rewrite <-Hb'. change (b :: a ++ x :: t) with ((b :: a) ++ [x] ++ t).
        rewrite app_assoc, (take_app_ge _ t) by (rewrite app_comm_cons in Hgt; lia).
        apply elem_of_app; left. apply elem_of_app; right. by left.
    + rewrite IH; [done|]. by apply fmap_None in Ha.
Qed.

(** What a client puts into a part: a field under its name, or a file, which
    has a name of its own; [it_more] is what follows on the line and below it. *)
Record Item := mkItem { it_name : string; it_file : option string; it_more : string; it_value : bytes }.
Definition quote : string := String quote_char EmptyString.
Definition line_end : string := String carriage (String newline EmptyString).
Definition disposition : string := line_end +:+ "Content-Disposition: form-data; name=" +:+ quote.
Definition item_tail (it : Item) : string :=
  match it_file it with Some f => "; filename=" +:+ quote +:+ f +:+ quote | None => "" end +:+ it_more it.
Definition item_head (it : Item) : string := disposition +:+ it_name it +:+ quote +:+ item_tail it.
Definition item_part (it : Item) : Part := mkPart (bytes_of (item_head it)) (it_value it).

(** The headers are UTF-8 and the name ends at its quote; nothing in the name or
    in the further headers spells [filename=]. *)
Record item_fits (boundary : string) (it : Item) : Prop := {
  item_part_fits : part_fits boundary (item_part it);
  item_text : utf8_valid (codes (item_head it)) = true;
  item_name : lacks quote_char (it_name it) = true;
  item_says : contains_str "filename=" (to_ascii_lowercase (it_name it +:+ quote +:+ it_more it)) = false }.

(** The fields a reader should find: no file, and no value that is not text. *)
Definition expected_field (it : Item) (fields : gmap string string) : gmap string string :=
  match it_file it, from_utf8 (it_value it) with
  | None, Some text => <[to_ascii_lowercase (it_name it) := text]> fields
  | _, _ => fields
  end.

Lemma lowercase_app s t : to_ascii_lowercase (s +:+ t) = to_ascii_lowercase s +:+ to_ascii_lowercase t.
Proof. induction s as [|a s IH]; [done|]. rewrite app_String. cbn. by rewrite IH. Qed.
Lemma lower_quote a : lower_char a = quote_char → a = quote_char.
Proof. destruct a as [[] [] [] [] [] [] [] []]; vm_compute; done. Qed.
Lemma lowercase_lacks_quote s : lacks quote_char s = true → lacks quote_char (to_ascii_lowercase s) = true.
Proof.
  induction s as [|a s IH]; [done|]. cbn [to_ascii_lowercase]. rewrite !lacks_cons. intros [Ha Hs].
  split; [|by apply IH]. by intros ?%lower_quote.
Qed.
Lemma contains_str_app_r p s t : contains_str p t = true → contains_str p (s +:+ t) = true.
Proof.
  intros Ht. induction s as [|a s IH]; [done|]. rewrite app_String. cbn [contains_str]. by rewrite IH, orb_true_r.
Qed.

Lemma split_once_str_step p a s : String.prefix p (String a s) = false →
  split_once_str p (String a s) = (λ '(l, r), (String a l, r)) <$> split_once_str p s.
Proof. intros Hp. cbn [split_once_str]. unfold strip_prefix. by rewrite Hp. Qed.

Lemma split_once_str_here p s : split_once_str p (p +:+ s) = Some (EmptyString, s).
Proof. pose proof (strip_prefix_app p s) as Hs. destruct (p +:+ s); cbn [split_once_str]; by rewrite Hs. Qed.

(** The fixed start of the headers neither names a file nor ends early. *)
Lemma disposition_skipped s :
  contains_str "filename=" (to_ascii_lowercase disposition +:+ s) = contains_str "filename=" s ∧
  split_once_str ("name=" +:+ quote) (to_ascii_lowercase disposition +:+ s) =
    Some (line_end +:+ "content-disposition: form-data; ", s).
Proof.
  split; [reflexivity|].
  pose proof (split_once_str_here ("name=" +:+ quote) s) as Hend.
  change (to_ascii_lowercase disposition +:+ s)
    with ((line_end +:+ "content-disposition: form-data; ") +:+ ("name=" +:+ quote) +:+ s).
  generalize dependent (("name=" +:+ quote) +:+ s). intros rest Hend. set (needle := "name=" +:+ quote) in *.
  change (line_end +:+ "content-disposition: form-data; ")
    with (String carriage (String newline "content-disposition: form-data; ")).
  rewrite !app_String. repeat rewrite split_once_str_step by reflexivity.
  change (EmptyString +:+ rest) with rest. by rewrite Hend.
Qed.

Lemma part_name_item boundary it : item_fits boundary it →
  part_name (bytes_of (item_head it)) =
    match it_file it with None => Some (to_ascii_lowercase (it_name it)) | Some _ => None end.
Proof.
  intros [_ Htext Hname Hsays]. unfold part_name. fold quote. cbv zeta.
  rewrite from_utf8_lossy_valid by (unfold numbers; by rewrite to_N_bytes_of).
  rewrite string_of_bytes_of. unfold item_head. rewrite lowercase_app.
  destruct (disposition_skipped (to_ascii_lowercase (it_name it +:+ quote +:+ item_tail it))) as [-> Hsplit].
  unfold item_tail in *. destruct (it_file it) as [f|].
  - rewrite lowercase_app, (lowercase_app quote). rewrite !contains_str_app_r; [done|].
    rewrite !lowercase_app. change (to_ascii_lowercase "; filename=") with ("; " +:+ "filename=").
    rewrite !str_app_assoc. apply contains_str_app_r. reflexivity.
  - change (EmptyString +:+ it_more it) with (it_more it) in *. rewrite Hsays, Hsplit. cbn [mbind option_bind].
    rewrite lowercase_app, (lowercase_app quote). change (to_ascii_lowercase quote) with quote.
    change (quote +:+ to_ascii_lowercase (it_more it)) with (String quote_char (to_ascii_lowercase (it_more it))).
    by rewrite split_once_first by by apply lowercase_lacks_quote.
Qed.

Lemma text_part_item boundary it out : item_fits boundary it →
  add_field (text_part (part_bytes (item_part it))) out = expected_field it out.
Proof.
  intros Hit. pose proof (part_name_item boundary it Hit) as Hn. destruct Hit as [[_ Hh] _ _ _].
  unfold text_part, part_bytes, expected_field, item_part in *. cbn [part_head part_value] in *.
  set (head := bytes_of (item_head it)) in *. rewrite find_behind by done. cbn [mbind option_bind].
  rewrite take_app_length, Hn. destruct (it_file it); [done|]. cbn [mbind option_bind].
  change (length head + 4) with (length head + length blank_line).
  rewrite app_assoc, <-length_app, drop_app_length, strip_suffix_bytes_app. cbn [default from_option id].
  by destruct (from_utf8 _).
Qed.

Lemma find_next_delimiter boundary p rest :
  x0a ∉ delimiter boundary → part_fits boundary p →
  find (part_bytes p ++ delimiter boundary ++ rest) (delimiter boundary) = Some (length (part_bytes p)).
Proof.
  intros Hlf [Hd _]. apply find_behind; [done|].
  assert (part_bytes p = (part_head p ++ blank_line ++ part_value p ++ [x0d]) ++ [x0a]) as E
    by (unfold part_bytes; by rewrite <-!app_assoc).
  rewrite E in Hd |- *. rewrite <-(app_assoc _ [x0a]). apply find_no_straddle; [done| |done].
  rewrite length_take. cbn. lia.
Qed.

Lemma form_loop_parts fuel boundary items epilogue out :
  x0a ∉ delimiter boundary → Forall (item_fits boundary) items → find epilogue (delimiter boundary) = None →
  length items + 1 < fuel →
  ∀ it, item_fits boundary it →
  form_loop fuel (delimiter boundary)
    (part_bytes (item_part it) ++ form_body boundary (item_part <$> items) epilogue) true out =
  foldl (λ m it, expected_field it m) out (it :: items).
Proof.
  intros Hlf Hps He. revert fuel out. induction Hps as [|q items Hq _ IH]; intros fuel out Hf it Hit;
    (destruct fuel as [|fuel]; [cbn in Hf; lia|]); cbn [form_loop form_body foldr fmap list_fmap];
    rewrite find_next_delimiter by (done || apply Hit); rewrite take_app_length, (text_part_item boundary) by done;
    rewrite app_assoc, <-length_app, drop_app_length.
  - destruct fuel as [|fuel]; [cbn in Hf; lia|]. cbn [form_loop]. by rewrite He.
  - fold (@fmap list list_fmap _ _ item_part). fold (form_body boundary (item_part <$> items) epilogue).
    rewrite IH; [done|cbn in Hf; lia|done].
Qed.

(** C34: a form is read as what its client put in: every field under its name,
    in lower case, a later one in place of an earlier of its name; a part with
    a file name is passed over, whatever its bytes spell, and so is one whose
    value is not UTF-8. Asked for is a form as clients write it: the boundary
    holds no line feed and is in no part, a part starts with its
    Content-Disposition, headers are UTF-8 and hold no blank line, and neither
    a name nor a further header spells [filename=]. *)
Theorem form_fields_read boundary items epilogue :
  x0a ∉ delimiter boundary → Forall (item_fits boundary) items → find epilogue (delimiter boundary) = None →
  form_fields (form_body boundary (item_part <$> items) epilogue) boundary =
  foldl (λ m it, expected_field it m) ∅ items.
Proof.
  intros Hlf Hps He. unfold form_fields. fold (delimiter boundary).
  destruct Hps as [|p items Hp Hps]; cbn [form_loop form_body foldr fmap list_fmap].
  - rewrite find_here. cbn [Nat.add]. rewrite drop_app_length. rewrite length_app. cbn [length delimiter dashes app Nat.add form_loop].
    fold (delimiter boundary). change (x2d :: x2d :: bytes_of boundary) with (delimiter boundary). by rewrite He.
  - fold (@fmap list list_fmap _ _ item_part).
    rewrite find_here. cbn [Nat.add]. rewrite drop_app_length. fold (form_body boundary (item_part <$> items) epilogue).
    apply form_loop_parts; [done..| |done]. rewrite !length_app.
    enough (length items ≤ length (form_body boundary (item_part <$> items) epilogue)) by (cbn; lia).
    clear. induction items as [|q items IH]; [cbn; lia|]. cbn [form_body foldr fmap list_fmap].
    fold (@fmap list list_fmap _ _ item_part). fold (form_body boundary (item_part <$> items) epilogue).
    rewrite !length_app. cbn in *. lia.
Qed.

(** An audio upload as the OpenAI client sends one: the file's bytes spell a
    field of their own. *)
Definition dq : string := quote.
Definition crlf_text : string := String carriage eol.
Definition uploaded : list Item := [
  mkItem "file" (Some "a.wav") (line_end +:+ "Content-Type: audio/wav")
    (bytes_of ("RIFF name=" +:+ dq +:+ "model" +:+ dq +:+ crlf_text +:+ crlf_text +:+ "not-a-model"));
  mkItem "model" None "" (bytes_of "whisper")].
Definition upload : list Part := item_part <$> uploaded.

Lemma form_fields_read_witness :
  form_fields (form_body "BOUND" upload (bytes_of ("--" +:+ crlf_text))) "BOUND" = {["model" := "whisper"]}.
Proof.
  unfold upload. rewrite form_fields_read.
  - by vm_compute.
  - apply (bool_decide_unpack _). by vm_compute.
  - repeat constructor; by vm_compute.
  - by vm_compute.
Defined.

Example whisper_routes :
  route_by (λ _, None) (Some "multipart/form-data; boundary=BOUND") (form_body "BOUND" upload (bytes_of ("--" +:+ crlf_text))) =
  Ok (mkRouted "whisper" false).
Proof. by vm_compute. Qed.
Example boundaries :
  boundary_of ("Multipart/Form-Data; charset=utf-8; BOUNDARY=" +:+ dq +:+ "a=b" +:+ dq) = Some "a=b" ∧
  boundary_of "application/json" = None ∧ boundary_of "multipart/form-data" = None.
Proof. by vm_compute. Qed.
Example urls :
  upstream_url "http://10.0.0.1:8000/v1" "/v1/chat/completions" = "http://10.0.0.1:8000/v1/chat/completions" ∧
  upstream_url "http://10.0.0.1:8000/v1/" "/tokenize" = "http://10.0.0.1:8000/tokenize" ∧
  upstream_url "http://h:8000" "/v1/chat/completions" = "http://h:8000/v1/chat/completions".
Proof. by vm_compute. Qed.

(** ** Sending *)

Section sending.
Context `{HI : HashIter} (C : Ctx) (timeout_msg secs_text : string) (builds : string → option string).
Abbreviation all_turns := (dispatch C timeout_msg secs_text builds).
Abbreviation one_turn := (attempt C timeout_msg secs_text builds).

(** A send the upstream cannot have received. *)
Definition refused (x : string * string * Sent) : Prop := ∃ msg, x.2 = Errored true msg.

Lemma attempt_spec c t :
  let '(sent, r) := one_turn c t in
  (∀ g url o, sent = Some (g, url, o) →
     o = t_sent t ∧ ∃ base, table_at C (t_clock t) (t_state t) !! c_model c = Some (g, base) ∧ url = upstream_url base (c_tail c)) ∧
  match r with
  | None => (t_checked t < c_deadline c)%N ∧ ∀ x, sent = Some x → refused x
  | Some (Ok (g, resp)) => ∃ url, sent = Some (g, url, Replied resp)
  | Some (Err _) => ∀ x, sent = Some x → ∀ resp, x.2 ≠ Replied resp
  end.
Proof.
  unfold attempt. destruct (table_at C (t_clock t) (t_state t) !! c_model c) as [[g base]|].
  - destruct (builds _); [split; [done|]; by intros|].
    assert (∀ g' url o, Some (g, upstream_url base (c_tail c), t_sent t) = Some (g', url, o) →
      o = t_sent t ∧ ∃ base', Some (g, base) = Some (g', base') ∧ url = upstream_url base' (c_tail c)) as Hs
      by (intros ??? [= <- <- <-]; split; [done|by exists base]).
    unfold refused. destruct (t_sent t) as [resp|[] msg|] eqn:Ht; cbn; try (split; [done|]).
    + by eexists.
    + case_bool_decide; cbn.
      * split; [done|]. intros x [= <-]. by exists msg.
      * by intros x [= <-] resp.
    + by intros x [= <-] resp.
    + by intros x [= <-] resp.
  - split; [done|]. case_bool_decide; [|done]. by split.
Qed.

(** C18: a request is sent to the address the model table of that moment gives
    for its model; every send but the last was refused by the network, so the
    upstream receives the request once at most; the answer relayed is that of
    the last send, and no refusal follows an answer. *)
Theorem sent_once c turns :
  let '(sents, r) := all_turns c turns in
  (∀ g url o, (g, url, o) ∈ sents → ∃ t base, t ∈ turns ∧ o = t_sent t ∧
     table_at C (t_clock t) (t_state t) !! c_model c = Some (g, base) ∧ url = upstream_url base (c_tail c)) ∧
  match r with
  | Some (Ok (g, resp)) => ∃ before url, sents = before ++ [(g, url, Replied resp)] ∧ Forall refused before
  | Some (Err _) => ∃ before last, sents = before ++ option_list last ∧ Forall refused before ∧
      ∀ x resp, last = Some x → x.2 ≠ Replied resp
  | None => Forall refused sents
  end.
Proof.
  induction turns as [|t turns IH]; cbn [dispatch].
  { split; [by intros ??? ?%not_elem_of_nil|constructor]. }
  pose proof (attempt_spec c t) as Ha. destruct (one_turn c t) as [sent done] eqn:E. destruct Ha as [Hs Hr].
  assert (∀ g url o, (g, url, o) ∈ option_list sent → ∃ t' base, t' ∈ t :: turns ∧ o = t_sent t' ∧
     table_at C (t_clock t') (t_state t') !! c_model c = Some (g, base) ∧ url = upstream_url base (c_tail c)) as Hs'.
  { intros g url o Hin. destruct sent as [x|]; cbn in Hin; [|by apply not_elem_of_nil in Hin].
    apply list_elem_of_singleton in Hin as <-. destruct (Hs _ _ _ eq_refl) as (-> & base & ? & ?).
    exists t, base. split_and!; [by left|done..]. }
  destruct done as [[[g resp]|e]|].
  - split; [done|]. destruct Hr as [url ->]. exists [], url. by split.
  - split; [done|]. exists [], sent. split_and!; [done..|]. intros x resp Hx. by apply Hr.
  - destruct (all_turns c turns) as [sents r]. destruct IH as [IHs IHr]. destruct Hr as [_ Hr].
    assert (Forall refused (option_list sent)) as Hf.
    { destruct sent as [x|]; [|constructor]. constructor; [by apply Hr|constructor]. }
    split.
    + intros g url o [Hin|Hin]%elem_of_app; [by apply Hs'|].
      destruct (IHs _ _ _ Hin) as (t' & base & ? & ?). exists t', base. split; [by right|done].
    + destruct r as [[[g resp]|e]|].
      * destruct IHr as (before & url & -> & ?). exists (option_list sent ++ before), url.
        rewrite app_assoc. split; [done|by apply Forall_app].
      * destruct IHr as (before & last & -> & ? & ?). exists (option_list sent ++ before), last.
        rewrite app_assoc. split_and!; [done|by apply Forall_app|done].
      * by apply Forall_app.
Qed.

Lemma dispatch_answered c turns g resp : (all_turns c turns).2 = Some (Ok (g, resp)) →
  ∃ url, list.last (all_turns c turns).1 = Some (g, url, Replied resp).
Proof.
  induction turns as [|t turns IH]; cbn [dispatch]; [done|].
  pose proof (attempt_spec c t) as Ha. destruct (one_turn c t) as [sent [r|]]; destruct Ha as [_ Hr].
  - cbn. intros [= ->]. destruct Hr as [url ->]. by exists url.
  - destruct (all_turns c turns) as [sents r]. cbn in *. intros Hd. destruct (IH Hd) as [url Hl]. exists url.
    by rewrite last_app, Hl.
Qed.

(** Turns behind the one that ended the loop are not taken. *)
Lemma dispatch_enough c early late r : (all_turns c early).2 = Some r → all_turns c (early ++ late) = all_turns c early.
Proof.
  induction early as [|t early IH]; cbn [dispatch app]; [done|]. destruct (one_turn c t) as [sent [r'|]]; [done|].
  destruct (all_turns c early) as [sents r0] eqn:E. cbn. intros Hr. specialize (IH Hr). by rewrite IH.
Qed.

(** Consecutive turns are a nap apart, and a turn's clock does not go back. *)
Definition naps (turns : list Turn) : Prop :=
  ∀ i t t', turns !! i = Some t → turns !! S i = Some t' → (t_checked t + 500 ≤ t_checked t')%N.

Lemma dispatch_ends_aux c turns t0 :
  naps turns → (∀ t, head turns = Some t → (t0 ≤ t_checked t)%N) →
  (c_deadline c + 500 ≤ t0 + 500 * N.of_nat (length turns))%N → turns ≠ [] → is_Some (all_turns c turns).2.
Proof.
  revert t0. induction turns as [|t turns IH]; intros t0 Hn Hh Hlen; [done|]. intros _. cbn [dispatch].
  pose proof (attempt_spec c t) as Ha. destruct (one_turn c t) as [sent [r|]] eqn:E; [by eexists|].
  destruct Ha as [_ [Hlt _]]. specialize (Hh t eq_refl).
  destruct turns as [|t1 turns]; [cbn in Hlen; lia|].
  assert (is_Some (all_turns c (t1 :: turns)).2) as Hs.
  { apply (IH (t0 + 500)%N); [|..|done].
    - intros i. apply (Hn (S i)).
    - intros t' [= <-]. specialize (Hn 0 t t1 eq_refl eq_refl). lia.
    - cbn [length] in Hlen |- *. lia. }
  by destruct (all_turns c (t1 :: turns)) as [sents r].
Qed.

(** C33: the loop ends: each turn that does not end it is before the deadline
    and sleeps half a second, so a request held for [model_wait] is answered or
    refused within as many turns as that wait has half seconds, and one more. *)
Theorem dispatch_ends model tail arrival turns :
  naps turns → (∀ t, head turns = Some t → (arrival ≤ t_checked t)%N) →
  (model_wait (scfg C) + 500 ≤ 500 * N.of_nat (length turns))%N →
  is_Some (all_turns (mkCall model tail (arrival + model_wait (scfg C))) turns).2.
Proof.
  intros Hn Hh Hlen. apply (dispatch_ends_aux _ _ arrival); [done..|cbn; lia|]. intros ->. cbn in Hlen. lia.
Qed.
End sending.

(** ** The stream a client reads *)

Section stream.
Context (json_text : Value → string) (status_text : N → string).

Definition waited (p : Polled) : Poll := if p_tick p then Frame keepalive_line else Pending.
(** Why a reply ends the wait without a body, if it does. *)
Definition failure (x : Rx) : option string :=
  match x with
  | RxPending => None
  | RxGot (Ok resp) => if is_success resp then None else Some ("upstream answered HTTP " +:+ status_text (r_status resp))
  | RxGot (Err r) => Some (message status_text r)
  | RxClosed => Some "the router dropped the request"
  end.

Lemma poll_done ps : poll_all json_text status_text Done ps = replicate (length ps) Ended.
Proof. induction ps as [|p ps IH]; [done|]. cbn. by rewrite IH. Qed.
Lemma poll_relaying ps : poll_all json_text status_text Relaying ps = p_body <$> ps.
Proof. induction ps as [|p ps IH]; [done|]. cbn. by rewrite IH. Qed.
Lemma poll_failing q ps :
  poll_all json_text status_text (Failing q) ps = take (length ps) ((Frame <$> q) ++ replicate (length ps) Ended).
Proof.
  revert q. induction ps as [|p ps IH]; intros q; [done|]. destruct q as [|b q]; cbn [poll_all poll_frame resolve].
  - rewrite poll_done. cbn. f_equal. by rewrite take_ge by by rewrite length_replicate.
  - rewrite IH. cbn [length fmap list_fmap app take]. f_equal.
    rewrite (replicate_S_end (length ps)), app_assoc, (take_app_le _ [Ended]); [done|].
    rewrite length_app, length_replicate. lia.
Qed.

(** C20: a streaming client that outlives the first keepalive tick reads, until
    the upstream replies, one comment line a tick and nothing else; then the
    upstream's body as it is polled, or, where the reply is a failure or never
    comes, one error event and the terminator, once, and the end. *)
Theorem keepalive_stream ps : ∃ silent rest, ps = silent ++ rest ∧
  Forall (λ p, p_rx p = RxPending) silent ∧ (∀ p, head rest = Some p → p_rx p ≠ RxPending) ∧
  poll_all json_text status_text Waiting ps = (waited <$> silent) ++
    match head rest with
    | None => []
    | Some p =>
        match failure (p_rx p) with
        | None => p_body <$> rest
        | Some why => take (length rest) ((Frame <$> error_events json_text why) ++ replicate (length rest) Ended)
        end
    end.
Proof.
  induction ps as [|p ps (silent & rest & -> & Hs & Hh & IH)].
  { exists [], []. by split_and!. }
  assert (p_rx p = RxPending ∨ p_rx p ≠ RxPending) as [Hp|Hp] by (destruct (p_rx p); auto).
  - exists (p :: silent), rest. split_and!; [done|by constructor|done|]. cbn [poll_all poll_frame resolve].
    unfold poll_frame. cbn [resolve]. rewrite Hp, IH. done.
  - exists [], (p :: silent ++ rest). split_and!; [done|constructor|by intros ? [= <-]|]. cbn [app fmap list_fmap head].
    assert (∀ k, resolve json_text status_text Waiting p = k → resolve json_text status_text k p = k →
      poll_all json_text status_text Waiting (p :: silent ++ rest) = poll_all json_text status_text k (p :: silent ++ rest)) as Hres.
    { intros k H1 H2. cbn [poll_all]. unfold poll_frame. by rewrite H1, H2. }
    unfold failure. destruct (p_rx p) as [|[resp|r]|] eqn:Hx; [done|destruct (is_success resp) eqn:Hok|..].
    + rewrite (Hres Relaying), poll_relaying; [done|cbn; by rewrite Hx, Hok|done].
    + erewrite Hres, poll_failing; [done|cbn; by rewrite Hx, Hok|done].
    + erewrite Hres, poll_failing; [done|cbn; by rewrite Hx|done].
    + erewrite Hres, poll_failing; [done|cbn; by rewrite Hx|done].
Qed.
End stream.

(** ** Instances *)

#[local] Instance proxy_keys : HashIter := in_key_order.
Definition to_glm : Call := mkCall "glm53" "/v1/chat/completions" 60000.

(** A connection refused as the engine restarts, then an answer. *)
Example retried :
  dispatch (demo_ctx 0) "" "" (λ _, None) to_glm
    [mkTurn demo_shared 2000 (Errored true "refused") 2001; mkTurn demo_shared 2501 (Replied (mkResp 200 None)) 2600] =
  ([("glm", "http://192.168.1.5:8000/v1/chat/completions", Errored true "refused");
    ("glm", "http://192.168.1.5:8000/v1/chat/completions", Replied (mkResp 200 None))], Some (Ok ("glm", mkResp 200 None))).
Proof. by vm_compute. Qed.
(** A connection that broke is not tried again. *)
Example not_retried :
  dispatch (demo_ctx 0) "" "" (λ _, None) to_glm
    [mkTurn demo_shared 2000 (Errored false "reset") 2001; mkTurn demo_shared 2501 (Replied (mkResp 200 None)) 2600] =
  ([("glm", "http://192.168.1.5:8000/v1/chat/completions", Errored false "reset")],
   Some (Err (refusal_new 502 "glm did not answer: reset"))).
Proof. by vm_compute. Qed.

(** A model its group served until its engine stopped answering is refused as
    one nothing claims, since the reasons are filed by group: only a request
    for the group's own name is told why. *)
Example known_model_not_found :
  rf_status (refusal (demo_ctx 0) to_glm 25000 demo_shared) = 404%N ∧
  rf_status (refusal (demo_ctx 0) (mkCall "glm" "/v1/models" 60000) 25000 demo_shared) = 503%N ∧
  table_at (demo_ctx 0) 2000 demo_shared !! "glm53" = Some ("glm", "http://192.168.1.5:8000/v1").
Proof. by vm_compute. Qed.

Definition refused_turns : list Turn :=
  (λ i, mkTurn demo_shared (500 * N.of_nat i) (Errored true "refused") (500 * N.of_nat i)) <$> seq 0 121.
Lemma dispatch_ends_witness :
  length refused_turns = 121 ∧
  is_Some (dispatch (demo_ctx 0) "" "" (λ _, None) (mkCall "glm53" "/v1/models" (0 + model_wait (scfg (demo_ctx 0)))) refused_turns).2.
Proof.
  split; [reflexivity|]. apply (dispatch_ends (demo_ctx 0) "" "" (λ _, None) "glm53" "/v1/models" 0).
  - intros i t t' (j & -> & Hj)%list_lookup_fmap_Some (j' & -> & Hj')%list_lookup_fmap_Some.
    apply lookup_seq in Hj as [-> _]. apply lookup_seq in Hj' as [-> _]. cbn [t_checked]. lia.
  - intros t [= <-]. cbn. lia.
  - vm_compute. discriminate.
Defined.
