(* ===== verification/Tokens.v ===== *)
(** * Counting an input's tokens (rust/mentatd-serve/src/tokens.rs)

    The router prices an input as the serving engine would: the text by the
    engine's own tokenizer, the media at flat rates. The JSON parser is a
    parameter, and so is the engine: what posting a document to a URL gives. *)

From S2P Require Import Prelude Text Json Proto Addr Pattern Ws Net Groups Prober Proxy.

Definition IMAGE_TOKENS : N := 4000.
Definition VIDEO_TOKENS : N := 40000.
Definition SUPPORTED : string := "vllm".
Definition TOKENS_MAX_BODY : N := 33554432.

Definition tokenize_root (base : string) : string :=
  let base := trim_slashes base in default base (strip_suffix "/v1" base).

(** What a part of a message's content is. *)
Definition part_type (p : Value) : string := default EmptyString (as_str (index "type" p)).
Definition is_image (p : Value) : bool :=
  bool_decide (part_type p ∈ ["input_image"; "image_url"; "image"]).
Definition is_video (p : Value) : bool :=
  bool_decide (part_type p ∈ ["input_video"; "video_url"; "video"]).

Definition split_part (acc : string * N) (p : Value) : string * N :=
  let '(text, media) := acc in
  if is_image p then (text, u64_add media IMAGE_TOKENS)
  else if is_video p then (text, u64_add media VIDEO_TOKENS)
  else match as_str (index "text" p) with Some s => (text +:+ s, media) | None => acc end.

Definition split_content (content : Value) : string * N :=
  match content with
  | Str s => (s, 0%N)
  | Arr parts => foldl split_part (EmptyString, 0%N) parts
  | _ => (EmptyString, 0%N)
  end.

Definition chat_message (role text : string) : Value := obj_of [("role", Str role); ("content", Str text)].

Definition split_item (acc : list Value * N) (item : Value) : list Value * N :=
  let '(messages, media) := acc in
  match as_str item with
  | Some s => (messages ++ [chat_message "user" s], media)
  | None =>
      let '(text, cost) := split_content (index "content" item) in
      (messages ++ [chat_message (default "user" (as_str (index "role" item))) text], u64_add media cost)
  end.

Definition split_input (payload : Value) : list Value * N :=
  let messages := match as_str (index "instructions" payload) with
                  | Some s => if str_empty s then [] else [chat_message "system" s]
                  | None => []
                  end in
  match index "input" payload with
  | Str s => (messages ++ [chat_message "user" s], 0%N)
  | Arr items => foldl split_item (messages, 0%N) items
  | _ => (messages, 0%N)
  end.

Section count.
Context `{HI : HashIter} (C : Ctx) (s : Shared).
Context (from_slice : bytes → option Value) (to_text : Value → string).
Context (post : string → Value → Result Value string).

Definition error_doc (e : string) : Value := obj_of [("error", Str e)].

Definition tokenize_request (payload : Value) (model : string) (messages : list Value) : Value :=
  let req := obj_of [("model", Str model); ("messages", Arr messages)] in
  match get "tools" payload with
  | Some (Arr tools) => set_key "tools" (Arr tools) req
  | _ => req
  end.

(** The document posted to an engine, if one was, and the answer. *)
Definition count (body : option bytes) : option (string * Value) * (N * Value) :=
  match body with
  | None => (None, (413%N, error_doc ("request body over " +:+ pretty TOKENS_MAX_BODY +:+ " bytes")))
  | Some bytes =>
  match from_slice bytes with
  | None => (None, (400%N, error_doc "body is not JSON"))
  | Some payload =>
  match as_str (index "model" payload) with
  | None => (None, (400%N, error_doc "no model field in request"))
  | Some model =>
  let models := model_table C s in
  match models !! model with
  | None =>
      match not_ready C s !! model with
      | Some why => (None, (503%N, error_doc (model +:+ " is not ready: " +:+ why)))
      | None => (None, (404%N, obj_of [("error", Str ("no group serves model " +:+ debug_str model)); ("available", Jstrs (bt_keys models))]))
      end
  | Some (group, base) =>
  let provider := default EmptyString (provider <$> group_table C s !! group) in
  if negb (bool_decide (provider = SUPPORTED)) then
    let said := if str_empty provider then "announced no provider" else "announced provider " +:+ debug_str provider in
    (None, (400%N, error_doc ("cannot count tokens for " +:+ model +:+ ": group " +:+ group +:+ " " +:+ said +:+
      ", and the router only counts for " +:+ debug_str SUPPORTED +:+ ". Set MENTAT_MODEL_PROVIDER on the container")))
  else
    let '(messages, media) := split_input payload in
    let answered n := (200%N, obj_of [("object", Str "response.input_tokens"); ("input_tokens", JN (u64_add n media))]) in
    if nonempty messages then
      let url := tokenize_root base +:+ "/tokenize" in
      let req := tokenize_request payload model messages in
      (Some (url, req),
       match post url req with
       | Ok v => match as_u64 (index "count" v) with
                 | Some n => answered n
                 | None => (502%N, error_doc (group +:+ " returned no count: " +:+ to_text v))
                 end
       | Err e => (502%N, error_doc (group +:+ " could not tokenize: " +:+ e))
       end)
    else (None, answered 0%N)
  end
  end
  end
  end.
End count.

(** ** Theorems *)

(** A root-level path posted to an engine lands where the proxied route
    would send it, whatever the announced base. *)
Theorem tokenize_matches_upstream base tail : upstream_url base tail = tokenize_root base +:+ tail.
Proof. apply upstream_url_root. Qed.

(** *** What a message costs *)

Definition tally (p : Value → bool) (l : list Value) : N := N.of_nat (length (List.filter p l)).
Definition price (parts : list Value) : N :=
  (IMAGE_TOKENS * tally is_image parts + VIDEO_TOKENS * tally is_video parts) `mod` u64_modulus.
Definition spoken (parts : list Value) : string :=
  String.concat EmptyString (omap (λ p, if is_image p || is_video p then None else as_str (index "text" p)) parts).

Lemma image_no_video p : is_image p = true → is_video p = false.
Proof.
  unfold is_image, is_video. intros Hi%bool_decide_eq_true. apply bool_decide_eq_false. intros Hv.
  generalize dependent (part_type p). intros x Hi Hv. repeat (apply elem_of_cons in Hi as [->|Hi]); [..|by apply not_elem_of_nil in Hi];
  by repeat (apply elem_of_cons in Hv as [Hv|Hv]); try apply not_elem_of_nil in Hv.
Qed.

Lemma tally_cons p x l : tally p (x :: l) = ((if p x then 1 else 0) + tally p l)%N.
Proof. unfold tally. cbn. destruct (p x); cbn [length]; lia. Qed.

Lemma concat_cons x l : String.concat EmptyString (x :: l) = x +:+ String.concat EmptyString l.
Proof. destruct l; cbn; [by rewrite str_app_nil_r|done]. Qed.

Definition add_price (m : N) (p : Value) : N :=
  if is_image p then u64_add m IMAGE_TOKENS else if is_video p then u64_add m VIDEO_TOKENS else m.

Lemma split_parts parts text media :
  foldl split_part (text, media) parts = (text +:+ spoken parts, foldl add_price media parts).
Proof.
  revert text media. induction parts as [|p parts IH]; intros text media; cbn [foldl].
  { unfold spoken. cbn. by rewrite str_app_nil_r. }
  unfold split_part at 2, add_price at 2, spoken. cbn [omap list_omap]. fold (spoken parts).
  destruct (is_image p); [by rewrite IH|]. destruct (is_video p); [by rewrite IH|]. cbn [orb].
  destruct (as_str (index "text" p)) as [t|]; rewrite IH; [|done]. by rewrite concat_cons, str_app_assoc.
Qed.

Lemma prices parts m : (m < u64_modulus)%N →
  foldl add_price m parts = ((m + IMAGE_TOKENS * tally is_image parts + VIDEO_TOKENS * tally is_video parts) `mod` u64_modulus)%N.
Proof.
  revert m. induction parts as [|p parts IH]; intros m Hm; cbn [foldl].
  { unfold tally. cbn. rewrite !N.mul_0_r, !N.add_0_r. by rewrite N.mod_small. }
  rewrite !tally_cons. unfold add_price at 2. destruct (is_image p) eqn:Hi; [|destruct (is_video p)].
  - rewrite (image_no_video p Hi), IH by by apply N.mod_lt. unfold u64_add.
    rewrite <-N.add_assoc, N.Div0.add_mod_idemp_l. f_equal. lia.
  - rewrite IH by by apply N.mod_lt. unfold u64_add. rewrite <-N.add_assoc, N.Div0.add_mod_idemp_l. f_equal. lia.
  - by rewrite IH by done.
Qed.

(** A message's content is priced by its parts alone: four thousand tokens
    an image and forty thousand a video, in 64 bits; the text asked about is
    that of the other parts, in order, and a plain string is its own text. *)
Theorem content_priced content :
  split_content content =
  match content with
  | Str s => (s, 0%N)
  | Arr parts => (spoken parts, price parts)
  | _ => (EmptyString, 0%N)
  end.
Proof.
  destruct content as [| | | |parts|]; try done. cbn [split_content]. rewrite split_parts, prices by done. done.
Qed.

(** What the items of an input cost together, and the messages they become. *)
Definition item_cost (item : Value) : N :=
  match as_str item with Some _ => 0 | None => (split_content (index "content" item)).2 end.
Definition item_message (item : Value) : Value :=
  match as_str item with
  | Some s => chat_message "user" s
  | None => chat_message (default "user" (as_str (index "role" item))) (split_content (index "content" item)).1
  end.

Lemma split_one messages media x : (media < u64_modulus)%N →
  split_item (messages, media) x = (messages ++ [item_message x], u64_add media (item_cost x)).
Proof.
  intros Hm. unfold split_item, item_message, item_cost. destruct (as_str x).
  - unfold u64_add. by rewrite N.add_0_r, N.mod_small.
  - by destruct (split_content _).
Qed.

Lemma split_items l messages media : (media < u64_modulus)%N →
  foldl split_item (messages, media) l = (messages ++ (item_message <$> l), ((media + sum_N (item_cost <$> l)) `mod` u64_modulus)%N).
Proof.
  revert messages media. induction l as [|x l IH]; intros messages media Hm; cbn [foldl].
  { cbn. rewrite app_nil_r, N.add_0_r. by rewrite N.mod_small. }
  rewrite split_one, IH by (done || by apply N.mod_lt). rewrite <-app_assoc. f_equal.
  unfold u64_add. rewrite N.Div0.add_mod_idemp_l. f_equal. unfold sum_N. cbn. lia.
Qed.

(** An input becomes one message an item, behind the instructions, and
    costs what its items' media cost; an input without text, instructions or
    items becomes none. *)
Theorem input_split payload :
  let system := match as_str (index "instructions" payload) with
                | Some s => if str_empty s then [] else [chat_message "system" s]
                | None => [] end in
  split_input payload =
  match index "input" payload with
  | Str s => (system ++ [chat_message "user" s], 0%N)
  | Arr l => (system ++ (item_message <$> l), (sum_N (item_cost <$> l) `mod` u64_modulus)%N)
  | _ => (system, 0%N)
  end.
Proof.
  unfold split_input. destruct (index "input" payload) as [| | | |l|]; try done. by rewrite split_items.
Qed.

(** *** What is asked, and of whom *)

Section asked.
Context `{HI : HashIter} (C : Ctx) (s : Shared).
Context (from_slice : bytes → option Value) (to_text : Value → string) (post : string → Value → Result Value string).
Abbreviation counted := (count C s from_slice to_text post).

(** An answer of 200 is the engine's count of the input's messages and the
    price of its media: the engine asked is the one the model is routed to, of
    a group that announced a provider the router knows, at the address the
    proxied route uses; where it was not asked the input has no message. *)
Theorem count_is_the_engines body asked doc :
  counted body = (asked, (200%N, doc)) →
  ∃ bytes payload model group base n,
    body = Some bytes ∧ from_slice bytes = Some payload ∧ as_str (index "model" payload) = Some model ∧
    model_table C s !! model = Some (group, base) ∧
    provider <$> group_table C s !! group = Some SUPPORTED ∧
    doc = obj_of [("object", Str "response.input_tokens"); ("input_tokens", JN (u64_add n (split_input payload).2))] ∧
    match asked with
    | Some (url, req) => url = upstream_url base "/tokenize" ∧
        req = tokenize_request payload model (split_input payload).1 ∧
        ∃ v, post url req = Ok v ∧ as_u64 (index "count" v) = Some n
    | None => (split_input payload).1 = [] ∧ n = 0%N
    end.
Proof.
  unfold count. destruct body as [bytes|]; [|done]. destruct (from_slice bytes) as [payload|] eqn:Hp; [|done].
  destruct (as_str (index "model" payload)) as [model|] eqn:Hm; [|done].
  destruct (model_table C s !! model) as [[group base]|] eqn:Ht; [|by destruct (not_ready C s !! model)].
  case_bool_decide as Hv; cbn [negb]; [|done].
  assert (provider <$> group_table C s !! group = Some SUPPORTED) as Hprov
    by (destruct (group_table C s !! group); [cbn in *; by f_equal|done]).
  destruct (split_input payload) as [messages media] eqn:Hs. intros H.
  assert (∃ n, doc = obj_of [("object", Str "response.input_tokens"); ("input_tokens", JN (u64_add n media))] ∧
    match asked with
    | Some (url, req) => url = upstream_url base "/tokenize" ∧ req = tokenize_request payload model messages ∧
        ∃ v, post url req = Ok v ∧ as_u64 (index "count" v) = Some n
    | None => messages = [] ∧ n = 0%N
    end) as (n & Hd & Ha).
  { destruct (nonempty messages) eqn:Hne.
    - rewrite upstream_url_root. fold (tokenize_root base). destruct (post _ _) as [v|e] eqn:Hpost; [|done].
      destruct (as_u64 (index "count" v)) as [n|] eqn:Hn; [|done]. injection H as <- <-.
      exists n. split_and!; [done..|]. by exists v.
    - injection H as <- <-. exists 0%N. split_and!; [done|by destruct messages|done]. }
  exists bytes, payload, model, group, base, n. rewrite Hs. by split_and!.
Qed.
End asked.

(** ** Instances *)

#[local] Instance tokens_keys : HashIter := in_key_order.
Definition picture : Value :=
  obj_of [("model", Str "glm53");
    ("input", Arr [obj_of [("role", Str "user"); ("content", Arr [obj_of [("type", Str "input_image")]])]])].
Definition counts_ten (url : string) (req : Value) : Result Value string := Ok (obj_of [("count", JN 10)]).

Lemma count_is_the_engines_witness :
  ∃ asked doc, count (demo_ctx 2000) demo_shared (λ _, Some picture) (λ _, EmptyString) counts_ten (Some []) = (asked, (200%N, doc)) ∧
    ∃ n, doc = obj_of [("object", Str "response.input_tokens"); ("input_tokens", JN (u64_add n (split_input picture).2))].
Proof.
  do 2 eexists. split; [vm_compute; reflexivity|].
  edestruct (count_is_the_engines (demo_ctx 2000) demo_shared (λ _, Some picture) (λ _, EmptyString) counts_ten (Some []))
    as (b & payload & model & group & base & n & _ & Hp & _ & _ & _ & Hd & _); [vm_compute; reflexivity|].
  injection Hp as <-. exists n. exact Hd.
Defined.

(** Media alone is still asked about: a message of nothing but an image stays
    as a message with an empty text. *)
Example media_alone_is_asked_about :
  split_input picture = ([chat_message "user" EmptyString], 4000%N) ∧
  (count (demo_ctx 2000) demo_shared (λ _, Some picture) (λ _, EmptyString) counts_ten (Some [])).1 =
    Some ("http://192.168.1.5:8000/tokenize", tokenize_request picture "glm53" [chat_message "user" EmptyString]).
Proof. by vm_compute. Qed.
