(* ===== verification/Mcp.v ===== *)
(** * The merged MCP endpoint (rust/mentatd-serve/src/mcp.rs)

    Every group's management tools behind one URL: a name several groups offer
    is one tool with an argument that says where to run it. A container is what
    posting a document to its URL gives at the time; the version string and the
    printed form of the status document are parameters. *)

From S2P Require Import Prelude Text Json Net Groups.

Definition GROUP_ARG : string := "__group".
Definition NATIVE : string := "serve_status".
Definition MCP_MAX_BODY : N := 16777216.

(** One tool name as the groups offering it describe it. *)
Record Merged := mkMerged { m_description : string; m_schema : Value; m_groups : list string }.
#[export] Instance eta_Merged : Eta Merged := λ m, mkMerged (m_description m) (m_schema m) (m_groups m).

Definition empty_schema : Value := obj_of [("type", Str "object"); ("properties", obj_of [])].
Definition is_object (v : Value) : bool := match v with Obj _ => true | _ => false end.

(** One tool of one group's list. *)
Definition merge_tool (group : string) (out : gmap string Merged) (t : Value) : gmap string Merged :=
  match as_str (index "name" t) with
  | None => out
  | Some name =>
      if bool_decide (name = NATIVE) then out
      else match out !! name with
           | Some m => <[name := m <| m_groups ::= (λ l, l ++ [group]) |>]> out
           | None =>
               let schema := index "inputSchema" t in
               <[name := mkMerged (str_or EmptyString (index "description" t))
                                  (if is_object schema then schema else empty_schema) [group]]> out
           end
  end.
Definition merge_tools (group : string) (tools : list Value) (out : gmap string Merged) : gmap string Merged :=
  foldl (merge_tool group) out tools.

(** The tool's schema with the argument. The schema of a merged tool is an
    object; on another value the code would stop. *)
Definition or_type (schema : Value) : Value :=
  match get "type" schema with Some _ => schema | None => set_key "type" (Str "object") schema end.
Definition own_props (schema : Value) : Value :=
  match get "properties" schema with Some (Obj p) => Obj p | _ => Obj [] end.
Definition group_arg (groups : list string) : Value :=
  obj_of [("type", Str "string"); ("enum", Jstrs groups);
    ("description", Str ("Which group runs this tool. Offered by: " +:+ join ", " groups +:+ "."))].
Definition add_group_arg (groups : list string) (schema : Value) : Value :=
  let schema := or_type schema in
  let schema := set_key "properties" (set_key GROUP_ARG (group_arg groups) (own_props schema)) schema in
  if bool_decide (1 < length groups)
  then set_key "required" (Arr (items (index "required" schema) ++ [Str GROUP_ARG])) schema
  else schema.
Definition with_group_arg (m : Merged) : option Value :=
  if is_object (m_schema m) then Some (add_group_arg (m_groups m) (m_schema m)) else None.

Section mcp.
Context `{HI : HashIter} (C : Ctx) (post : string → Value → Result Value string).

Definition list_request : Value :=
  obj_of [("jsonrpc", Str "2.0"); ("id", JN 1); ("method", Str "tools/list")].

(** The cached list, while it is fresh and has a tool in it. *)
Definition cached_tools (s : Shared) (key : string) : option (list Value) :=
  match tools s !! key with
  | Some (t, Ok ts) => if nonempty ts && bool_decide (elapsed C t ≤ tools_ttl (scfg C))%N then Some ts else None
  | _ => None
  end.

Definition tools_key (group url : string) : string := group +:+ " " +:+ url.

Definition group_tools (s : Shared) (group url : string) : list Value * Shared :=
  match cached_tools s (tools_key group url) with
  | Some ts => (ts, s)
  | None =>
      let got := match post url list_request with
                 | Ok v => Ok (items (index "tools" (index "result" v)))
                 | Err e => Err e
                 end in
      (default [] (ok got), s <| tools ::= <[tools_key group url := (now C, got)]> |>)
  end.

Definition mcp_url (e : GroupEntry) : option string := mcp e ≫= best.

Definition merge_group (acc : gmap string Merged * Shared) (e : GroupEntry) : gmap string Merged * Shared :=
  let '(out, s) := acc in
  match mcp_url e with
  | None => acc
  | Some url => let '(ts, s) := group_tools s (g_group e) url in (merge_tools (g_group e) ts out, s)
  end.
Definition merge (s : Shared) : gmap string Merged * Shared :=
  foldl merge_group (∅, s) (bt_values (group_table C s)).

Definition native_tool : Value := obj_of [("name", Str NATIVE);
  ("description", Str "What mentatd-serve can route right now: watched daemons, each group's health and endpoints, and the model table.");
  ("inputSchema", empty_schema)].
Definition tool_entry (x : string * Merged) : option Value :=
  schema ← with_group_arg x.2;
  Some (obj_of [("name", Str x.1); ("description", Str (m_description x.2)); ("inputSchema", schema)]).
(** No list where the code would stop on a schema. *)
Definition tool_list (s : Shared) : option (list Value) * Shared :=
  let '(merged, s) := merge s in
  ((native_tool ::.) <$> mapM tool_entry (bt_iter merged), s).

(** *** The status page's view *)

(** The page never waits: a list that is not fresh starts a fetch, unless one
    for it is under way. *)
Definition page_row (s : Shared) (acc : list Value * list (string * string) * gset string) (e : GroupEntry)
    : list Value * list (string * string) * gset string :=
  let '(rows, started, fetching) := acc in
  match mcp_url e with
  | None => acc
  | Some url =>
      let key := tools_key (g_group e) url in
      let cached := tools s !! key in
      let fresh := bool_decide (is_Some (cached_tools s key)) in
      let start := negb fresh && negb (bool_decide (key ∈ fetching)) in
      let '(listed, error) := match cached with
        | Some (_, Ok ts) => (Jstrs (omap (λ t, as_str (index "name" t)) ts), Null)
        | Some (_, Err e) => (Null, Str e)
        | None => (Null, Null)
        end in
      (rows ++ [obj_of [("group", Str (g_group e)); ("tools", listed); ("error", error)]],
       if start then started ++ [(g_group e, url)] else started,
       if start then {[key]} ∪ fetching else fetching)
  end.
Definition page_view (s : Shared) (fetching : gset string) : list Value * list (string * string) * gset string :=
  foldl (page_row s) ([], [], fetching) (bt_values (group_table C s)).
(** A fetch the page started, when it ends. *)
Definition fetch_done (s : Shared) (fetching : gset string) (group url : string) : Shared * gset string :=
  ((group_tools s group url).2, fetching ∖ {[tools_key group url]}).

(** ** Calls *)

Definition list_or_none (names : list string) : string :=
  let joined := join ", " names in if str_empty joined then "none" else joined.

Definition tool_result (rid : Value) (text : string) (error : bool) : Value :=
  obj_of [("jsonrpc", Str "2.0"); ("id", rid);
    ("result", obj_of [("content", Arr [obj_of [("type", Str "text"); ("text", Str text)]]); ("isError", Bool error)])].
Definition tool_err (rid : Value) (msg : string) : Value := tool_result rid msg true.

(** Where a call for a merged tool runs, or why nowhere. *)
Definition pick_group (name : string) (m : Merged) (asked : option Value) : Result string string :=
  match asked ≫= as_str with
  | Some g =>
      if bool_decide (g ∈ m_groups m) then Ok g
      else Err ("group " +:+ debug_str g +:+ " does not offer " +:+ debug_str name +:+ ". Groups that do: " +:+ list_or_none (m_groups m))
  | None =>
      match m_groups m with
      | [g] => Ok g
      | gs => Err (debug_str name +:+ " runs in more than one group. Pass " +:+ debug_str GROUP_ARG +:+ ": " +:+ list_or_none gs)
      end
  end.

Context (status_text : Shared → string) (to_text : Value → string).

(** The request forwarded, if one was, and the reply. The table of the second
    lookup may be a later one than the merge's, [s']. *)
Definition call (s : Shared) (later : Shared → Shared) (rid params : Value)
    : option (string * Value) * Value * Shared :=
  let name := str_or EmptyString (index "name" params) in
  if bool_decide (name = NATIVE) then (None, tool_result rid (status_text s) false, s)
  else
    let '(merged, s) := merge s in
    match merged !! name with
    | None => (None, tool_err rid ("no tool " +:+ debug_str name +:+ ". Tools right now: " +:+ list_or_none (NATIVE :: bt_keys merged)), s)
    | Some m =>
        let args := default [] (as_object (index "arguments" params)) in
        let asked := obj_get GROUP_ARG args in
        let args := List.filter (λ '(k, _), negb (bool_decide (k = GROUP_ARG))) args in
        match pick_group name m asked with
        | Err e => (None, tool_err rid e, s)
        | Ok group =>
            match group_table C (later s) !! group ≫= mcp_url with
            | None => (None, tool_err rid ("group " +:+ debug_str group +:+ " has no MCP endpoint"), s)
            | Some url =>
                let fwd := obj_of [("jsonrpc", Str "2.0"); ("id", rid); ("method", Str "tools/call");
                  ("params", obj_of [("name", Str name); ("arguments", Obj args)])] in
                (Some (url, fwd),
                 match post url fwd with
                 | Ok v => match get "result" v, get "error" v with
                           | None, None => tool_err rid (group +:+ " replied with neither result nor error: " +:+ to_text v)
                           | _, _ => v
                           end
                 | Err e => tool_err rid (group +:+ " did not answer: " +:+ e)
                 end, s)
            end
        end
    end.

Definition rpc_error (rid : Value) (code : Z) (msg : string) : Value :=
  obj_of [("jsonrpc", Str "2.0"); ("id", rid); ("error", obj_of [("code", Num (NegInt code)); ("message", Str msg)])].
Definition rpc_ok (rid result : Value) : Value :=
  obj_of [("jsonrpc", Str "2.0"); ("id", rid); ("result", result)].

Context (version : string).

(** A reply, none for a notification; the outer option is none where the code
    would stop. *)
Definition rpc (s : Shared) (req : Value) : option (option Value) * Shared :=
  let rid := index "id" req in
  let method := str_or EmptyString (index "method" req) in
  if bool_decide (method = "initialize") then
    (Some (Some (rpc_ok rid (obj_of [
       ("protocolVersion", Str (str_or "2025-06-18" (index "protocolVersion" (index "params" req))));
       ("capabilities", obj_of [("tools", obj_of [("listChanged", Bool false)])]);
       ("serverInfo", obj_of [("name", Str "mentatd-serve"); ("version", Str version)])]))), s)
  else if starts_with "notifications/" method then (Some None, s)
  else if bool_decide (method = "ping") then (Some (Some (rpc_ok rid (obj_of []))), s)
  else if bool_decide (method = "tools/list") then
    let '(l, s) := tool_list s in ((λ ts, Some (rpc_ok rid (obj_of [("tools", Arr ts)]))) <$> l, s)
  else if bool_decide (method = "tools/call") then
    let '(_, v, s) := call s id rid (index "params" req) in (Some (Some v), s)
  else (Some (Some (rpc_error rid (-32601) ("no method " +:+ debug_str method))), s).

Fixpoint rpc_batch (s : Shared) (reqs : list Value) : option (list Value) * Shared :=
  match reqs with
  | [] => (Some [], s)
  | r :: reqs =>
      let '(resp, s) := rpc s r in
      match resp with
      | None => (None, s)
      | Some resp => let '(rest, s) := rpc_batch s reqs in ((λ l, option_list resp ++ l) <$> rest, s)
      end
  end.

Context (from_slice : bytes → Result Value string).

(** The HTTP answer: a status and, unless empty, a document. *)
Definition handle (s : Shared) (body : option bytes) : option (N * option Value) * Shared :=
  match body with
  | None => (Some (413%N, Some (obj_of [("error", Str ("request body over " +:+ pretty MCP_MAX_BODY +:+ " bytes"))])), s)
  | Some b =>
      match from_slice b with
      | Err e => (Some (400%N, Some (rpc_error Null (-32700) ("parse error: " +:+ e))), s)
      | Ok (Arr reqs) =>
          let '(out, s) := rpc_batch s reqs in
          ((λ l, if nonempty l then (200%N, Some (Arr l)) else (202%N, None)) <$> out, s)
      | Ok payload =>
          let '(resp, s) := rpc s payload in
          ((λ r, match r with Some v => (200%N, Some v) | None => (202%N, None) end) <$> resp, s)
      end
  end.
End mcp.

(** ** Theorems *)

Lemma get_set_key k k' v x : is_Some (as_object x) →
  get k (set_key k' v x) = if decide (k = k') then Some v else get k x.
Proof. destruct x; cbn; intros [? H]; try done. apply obj_get_insert. Qed.
Lemma set_key_object k v x : is_Some (as_object x) → is_Some (as_object (set_key k v x)).
Proof. destruct x; cbn; intros [? H]; done. Qed.

(** *** The merge *)

Definition groups_of (out : gmap string Merged) (name : string) : list string :=
  default [] (m_groups <$> out !! name).

(** The groups that list a name, once for each time they list it. *)
Definition offers (name group : string) (ts : list Value) : list string :=
  ts ≫= λ t, if bool_decide (as_str (index "name" t) = Some name) then [group] else [].

Definition merged_ok (out : gmap string Merged) : Prop :=
  ∀ name m, out !! name = Some m → name ≠ NATIVE ∧ m_groups m ≠ [] ∧ is_object (m_schema m) = true.

Lemma merge_tool_ok group out t : merged_ok out → merged_ok (merge_tool group out t).
Proof.
  intros Hok. unfold merge_tool. destruct (as_str _) as [name|]; [|done]. case_bool_decide as Hn; [done|].
  destruct (out !! name) as [m|] eqn:Hm; intros name' m' H; apply lookup_insert_Some in H as [[<- <-]|[_ H]]; try by apply (Hok _ _ H).
  - destruct (Hok _ _ Hm) as (? & Hg & ?). split_and!; [done| |done]. cbn. by intros [? ?]%app_nil.
  - split_and!; [done|done|]. cbn. destruct (is_object (index _ _)) eqn:Ho; [by rewrite Ho|done].
Qed.

Lemma merge_tool_groups group out t name : name ≠ NATIVE →
  groups_of (merge_tool group out t) name = groups_of out name ++ offers name group [t].
Proof.
  intros Hn. unfold merge_tool, offers. cbn [mbind list_bind]. destruct (as_str _) as [x|]; [|by rewrite bool_decide_eq_false_2, app_nil_r].
  case_bool_decide as Hx.
  { rewrite bool_decide_eq_false_2 by congruence. by rewrite app_nil_r. }
  unfold groups_of. destruct (decide (x = name)) as [->|Hne].
  - rewrite bool_decide_eq_true_2 by done. destruct (out !! name) as [m|] eqn:Hm; by rewrite lookup_insert_eq.
  - rewrite bool_decide_eq_false_2 by congruence. rewrite app_nil_r.
    destruct (out !! x); by rewrite lookup_insert_ne.
Qed.

Lemma merge_tools_spec group ts out : merged_ok out →
  merged_ok (merge_tools group ts out) ∧
  ∀ name, name ≠ NATIVE → groups_of (merge_tools group ts out) name = groups_of out name ++ offers name group ts.
Proof.
  unfold merge_tools. revert out. induction ts as [|t ts IH]; intros out Hok; cbn [foldl].
  { split; [done|]. intros name _. cbn. by rewrite app_nil_r. }
  destruct (IH (merge_tool group out t)) as [Hok' Hg]; [by apply merge_tool_ok|]. split; [done|].
  intros name Hn. rewrite Hg, merge_tool_groups by done. rewrite <-app_assoc. f_equal.
  unfold offers. cbn [mbind list_bind]. by rewrite app_nil_r.
Qed.

Section theorems.
Context `{HI : HashIter} (C : Ctx) (post : string → Value → Result Value string).

(** The lists a merge reads, in the table's order, and the cache it leaves. *)
Fixpoint gather_tools (s : Shared) (es : list GroupEntry) : list (string * list Value) * Shared :=
  match es with
  | [] => ([], s)
  | e :: es =>
      match mcp_url e with
      | None => gather_tools s es
      | Some url =>
          let '(ts, s) := group_tools C post s (g_group e) url in
          let '(rest, s) := gather_tools s es in ((g_group e, ts) :: rest, s)
      end
  end.

Definition offered (name : string) (lists : list (string * list Value)) : list string :=
  lists ≫= λ x, offers name x.1 x.2.

Lemma merge_fold es out s : merged_ok out →
  let '(out', s') := foldl (merge_group C post) (out, s) es in
  merged_ok out' ∧ s' = (gather_tools s es).2 ∧
  ∀ name, name ≠ NATIVE → groups_of out' name = groups_of out name ++ offered name (gather_tools s es).1.
Proof.
  revert out s. induction es as [|e es IH]; intros out s Hok; cbn [foldl gather_tools].
  { split_and!; [done..|]. intros name _. cbn. by rewrite app_nil_r. }
  unfold merge_group at 2. destruct (mcp_url e) as [url|]; [|by apply IH].
  destruct (group_tools C post s (g_group e) url) as [ts s1].
  destruct (merge_tools_spec (g_group e) ts out Hok) as [Hok' Hg].
  specialize (IH _ s1 Hok'). destruct (foldl _ (_, _) _) as [out' s']. destruct (gather_tools s1 es) as [rest s2].
  destruct IH as (? & ? & Hn). split_and!; [done..|]. intros name Hname. rewrite Hn, Hg by done.
  unfold offered. cbn. by rewrite app_assoc.
Qed.

Lemma merge_ok s : merged_ok (merge C post s).1.
Proof.
  unfold merge. pose proof (merge_fold (bt_values (group_table C s)) ∅ s) as H.
  destruct (foldl _ (_, _) _) as [out s']. by destruct H as (H & _ & _); [intros ?? ?%lookup_empty_Some|].
Qed.

(** The merged names are those some group's list has, this server's own
    apart; a name's groups are the groups that list it, in the table's order,
    and each merged schema is an object. *)
Theorem merge_lists s :
  let lists := (gather_tools s (bt_values (group_table C s))).1 in
  ∀ name, if decide (name = NATIVE) then (merge C post s).1 !! name = None
          else match (merge C post s).1 !! name with
               | None => offered name lists = []
               | Some m => m_groups m = offered name lists ∧ m_groups m ≠ [] ∧ is_object (m_schema m) = true
               end.
Proof.
  intros lists name. pose proof (merge_ok s) as Hok. unfold merge in *.
  pose proof (merge_fold (bt_values (group_table C s)) ∅ s) as H.
  destruct (foldl _ (_, _) _) as [out s'] eqn:E. cbn [fst] in *. destruct H as (_ & _ & Hg); [by intros ?? ?%lookup_empty_Some|].
  case_decide as Hn.
  - destruct (out !! name) as [m|] eqn:Hm; [|done]. by destruct (Hok _ _ Hm).
  - specialize (Hg name Hn). unfold groups_of in Hg. rewrite lookup_empty in Hg. cbn in Hg.
    destruct (out !! name) as [m|] eqn:Hm; [|done]. cbn in Hg. destruct (Hok _ _ Hm) as (_ & ? & ?). by split_and!.
Qed.
End theorems.

(** *** The argument *)

Lemma with_group_arg_total m : is_object (m_schema m) = true → is_Some (with_group_arg m).
Proof. unfold with_group_arg. intros ->. by eexists. Qed.

(** A listed schema has the argument, with exactly the offering groups to
    choose from, beside the tool's own properties, and asks for it exactly when
    there is more than one to choose from. *)
Theorem group_arg_spec m schema : with_group_arg m = Some schema →
  index "enum" (index GROUP_ARG (index "properties" schema)) = Jstrs (m_groups m) ∧
  (∀ k, k ≠ GROUP_ARG → index k (index "properties" schema) =
     match index "properties" (m_schema m) with Obj p => index k (Obj p) | _ => Null end) ∧
  items (index "required" schema) =
    items (index "required" (m_schema m)) ++ (if decide (1 < length (m_groups m)) then [Str GROUP_ARG] else []) ∧
  index "type" schema = default (Str "object") (get "type" (m_schema m)) ∧
  ∀ k, k ∉ ["properties"; "required"; "type"] → index k schema = index k (m_schema m).
Proof.
  unfold with_group_arg. destruct (is_object (m_schema m)) eqn:Ho; [|done]. intros [= <-].
  generalize dependent (m_schema m). intros sc Ho. set (groups := m_groups m). clearbody groups.
  assert (is_Some (as_object sc)) as Hsc by by destruct sc.
  assert (∀ k, index k (or_type sc) = if decide (k = "type") then default (Str "object") (get "type" sc) else index k sc) as Hty.
  { intros k. unfold or_type. case_decide as Hk.
    - subst k. unfold index. destruct (get "type" sc) as [v|] eqn:Hv; [by rewrite Hv|]. by rewrite get_set_key, decide_True.
    - destruct (get "type" sc); [done|]. rewrite index_set_key by done. by rewrite decide_False. }
  assert (is_Some (as_object (or_type sc))) as Hto.
  { unfold or_type. destruct (get "type" sc); [done|by apply set_key_object]. }
  assert (own_props (or_type sc) = match index "properties" sc with Obj p => Obj p | _ => Obj [] end) as Hop.
  { unfold own_props. pose proof (Hty "properties") as H. rewrite decide_False in H by done.
    unfold index at 1 in H. destruct (get "properties" (or_type sc)) as [v|]; cbn in H; rewrite <-H; [by destruct v|done]. }
  assert (is_Some (as_object (own_props (or_type sc)))) as Hpo.
  { rewrite Hop. by destruct (index "properties" sc). }
  unfold add_group_arg. set (withp := set_key "properties" _ (or_type sc)).
  assert (is_Some (as_object withp)) as Hwo by by apply set_key_object.
  assert (∀ k, index k withp = if decide (k = "properties") then set_key GROUP_ARG (group_arg groups) (own_props (or_type sc)) else index k (or_type sc)) as Hw
    by (intros k; by apply index_set_key).
  set (full := if bool_decide _ then _ else withp).
  assert (∀ k, k ≠ "required" → index k full = index k withp) as Hfull.
  { intros k Hk. subst full. case_bool_decide; [|done]. rewrite index_set_key by done. by rewrite decide_False. }
  clearbody withp. split_and!.
  - rewrite Hfull, Hw, decide_True by done. by rewrite index_set_key, decide_True.
  - intros k Hk. rewrite Hfull, Hw, decide_True by done. rewrite index_set_key, decide_False by done.
    rewrite Hop. by destruct (index "properties" sc).
  - assert (index "required" withp = index "required" sc) as Hreq by by rewrite Hw, decide_False, Hty, decide_False.
    subst full. rewrite Hreq. case_bool_decide as Hl.
    + rewrite (decide_True (P := 1 < length groups)) by done. by rewrite index_set_key, decide_True.
    + rewrite (decide_False (P := 1 < length groups)) by done. by rewrite app_nil_r, Hreq.
  - by rewrite Hfull, Hw, decide_False, Hty, decide_True.
  - intros k Hk. rewrite !not_elem_of_cons in Hk. destruct Hk as (? & ? & ? & _).
    by rewrite Hfull, Hw, decide_False, Hty, decide_False.
Qed.

(** *** Listing and calling *)

Section calls.
Context `{HI : HashIter} (C : Ctx) (post : string → Value → Result Value string).
Context (status_text : Shared → string) (to_text : Value → string).
Abbreviation run_call := (call C post status_text to_text).

(** The listing never stops on a schema; it is this server's own tool and
    one entry a merged name, in name order, each with the merged tool's
    description and the schema that asks for a group. *)
Theorem tool_list_lists s :
  let merged := (merge C post s).1 in
  ∃ l, (tool_list C post s).1 = Some (native_tool :: l) ∧ length l = length (bt_iter merged) ∧
  ∀ name m, merged !! name = Some m → ∃ schema, with_group_arg m = Some schema ∧
    obj_of [("name", Str name); ("description", Str (m_description m)); ("inputSchema", schema)] ∈ l.
Proof.
  intros merged. pose proof (merge_ok C post s) as Hok. unfold tool_list. fold merged in Hok |- *.
  destruct (merge C post s) as [out s'] eqn:E. subst merged. cbn [fst] in *.
  destruct (mapM_total tool_entry (bt_iter out)) as [l Hl].
  { intros [name m] Hm%elem_of_bt_iter. destruct (Hok _ _ Hm) as (_ & _ & Ho). unfold tool_entry.
    destruct (with_group_arg_total m Ho) as [sc Hsc]. cbn. rewrite Hsc. by eexists. }
  exists l. rewrite Hl. cbn [fmap option_fmap option_map fst]. split_and!; [done|symmetry; by eapply Forall2_length, mapM_Some_1|].
  intros name m Hm. destruct (Hok _ _ Hm) as (_ & _ & Ho). destruct (with_group_arg_total m Ho) as [sc Hsc].
  exists sc. split; [done|]. apply mapM_Some in Hl.
  assert ((name, m) ∈ bt_iter out) as [i Hi]%list_elem_of_lookup by by apply elem_of_bt_iter.
  destruct (Forall2_lookup_l _ _ _ _ _ Hl Hi) as (y & Hy & Hf). unfold tool_entry in Hf. cbn in Hf. rewrite Hsc in Hf.
  cbn in Hf. injection Hf as <-. by apply list_elem_of_lookup; eexists.
Qed.



End calls.

(** A list fetched is the one given until it is too old, whatever the container
    says meanwhile; an empty one and a failure are asked for again. *)
Lemma tools_list_kept C C' post post' s group url ts s' :
  group_tools C post s group url = (ts, s') → tools_ttl (scfg C') = tools_ttl (scfg C) →
  cached_tools C s (tools_key group url) = None → ts ≠ [] → (now C' - now C ≤ tools_ttl (scfg C))%N →
  group_tools C' post' s' group url = (ts, s').
Proof.
  intros H Httl Hc Hne Hage. unfold group_tools in H. rewrite Hc in H.
  destruct (post url list_request) as [v|e]; injection H as <- <-; [|done]. cbn [ok default from_option id] in Hne.
  unfold group_tools, cached_tools. cbn. rewrite lookup_insert_eq. unfold elapsed. rewrite Httl.
  rewrite bool_decide_eq_true_2 by done. by destruct (items _).
Qed.

(** ** Instances: two groups with a tool in common *)

#[local] Instance mcp_keys : HashIter := in_key_order.
Definition mcp_agent (port : N) : Value :=
  obj_of [("alive", Bool true); ("node_ip", Str "10.0.0.1"); ("services", obj_of [("mcp", obj_of [("port", JN port); ("path", Str "/mcp")])])].
Definition mcp_group (port : N) : Value := obj_of [("agents", obj_of [("a", mcp_agent port)])].
Definition two_groups : Shared :=
  mkShared {[ "h:6380" := mkView (Some (obj_of [("groups", obj_of [("g1", mcp_group 9001); ("g2", mcp_group 9002)])])) (Some 1000%N) None None true ]}
    {[ "h:6380" ]} ∅ ∅ ∅ ∅.
Definition tool (name : string) : Value := obj_of [("name", Str name); ("inputSchema", obj_of [("type", Str "object")])].
Definition containers (url : string) (req : Value) : Result Value string :=
  if value_eqb (index "method" req) (Str "tools/list")
  then Ok (obj_of [("result", obj_of [("tools", Arr (tool "restart" ::
         (if decide (url = "http://10.0.0.1:9002/mcp") then [tool "tail"; tool "tail"] else [])))])])
  else Ok (obj_of [("result", Str url)]).
Definition asks (name : string) (args : list (string * Value)) : Value :=
  obj_of [("name", Str name); ("arguments", obj_of args)].
Abbreviation demo_call := (call (demo_ctx 2000) containers (λ _, EmptyString) (λ _, EmptyString) two_groups id Null).

Example named_group : (demo_call (asks "restart" [("__group", Str "g2"); ("hard", Bool true)])).1.2 = obj_of [("result", Str "http://10.0.0.1:9002/mcp")].
Proof. by vm_compute. Qed.
Example no_group_named : (demo_call (asks "restart" [])).1.1 = None.
Proof. by vm_compute. Qed.
(** A group that lists a name twice counts as two, so a call that could only
    run there is refused for want of a choice. *)
Example one_group_twice :
  m_groups <$> (merge (demo_ctx 2000) containers two_groups).1 !! "tail" = Some ["g2"; "g2"] ∧
  (demo_call (asks "tail" [])).1.1 = None.
Proof. by vm_compute. Qed.

Example wrong_group_named : (demo_call (asks "tail" [("__group", Str "g1")])).1.1 = None.
Proof. by vm_compute. Qed.

Definition restart_merged : Merged := mkMerged "Restart" (obj_of [("type", Str "object"); ("required", Jstrs ["hard"])]) ["g1"; "g2"].
Lemma group_arg_spec_witness : ∃ schema, with_group_arg restart_merged = Some schema ∧
  index "enum" (index GROUP_ARG (index "properties" schema)) = Jstrs ["g1"; "g2"] ∧
  items (index "required" schema) = [Str "hard"; Str GROUP_ARG].
Proof.
  eexists. split; [reflexivity|].
  edestruct (group_arg_spec restart_merged) as (He & _ & Hr & _); [reflexivity|]. split; [exact He|exact Hr].
Defined.
