(* ===== verification/Ui.v ===== *)
(** * The status page's numbers (rust/mentatd-serve/src/ui.rs)

    The requests the router holds, a row each for the life of its response
    body, and the engines' counters, read from their metrics text. The page
    itself is text. Times are milliseconds. *)

From Stdlib Require Import Floats.SpecFloat.
From S2P Require Import Prelude Text Json Addr Pattern Net Groups Prober Proxy Tokens Mcp.

(** ** The requests held *)

Record Inflight := mkInflight {
  i_model : string; i_group : string; i_started : N; i_prompt_bytes : N; i_stream : bool;
  i_first : option N; i_out : N }.
#[export] Instance eta_Inflight : Eta Inflight := λ i,
  mkInflight (i_model i) (i_group i) (i_started i) (i_prompt_bytes i) (i_stream i) (i_first i) (i_out i).

Record Held := mkHeld { next_req : N; inflight : gmap N Inflight }.
#[export] Instance eta_Held : Eta Held := λ h, mkHeld (next_req h) (inflight h).
Definition held_new : Held := mkHeld 1 ∅.

Definition tracked_new (t : N) (model group : string) (prompt_bytes : N) (stream : bool) (h : Held) : N * Held :=
  let id := next_req h in
  (id, mkHeld (u64_succ id) (<[id := mkInflight model group t prompt_bytes stream None 0]> (inflight h))).
Definition saw (t : N) (id n : N) (h : Held) : Held :=
  h <| inflight ::= alter (λ r, r <| i_first := Some (default t (i_first r)) |> <| i_out ::= (λ o, u64_add o n) |>) id |>.
Definition tracked_drop (id : N) (h : Held) : Held := h <| inflight ::= delete id |>.

(** A poll of the upstream body on its way to the client. *)
Definition tracked_poll (t id : N) (polled : Poll) (h : Held) : Poll * Held :=
  (polled, match polled with Frame d => saw t id (N.of_nat (length d)) h | _ => h end).

(** ** The metrics text *)

(** [str::parse::<f64>]: the nearest double to the decimal, ties to even. *)
Definition f64_decimal (neg : bool) (digits : N) (e : Z) : f64 :=
  if decide (digits = 0%N) then S754_zero neg
  else
    let signed := (if neg then (- Z.of_N digits)%Z else Z.of_N digits) in
    if bool_decide (0 ≤ e)%Z then binary_normalize 53 1024 (signed * 10 ^ e)%Z 0 neg
    else match signed, (10 ^ (- e))%Z with
         | Zpos d, Zpos p => SFdiv 53 1024 (S754_finite false d 0) (S754_finite false p 0)
         | Zneg d, Zpos p => SFdiv 53 1024 (S754_finite true d 0) (S754_finite false p 0)
         | _, _ => S754_zero neg
         end.

(** The digits at the front, their value behind [acc], and how many. *)
Fixpoint take_digits (acc : N) (n : nat) (s : string) : N * nat * string :=
  match s with
  | String a s' => if is_digit a then take_digits (10 * acc + (N_of_ascii a - 48))%N (S n) s' else (acc, n, s)
  | EmptyString => (acc, n, s)
  end.
Definition take_sign (s : string) : bool * string :=
  match s with String "-" s' => (true, s') | String "+" s' => (false, s') | _ => (false, s) end.
Definition take_exponent (s : string) : option Z :=
  match s with
  | EmptyString => Some 0%Z
  | String a s' =>
      if decide (a = "e"%char ∨ a = "E"%char) then
        let '(neg, s') := take_sign s' in
        match take_digits 0 0 s' with
        | (e, S _, EmptyString) => Some (if neg then (- Z.of_N e)%Z else Z.of_N e)
        | _ => None
        end
      else None
  end.
Definition parse_f64 (s : string) : option f64 :=
  let '(neg, s) := take_sign s in
  let word := to_ascii_lowercase s in
  if decide (word = "inf" ∨ word = "infinity") then Some (S754_infinity neg)
  else if decide (word = "nan") then Some S754_nan
  else
    let '(whole, n, s) := take_digits 0 0 s in
    let '(all, m, s) := match s with String "." s' => take_digits whole 0 s' | _ => (whole, 0, s) end in
    if decide (n + m = 0) then None
    else e ← take_exponent s; Some (f64_decimal neg all (e - Z.of_nat m)).

(** [rest.find(['{', ' '])], with the text from there on. *)
Fixpoint split_name (s : string) : option (string * string) :=
  match s with
  | EmptyString => None
  | String a s' =>
      if decide (a = "{"%char ∨ a = " "%char) then Some (EmptyString, s)
      else (λ '(l, r), (String a l, r)) <$> split_name s'
  end.

Definition label (labels key : string) : string :=
  default EmptyString (find_map (λ part,
    '(k, v) ← split_once "=" part;
    if bool_decide (trim k = key) then Some (trim_matches quote_char (trim v)) else None) (split_char "," labels)).

(** The series' name, its model and reason, and its value. *)
Definition scrape_line (want : list string) (line : string) : option (string * string * string * f64) :=
  if starts_with "#" line then None
  else
    rest ← strip_prefix "vllm:" line;
    '(name, tail) ← split_name rest;
    if bool_decide (name ∈ want) then
      let '(labels, value) := default (EmptyString, tail) (l ← strip_prefix "{" tail; split_once "}" l) in
      v ← parse_f64 (trim value);
      Some (name, label labels "model_name", label labels "finished_reason", v)
    else None.
Definition scrape (text : string) (want : list string) : list (string * string * string * f64) :=
  omap (scrape_line want) (lines text).

Definition WANTED : list string :=
  ["num_requests_running"; "num_requests_waiting"; "kv_cache_usage_perc"; "prompt_tokens_total";
   "generation_tokens_total"; "num_preemptions_total"; "request_success_total";
   "time_to_first_token_seconds_sum"; "time_to_first_token_seconds_count";
   "request_queue_time_seconds_sum"; "request_queue_time_seconds_count";
   "inter_token_latency_seconds_sum"; "inter_token_latency_seconds_count"].

(** [json!] of a double: no number for one that is not finite. *)
Definition Jf64 (v : f64) : Value := if f64_is_finite v then Num (Float v) else Null.

Definition or_object (v : Value) : Value := match v with Null => Obj [] | _ => v end.
Definition add_series (by_model : gmap string Value) (x : string * string * string * f64) : gmap string Value :=
  let '(name, model, reason, v) := x in
  let e := default (Obj []) (by_model !! model) in
  let e := if bool_decide (name = "request_success_total") then
             if f64_ltb f64_zero v
             then set_key "finished" (set_key reason (Jf64 v) (or_object (index "finished" e))) e
             else e
           else set_key name (Jf64 v) e in
  <[model := e]> by_model.

Definition MEANS : list (string * string) :=
  [("ttft_s", "time_to_first_token_seconds"); ("queue_s", "request_queue_time_seconds");
   ("itl_s", "inter_token_latency_seconds")].
Definition add_mean (e : Value) (m : string * string) : Value :=
  let s := default f64_zero (as_f64 (index (m.2 +:+ "_sum") e)) in
  let c := default f64_zero (as_f64 (index (m.2 +:+ "_count") e)) in
  if f64_ltb f64_zero c then set_key m.1 (Jf64 (SFdiv 53 1024 s c)) e else e.

Definition engine_stats (text : string) : gmap string Value :=
  (λ e, foldl add_mean e MEANS) <$> foldl add_series ∅ (scrape text WANTED).

(** ** The scrape's cache *)

Definition METRICS_TTL_MS : N := 1000.
Definition MetricsCache := (gmap string (N * string)).

Definition metrics_for (t : N) (fetch : string → option string) (cache : gmap string (N * string)) (group base : string)
    : option string * gmap string (N * string) :=
  match cache !! group with
  | Some (at_, text) =>
      if bool_decide (t - at_ ≤ METRICS_TTL_MS)%N then (Some text, cache)
      else match fetch (tokenize_root base +:+ "/metrics") with
           | Some text => (Some text, <[group := (t, text)]> cache)
           | None => (None, cache)
           end
  | None =>
      match fetch (tokenize_root base +:+ "/metrics") with
      | Some text => (Some text, <[group := (t, text)]> cache)
      | None => (None, cache)
      end
  end.

(** ** What the page polls *)

Section stats.
Context `{HI : HashIter} (C : Ctx).

(** [Duration::as_secs_f64] of milliseconds. *)
Definition secs_f64 (ms : N) : f64 :=
  f64_add (f64_of_N (ms / 1000)) (SFdiv 53 1024 (f64_of_N (ms `mod` 1000 * 1000000)) (f64_of_N 1000000000)).

Definition held_for (h : Held) (model : string) : nat :=
  length (filter (λ x, i_model x.2 = model) (map_to_list (inflight h))).

Definition model_row (h : Held) (e : GroupEntry) (engine : gmap string Value) (name : string) : Value :=
  let m := default (Obj []) (engine !! name) in
  obj_of [("model", Str name); ("group", Str (g_group e)); ("provider", Str (provider e));
    ("healthy", Bool true); ("why_not", Null); ("inflight", Jnat (held_for h name));
    ("running", index "num_requests_running" m); ("waiting", index "num_requests_waiting" m);
    ("kv", index "kv_cache_usage_perc" m); ("prompt_tokens", index "prompt_tokens_total" m);
    ("generation_tokens", index "generation_tokens_total" m); ("preemptions", index "num_preemptions_total" m);
    ("ttft_s", index "ttft_s" m); ("queue_s", index "queue_s" m); ("itl_s", index "itl_s" m);
    ("finished", index "finished" m)].

Definition stats_group (fetch : string → option string) (h : Held) (s : Shared)
    (acc : list Value * gmap string (N * string)) (e : GroupEntry) : list Value * gmap string (N * string) :=
  let '(rows, cache) := acc in
  if bool_decide (openai e = None) && bool_decide (is_Some (mcp e)) then acc
  else match health_of C s e with
       | Ok models =>
           let '(text, cache) := metrics_for (now C) fetch cache (g_group e) (default EmptyString (endpoint_url s e)) in
           let engine := from_option engine_stats ∅ text in
           (rows ++ (model_row h e engine <$> model_ids models), cache)
       | Err why =>
           (rows ++ [obj_of [("model", Str (g_group e)); ("group", Str (g_group e)); ("provider", Str (provider e));
              ("healthy", Bool false); ("why_not", Str why); ("inflight", Jnat 0)]], cache)
       end.

Definition request_row (x : N * Inflight) : Value :=
  let '(id, r) := x in
  obj_of [("id", JN id); ("model", Str (i_model r)); ("group", Str (i_group r));
    ("age_s", Jf64 (secs_f64 (elapsed C (i_started r)))); ("prompt_bytes", JN (i_prompt_bytes r));
    ("stream", Bool (i_stream r)); ("ttfb_s", Jopt (λ t, Jf64 (secs_f64 (t - i_started r))) (i_first r));
    ("out_bytes", JN (i_out r))].

(** The rows in id order, as the [BTreeMap] holds them. *)
Definition id_le (x y : N * Inflight) : Prop := (x.1 ≤ y.1)%N.
Instance id_le_dec x y : Decision (id_le x y).
Proof. unfold id_le. apply _. Defined.
Definition in_id_order (m : gmap N Inflight) : list (N * Inflight) := merge_sort id_le (map_to_list m).

Definition stats (fetch : string → option string) (h h' : Held) (cache : gmap string (N * string))
    (s : Shared) (fetching : gset string) (started : N) : Value * gmap string (N * string) :=
  let '(rows, cache) := foldl (stats_group fetch h s) ([], cache) (bt_values (group_table C s)) in
  (obj_of [("uptime_s", JN (secs (elapsed C started))); ("models", Arr rows);
     ("requests", Arr (request_row <$> in_id_order (inflight h')));
     ("mcp", Arr (page_view C s fetching).1.1)], cache).
End stats.

Definition wants_html (accept : option string) : bool := from_option (contains_str "text/html") false accept.

(** ** Theorems *)

(** *** The rows *)

(** What happens to the table: a request accepted, a frame of its body passed
    on, its body dropped. *)
Inductive HeldOp :=
  | Accepted (t : N) (model group : string) (prompt_bytes : N) (stream : bool)
  | Passed (t id n : N)
  | Dropped (id : N).
Definition held_op (h : Held) (o : HeldOp) : Held :=
  match o with
  | Accepted t model group bytes stream => (tracked_new t model group bytes stream h).2
  | Passed t id n => saw t id n h
  | Dropped id => tracked_drop id h
  end.
Definition held_run (ops : list HeldOp) (h : Held) : Held := foldl held_op h ops.

Definition frames_of (id : N) (ops : list HeldOp) : list (N * N) :=
  omap (λ o, match o with Passed t id' n => if decide (id' = id) then Some (t, n) else None | _ => None end) ops.
Definition accepted_in (ops : list HeldOp) : N :=
  N.of_nat (length (List.filter (λ o, match o with Accepted _ _ _ _ _ => true | _ => false end) ops)).
Definition dropped_in (id : N) (ops : list HeldOp) : bool :=
  existsb (λ o, match o with Dropped id' => bool_decide (id' = id) | _ => false end) ops.

(** The table's ids are the ones given out. *)
Definition ids_given (h : Held) : Prop := (next_req h < u64_modulus)%N ∧ ∀ id, is_Some (inflight h !! id) → (id < next_req h)%N.

Definition with_frames (r : Inflight) (frames : list (N * N)) : Inflight :=
  foldl (λ r '(t, n), r <| i_first := Some (default t (i_first r)) |> <| i_out ::= (λ o, u64_add o n) |>) r frames.

Lemma held_op_ids h o : (next_req h + accepted_in [o] < u64_modulus)%N → ids_given h →
  ids_given (held_op h o) ∧ next_req (held_op h o) = (next_req h + accepted_in [o])%N.
Proof.
  intros Hn [Hb Hi]. destruct o as [t model group bytes stream|t id n|id]; cbn in *.
  - assert (u64_succ (next_req h) = next_req h + 1)%N as Hs by (unfold u64_succ, u64_add; by rewrite N.mod_small).
    split; [split; cbn; rewrite Hs; [done|]|done]. intros id [x Hx]. apply lookup_insert_Some in Hx as [[<- _]|[_ Hx]]; [lia|].
    assert (id < next_req h)%N by (apply Hi; by eexists). lia.
  - split; [split; [done|]|by change (next_req h = next_req h + 0)%N; lia]. intros id' [x Hx]. apply Hi. cbn in Hx. destruct (decide (id' = id)) as [->|Hne].
    + rewrite lookup_alter_eq in Hx. by apply fmap_Some in Hx as (y & -> & _).
    + by rewrite lookup_alter_ne in Hx by congruence; eexists.
  - split; [split; [done|]|by change (next_req h = next_req h + 0)%N; lia]. intros id' [x Hx]. apply Hi. cbn in Hx. apply lookup_delete_Some in Hx as [_ Hx]. by eexists.
Qed.

Lemma accepted_cons o ops : accepted_in (o :: ops) = (accepted_in [o] + accepted_in ops)%N.
Proof. unfold accepted_in. cbn. destruct o; cbn; lia. Qed.

Lemma held_run_row ops h id : (next_req h + accepted_in ops < u64_modulus)%N → ids_given h → (id < next_req h)%N →
  inflight (held_run ops h) !! id =
  if dropped_in id ops then None else (λ r, with_frames r (frames_of id ops)) <$> inflight h !! id.
Proof.
  revert h. induction ops as [|o ops IH]; intros h Hn Hi Hid.
  { cbn. by destruct (inflight h !! id). }
  rewrite accepted_cons in Hn. destruct (held_op_ids h o) as [Hi' Hn']; [lia|done|].
  change (held_run (o :: ops) h) with (held_run ops (held_op h o)). rewrite IH by (done || lia).
  clear IH Hi' Hn'. destruct o as [t model group bytes stream|t id' n|id']; cbn [dropped_in existsb frames_of omap list_omap held_op].
  - cbn. rewrite lookup_insert_ne by lia. done.
  - cbn. destruct (decide (id' = id)) as [->|Hne].
    + rewrite lookup_alter_eq. fold (dropped_in id ops). fold (frames_of id ops). destruct (dropped_in id ops); [done|]. by destruct (inflight h !! id).
    + by rewrite lookup_alter_ne.
  - cbn. destruct (decide (id' = id)) as [->|Hne].
    + rewrite bool_decide_eq_true_2 by done. cbn. rewrite lookup_delete_eq. by case_match.
    + rewrite bool_decide_eq_false_2 by done. by rewrite lookup_delete_ne.
Qed.

(** A request's row is there from its acceptance until its body is dropped,
    and no later request takes its place: it says when the first frame of this
    body passed and how many bytes of it have, whatever the other requests do;
    once dropped it does not come back. *)
Theorem row_follows_request h t model group bytes stream ops :
  ids_given h → (next_req h + 1 + accepted_in ops < u64_modulus)%N →
  let '(id, h1) := tracked_new t model group bytes stream h in
  inflight h !! id = None ∧
  inflight (held_run ops h1) !! id =
    if dropped_in id ops then None
    else Some (mkInflight model group t bytes stream (fst <$> head (frames_of id ops))
                 (sum_N (snd <$> frames_of id ops) `mod` u64_modulus)).
Proof.
  intros Hi Hn. cbn. set (id := next_req h). set (h1 := mkHeld _ _).
  destruct (held_op_ids h (Accepted t model group bytes stream)) as [Hi1 Hn1]; [change (next_req h + 1 < u64_modulus)%N; lia|done|].
  change (held_op h (Accepted t model group bytes stream)) with h1 in Hi1, Hn1. change (next_req h1 = next_req h + 1)%N in Hn1.
  split.
  { destruct (inflight h !! id) as [x|] eqn:Hx; [|done]. destruct Hi as [_ Hi]. specialize (Hi id). rewrite Hx in Hi.
    destruct (N.lt_irrefl id). apply Hi. by eexists. }
  rewrite held_run_row; [|lia|done|unfold id; lia]. destruct (dropped_in id ops); [done|].
  subst h1. cbn [inflight]. rewrite lookup_insert_eq. cbn. f_equal. generalize (frames_of id ops) as l. clear.
  assert (∀ l r, with_frames r l = r <| i_first := match i_first r with Some x => Some x | None => fst <$> head l end |>
      <| i_out := match l with [] => i_out r | _ => ((i_out r + sum_N (snd <$> l)) `mod` u64_modulus)%N end |>) as Hw.
  { induction l as [|[u n] l IH]; intros r; [by destruct r as [? ? ? ? ? [] ?]|].
    change (with_frames r ((u, n) :: l)) with (with_frames (r <| i_first := Some (default u (i_first r)) |> <| i_out ::= (λ o, u64_add o n) |>) l).
    rewrite IH. destruct r as [m g s b st fi o]. cbn. unfold sum_N. cbn. f_equal; [by destruct fi|].
    unfold u64_add. destruct l as [|x l]; cbn; [by rewrite N.add_0_r|]. rewrite N.Div0.add_mod_idemp_l. f_equal. lia. }
  intros l. rewrite Hw. cbn. by destruct l.
Qed.

(** *** A series read back *)

(** A series as an engine prints it. *)
Definition print_label (kv : string * string) : string := kv.1 +:+ String "="%char (quoted kv.2).
Definition print_series (name : string) (labels : list (string * string)) (value : string) : string :=
  "vllm:" +:+ name +:+ String "{"%char (join "," (print_label <$> labels) +:+ String "}"%char (String " "%char value)).

(** A label that can be told from the next: no separator in it. *)
Definition plain_label (kv : string * string) : Prop :=
  no_space kv.1 = true ∧ lacks "="%char kv.1 = true ∧ lacks ","%char kv.1 = true ∧ lacks "}"%char kv.1 = true ∧
  lacks ","%char kv.2 = true ∧ lacks "}"%char kv.2 = true ∧ lacks quote_char kv.2 = true.

Lemma quoted_lacks c s : c ≠ quote_char → lacks c s = true → lacks c (quoted s) = true.
Proof.
  intros Hc Hs. unfold quoted. apply lacks_cons. split; [done|]. rewrite all_chars_app, Hs. cbn.
  rewrite andb_true_r. by apply negb_true_iff, bool_decide_eq_false.
Qed.
Lemma print_label_lacks c kv : c ≠ quote_char → c ≠ "="%char → lacks c kv.1 = true → lacks c kv.2 = true →
  lacks c (print_label kv) = true.
Proof.
  intros Hq He H1 H2. unfold print_label. rewrite all_chars_app, H1. cbn [andb]. apply lacks_cons. split; [done|by apply quoted_lacks].
Qed.

Lemma lacks_join c l : c ≠ ","%char → Forall (λ s, lacks c s = true) l → lacks c (join "," l) = true.
Proof.
  intros Hc Hl. induction Hl as [|s l Hs Hl IH]; [done|]. destruct l as [|s' l]; [done|].
  change (join "," (s :: s' :: l)) with (s +:+ String ","%char (join "," (s' :: l))).
  rewrite all_chars_app, Hs. cbn [andb]. apply lacks_cons. by split.
Qed.

Lemma label_read labels key : labels ≠ [] → Forall plain_label labels →
  label (join "," (print_label <$> labels)) key =
  default EmptyString (find_map (λ kv, if bool_decide (kv.1 = key) then Some kv.2 else None) labels).
Proof.
  intros Hne Hl. unfold label. rewrite split_char_join.
  - f_equal. clear Hne. induction Hl as [|[k v] l (Hsp & Heq & _ & _ & _ & _ & Hq) _ IH]; [done|].
    cbn [fmap list_fmap find_map]. unfold print_label at 1. cbn [fst snd] in *.
    rewrite split_once_first by done. cbn [mbind option_bind]. rewrite (trim_tight k) by by apply no_space_tight.
    rewrite trim_tight by apply quoted_tight. rewrite trim_matches_quoted by done. by case_bool_decide.
  - by destruct labels.
  - apply list.Forall_forall. intros s (kv & -> & Hin)%list_elem_of_fmap.
    rewrite list.Forall_forall in Hl. destruct (Hl kv Hin) as (? & ? & ? & ? & ? & ? & ?). by apply print_label_lacks.
Qed.

Lemma split_name_brace name rest : lacks "{"%char name = true → lacks " "%char name = true →
  split_name (name +:+ String "{"%char rest) = Some (name, String "{"%char rest).
Proof.
  induction name as [|a name IH]; [done|]. intros [H1 ?]%lacks_cons [H2 ?]%lacks_cons.
  rewrite app_String. cbn [split_name]. rewrite decide_False by (intros [|]; done). by rewrite IH.
Qed.

(** A series an engine prints, of a name the page reads, is read back: its
    name, its model, its reason and its value as a double; one of another name
    is passed over. *)
Theorem series_read want name labels value :
  labels ≠ [] → Forall plain_label labels → lacks "{"%char name = true → lacks " "%char name = true → no_space value = true →
  scrape_line want (print_series name labels value) =
  if bool_decide (name ∈ want) then
    (λ v, (name,
           default EmptyString (find_map (λ kv, if bool_decide (kv.1 = "model_name") then Some kv.2 else None) labels),
           default EmptyString (find_map (λ kv, if bool_decide (kv.1 = "finished_reason") then Some kv.2 else None) labels),
           v)) <$> parse_f64 value
  else None.
Proof.
  intros Hne Hl Hb Hs Hv. unfold scrape_line, print_series.
  change (starts_with "#" ("vllm:" +:+ name +:+ String "{"%char (join "," (print_label <$> labels) +:+ String "}"%char (String " "%char value)))) with false.
  rewrite strip_prefix_app. cbn [mbind option_bind]. rewrite split_name_brace by done. cbn [mbind option_bind].
  case_bool_decide; [|done].
  assert (strip_prefix "{" (String "{"%char (join "," (print_label <$> labels) +:+ String "}"%char (String " "%char value))) =
    Some (join "," (print_label <$> labels) +:+ String "}"%char (String " "%char value))) as -> by exact (strip_prefix_app "{" _).
  cbn [mbind option_bind]. rewrite split_once_first.
  - cbn [default from_option id]. rewrite trim_space, trim_tight by by apply no_space_tight.
    rewrite !label_read by done. by destruct (parse_f64 value).
  - apply lacks_join; [done|]. apply list.Forall_forall. intros s (kv & -> & Hin)%list_elem_of_fmap.
    rewrite list.Forall_forall in Hl. destruct (Hl kv Hin) as (? & ? & ? & ? & ? & ? & ?). by apply print_label_lacks.
Qed.

(** ** Instances *)

Definition success_labels : list (string * string) := [("engine", "0"); ("finished_reason", "stop"); ("model_name", "org/glm 5")].
Lemma series_read_witness :
  scrape_line WANTED (print_series "request_success_total" success_labels "12.0") =
  Some ("request_success_total", "org/glm 5", "stop", f64_of_N 12).
Proof.
  rewrite (series_read WANTED "request_success_total" success_labels "12.0");
    [by vm_compute|done| |by vm_compute..].
  repeat constructor.
Defined.

Lemma row_follows_request_witness :
  let '(id, h1) := tracked_new 5 "glm53" "glm" 100 true held_new in
  inflight (held_run [Passed 7 id 10; Accepted 8 "glm53" "glm" 5 false; Passed 9 id 20] h1) !! id =
  Some (mkInflight "glm53" "glm" 5 100 true (Some 7) 30)%N.
Proof.
  cbn [tracked_new held_new]. 
  destruct (row_follows_request held_new 5 "glm53" "glm" 100 true
    [Passed 7 1 10; Accepted 8 "glm53" "glm" 5 false; Passed 9 1 20]) as [_ H].
  - split; [done|]. intros id [x Hx]. cbn in Hx. by rewrite lookup_empty in Hx.
  - done.
  - exact H.
Defined.

(** A model whose only series is a count of requests that is still zero has a
    row with nothing in it. *)
Example counters_read :
  let text := join (String newline "") [
    print_series "num_requests_running" [("model_name", "m")] "2.0";
    print_series "time_to_first_token_seconds_sum" [("model_name", "m")] "3.0";
    print_series "time_to_first_token_seconds_count" [("model_name", "m")] "2.0";
    print_series "something_else" [("model_name", "m")] "9.0";
    print_series "request_success_total" [("finished_reason", "stop"); ("model_name", "n")] "0.0"] in
  engine_stats text = {[
    "m" := obj_of [("num_requests_running", Num (Float (f64_of_N 2)));
                   ("time_to_first_token_seconds_sum", Num (Float (f64_of_N 3)));
                   ("time_to_first_token_seconds_count", Num (Float (f64_of_N 2)));
                   ("ttft_s", Num (Float (SFdiv 53 1024 (f64_of_N 3) (f64_of_N 2))))];
    "n" := obj_of [] ]}.
Proof. by vm_compute. Qed.
Example decimals :
  parse_f64 "0.1" = Some (S754_finite false 7205759403792794 (-56)) ∧ parse_f64 "+Inf" = Some (S754_infinity false) ∧
  parse_f64 "1e" = None ∧ parse_f64 "." = None ∧ parse_f64 "5e-324" = Some (S754_finite false 1 (-1074)).
Proof. by vm_compute. Qed.
