(* ===== verification/Settings.v ===== *)
(** * The router's settings (rust/mentatd-serve/src/main.rs, [Config::from_env])

    Every setting is an environment variable. A duration is a count of
    nanoseconds, as [Duration] keeps it, and making one from a number of seconds
    that it cannot hold stops the program. *)

From S2P Require Import Prelude Text Json Proto Addr Secret Net Render AgentEnv Ui.
From Stdlib Require Import Floats.SpecFloat ZArith.

(** ** Durations *)

Definition NANOS : N := 1000000000.
(** What a [Duration] holds: seconds of 64 bits. *)
Definition held_duration (ns : N) : Outcome N := if bool_decide (ns < u64_modulus * NANOS)%N then Done ns else Panic.
(** [Duration::from_secs_f64] *)
Definition from_secs_f64 (f : f64) : Outcome N :=
  match f with
  | S754_zero _ => Done 0%N
  | S754_finite false m e => held_duration (scaled NANOS m e)
  | _ => Panic
  end.
Definition as_secs_f64 (ns : N) : f64 :=
  f64_add (f64_of_N (ns / NANOS)) (SFdiv 53 1024 (f64_of_N (ns `mod` NANOS)) (f64_of_N NANOS)).

Definition and_then {A B} (o : Outcome A) (k : A → Outcome B) : Outcome B := match o with Done x => k x | Panic => Panic end.
Notation "x <-- o ;; k" := (and_then o (λ x, k)) (at level 100, o at next level, right associativity, only parsing).

Section environment.
Context (env : string → option string).

Definition env_str (name def : string) : string :=
  match env name with Some s => if str_empty (trim s) then def else s | None => def end.
Definition env_number (accept : f64 → bool) (name : string) (def : f64) : Outcome N :=
  from_secs_f64 (default def (s ← env name; v ← parse_f64 (trim s); if accept v then Some v else None)).
Definition env_secs_or_zero : string → f64 → Outcome N := env_number (λ v, f64_leb f64_zero v).
Definition env_secs : string → f64 → Outcome N := env_number (λ v, f64_ltb f64_zero v).

Record RouterConfig := mkRouterConfig {
  rc_daemons : list string; rc_port : N; rc_announce_port : N; rc_poll_interval : N; rc_probe_interval : N;
  rc_probe_timeout : N; rc_probe_fresh : N; rc_probe_promote : N; rc_serving_timeout : N; rc_model_wait : N;
  rc_sse_keepalive : N; rc_mcp_timeout : N; rc_tools_ttl : N; rc_model_ttl : N; rc_allowed_sources : Allow;
  rc_discover_peers : bool }.

Definition from_env : Outcome RouterConfig :=
  let secs n := f64_of_N n in
  probe_interval <-- env_secs "PROBE_INTERVAL_S" (secs 5%N) ;;
  probe_timeout <-- env_secs "PROBE_TIMEOUT_S" (secs 3%N) ;;
  let daemons := filter (λ s, str_empty s = false) (trim <$> split_char "," (default "127.0.0.1:6380" (env "MENTAT_DAEMONS"))) in
  let port := default 6381%N (parse_u16 (env_str "SERVE_PORT" "6381")) in
  let announce_port := default 6382%N (parse_u16 (env_str "MENTAT_ANNOUNCE_PORT" "6382")) in
  poll_interval <-- env_secs "POLL_INTERVAL_S" (secs 10%N) ;;
  three <-- held_duration (probe_interval * 3) ;;
  fresh <-- held_duration (three + probe_timeout) ;;
  probe_fresh <-- env_secs "PROBE_FRESH_S" (as_secs_f64 fresh) ;;
  six <-- held_duration (probe_interval * 6) ;;
  probe_promote <-- env_secs "PROBE_PROMOTE_S" (as_secs_f64 six) ;;
  serving_timeout <-- env_secs "SERVING_TIMEOUT_S" (secs 1800%N) ;;
  model_wait <-- env_secs "MODEL_WAIT_S" (secs 60%N) ;;
  sse_keepalive <-- env_secs_or_zero "SSE_KEEPALIVE_S" (secs 10%N) ;;
  mcp_timeout <-- env_secs "MCP_TIMEOUT_S" (secs 180%N) ;;
  tools_ttl <-- env_secs "TOOLS_TTL_S" (secs 60%N) ;;
  model_ttl <-- env_secs "MODEL_TTL_S" (secs 3600%N) ;;
  Done (mkRouterConfig daemons port announce_port poll_interval probe_interval probe_timeout probe_fresh probe_promote
          serving_timeout model_wait sse_keepalive mcp_timeout tools_ttl model_ttl
          (allow_parse (env_str "ALLOWED_SOURCES" "local")) (bool_decide (env_str "DISCOVER_PEERS" "1" = "1"))).
End environment.

(** With nothing set: the local daemon, ports 6381 and 6382, a group stale after
    three rounds and the time one may take, the preferred address tried again
    every sixth round. *)
Lemma settings_unset : from_env (λ _, None) =
  Done (mkRouterConfig ["127.0.0.1:6380"] 6381 6382 (10 * NANOS) (5 * NANOS) (3 * NANOS) (18 * NANOS) (30 * NANOS)
          (1800 * NANOS) (60 * NANOS) (10 * NANOS) (180 * NANOS) (60 * NANOS) (3600 * NANOS) (allow_parse "local") true).
Proof. by vm_compute. Qed.

(** Whole seconds are kept to the nanosecond. *)
Lemma from_secs_whole n : (n < 2 ^ 53)%N → from_secs_f64 (f64_of_N n) = Done (n * NANOS)%N.
Proof.
  destruct n as [|p]; [done|]. intros Hp. destruct (f64_of_pos p Hp) as (m & e & -> & He & Hm).
  unfold from_secs_f64. rewrite (scaled_whole NANOS p m e He Hm). unfold held_duration, NANOS, u64_modulus.
  rewrite bool_decide_eq_true_2; [done|]. change (2 ^ 53)%N with 9007199254740992%N in Hp. lia.
Qed.

(** A value that is no number of seconds, or none the setting accepts, leaves
    the default. *)
Lemma env_number_default env accept name def :
  (∀ s v, env name = Some s → parse_f64 (trim s) = Some v → accept v = false) →
  env_number env accept name def = from_secs_f64 def.
Proof.
  intros H. unfold env_number. destruct (env name) as [s|]; [|done]. cbn.
  destruct (parse_f64 (trim s)) as [v|] eqn:Hv; [|done]. cbn. by rewrite (H s v eq_refl Hv).
Qed.

(** But infinity is a number above zero, and so are more seconds than a
    [Duration] holds: the router stops instead of taking the default. *)
Lemma settings_infinite : from_env (λ n, if decide (n = "MODEL_WAIT_S") then Some "inf" else None) = Panic ∧
  from_env (λ n, if decide (n = "MODEL_WAIT_S") then Some "1e20" else None) = Panic.
Proof. split; by vm_compute. Qed.
