(* ===== verification/HttpClient.v ===== *)
(** * The router's HTTP client (rust/mentatd-serve/src/main.rs and ui.rs)

    How a request of the router's own is sent and read: over the pool of
    connections, and a GET once more over a fresh one when the pooled
    connection was made and then failed. What a connection gives is an
    argument, [ask]; hyper's and serde_json's words are parameters. *)

From S2P Require Import Prelude Text Json Addr Pattern Render Proxy Settings.

(** ** Sending *)

(** Which of the two clients takes a request. *)
Inductive Via := Pooled | Fresh.
Record Request := mkRequest { rq_method : string; rq_url : string; rq_ct : option string; rq_body : bytes }.

(** The collecting of a response's body within the timeout. *)
Inductive BodyRead := Collected (b : bytes) | BodyFailed (msg : string) | BodySilent.

Section client.
Context (ask : Via → Request → Sent * BodyRead).
Context (bad_uri : string → option string) (status_text : N → string).
Context (from_slice : bytes → Result Value string) (to_string : Value → string) (utf8_error : bytes → string).

Abbreviation Got := (list (Via * Request) * Result (Resp * BodyRead) string)%type (only parsing).

Definition timeout_text (t : N) : string := "timeout after " +:+ fixed1 (as_secs_f64 t) +:+ "s".

(** [send_once]: the pool, and whatever comes of it. *)
Definition send_once (r : Request) (t : N) : Got :=
  let '(o, body) := ask Pooled r in
  ([(Pooled, r)],
   match send_once_checked (timeout_text t) o with Ok resp => Ok (resp, body) | Err e => Err (se_msg e) end).

(** [send]: for a request that may be sent twice. [build] is asked before each
    attempt. *)
Definition send (build : Result Request string) (t : N) : Got :=
  match build with
  | Err e => ([], Err e)
  | Ok r =>
      let '(o, body) := ask Pooled r in
      match o with
      | Silent => ([(Pooled, r)], Err (timeout_text t))
      | Replied resp => ([(Pooled, r)], Ok (resp, body))
      | Errored true e => ([(Pooled, r)], Err e)
      | Errored false e =>
          let '(o, body) := ask Fresh r in
          ([(Pooled, r); (Fresh, r)],
           match o with
           | Silent => Err (timeout_text t)
           | Replied resp => Ok (resp, body)
           | Errored _ retry => Err (retry +:+ " (first attempt: " +:+ e +:+ ")")
           end)
      end
  end.

(** ** Reading *)

(** The body is read before the status is looked at. *)
Definition read_json (resp : Resp) (body : BodyRead) : Result Value string :=
  match body with
  | BodySilent => Err "timeout reading body"
  | BodyFailed e => Err e
  | Collected b => if is_success resp then from_slice b else Err ("HTTP " +:+ status_text (r_status resp))
  end.
Definition then_read {A} (read : Resp → BodyRead → Result A string) (g : Got) : list (Via * Request) * Result A string :=
  (g.1, match g.2 with Ok (resp, body) => read resp body | Err e => Err e end).

Definition build (r : Request) : Result Request string :=
  match bad_uri (rq_url r) with Some e => Err e | None => Ok r end.
Definition get_request (url : string) : Request := mkRequest "GET" url None [].
Definition post_request (url : string) (v : Value) : Request :=
  mkRequest "POST" url (Some "application/json") (bytes_of (to_string v)).

Definition http_get_json (url : string) (t : N) : list (Via * Request) * Result Value string :=
  then_read read_json (send (build (get_request url)) t).
Definition http_post_json (url : string) (body : Value) (t : N) : list (Via * Request) * Result Value string :=
  match build (post_request url body) with
  | Err e => ([], Err e)
  | Ok r => then_read read_json (send_once r t)
  end.

(** An engine's metrics page: any status, one attempt. *)
Definition read_text (_ : Resp) (body : BodyRead) : Result string string :=
  match body with
  | BodySilent => Err "timeout reading metrics"
  | BodyFailed e => Err e
  | Collected b => match from_utf8 b with Some s => Ok s | None => Err (utf8_error b) end
  end.
Definition fetch_text (url : string) (t : N) : list (Via * Request) * Result string string :=
  match build (get_request url) with
  | Err e => ([], Err e)
  | Ok r => then_read read_text (send_once r t)
  end.

(** ** Theorems *)

(** The second attempt is made over a fresh connection, and only when the
    first had a connection and lost it. *)
Definition retried (r : Request) : bool := match (ask Pooled r).1 with Errored false _ => true | _ => false end.
Definition last_via (r : Request) : Via := if retried r then Fresh else Pooled.

Lemma send_spec r t : send (Ok r) t =
  ((Pooled, r) :: if retried r then [(Fresh, r)] else [],
   match (ask (last_via r) r).1 with
   | Replied resp => Ok (resp, (ask (last_via r) r).2)
   | Silent => Err (timeout_text t)
   | Errored _ e => Err (match (ask Pooled r).1 with Errored false e1 => e +:+ " (first attempt: " +:+ e1 +:+ ")" | _ => e end)
   end).
Proof.
  unfold send, last_via, retried.
  destruct (ask Pooled r) as [[resp|[] e|] b] eqn:H; cbn; rewrite ?H; try reflexivity.
  by destruct (ask Fresh r) as [[] b2].
Qed.

Lemma read_json_ok resp body v : read_json resp body = Ok v ↔
  is_success resp = true ∧ ∃ b, body = Collected b ∧ from_slice b = Ok v.
Proof.
  unfold read_json. destruct body as [b|e|]; [|split; [done|by intros (_ & b & ? & _)]..].
  destruct (is_success resp); [|split; [done|by intros [? _]]].
  split; [intros H; by eauto|by intros (_ & b' & [= <-] & H)].
Qed.

(** C19: The router never sends a request of its own twice unless that is safe:
    a POST goes out at most once, over the pool, whatever comes of it; a GET at
    most twice, the second time unchanged over a fresh connection and only if
    the first connection was made and then failed, so neither a refusal nor a
    timeout is repeated. Either gives a value exactly when the last attempt was
    answered with success and a body that parses to it. *)
Theorem resent_only_when_safe (url : string) (body : Value) (t : N) :
  bad_uri url = None →
  let get := get_request url in
  let post := post_request url body in
  (http_get_json url t).1 = (Pooled, get) :: (if retried get then [(Fresh, get)] else []) ∧
  (http_post_json url body t).1 = [(Pooled, post)] ∧
  (∀ v, (http_get_json url t).2 = Ok v ↔ ∃ resp b,
     ask (last_via get) get = (Replied resp, Collected b) ∧ is_success resp = true ∧ from_slice b = Ok v) ∧
  (∀ v, (http_post_json url body t).2 = Ok v ↔ ∃ resp b,
     ask Pooled post = (Replied resp, Collected b) ∧ is_success resp = true ∧ from_slice b = Ok v).
Proof.
  intros Hu get post.
  assert (build get = Ok get ∧ build post = Ok post) as [Hg Hp] by (unfold build; cbn; by rewrite Hu).
  assert (∀ (o : Sent * BodyRead) (f : bool → string → string) s v,
    match match o.1 with Replied resp => Ok (resp, o.2) | Silent => Err s | Errored c e => Err (f c e) end with
    | Ok (resp, b) => read_json resp b | Err e => Err e end = Ok v ↔
    ∃ resp b, o = (Replied resp, Collected b) ∧ is_success resp = true ∧ from_slice b = Ok v) as Hread.
  { intros [o b] f s v. cbn [fst snd]. destruct o as [resp|c e|]; [|split; [done|by intros (? & ? & ? & _)]..].
    rewrite read_json_ok. split; [intros (? & b' & -> & ?); by eauto 6|by intros (? & b' & [= -> ->] & ? & ?); eauto]. }
  unfold http_get_json, http_post_json, then_read. fold get post. rewrite Hg, Hp, send_spec. cbn [fst snd].
  split; [done|]. unfold send_once. destruct (ask Pooled post) as [o b] eqn:Ho. cbn [fst snd]. split; [done|]. split.
  - intros v. apply (Hread _ (λ _ e, match (ask Pooled get).1 with Errored false e1 => _ | _ => e end)).
  - intros v. rewrite <-(Hread (o, b) (λ _ e, e) (timeout_text t)). cbn [fst snd]. by destruct o.
Qed.
End client.

(** ** A connection the far end closed *)

Definition ok_reply : Sent * BodyRead := (Replied (mkResp 200 None), Collected [x31]).
(** An endpoint that serves one request per connection, met over a pooled
    connection it has closed. *)
Definition stale (v : Via) (_ : Request) : Sent * BodyRead :=
  match v with Pooled => (Errored false "closed", BodySilent) | Fresh => ok_reply end.
Definition one (_ : bytes) : Result Value string := Ok (JN 1).

Lemma resent_only_when_safe_witness :
  let url := "http://h/v1/models" in
  (http_get_json stale (λ _, None) (λ _, "") one url 5000).1 =
    [(Pooled, get_request url); (Fresh, get_request url)] ∧
  (http_get_json stale (λ _, None) (λ _, "") one url 5000).2 = Ok (JN 1) ∧
  (http_post_json stale (λ _, None) (λ _, "") one (λ _, "{}") url Null 5000).1 =
    [(Pooled, post_request (λ _, "{}") url Null)] ∧
  (http_post_json stale (λ _, None) (λ _, "") one (λ _, "{}") url Null 5000).2 = Err "closed".
Proof.
  destruct (resent_only_when_safe stale (λ _, None) (λ _, "") one (λ _, "{}") "http://h/v1/models" Null 5000 eq_refl)
    as (H1 & H2 & H3 & H4).
  split; [exact H1|]. split; [|split; [exact H2|reflexivity]].
  apply H3. exists (mkResp 200 None), [x31]. repeat split.
Defined.

Example a_dead_endpoint_still_fails :
  let dead := λ _ _, (Errored true "refused", BodySilent) in
  http_get_json dead (λ _, None) (λ _, "") one "http://h/v1/models" 5000 =
    ([(Pooled, get_request "http://h/v1/models")], Err "refused").
Proof. reflexivity. Qed.
Example the_timeout_in_words : timeout_text 2500000000 = "timeout after 2.5s".
Proof. by vm_compute. Qed.
