(* ===== verification/Boot.v ===== *)
(** * How the programs start (daemon.rs, announce.rs, state.rs, udp.rs, mentatd-serve main.rs)

    What a daemon is before its threads run, and the file it tells its address
    in; what the announcer and the two listeners need to start, and the rounds
    the announcer then sends; the addresses a router watches from the start.
    System calls give their errors as arguments. *)

From S2P Require Import Prelude Text Json Proto Addr Net State Mesh Secret Groups Stream Watch AgentEnv Announce Cli Ui Settings.

(** ** A file replaced whole *)

(** [write_json_file], by the call that fails: the files there are afterwards.
    A write that fails leaves a part of the text in the temporary file. *)
Inductive WriteFate :=
| NoDir (e : string) | NoTmp (e : string) | Partial (written : nat) (e : string) | NoRename (e : string) | Written.

Definition write_json_file (text : bytes) (path : string) (fate : WriteFate) (fs : gmap string bytes)
    : Result unit string * gmap string bytes :=
  let tmp := path +:+ ".tmp" in
  match fate with
  | NoDir e | NoTmp e => (Err e, fs)
  | Partial n e => (Err e, <[tmp := take n text]> fs)
  | NoRename e => (Err e, <[tmp := text]> fs)
  | Written => (Ok tt, <[path := text]> (delete tmp fs))
  end.

(** ** The daemon *)

(** [run] up to its threads: no address, no port, or the state it starts with
    and the text of head.json, whose writing may fail. *)
Inductive DaemonStart := NoNodeIp | NoPort (e : string) | DaemonUp (s : State) (head : Value).

Definition daemon_run (node_ip host boot : string) (port http_port pid : N) (bound : option string) : DaemonStart :=
  if str_empty (trim node_ip) then NoNodeIp
  else
    let control_addr := node_ip +:+ ":" +:+ pretty port in
    match bound with
    | Some e => NoPort e
    | None =>
        DaemonUp ((state_new node_ip host control_addr boot) <| State.http_port := http_port |>)
          (obj_of [("address", Str control_addr); ("node_ip", Str node_ip); ("pid", JN pid)])
    end.

(** ** The announcement socket *)

(** [bind_shared]: the first call that fails; the socket is closed again then.
    The second part counts the descriptors left open. *)
Definition bind_shared (socket reuse_addr reuse_port bind : option string) : Result unit string * nat :=
  match socket with
  | Some e => (Err e, 0)
  | None =>
      match reuse_addr, reuse_port, bind with
      | Some e, _, _ | None, Some e, _ | None, None, Some e => (Err e, 0)
      | None, None, None => (Ok tt, 1)
      end
  end.

Section environment.
Context (env : string → option string) (fs : string → Result bytes string).

Definition ANNOUNCE_PORT : N := 6382.
Definition announce_port : N := default ANNOUNCE_PORT (s ← env "MENTAT_ANNOUNCE_PORT"; parse_u16 (trim s)).
Definition announce_interval : Outcome N :=
  match (s ← env "MENTAT_ANNOUNCE_INTERVAL_S"; v ← parse_f64 (trim s); if f64_ltb f64_zero v then Some v else None) with
  | Some v => from_secs_f64 v
  | None => Done (5 * NANOS)%N
  end.
Definition secret_load : Result (option bytes) string := load (env "MENTAT_SECRET_FILE") (env "MENTAT_SECRET") fs.

(** [announce::start]: announcing off, the whole daemon stopped, or the listener
    and the announcer with what they run on. *)
Inductive AnnounceStart :=
| AnnounceOff (why : string)
| AnnounceStops (why : string)
| Announcing (port interval : N) (extra : list string) (key : bytes).

Definition announce_start : Outcome AnnounceStart :=
  if bool_decide (announce_port = 0%N) then Done (AnnounceOff "MENTAT_ANNOUNCE_PORT=0")
  else
    interval <-- announce_interval ;;
    Done match secret_load with
      | Ok (Some key) =>
          Announcing announce_port interval (extra_targets (default "" (env "MENTAT_ANNOUNCE_ADDR")) announce_port) key
      | Ok None => AnnounceOff "no MENTAT_SECRET or MENTAT_SECRET_FILE"
      | Err why => AnnounceStops why
      end.

(** [udp_listener], up to its first datagram. *)
Inductive ListenStart := ListenOff | ListenFailed (e : string) | ListenStops (why : string) | Listening (key : bytes).

Definition udp_listener (port : N) (bound : Result unit string) : ListenStart :=
  if bool_decide (port = 0%N) then ListenOff
  else match bound with
  | Err e => ListenFailed e
  | Ok _ =>
      match secret_load with
      | Ok (Some key) => Listening key
      | Ok None => ListenStops "discovery needs MENTAT_SECRET or MENTAT_SECRET_FILE"
      | Err why => ListenStops why
      end
  end.
End environment.

(** ** The announcer's rounds *)

(** What a round reads: the state, this box's addresses and tags, the clock,
    and the broadcast addresses there are. *)
Record Round := mkRound {
  ro_state : State; ro_addrs : list string; ro_tags : gmap string (list string); ro_now : N; ro_targets : list string }.

Section rounds.
Context (hmac : bytes → bytes → bytes) (to_string : Value → string) (from_slice : bytes → option Value).
Context (univ : string) (key : bytes) (extra : list string).

Definition round_payload (seq : N) (r : Round) : Value :=
  payload (ro_state r) univ (ro_addrs r) (ro_tags r) seq (ro_now r).

(** [run]: each round's payload, and what is sent to whom; the number is used
    up by a round too large to send. *)
Fixpoint announce_rounds (seq : N) (rs : list Round) : list (Value * list (string * bytes)) :=
  match rs with
  | [] => []
  | r :: rs =>
      let v := round_payload seq r in
      (v, match datagram hmac to_string key v with
          | Some d => (λ t, (t, d)) <$> ro_targets r ++ extra
          | None => []
          end) :: announce_rounds (u64_succ seq) rs
  end.
End rounds.

(** ** The router *)

(** [main]: a watch for each configured daemon. *)
Definition watch_all (s : Shared) (addrs : list string) : Shared * list Start :=
  foldl (λ '(s, l) d, let '(s, l') := ensure_watched s d [] in (s, l ++ l')) (s, []) addrs.
Definition router_start (addrs : list string) : Shared * list Start :=
  watch_all (mkShared ∅ ∅ ∅ ∅ ∅ ∅) addrs.

(** ** Theorems *)

(** Whatever fails, a reader of the file finds what was there or the whole of
    the new text, and the new text exactly when the writer is told so. *)
Theorem write_json_file_whole text path fate fs r fs' :
  write_json_file text path fate fs = (r, fs') → (path +:+ ".tmp" ≠ path) →
  (r = Ok tt ∧ fs' !! path = Some text ∨ is_Some (match r with Err e => Some e | _ => None end) ∧ fs' !! path = fs !! path) ∧
  ∀ q, q ≠ path → q ≠ path +:+ ".tmp" → fs' !! q = fs !! q.
Proof.
  intros Hw Hne. destruct fate; cbn in Hw; injection Hw as <- <-; split.
  all: try (intros q Hq Ht; by rewrite ?lookup_insert_ne, ?lookup_delete_ne by done).
  all: try (right; split; [by eauto|by rewrite ?lookup_insert_ne by done]).
  left. by rewrite lookup_insert_eq.
Qed.

Lemma bind_shared_no_leak a b c d :
  (bind_shared a b c d).2 = match (bind_shared a b c d).1 with Ok _ => 1 | Err _ => 0 end.
Proof. by destruct a, b, c, d. Qed.

(** Without a key a daemon runs and stays silent, a router stops; with a key
    that cannot be read both stop. *)
Lemma start_keys env fs port interval :
  announce_port env ≠ 0%N → announce_interval env = Done interval → port ≠ 0%N →
  match secret_load env fs with
  | Ok (Some key) => (∃ extra, announce_start env fs = Done (Announcing (announce_port env) interval extra key)) ∧
                     udp_listener env fs port (Ok tt) = Listening key
  | Ok None => (∃ why, announce_start env fs = Done (AnnounceOff why)) ∧ ∃ why, udp_listener env fs port (Ok tt) = ListenStops why
  | Err why => announce_start env fs = Done (AnnounceStops why) ∧ udp_listener env fs port (Ok tt) = ListenStops why
  end.
Proof.
  intros Hp Hi Hq. unfold announce_start, udp_listener. rewrite !bool_decide_eq_false_2 by done. rewrite Hi. cbn [and_then].
  destruct (secret_load env fs) as [[key|]|why]; eauto.
Qed.

Section rounds_heard.
Context (hmac : bytes → bytes → bytes) (to_string : Value → string) (from_slice : bytes → option Value).
Context (univ : string) (key : bytes) (node boot : string).

Definition same_node (r : Round) : Prop := node_id (ro_state r) = node ∧ boot_id (ro_state r) = boot.

(** What a listener receives: a copy of what was sent in round [i], or anything
    else, at some time of its clock. *)
Inductive Arrival := Copy (i : nat) (r : Round) (now : f64) (d : bytes) | Else (now : f64) (d : bytes).
Definition received (a : Arrival) : f64 * bytes := match a with Copy _ _ now d => (now, d) | Else now d => (now, d) end.

(** A copy was sent to some target, and its text parses back to what was
    signed; anything else is not signed with the key, or is another node's. *)
Definition arrives (seq : N) (rs : list Round) (sent : list (Value * list (string * bytes))) (a : Arrival) : Prop :=
  match a with
  | Copy i r _ d => rs !! i = Some r ∧
      (∃ v copies target, sent !! i = Some (v, copies) ∧ (target, d) ∈ copies) ∧
      from_slice d = Some (envelope hmac to_string (round_payload univ (seq + N.of_nat i) r) key)
  | Else _ d => ∃ o, verify hmac to_string from_slice (take (S MAX_DATAGRAM) d) key = Done o ∧
      ∀ v, o = Some v → str_or "" (index "node_id" v) ≠ node
  end.

(** The copies that come within the clock window and are of a later round than
    all that came within it before; [before] are the rounds of those. *)
Fixpoint newest (seq : N) (before : list nat) (as_ : list Arrival) : list (bytes * Value * string) :=
  match as_ with
  | [] => []
  | Copy i r now d :: as_ =>
      if negb (fresh (f64_of_N (ro_now r)) now) then newest seq before as_
      else if bool_decide (Forall (λ j, j < i) before)
      then (d, round_payload univ (seq + N.of_nat i) r, node) :: newest seq (i :: before) as_
      else newest seq (i :: before) as_
  | Else _ _ :: as_ => newest seq before as_
  end.

Lemma rounds_at extra rs seq i v copies target d :
  (seq + N.of_nat (length rs) < u64_modulus)%N →
  announce_rounds hmac to_string univ key extra seq rs !! i = Some (v, copies) → (target, d) ∈ copies →
  ∃ r, rs !! i = Some r ∧ v = round_payload univ (seq + N.of_nat i) r ∧ datagram hmac to_string key v = Some d.
Proof.
  revert seq i. induction rs as [|r rs IH]; intros seq i Hlen; cbn [announce_rounds]; [done|]. cbn [length] in Hlen.
  destruct i as [|i]; cbn [lookup list_lookup].
  - intros [= <- <-] Hin. exists r. rewrite N.add_0_r. split_and!; [done..|].
    destruct (datagram _ _ _ _) as [d'|]; [|by apply not_elem_of_nil in Hin].
    by apply list_elem_of_fmap in Hin as (t & [= _ ->] & _).
  - assert (u64_succ seq = seq + 1)%N as -> by (apply u64_add_small; lia). intros Hi Hin.
    destruct (IH (seq + 1)%N i) as (r' & Hr & -> & Hd); [lia|done..|]. exists r'.
    replace (seq + N.of_nat (S i))%N with (seq + 1 + N.of_nat i)%N by lia. done.
Qed.

(** What is not of the node moves nothing the guard holds about it. *)
Lemma hear_else mine now seen d o :
  verify hmac to_string from_slice (take (S MAX_DATAGRAM) d) key = Done o →
  (∀ v, o = Some v → str_or "" (index "node_id" v) ≠ node) →
  ∃ h seen', hear hmac to_string from_slice key univ mine now seen d = Done (h, seen') ∧
    seen' !! node = seen !! node ∧ ∀ v n, h = Fresh v n → n ≠ node.
Proof.
  intros Hv Ho. unfold hear. cbn zeta. destruct (decide _); [by eexists _, _|].
  destruct (negb _); [by eexists _, _|]. rewrite Hv. destruct o as [v|]; [|by eexists _, _].
  specialize (Ho v eq_refl). destruct (negb _); [by eexists _, _|].
  destruct (as_u64 (index "t" v)); [|by eexists _, _]. destruct (negb _); [by eexists _, _|].
  destruct (_ || _); [by eexists _, _|]. destruct (replayed _ _ _ _); [by eexists _, _|].
  eexists _, _. split_and!; [done| |by intros ? ? [= _ <-]]. by rewrite lookup_insert_ne.
Qed.

Definition of_node (l : list (bytes * Value * string)) := filter (λ x, x.2 = node) l.

(** C38: A daemon's announcements reach whoever can hear them. Of the rounds a
    daemon sends in one boot, any copies may reach a listener, in any order, at
    any times, among any other datagrams that are not signed with the key or
    are other nodes'. A listener of the daemon's universe that holds the key
    accepts of them, whole and each once, exactly the copies that come within
    the clock window and are of a later round than all that came within it
    before: a stale one is refused, and so are a second copy and a round that
    was overtaken. *)
Theorem rounds_heard mine extra rs seq seen as_ :
  (seq + N.of_nat (length rs) < u64_modulus)%N → Forall same_node rs → node ≠ "" → boot ≠ "" → mine ≠ Some node →
  (∀ last, seen !! node = Some (boot, last) → (last < seq)%N) →
  Forall (arrives seq rs (announce_rounds hmac to_string univ key extra seq rs)) as_ →
  ∃ got seen', hear_all hmac to_string from_slice key univ mine seen (received <$> as_) = Done (got, seen') ∧
    of_node got = newest seq [] as_.
Proof.
  intros Hlen Hrs Hn Hb Hm Hseen Has.
  assert (∀ i, replayed seen node boot (seq + N.of_nat i) = false ↔ ∀ j, j ∈ @nil nat → j < i) as Hguard.
  { intros i. split; [by intros _ j ?%elem_of_nil|intros _]. unfold replayed.
    destruct (seen !! node) as [[b last]|]; [|done]. apply bool_decide_eq_false. intros [-> Hle].
    specialize (Hseen _ eq_refl). lia. }
  clear Hseen. revert seen Hguard. generalize (@nil nat) as before.
  induction Has as [|a as_ Ha _ IH]; intros before seen Hguard; [by eexists _, _|].
  change (received <$> a :: as_) with (received a :: (received <$> as_)).
  destruct a as [i r now d|now d]; cbn [received hear_all newest].
  - destruct Ha as (Hr & (v & copies & target & Hi & Hin) & Hj).
    destruct (rounds_at extra rs seq i v copies target d Hlen Hi Hin) as (r' & Hr' & -> & Hd).
    rewrite Hr in Hr'. injection Hr' as <-.
    destruct (proj1 (list.Forall_forall _ _) Hrs r) as [Hrn Hrb]; [by eapply list_elem_of_lookup_2|].
    rewrite (announced_heard hmac to_string from_slice (ro_state r) univ (ro_addrs r) (ro_tags r) (seq + N.of_nat i) (ro_now r)
      key mine now seen d Hd Hj) by (by rewrite ?Hrn, ?Hrb). rewrite Hrn, Hrb.
    destruct (negb (fresh (f64_of_N (ro_now r)) now)).
    { destruct (IH before seen Hguard) as (got & seen' & -> & Hg). by eexists _, _. }
    case_bool_decide as Hnew; rewrite list.Forall_forall in Hnew.
    + rewrite (proj2 (Hguard i) Hnew).
      destruct (IH (i :: before) (<[node:=(boot, (seq + N.of_nat i)%N)]> seen)) as (got & seen' & -> & Hg).
      * intros k. unfold replayed. rewrite lookup_insert_eq, bool_decide_eq_false. setoid_rewrite elem_of_cons. split.
        -- intros Hk j [->|Hj']; [|apply Hnew in Hj']; destruct (decide (i < k)); try lia; destruct Hk; (split; [done|lia]).
        -- intros Hk [_ Hle]. specialize (Hk i (or_introl eq_refl)). lia.
      * eexists _, _. split; [done|]. unfold of_node. rewrite filter_cons, decide_True by done. by f_equal.
    + assert (replayed seen node boot (seq + N.of_nat i) = true) as ->.
      { apply not_false_iff_true. by rewrite Hguard. }
      destruct (IH (i :: before) seen) as (got & seen' & -> & Hg); [|by eexists _, _].
      intros k. rewrite Hguard. setoid_rewrite elem_of_cons. split; [|intros Hk j Hj'; apply Hk; by right].
      intros Hk j [->|Hj']; [|by apply Hk]. apply Nat.nle_gt. intros Hle. apply Hnew. intros j Hj'%Hk. lia.
  - destruct Ha as (o & Hv & Ho).
    destruct (hear_else mine now seen d o Hv Ho) as (h & seen1 & -> & Hkeep & Hother).
    destruct (IH before seen1) as (got & seen' & -> & Hg).
    { intros k. rewrite <-Hguard. unfold replayed. by rewrite Hkeep. }
    eexists _, _. split; [done|]. rewrite <-Hg. destruct h; try done.
    unfold of_node. rewrite filter_cons, decide_False; [done|]. by eapply Hother.
Qed.
End rounds_heard.

(** Each configured daemon is watched once, however often it is listed. *)
Theorem router_start_watches addrs :
  (∀ a, a ∈ (router_start addrs).2.*1 ↔ a ∈ addrs) ∧ NoDup (router_start addrs).2.*1.
Proof.
  unfold router_start, watch_all.
  assert (∀ (addrs : list string) s l, nodes s = ∅ → watched s = list_to_set l.*1 → NoDup (l.*1 : list string) →
    let r := foldl (λ '(s, l) d, let '(s, l') := ensure_watched s d [] in (s, l ++ l')) (s, l) addrs in
    (∀ a, a ∈ r.2.*1 ↔ a ∈ l.*1 ∨ a ∈ addrs) ∧ NoDup r.2.*1) as H.
  { clear addrs. induction addrs as [|d addrs IH]; intros s l Hn Hw Hd; cbn [foldl].
    { split; [|done]. set_solver. }
    unfold ensure_watched at 2 4. rewrite Hn. change ((map_to_list ∅).*2) with (@nil NodeWatch). cbn [existsb].
    case_decide as Hin.
    - rewrite app_nil_r. destruct (IH s l Hn Hw Hd) as [H1 H2]. split; [|done].
      intros a. rewrite H1, elem_of_cons. rewrite Hw, elem_of_list_to_set in Hin. naive_solver.
    - rewrite Hw, elem_of_list_to_set in Hin.
      destruct (IH (s <| watched ::= λ w, {[d]} ∪ w |>) (l ++ [(d, [])])) as [H1 H2].
      + done.
      + cbn. rewrite Hw, fmap_app, list_to_set_app_L. cbn. set_solver.
      + rewrite fmap_app. cbn. apply list.NoDup_app. split_and!; [done| |apply list.NoDup_singleton]. set_solver.
      + split; [|done]. intros a. rewrite H1, fmap_app, elem_of_app, !elem_of_cons. cbn. set_solver. }
  destruct (H addrs (mkShared ∅ ∅ ∅ ∅ ∅ ∅) []) as [H1 H2]; [done|done|by constructor|].
  split; [|done]. intros a. rewrite H1. set_solver.
Qed.

(** ** A run of three rounds: one overtaken, one too late, a second copy, and
    a datagram that is none of them *)

(** Text that shows the number of what is signed. *)
Definition demo_text (v : Value) : string :=
  pretty (default 0%N (as_u64 (index "seq" (default v (get "p" v))))).
Definition demo_round : Round := mkRound announcer ["10.0.0.1"] ∅ 1000 ["10.0.0.255:6382"].
Definition demo_sent (n : N) : Value * bytes :=
  (round_payload "default" n demo_round, String.list_byte_of_string (pretty n)).
Definition demo_parse_round (b : bytes) : option Value :=
  (λ x, envelope toy_hmac demo_text x.1 demo_key) <$>
    find_first (λ x, bool_decide (x.2 = b)) [demo_sent 4; demo_sent 5; demo_sent 6].

Definition demo_copy (i : nat) (now : N) : Arrival := Copy i demo_round (f64_of_N now) (demo_sent (4 + N.of_nat i)).2.
Definition demo_arrivals : list Arrival :=
  [demo_copy 1 1001; Else (f64_of_N 1001) (String.list_byte_of_string "noise"); demo_copy 0 1002; demo_copy 1 1003;
   demo_copy 2 9000; demo_copy 2 1020].

Lemma rounds_heard_witness : ∃ got seen',
  hear_all toy_hmac demo_text demo_parse_round demo_key "default" (Some "n9") {[ node_id announcer := ("boot-a", 3%N) ]}
    (received <$> demo_arrivals) = Done (got, seen') ∧
  of_node (node_id announcer) got =
    [((demo_sent 5).2, (demo_sent 5).1, node_id announcer); ((demo_sent 6).2, (demo_sent 6).1, node_id announcer)].
Proof.
  destruct (rounds_heard toy_hmac demo_text demo_parse_round "default" demo_key (node_id announcer) "boot-a" (Some "n9") []
    [demo_round; demo_round; demo_round] 4 {[ node_id announcer := ("boot-a", 3%N) ]} demo_arrivals)
    as (got & seen' & Hgot & Hnode).
  - vm_compute. reflexivity.
  - by repeat constructor.
  - vm_compute. discriminate.
  - discriminate.
  - vm_compute. discriminate.
  - intros last Hl. assert (last = 3%N) as -> by (vm_compute in Hl; congruence). reflexivity.
  - assert (announce_rounds toy_hmac demo_text "default" demo_key [] 4 [demo_round; demo_round; demo_round]
      = (λ x, (x.1, [("10.0.0.255:6382", x.2)])) <$> [demo_sent 4; demo_sent 5; demo_sent 6]) as -> by (vm_compute; reflexivity).
    unfold demo_arrivals. rewrite !list.Forall_cons. split_and!; [| | | | | |by constructor].
    2: exists None; split; [vm_compute; reflexivity|done].
    all: split; [reflexivity|]; split; [do 3 eexists; split; [reflexivity|by left]|vm_compute; reflexivity].
  - exists got, seen'. split; [exact Hgot|]. rewrite Hnode. vm_compute. reflexivity.
Defined.

(** A daemon whose interval is no number a [Duration] holds does not start. *)
Example interval_infinite :
  announce_start (λ n, if decide (n = "MENTAT_ANNOUNCE_INTERVAL_S") then Some "inf" else None) (λ _, Err "") = Panic.
Proof. by vm_compute. Qed.
