(* ===== verification/Router.v ===== *)
(** * The router's routes (rust/mentatd-serve/src/main.rs)

    One request to mentatd-serve: the gate on its source, then the route its
    method and path choose, each served by the component that models it. *)

From S2P Require Import Prelude Text Json Proto Addr Pattern Net Groups Prober Proxy Tokens Mcp Ui.

Inductive Method := GET | POST | OtherMethod.

(** What the router reads of a request: the path and query as sent, the headers
    it looks at, and the body, none when it is over the route's limit. *)
Record Request := mkRequest {
  q_method : Method; q_path : string; q_tail : string; q_accept : option string; q_ct : option string;
  q_body : option bytes }.

Inductive Route := Page | StatusDoc | Stats | Models | McpRoute | TokensRoute | ProxyRoute | NoRoute.

Definition path_of (p : string) : string :=
  let p := trim_slashes p in if str_empty p then "/" else p.

Definition route (r : Request) : Route :=
  let path := path_of (q_path r) in
  match q_method r with
  | GET =>
      if bool_decide (path = "/") && wants_html (q_accept r) then Page
      else if bool_decide (path ∈ ["/"; "/healthz"; "/status.json"]) then StatusDoc
      else if bool_decide (path = "/stats.json") then Stats
      else if bool_decide (path ∈ ["/v1"; "/v1/models"]) then Models
      else NoRoute
  | POST =>
      if bool_decide (path = "/mcp") then McpRoute
      else if bool_decide (path = "/v1/responses/input_tokens") then TokensRoute
      else ProxyRoute
  | OtherMethod => NoRoute
  end.

(** An answer the router writes, or one of the forwarding routes. *)
Inductive Response :=
  | Document (status : N) (body : Value)
  | EmptyBody (status : N)
  | HtmlPage
  | Forwarded (a : Answer).

(** What the routes keep: the tables, the requests held, the scraped metrics
    and the fetches the page has under way. *)
Record Front := mkFront {
  f_shared : Shared; f_held : Held; f_metrics : gmap string (N * string); f_fetching : gset string }.
#[export] Instance eta_Front : Eta Front := λ f, mkFront (f_shared f) (f_held f) (f_metrics f) (f_fetching f).

(** The row of a request the upstream accepted, at the time it did. *)
Definition register (t : N) (h : Held) (k : Tracking) : Held :=
  (tracked_new t (tk_model k) (tk_group k) (tk_bytes k) (tk_stream k) h).2.

Section handle.
Context `{HI : HashIter} (C : Ctx).
Context (post : string → Value → Result Value string) (fetch : string → option string).
Context (from_slice : bytes → Result Value string).
Context (to_text : Value → string) (status_text : Shared → string) (version : string) (verify : bool) (started : N).
Context (timeout_msg secs_text : string) (builds : string → option string).

Definition serve_stats (w : Front) : Value * Front :=
  let s := f_shared w in
  let '(doc, cache) := stats C fetch (f_held w) (f_held w) (f_metrics w) s (f_fetching w) started in
  (doc, w <| f_metrics := cache |> <| f_fetching := (page_view C s (f_fetching w)).2 |>).

(** What serving a request leaves, and its answer: none where the code would
    stop, or where the turns given for the proxied route's loop are not
    enough. *)
Definition handle (peer_ip : string) (w : Front) (r : Request) (early late : list Turn) (accepted_at : N)
    : option Response * Front :=
  let s := f_shared w in
  if negb (permits_now (allowed_sources (scfg C)) peer_ip (ifaces C)) then
    (Some (Document 403 (obj_of [("error", Str "source address is not in ALLOWED_SOURCES")])), w)
  else
    match route r with
    | Page => (Some HtmlPage, w)
    | StatusDoc => (Some (Document 200 (status_view C s started verify)), w)
    | Stats => let '(doc, w) := serve_stats w in (Some (Document 200 doc), w)
    | Models => (Some (Document 200 (obj_of [("object", Str "list"); ("data", Arr (model_objects C s))])), w)
    | McpRoute =>
        let '(a, s) := Mcp.handle C post status_text to_text version from_slice s (q_body r) in
        ((λ '(st, d), match d with Some v => Document st v | None => EmptyBody st end) <$> a, w <| f_shared := s |>)
    | TokensRoute =>
        let '(_, (st, v)) := count C s (ok ∘ from_slice) to_text post (q_body r) in (Some (Document st v), w)
    | ProxyRoute =>
        match forward C timeout_msg secs_text builds (ok ∘ from_slice) (q_body r) (q_ct r) (q_tail r) (now C) early late with
        | Some (a, tracked) => (Some (Forwarded a), w <| f_held ::= (λ h, from_option (register accepted_at h) h tracked) |>)
        | None => (None, w)
        end
    | NoRoute => (Some (Document 404 (obj_of [("error", Str "not found")])), w)
    end.
End handle.

(** ** Theorems *)

(** Tables that differ in the tools cache alone. *)
Definition but_tools (s s' : Shared) : Prop :=
  daemons s' = daemons s ∧ watched s' = watched s ∧ nodes s' = nodes s ∧ probes s' = probes s ∧ live s' = live s.
#[export] Instance but_tools_preorder : PreOrder but_tools.
Proof.
  split; [by intros s|]. intros x y z (? & ? & ? & ? & ?) (? & ? & ? & ? & ?). unfold but_tools. split_and!; by etrans.
Qed.

Lemma but_tools_models `{HI : HashIter} C s s' : but_tools s s' →
  model_table C s' = model_table C s ∧ model_objects C s' = model_objects C s ∧ not_ready C s' = not_ready C s.
Proof. destruct s, s'. unfold but_tools. cbn. intros (-> & -> & -> & -> & ->). done. Qed.

Section theorems.
Context `{HI : HashIter} (C : Ctx) (post : string → Value → Result Value string) (fetch : string → option string).
Context (from_slice : bytes → Result Value string).
Context (to_text : Value → string) (status_text : Shared → string) (version : string) (verify : bool) (started : N).
Context (timeout_msg secs_text : string) (builds : string → option string).

Lemma group_tools_but s group url : but_tools s (group_tools C post s group url).2.
Proof. unfold group_tools. by destruct (cached_tools _ _ _). Qed.
Lemma merge_but s : but_tools s (merge C post s).2.
Proof.
  unfold merge. generalize (bt_values (group_table C s)) as es, (∅ : gmap string Merged) as out. intros es.
  revert s. induction es as [|e es IH]; intros s out; [done|]. cbn [foldl]. unfold merge_group at 2.
  destruct (mcp_url e) as [url|]; [|apply IH]. pose proof (group_tools_but s (g_group e) url) as H.
  destruct (group_tools _ _ _ _ _) as [ts s1]. etrans; [exact H|apply IH].
Qed.
Lemma call_but s later rid params : but_tools s (call C post status_text to_text s later rid params).2.
Proof.
  unfold call. case_bool_decide; [done|]. pose proof (merge_but s) as Hb. destruct (merge C post s) as [m s1]. cbn in Hb.
  repeat (case_match; try done).
Qed.
Lemma tool_list_but s : but_tools s (tool_list C post s).2.
Proof. unfold tool_list. pose proof (merge_but s) as Hb. by destruct (merge C post s). Qed.
Lemma rpc_but s req : but_tools s (rpc C post status_text to_text version s req).2.
Proof.
  unfold rpc. pose proof (tool_list_but s) as Hl. pose proof (call_but s id (index "id" req) (index "params" req)) as Hc.
  destruct (tool_list C post s) as [l sl]. destruct (call _ _ _ _ _ _ _ _) as [[a v] sc]. by repeat case_match.
Qed.
Lemma rpc_batch_but s reqs : but_tools s (rpc_batch C post status_text to_text version s reqs).2.
Proof.
  revert s. induction reqs as [|r reqs IH]; intros s; [done|]. cbn [rpc_batch].
  pose proof (rpc_but s r) as H. destruct (rpc _ _ _ _ _ _ _) as [[o|] s1]; [|done].
  specialize (IH s1). destruct (rpc_batch _ _ _ _ _ _ _) as [rest s2]. by etrans.
Qed.
Lemma mcp_but s body : but_tools s (Mcp.handle C post status_text to_text version from_slice s body).2.
Proof.
  unfold Mcp.handle. destruct body as [b|]; [|done]. destruct (from_slice b) as [v|e]; [|done].
  pose proof (rpc_but s v) as H. destruct v as [| | | |l|]; try (by destruct (rpc _ _ _ _ _ _ _)).
  pose proof (rpc_batch_but s l) as H'. by destruct (rpc_batch _ _ _ _ _ _ _).
Qed.

(** The request reached an upstream, which answered with [resp]. *)
Definition answered (a : option Response) : option Resp :=
  match a with
  | Some (Forwarded (Relayed resp)) => Some resp
  | Some (Forwarded (EventStream (RxGot (Ok resp)))) => Some resp
  | _ => None
  end.

(** The row of a request that was taken at [at_], and what was sent for it:
    its model is the one its body names, its group and its answer those of the
    last send. *)
Definition row_of (r : Request) (turns : list Turn) (at_ : N) (resp : Resp) (row : Inflight) : Prop :=
  ∃ body routed group url,
    q_body r = Some body ∧ route_by (ok ∘ from_slice) (q_ct r) body = Ok routed ∧
    list.last (dispatch C timeout_msg secs_text builds
      (mkCall (rt_model routed) (q_tail r) (now C + model_wait (scfg C))) turns).1 = Some (group, url, Replied resp) ∧
    row = mkInflight (rt_model routed) group at_ (N.of_nat (length body)) (rt_stream routed) None 0.

Lemma forward_rows r early late a tracked :
  forward C timeout_msg secs_text builds (ok ∘ from_slice) (q_body r) (q_ct r) (q_tail r) (now C) early late = Some (a, tracked) →
  match answered (Some (Forwarded a)) with
  | Some resp => ∃ k, tracked = Some k ∧ ∀ at_,
      row_of r (early ++ late) at_ resp (mkInflight (tk_model k) (tk_group k) at_ (tk_bytes k) (tk_stream k) None 0)
  | None => tracked = None
  end.
Proof.
  unfold forward. destruct (q_body r) as [body|] eqn:Hb; [|by intros [= <- <-]].
  destruct (route_by _ _ _) as [routed|e] eqn:Hr; [|by intros [= <- <-]].
  set (c := mkCall _ _ _). cbv zeta.
  assert (∀ group resp at_, (dispatch C timeout_msg secs_text builds c (early ++ late)).2 = Some (Ok (group, resp)) →
    row_of r (early ++ late) at_ resp (mkInflight (rt_model routed) group at_ (N.of_nat (length body)) (rt_stream routed) None 0)) as Hrow.
  { intros group resp at_ [url Hl]%dispatch_answered. by exists body, routed, group, url. }
  assert (∀ res, (dispatch C timeout_msg secs_text builds c (early ++ late)).2 = Some res →
    relay_or_refuse routed (N.of_nat (length body)) res = (a, tracked) →
    match answered (Some (Forwarded a)) with
    | Some resp => ∃ k, tracked = Some k ∧ ∀ at_,
        row_of r (early ++ late) at_ resp (mkInflight (tk_model k) (tk_group k) at_ (tk_bytes k) (tk_stream k) None 0)
    | None => tracked = None
    end) as Hnow.
  { intros [[group resp]|e] Hd; cbn; intros [= <- <-]; cbn; [|done]. eexists. split; [done|]. intros at_. by apply Hrow. }
  destruct (negb (rt_stream routed) || _) eqn:Hs.
  - intros (res & Hd & Hres)%fmap_Some. by apply (Hnow res).
  - apply orb_false_iff in Hs as [Hs%negb_false_iff _].
    destruct (dispatch C timeout_msg secs_text builds c early).2 as [res|] eqn:He.
    + intros [= Hres]. apply (Hnow res); [|done]. by erewrite dispatch_enough.
    + destruct (dispatch C timeout_msg secs_text builds c (early ++ late)).2 as [[[group resp]|e]|] eqn:Hd; cbn; intros [= <- <-]; cbn; [|done..].
      eexists. split; [done|]. intros at_.
      specialize (Hrow group resp at_ eq_refl). by rewrite Hs in Hrow.
Qed.

(** C35: a request that the upstream answered is held, with one row and no
    other touched: under the next id, naming the model its body asked for, the
    group of the send that was answered, the body's size and when it was
    accepted. No other request is: not one the router answers itself, not one
    that is refused or still under way. Nothing is served to a source that is
    not allowed, only a POST is forwarded, and where requests go is left as it
    was: only a call of the tools' server writes the tables, and it writes its
    cache of tools alone. *)
Theorem answered_requests_are_held peer_ip w r early late at_ :
  let '(a, w') := handle C post fetch from_slice to_text status_text version verify started timeout_msg secs_text builds peer_ip w r early late at_ in
  let h := f_held w in let h' := f_held w' in
  match answered a with
  | Some resp => ∃ row, row_of r (early ++ late) at_ resp row ∧
      inflight h' = <[next_req h := row]> (inflight h) ∧ next_req h' = u64_succ (next_req h) ∧
      (ids_given h → inflight h !! next_req h = None)
  | None => h' = h
  end ∧
  (permits (allowed_sources (scfg C)) peer_ip (ifaces C) = false → w' = w ∧ ∃ doc, a = Some (Document 403 doc)) ∧
  (∀ x, a = Some (Forwarded x) → route r = ProxyRoute ∧ q_method r = POST) ∧
  (f_shared w' = f_shared w ∨ route r = McpRoute ∧ but_tools (f_shared w) (f_shared w')) ∧
  model_table C (f_shared w') = model_table C (f_shared w).
Proof.
  unfold handle. rewrite permits_now_same. destruct (permits _ _ _) eqn:Hp; cbn [negb].
  2: { split_and!; try done; [intros _; split; [done|by eexists]|by left]. }
  destruct (route r) eqn:Hr; try (split_and!; try done; by left).
  - unfold serve_stats. destruct (stats _ _ _ _ _ _ _ _) as [doc cache]. split_and!; try done. by left.
  - pose proof (mcp_but (f_shared w) (q_body r)) as H. destruct (Mcp.handle _ _ _ _ _ _ _ _) as [a s].
    destruct (but_tools_models C _ _ H) as (? & _ & _).
    split_and!; [by destruct a as [[? []]|]|done| |by right|done]. intros x Hx. by destruct a as [[? []]|].
  - destruct (count _ _ _ _ _ _) as [? [? ?]]. split_and!; try done. by left.
  - pose proof (forward_rows r early late) as Hf.
    destruct (forward _ _ _ _ _ _ _ _ _ _ _) as [[ans tracked]|]; [|split_and!; try done; by left].
    specialize (Hf ans tracked eq_refl). split_and!; [|done| |by left|done].
    + destruct (answered (Some (Forwarded ans))) as [resp|]; [|by rewrite Hf; destruct w].
      destruct Hf as (k & -> & Hrow). eexists. split; [apply Hrow|]. split_and!; [done..|]. intros [_ Hids].
      destruct (inflight (f_held w) !! next_req (f_held w)) eqn:Hx; [|done].
      destruct (N.lt_irrefl (next_req (f_held w))). apply Hids. by eexists.
    + intros x _. split; [done|]. unfold route in Hr. by destruct (q_method r); repeat case_match.
Qed.
End theorems.

Example routes :
  route (mkRequest GET "/" "/" (Some "text/html,*/*") None None) = Page ∧
  route (mkRequest GET "//" "//" None None None) = StatusDoc ∧
  route (mkRequest GET "/v1/models/" "/v1/models/" None None None) = Models ∧
  route (mkRequest POST "/v1/responses/input_tokens" "/v1/responses/input_tokens" None None None) = TokensRoute ∧
  route (mkRequest POST "/v1/audio/speech" "/v1/audio/speech" None None None) = ProxyRoute ∧
  route (mkRequest GET "/v1/chat/completions" "/v1/chat/completions" None None None) = NoRoute.
Proof. by vm_compute. Qed.
